(* ===== verification/_CoqProject ===== *)
-Q . S2P
Prelude.v
GoBase.v
Durations.v
Orchard.v
OrchardStore.v
VMNames.v
Workers.v
AutoSize.v
Metrics.v
MetricsText.v
Registry.v
Eligibility.v
Reporting.v
Capacity.v
SlotsConc.v
StateView.v
StateViewConc.v
Config.v
Process.v
Env.v
Bridge.v
Sample.v
BridgeScaleUp.v
Scaling.v
BridgeJobs.v
SlotsRefine.v
Cleanup.v
Reaping.v
Sweeps.v
SweepRefine.v
Manager.v
InStep.v
Wiring.v
Startup.v
Goroutine.v
System.v
Live.v
Lifecycle.v
