(* ===== verification/Prelude.v ===== *)
(** * Verification of orchard-gh-bridge

    The program runs GitHub Actions jobs in macOS VMs on machines managed by an
    Orchard controller.  Each configured scale set has a bridge, which GitHub's
    listener library tells how many runners are wanted and which jobs are over;
    the bridge creates and deletes VMs.  A cleanup loop sweeps the fleet once a
    minute.  The bridges and the loop share a semaphore of slots and a cache of
    what the controller reports; the manager wires them together.

    This library translates the Go sources under [src/] into executable
    definitions and proves what makes them correct.

    ** How code is represented

    - A call that has effects is a computation [M S A] on a state [S]
      (this file): it returns, panics, or blocks for ever, and the state reached
      is kept in each case, so that [recover] can be expressed.  [wp m Q s] is
      its weakest precondition, [keeps I P m] an invariant.
    - An [int], [int64] or [uint64] is a [Z], with [int64] and [uint64] written
      where Go wraps around; a [time.Time] counts nanoseconds; a [string] is a
      list of bytes; a Go map is a [gmap], a set a [gset]; a slice a list; a nil
      pointer an [option]; an [error] keeps its format and arguments unrendered.
    - A loop over a slice recurses on the list.  The other loops take fuel:
      [Durations.components] as much as the text is long, which is enough
      ([components_enough]); [Startup.session_loop] ten, one per attempt
      ([session_attempts_bounded] shows it returns); [Startup.wait_for_workers]
      any number of polls, since the source may wait for ever, and it then is
      [Blocked] ([wait_ends_at_capacity] gives the fuel that suffices).
    - The outside world is a type [W] with classes for what the code calls:
      [OrchardClient] (the [Client] interface), [Clock], [UUIDSource], and records
      for the GitHub library ([GHClient], [AdminClient]).  What is expected of
      them is stated as laws: calls return ([ClientTotal], [gh_total]), reports
      satisfy given predicates ([Reports]), UUIDs have their textual form
      ([UUIDLaw]).  [Orchard.Logged] wraps any client and records the calls that
      change something with the controller's answers; properties about what is
      asked of the controller are stated on that record.  [Sample.Sim] is a
      concrete controller that satisfies the laws, on which the witnesses run.

    ** The files

    - Prelude: outcomes, the monad and its rules, lists, step relations.
    - GoBase: integers, time, byte strings, UTF-8 and errors of Go; Durations:
      [time.ParseDuration] and [strconv.ParseInt], the former with float64
      arithmetic.
    - Orchard ([orchard/types.go], [orchard/client.go]): VMs, workers, the client
      interface, the wrapper over the third-party client, the recording client.
      OrchardStore: the abstract store the wrapper implements.
    - VMNames ([bridge/vm.go]); Workers ([bridge/worker.go], and the label and
      slot counting of [cleanup.go], [stateview.go] and [manager.go]); AutoSize
      ([bridge/autosize.go], and the exclusions of [eligibility.go]).
    - Metrics ([metrics/metrics.go]), MetricsText: a reader of the text;
      Registry: the handles into a registry, and its scrape after any calls;
      Eligibility ([bridge/eligibility.go]): the monitor, what it logs and the
      gauges it sets; Reporting: what a scrape says of the exclusions.
    - Capacity ([bridge/capacity.go]): the semaphore.  SlotsConc: handlers, jobs
      and sweeps of any number of goroutines, cut where they touch what they
      share, and their interleavings; SlotsRefine, SweepRefine: the handlers of
      Bridge and the sweep of Cleanup are runs of one of those threads.
    - StateView ([bridge/stateview.go]): snapshots, their queries, the cache;
      StateViewConc: the interleavings of its callers at the granularity of the
      critical sections.
    - Config ([config/config.go]): data, defaults, overrides, validation; Process
      ([main.go], [health/health.go]): the exit status, the health endpoints, and
      [orchard.NewClient].
    - Env: the state the components share, [Env W CB X]: world, semaphore, cache
      and the rest [X], which callbacks reach; the laws of the clients.
    - Bridge ([bridge/bridge.go]): every handler, on the pair of the bridge's own
      state and the environment; [Hooks] are the callbacks it may have.
    - Cleanup ([bridge/cleanup.go], [bridge/runner_remover.go]): the loop and one
      iteration of it, on the pair of its own state and the environment.
    - Manager ([manager/manager.go]): the state [Mgr] of the manager, which is the
      [X] of the assembled system; the shares of the pool; the callbacks [Run] and
      [runScaleSet] install.  Startup: [runScaleSet] up to the listener, the
      registration, the AutoSize report, the settings of the cleanup loop.
      InStep: the shares against the placement of AutoSize.  Goroutine:
      [runScaleSet] once more, cut where its goroutine pauses, and that it is the
      same.  Lifecycle: [Run], its goroutines, the group they run in and the signal
      that ends them, as a state machine.
    - Sample, BridgeScaleUp, Scaling, BridgeJobs, Reaping, Sweeps, Wiring, System,
      Live: proofs.  BridgeScaleUp and Reaping hold the rules for the handlers, Scaling,
      BridgeJobs and Sweeps the properties; Wiring discharges, for the callbacks
      the manager installs, what the others assume of callbacks; System runs
      everything as steps of one relation; Live shows that the assumptions of all
      the others hold in every state so reached.

    ** What is proved

    - Scaling up (Scaling): on every path, errors in the middle of a batch
      included, the handler returns, reports what the controller accepted, tracks
      it, and gives back what it acquired for nothing; a fixed-size scale set
      stays within the free slots of its snapshot; AutoSize pins every VM to its
      own free machine, sized to it, going round the candidates.
    - Jobs and restarts (BridgeJobs, Wiring, Startup): a finished job's VM is
      deleted and its slot released, or it is queued for the cleanup loop; a
      bridge adopts exactly the live VMs of its scale set before it can receive a
      message; the manager is otherwise left alone.
    - Sweeps (Sweeps): exactly the VMs that are due are deleted; the semaphore is
      reconciled with what is left; worker records are pruned only when nothing
      depends on them, and only from lists that are not old; queued deletions are
      retried until accepted; the loop runs a whole sweep at every tick, whatever
      fails or panics, and ends with the process.
    - Shared state (SlotsConc, SlotsRefine, SweepRefine, StateViewConc): while handlers
      interleave, and the controller's answers are true, every slot taken is that of
      a VM or held by a handler; a sweep that nothing disturbs repairs any drift, one
      among busy handlers causes it; a sweep is the run of one thread that its lists,
      the deletions accepted and the callbacks that panicked determine; one refresh
      at a time, with one leader; no caller waits for ever; and how an invalidation
      can be lost.
    - The client (OrchardStore): on a third-party client that keeps a store of VMs and
      worker records the wrapper is one as well, with deletion idempotent.  That
      client is assumed to do what it answers and to list everything; a call that
      fails may have taken effect.
    - The fleet's description (AutoSize, StateView, Workers, VMNames): who is
      eligible and why not, which VMs count against which labels, to whom a VM
      belongs, and that names are safe labels.
    - Shares, settings and reports (Wiring, InStep, Config, Startup, Eligibility,
      Registry, Reporting): what is reported to GitHub, and that it agrees with what can be
      placed; which configurations are accepted, and what each field of one that
      loads is; that pruning then never hits a live worker; that a scrape shows
      exactly the exclusions there are, and the log each change once; that a scrape of the metrics
      says what the history of the calls on them says.
    - The whole (System): no run of the process, whatever fails, creates, deletes,
      tracks or queues a VM without the bridge's prefix; scale sets do not touch
      each other's VMs as long as their names fit; the bridges stay well formed; a VM whose deletion the
      controller refuses stays queued while the controller reports it (and
      [Sweeps.outdated_snapshot_forgets_queued] shows what an old snapshot does).
    - That it goes on, and ends (Live, Lifecycle): in every state that the process
      reaches from its start, every handler and sweep returns, and no start of a
      scale set panics; once the context is done [Run] returns within a number of
      steps that depends on the configuration only; and what it returns.

    ** Assumptions on numbers

    Counters are far from the ends of [int] ([cap_small], [count_ok]), slot counts
    are not negative and sum to an [int] ([slots_ok]); where wrap-around is
    reachable it is modelled.  Live bounds the VMs, the slots and the runners asked
    for by a number [B] and shows that the counters stay in range for as many steps
    as [in_range] allows: 10^15 when [B] is a thousand.  Metric values are whole numbers below 2^53.

    ** What is not modelled

    Log messages, other than those of the eligibility monitor; contexts, except
    where a select on one decides the control flow; the third-party
    clients, YAML, files and the environment, which are parameters; the listener
    of GitHub's library, whose calls of the handlers are steps and which may return
    anything; the errgroup library, of which Lifecycle states what is documented
    ([ErrGroupLaws]); the HTTP servers' sockets; [sessionClient.Close] on the way out
    of [runScaleSet].
    A handler or a sweep is one step of the system: interleavings inside them are
    modelled apart, for the semaphore in SlotsConc and for the cache in
    StateViewConc.  In SlotsConc the controller may also lose a VM or have one that
    no answer told of ([exec_outside]); the theorem about handlers is for runs
    without that.  The AutoSize report is a parameter of the sweep's callbacks;
    its own definition is in Startup. *)

From Stdlib Require Export ZArith Lia.
From stdpp Require Export base tactics option list gmap sets strings fin_maps
  sorting relations.

(** ** Notations *)

Declare Scope go_scope.
Delimit Scope go_scope with go.

(** ** Outcomes and the effect monad

    A Go call either returns, panics, or blocks for ever on a channel that
    nobody will close.  [M S A] threads a mutable state [S] through such calls;
    the state reached at a panic is kept, because [recover] can observe it. *)

Inductive outcome (A : Type) : Type :=
  | Ret (a : A)
  | Panic
  | Blocked.
Arguments Ret {A} a.
Arguments Panic {A}.
Arguments Blocked {A}.

Definition M (S A : Type) : Type := S → outcome A * S.

#[export] Instance M_ret (S : Type) : MRet (M S) := λ A a s, (Ret a, s).

#[export] Instance M_bind (S : Type) : MBind (M S) := λ A B f m s,
  match m s with
  | (Ret a, s') => f a s'
  | (Panic, s') => (Panic, s')
  | (Blocked, s') => (Blocked, s')
  end.

Section Operations.
Context {S T : Type}.

Definition read {A} (f : S → A) : M S A := λ s, (Ret (f s), s).
Definition modify (f : S → S) : M S unit := λ s, (Ret tt, f s).
Definition state_fn {A} (f : S → A * S) : M S A :=
  λ s, (Ret (f s).1, (f s).2).
Definition panic {A} : M S A := λ s, (Panic, s).
Definition blocked {A} : M S A := λ s, (Blocked, s).

(** Run a computation on the component of the state that [get]/[put] select. *)
Definition zoom {A} (get : S → T) (put : T → S → S) (m : M T A) : M S A :=
  λ s, ((m (get s)).1, put (m (get s)).2 s).

(** [for x := range l { b = f(b, x) }]. *)
Fixpoint fold_m {A B} (f : B → A → M S B) (b : B) (l : list A) : M S B :=
  match l with
  | [] => mret b
  | x :: l => b' ← f b x; fold_m f b' l
  end.

Definition for_each {A} (f : A → M S unit) (l : list A) : M S unit :=
  fold_m (λ _, f) tt l.

(** [if fn != nil { fn(...) }]. *)
Definition call_opt (fn : option (M S unit)) : M S unit :=
  match fn with Some m => m | None => mret tt end.

(** [defer func() { if r := recover(); r != nil { handler } }()]. *)
Definition recover_with {A} (dflt : A) (m : M S A) : M S A := λ s,
  match m s with
  | (Panic, s') => (Ret dflt, s')
  | r => r
  end.
End Operations.

(** ** A unary program logic

    [wp m Q s] says that running [m] from [s] ends with an outcome and a state
    that satisfy [Q]. *)

Definition wp {S A} (m : M S A) (Q : outcome A → S → Prop) (s : S) : Prop :=
  Q (m s).1 (m s).2.

(** Postconditions that constrain only a normal return, those that demand one,
    and those that constrain the state reached whatever the outcome. *)
Definition on_ret {S A} (Q : A → S → Prop) (o : outcome A) (s : S) : Prop :=
  match o with Ret a => Q a s | _ => True end.
Definition returns {S A} (Q : A → S → Prop) (o : outcome A) (s : S) : Prop :=
  match o with Ret a => Q a s | _ => False end.
Definition always {S A} (Q : S → Prop) (o : outcome A) (s : S) : Prop := Q s.

(** Continue with [K] after a return; a panic or a block ends the run. *)
Definition after {S A B} (K : A → S → Prop) (Q : outcome B → S → Prop)
    (o : outcome A) (s : S) : Prop :=
  match o with
  | Ret a => K a s
  | Panic => Q Panic s
  | Blocked => Q Blocked s
  end.

#[global] Arguments wp : simpl never.
#[global] Arguments after {S A B} K Q !o s /.
#[global] Arguments on_ret {S A} Q !o s /.
#[global] Arguments returns {S A} Q !o s /.
#[global] Arguments mbind : simpl never.
#[global] Arguments mret : simpl never.
#[global] Arguments read : simpl never.
#[global] Arguments modify : simpl never.
#[global] Arguments state_fn : simpl never.
#[global] Arguments zoom : simpl never.

Section WpRules.
Context {S : Type}.

Lemma wp_mono {A} (m : M S A) (P Q : outcome A → S → Prop) s :
  wp m P s → (∀ o s', P o s' → Q o s') → wp m Q s.
Proof. unfold wp. auto. Qed.

Lemma wp_and {A} (m : M S A) (P Q : outcome A → S → Prop) s :
  wp m P s → wp m Q s → wp m (λ o s', P o s' ∧ Q o s') s.
Proof. unfold wp. auto. Qed.

(** The run itself, whatever else is known of it. *)
Lemma wp_run {A} (m : M S A) s : wp m (λ o s', m s = (o, s')) s.
Proof. unfold wp. by destruct (m s). Qed.

Lemma wp_ret {A} (a : A) (Q : outcome A → S → Prop) s :
  Q (Ret a) s → wp (mret a) Q s.
Proof. done. Qed.

Lemma wp_bind {A B} (m : M S A) (f : A → M S B) (Q : outcome B → S → Prop) s :
  wp m (after (λ a, wp (f a) Q) Q) s → wp (m ≫= f) Q s.
Proof.
  unfold wp, after, mbind, M_bind.
  by destruct (m s) as [[a| |] s'].
Qed.

Lemma wp_unbind {A B} (m : M S A) (f : A → M S B) (Q : outcome B → S → Prop) s :
  wp (m ≫= f) Q s → wp m (after (λ a, wp (f a) Q) Q) s.
Proof.
  unfold wp, after, mbind, M_bind.
  by destruct (m s) as [[a| |] s'].
Qed.

Lemma wp_read {A} (f : S → A) (Q : outcome A → S → Prop) s :
  Q (Ret (f s)) s → wp (read f) Q s.
Proof. done. Qed.

Lemma wp_modify (f : S → S) (Q : outcome unit → S → Prop) s :
  Q (Ret tt) (f s) → wp (modify f) Q s.
Proof. done. Qed.

Lemma wp_state_fn {A} (f : S → A * S) (Q : outcome A → S → Prop) s :
  Q (Ret (f s).1) (f s).2 → wp (state_fn f) Q s.
Proof. done. Qed.

Lemma wp_zoom {T A} (get : S → T) (put : T → S → S) (m : M T A)
    (Q : outcome A → S → Prop) s :
  wp m (λ o t, Q o (put t s)) (get s) → wp (zoom get put m) Q s.
Proof. done. Qed.

(** A loop invariant indexed by the part of the list already visited. *)
Lemma wp_fold_m {A B} (f : B → A → M S B) (I : list A → B → S → Prop)
    (Q : outcome B → S → Prop) (l : list A) b s :
  I [] b s →
  (∀ seen x rest b s, l = seen ++ x :: rest → I seen b s →
     wp (f b x) (after (I (seen ++ [x])) Q) s) →
  (∀ b s, I l b s → Q (Ret b) s) →
  wp (fold_m f b l) Q s.
Proof.
  intros Hinit Hstep Hend.
  assert (∀ rest seen b s, l = seen ++ rest → I seen b s →
    wp (fold_m f b rest) Q s) as Hgen; [|by apply (Hgen l [])].
  intros rest. induction rest as [|x rest IH]; intros seen b' s' Hl Hb; simpl.
  { apply wp_ret, Hend. by rewrite Hl, app_nil_r. }
  apply wp_bind. eapply wp_mono; [by eapply Hstep|].
  intros [b''| |] s''; simpl; [|done..].
  apply IH. by rewrite <-app_assoc.
Qed.

Lemma wp_for_each {A} (f : A → M S unit) (I : list A → S → Prop)
    (Q : outcome unit → S → Prop) (l : list A) s :
  I [] s →
  (∀ seen x rest s, l = seen ++ x :: rest → I seen s →
     wp (f x) (after (λ _, I (seen ++ [x])) Q) s) →
  (∀ s, I l s → Q (Ret tt) s) →
  wp (for_each f l) Q s.
Proof.
  intros Hinit Hstep Hend. unfold for_each.
  apply wp_fold_m with (I := λ seen _, I seen); [done|by eauto|].
  intros []; auto.
Qed.

Lemma wp_recover_with {A} (d : A) (m : M S A) (Q : outcome A → S → Prop) s :
  wp m (λ o s', match o with Panic => Q (Ret d) s' | _ => Q o s' end) s →
  wp (recover_with d m) Q s.
Proof. unfold wp, recover_with. by destruct (m s) as [[]]. Qed.
End WpRules.

(** The database [wp] holds the rules that apply without a choice; [wp_step]
    applies one, [wp_go] as many as possible. *)
Create HintDb wp.
#[export] Hint Resolve wp_ret wp_bind wp_read wp_modify wp_state_fn wp_zoom : wp.

Ltac wp_step :=
  lazymatch goal with
  | |- wp (mbind _ _) _ _ => apply wp_bind
  | |- wp (mret _) _ _ => apply wp_ret
  | |- wp (read _) _ _ => apply wp_read
  | |- wp (modify _) _ _ => apply wp_modify
  | |- wp (state_fn _) _ _ => apply wp_state_fn
  | |- wp (zoom _ _ _) _ _ => apply wp_zoom
  | |- wp (call_opt None) _ _ => apply wp_ret
  | |- wp panic _ _ => unfold wp, panic; simpl
  | |- wp blocked _ _ => unfold wp, blocked; simpl
  | |- after _ _ (Ret _) _ => unfold after
  end.
Ltac wp_go := repeat (wp_step; simpl).

(** ** Invariants of computations

    [keeps I P m]: from a state in [I], the run of [m] ends in a state in [I],
    however it ends, and a value it returns satisfies [P]. *)

Definition keeps {S A} (I : S → Prop) (P : A → Prop) (m : M S A) : Prop :=
  ∀ s, I s → wp m (λ o s', I s' ∧ match o with Ret a => P a | _ => True end) s.

Section Keeps.
Context {S T : Type} (I : S → Prop).

Lemma keeps_ret {A} (P : A → Prop) a : P a → keeps I P (mret a).
Proof. intros Ha s Hs. by apply wp_ret. Qed.

Lemma keeps_panic {A} (P : A → Prop) : keeps I P (panic (A := A)).
Proof. by intros s Hs. Qed.

Lemma keeps_blocked {A} (P : A → Prop) : keeps I P (blocked (A := A)).
Proof. by intros s Hs. Qed.

Lemma keeps_mono {A} (P R : A → Prop) (m : M S A) :
  keeps I P m → (∀ a, P a → R a) → keeps I R m.
Proof.
  intros Hm HPR s Hs. eapply wp_mono; [by apply Hm|].
  intros [a| |] s' [? ?]; split; auto.
Qed.

Lemma keeps_bind {A B} (P : A → Prop) (R : B → Prop) (m : M S A) (f : A → M S B) :
  keeps I P m → (∀ a, P a → keeps I R (f a)) → keeps I R (m ≫= f).
Proof.
  intros Hm Hf s Hs. apply wp_bind. eapply wp_mono; [by apply Hm|].
  intros [a| |] s' [Hs' Ha]; simpl; [by apply Hf|done..].
Qed.

Lemma keeps_then {A B} (R : B → Prop) (m : M S A) (k : M S B) :
  keeps I (λ _, True) m → keeps I R k → keeps I R (m;; k).
Proof. intros Hm Hk. by apply (keeps_bind (λ _, True)). Qed.

Lemma keeps_read {A} (P : A → Prop) (f : S → A) : (∀ s, I s → P (f s)) → keeps I P (read f).
Proof. intros Hf s Hs. apply wp_read. auto. Qed.

Lemma keeps_modify (f : S → S) : (∀ s, I s → I (f s)) → keeps I (λ _, True) (modify f).
Proof. intros Hf s Hs. apply wp_modify. auto. Qed.

Lemma keeps_state_fn {A} (P : A → Prop) (f : S → A * S) :
  (∀ s, I s → P (f s).1 ∧ I (f s).2) → keeps I P (state_fn f).
Proof. intros Hf s Hs. apply wp_state_fn. destruct (Hf s Hs). done. Qed.

Lemma keeps_zoom {A} (J : T → Prop) (P : A → Prop) get put (m : M T A) :
  (∀ s, I s → J (get s)) → (∀ s t, I s → J t → I (put t s)) →
  keeps J P m → keeps I P (zoom get put m).
Proof.
  intros Hget Hput Hm s Hs. apply wp_zoom. eapply wp_mono; [by apply Hm, Hget|].
  intros o t [Ht Ho]. split; [by apply Hput|done].
Qed.

Lemma keeps_fold_m {A B} (P : B → Prop) (f : B → A → M S B) b l :
  P b → (∀ b x, P b → keeps I P (f b x)) → keeps I P (fold_m f b l).
Proof.
  intros Hb Hf. revert b Hb. induction l as [|x l IH]; intros b Hb; simpl.
  - by apply keeps_ret.
  - apply (keeps_bind P); [by apply Hf|done].
Qed.

(** The same with the elements passed. *)
Lemma keeps_fold_past {A B} (P : list A → B → Prop) (f : B → A → M S B) b l :
  P [] b → (∀ past x b, P past b → keeps I (P (past ++ [x])) (f b x)) →
  keeps I (P l) (fold_m f b l).
Proof.
  intros Hb Hf.
  assert (∀ past b, P past b → keeps I (P (past ++ l)) (fold_m f b l)) as Hgo;
    [|by apply (Hgo [])].
  clear b Hb. induction l as [|x l IH]; intros past b Hb; simpl.
  - rewrite app_nil_r. by apply keeps_ret.
  - apply (keeps_bind (P (past ++ [x]))); [by apply Hf|]. intros b' Hb'.
    replace (past ++ x :: l) with ((past ++ [x]) ++ l) by by rewrite <-app_assoc. by apply IH.
Qed.

Lemma keeps_for_each {A} (f : A → M S unit) l :
  (∀ x, keeps I (λ _, True) (f x)) → keeps I (λ _, True) (for_each f l).
Proof. intros Hf. unfold for_each. apply keeps_fold_m; auto. Qed.

Lemma keeps_call_opt fn :
  (∀ m, fn = Some m → keeps I (λ _, True) m) → keeps I (λ _, True) (call_opt fn).
Proof. destruct fn as [m|]; simpl; [auto|]. intros _. by apply keeps_ret. Qed.

Lemma keeps_recover {A} (P : A → Prop) d (m : M S A) :
  P d → keeps I P m → keeps I P (recover_with d m).
Proof.
  intros Hd Hm s Hs. apply wp_recover_with. eapply wp_mono; [by apply Hm|].
  by intros [a| |] s' [? ?].
Qed.

Lemma keeps_and {A} (J : S → Prop) (P R : A → Prop) (m : M S A) :
  keeps I P m → keeps J R m → keeps (λ s, I s ∧ J s) (λ a, P a ∧ R a) m.
Proof.
  intros Hi Hj s [His Hjs]. eapply wp_mono; [apply wp_and; [by apply Hi|by apply Hj]|].
  intros [a| |] s' [[? ?] [? ?]]; done.
Qed.
End Keeps.

(** ** Lists *)

Section ListLemmas.
Context {A : Type}.

Lemma filter_ext_in (P Q : A → Prop) `{∀ x, Decision (P x), ∀ x, Decision (Q x)} (l : list A) :
  (∀ x, x ∈ l → P x ↔ Q x) → filter P l = filter Q l.
Proof.
  induction l as [|x l IH]; intros Hext; [done|].
  rewrite !filter_cons, IH by (intros; apply Hext; by right).
  pose proof (Hext x ltac:(by left)) as Hx.
  do 2 case_decide; tauto || (exfalso; tauto) || done.
Qed.

Lemma sublist_filter_length (P : A → Prop) `{∀ x, Decision (P x)} (l k : list A) :
  l `sublist_of` k → length (filter P l) ≤ length (filter P k).
Proof.
  induction 1 as [|x l k _ IH|x l k _ IH]; [done|..]; rewrite !filter_cons;
    case_decide; simpl; lia.
Qed.

Lemma filter_length_split (P : A → Prop) `{∀ x, Decision (P x)} (l : list A) :
  length (filter P l) + length (filter (λ x, ¬ P x) l) = length l.
Proof.
  induction l as [|x l IH]; [done|]. rewrite !filter_cons.
  case_decide; case_decide; simpl; tauto || lia.
Qed.

Lemma filter_fmap_length {B} (f : A → B) (P : B → Prop) `{∀ x, Decision (P x)}
    (l : list A) :
  length (filter P (f <$> l)) = length (filter (λ x, P (f x)) l).
Proof.
  induction l as [|x l IH]; [done|]. rewrite fmap_cons, !filter_cons.
  case_decide; simpl; lia.
Qed.

Lemma NoDup_counts `{EqDecision A} (l : list A) :
  (∀ x, x ∈ l → length (filter (λ y, y = x) l) ≤ 1) → NoDup l.
Proof.
  induction l as [|x l IH]; intros Hcount; constructor.
  - intros Hin. specialize (Hcount x ltac:(by left)).
    rewrite filter_cons, decide_True in Hcount by done. simpl in Hcount.
    assert (x ∈ filter (λ y, y = x) l) as Hf by by apply list_elem_of_filter.
    destruct (filter _ l); [by apply elem_of_nil in Hf|simpl in Hcount; lia].
  - apply IH. intros y Hy. specialize (Hcount y ltac:(by right)).
    rewrite filter_cons in Hcount. case_decide; simpl in Hcount; lia.
Qed.

Lemma NoDup_contained (l k : list A) : l ⊆+ k → NoDup k → NoDup l.
Proof.
  intros [k' Hk]%submseteq_Permutation Hnd. rewrite Hk in Hnd.
  by apply NoDup_app in Hnd as [? _].
Qed.
End ListLemmas.

(** ** Going round a list *)

Section Rotation.
Context {A : Type}.
Implicit Types l : list A.

(** [k] elements of [l], from position [c] on, round and round. *)
Definition rotation l (c : Z) (k : nat) : list A :=
  omap (λ i, l !! Z.to_nat ((c + Z.of_nat i) mod Z.of_nat (length l))) (seq 0 k).

Lemma omap_lookup_seq l : omap (λ i, l !! i) (seq 0 (length l)) = l.
Proof.
  induction l as [|x l IH]; [done|]. cbn [length seq omap list_omap lookup list_lookup].
  f_equal. rewrite <-IH at 2. rewrite <-fmap_S_seq. clear IH.
  generalize (seq 0 (length l)) as k. induction k as [|i k IH]; [done|].
  cbn [fmap list_fmap omap list_omap lookup list_lookup].
  destruct (l !! i); by rewrite ?IH.
Qed.

Lemma rotation_defined l c :
  l ≠ [] → ∃ x, l !! Z.to_nat (c mod Z.of_nat (length l)) = Some x.
Proof.
  intros Hl. apply lookup_lt_is_Some_2.
  assert (0 < Z.of_nat (length l))%Z by (destruct l; [done|simpl; lia]).
  pose proof (Z.mod_pos_bound c (Z.of_nat (length l)) ltac:(lia)). lia.
Qed.

Lemma rotation_S l c k x :
  l !! Z.to_nat ((c + Z.of_nat k) mod Z.of_nat (length l)) = Some x →
  rotation l c (S k) = rotation l c k ++ [x].
Proof. intros Hx. unfold rotation. rewrite seq_S, omap_app. simpl. by rewrite Hx. Qed.

Lemma rotation_length l c k : l ≠ [] → length (rotation l c k) = k.
Proof.
  intros Hl. induction k as [|k IH]; [done|].
  destruct (rotation_defined l (c + Z.of_nat k) Hl) as [x Hx].
  rewrite (rotation_S _ _ _ x Hx), length_app, IH. simpl. lia.
Qed.

Lemma rotation_lookup l c k i :
  l ≠ [] → i < k →
  rotation l c k !! i = l !! Z.to_nat ((c + Z.of_nat i) mod Z.of_nat (length l)).
Proof.
  intros Hl. induction k as [|k IH]; intros Hi; [lia|].
  destruct (rotation_defined l (c + Z.of_nat k) Hl) as [x Hx].
  rewrite (rotation_S _ _ _ x Hx).
  destruct (decide (i < k)) as [Hlt|Hge].
  - rewrite lookup_app_l by (rewrite rotation_length by done; lia). by apply IH.
  - replace i with k by lia.
    rewrite lookup_app_r, rotation_length, Nat.sub_diag, Hx by (rewrite ?rotation_length; done || lia).
    done.
Qed.

Lemma rotation_app l c k k' :
  rotation l c (k + k') = rotation l c k ++ rotation l (c + Z.of_nat k) k'.
Proof.
  unfold rotation. rewrite seq_app, omap_app. f_equal.
  replace (seq (0 + k) k') with (Nat.add k <$> seq 0 k')
    by (by rewrite fmap_add_seq, Nat.add_0_r).
  generalize (seq 0 k') as ns. induction ns as [|i ns IH]; [done|].
  cbn [fmap list_fmap omap list_omap]. rewrite IH.
  by rewrite Nat2Z.inj_add, Z.add_assoc.
Qed.

(** One full turn visits every position once. *)
Lemma rotation_full l c : rotation l c (length l) ≡ₚ l.
Proof.
  destruct (decide (l = [])) as [->|Hl]; [done|].
  assert (0 < Z.of_nat (length l))%Z as Hpos by (destruct l; [done|simpl; lia]).
  set (n := Z.of_nat (length l)) in *.
  set (turn := (λ i, Z.to_nat ((c + Z.of_nat i) mod n)) <$> seq 0 (length l)).
  assert (rotation l c (length l) = omap (λ i, l !! i) turn) as ->.
  { unfold rotation, turn. fold n. generalize (seq 0 (length l)) as ns.
    induction ns as [|i ns IH]; [done|]. cbn [fmap list_fmap omap list_omap]. by rewrite IH. }
  assert (turn ≡ₚ seq 0 (length l)) as ->; [|by rewrite omap_lookup_seq].
  apply submseteq_length_Permutation; [|by unfold turn; rewrite length_fmap].
  apply NoDup_submseteq.
  - apply NoDup_fmap_2_strong; [|apply NoDup_seq].
    intros i j Hi%elem_of_seq Hj%elem_of_seq Heq.
    apply Z2Nat.inj in Heq; try (apply Z.mod_pos_bound; lia).
    assert ((Z.of_nat i - Z.of_nat j) mod n = 0)%Z as Hd.
    { replace (Z.of_nat i - Z.of_nat j)%Z
        with ((c + Z.of_nat i) - (c + Z.of_nat j))%Z by lia.
      rewrite Zminus_mod, Heq, Z.sub_diag. done. }
    apply Z.mod_divide in Hd as [q Hq]; [|lia].
    assert (q = 0)%Z; [|lia].
    assert (- n < q * n < n)%Z by (rewrite <-Hq; subst n; lia). nia.
  - intros i (j & -> & _)%list_elem_of_fmap. apply elem_of_seq.
    pose proof (Z.mod_pos_bound (c + Z.of_nat j) n Hpos). lia.
Qed.

Lemma rotation_submseteq l c k : k ≤ length l → rotation l c k ⊆+ l.
Proof.
  intros Hk. etrans; [|by apply Permutation_submseteq, (rotation_full l c)].
  replace (length l) with (k + (length l - k)) by lia.
  rewrite rotation_app. apply submseteq_inserts_r. done.
Qed.
End Rotation.

(** ** Invariants of a step relation *)

Lemma rtc_invariant {S} (R : relation S) (I : S → Prop) s0 s :
  rtc R s0 s → I s0 → (∀ s s', I s → R s s' → I s') → I s.
Proof. intros Hrtc H0 Hstep. revert H0. induction Hrtc; eauto. Qed.
