(* ===== verification/GoBase.v ===== *)
(** * The Go language and standard library, as far as the program uses them

    Machine integers with their wrap-around, [time.Time] and [time.Duration],
    byte strings with the functions of [strings] the bridge calls, UTF-8
    decoding, and errors.  Everything here is executable. *)

From S2P Require Import Prelude.
From stdpp Require Export strings pretty.

(** ** Machine integers *)

Definition two64 : Z := 18446744073709551616.
Definition two63 : Z := 9223372036854775808.

(** [int] and [int64] arithmetic is reduced by [int64]; [uint64] by [uint64]. *)
Definition int64 (z : Z) : Z := (z + two63) mod two64 - two63.
Definition uint64 (z : Z) : Z := z mod two64.

Definition in_int64 (z : Z) : Prop := (- two63 ≤ z < two63)%Z.
Definition in_uint64 (z : Z) : Prop := (0 ≤ z < two64)%Z.

(** Go's [%] on [int] truncates towards zero. *)
Definition go_rem (a b : Z) : Z := Z.rem a b.

(** ** Time

    A [time.Time] is the number of nanoseconds since the zero instant
    (1 January of year 1, UTC), so that [IsZero] is a test for 0; a
    [time.Duration] is an [int64] number of nanoseconds. *)

Definition Time : Type := Z.
Definition Duration : Type := Z.

Definition IsZero (t : Time) : bool := (t =? 0)%Z.

Definition minDuration : Duration := (- two63)%Z.
Definition maxDuration : Duration := (two63 - 1)%Z.

(** [t.Sub(u)] saturates at the ends of the [Duration] range. *)
Definition Sub (t u : Time) : Duration :=
  Z.max minDuration (Z.min maxDuration (t - u)%Z).

Definition Nanosecond : Duration := 1%Z.
Definition Microsecond : Duration := 1000%Z.
Definition Millisecond : Duration := 1000000%Z.
Definition Second : Duration := 1000000000%Z.
Definition Minute : Duration := 60000000000%Z.
Definition Hour : Duration := 3600000000000%Z.

(** ** Byte strings *)

#[global] Arguments String.append : simpl nomatch.

Abbreviation byte := Ascii.ascii.
Abbreviation byte_val := Ascii.N_of_ascii.
Abbreviation mk_byte := Ascii.ascii_of_N.

#[export] Instance byte_eq_dec : EqDecision byte := Ascii.ascii_dec.

Definition hyphen : byte := mk_byte 45.

Fixpoint len (s : string) : nat :=
  match s with EmptyString => 0 | String _ s => S (len s) end.

(** [s[n:]] and [s[:n]] for an [n] within bounds. *)
Fixpoint slice_from (n : nat) (s : string) : string :=
  match n, s with
  | S n, String _ s => slice_from n s
  | _, _ => s
  end.

Fixpoint slice_to (n : nat) (s : string) : string :=
  match n, s with
  | S n, String c s => String c (slice_to n s)
  | _, _ => EmptyString
  end.

(** [strings.HasPrefix(s, prefix)]. *)
Fixpoint HasPrefix (s prefix : string) {struct prefix} : bool :=
  match prefix, s with
  | EmptyString, _ => true
  | String c p, String d s => bool_decide (c = d) && HasPrefix s p
  | String _ _, EmptyString => false
  end.

(** [strings.Contains(s, c)] for a one-byte [c]. *)
Fixpoint ContainsByte (s : string) (c : byte) : bool :=
  match s with
  | EmptyString => false
  | String d s => bool_decide (c = d) || ContainsByte s c
  end.

(** [strings.TrimLeft], [TrimRight] and [Trim] for a one-byte cutset. *)
Fixpoint TrimLeftByte (s : string) (c : byte) : string :=
  match s with
  | String d s' => if bool_decide (d = c) then TrimLeftByte s' c else s
  | EmptyString => EmptyString
  end.

Fixpoint TrimRightByte (s : string) (c : byte) : string :=
  match s with
  | EmptyString => EmptyString
  | String d s =>
      match TrimRightByte s c with
      | EmptyString => if bool_decide (d = c) then EmptyString
                       else String d EmptyString
      | s' => String d s'
      end
  end.

Definition TrimByte (s : string) (c : byte) : string :=
  TrimRightByte (TrimLeftByte s c) c.

(** [strings.Join(elems, sep)]. *)
Fixpoint Join (elems : list string) (sep : string) : string :=
  match elems with
  | [] => EmptyString
  | [s] => s
  | s :: rest => s +:+ sep +:+ Join rest sep
  end.

(** [P] holds of every byte of the string. *)
Fixpoint all_bytes (P : byte → Prop) (s : string) : Prop :=
  match s with EmptyString => True | String c s => P c ∧ all_bytes P s end.

(** ** Runes

    [utf8.DecodeRuneInString]: an invalid encoding yields [RuneError] and
    consumes one byte.  [lead] gives the length of the sequence a first byte
    announces and the range its second byte must lie in. *)

Definition RuneError : N := 65533.

Definition lead (b : N) : option (nat * (N * N)) :=
  (if b <? 194 then None
   else if b <? 224 then Some (2%nat, (128, 191))
   else if b =? 224 then Some (3%nat, (160, 191))
   else if b =? 237 then Some (3%nat, (128, 159))
   else if b <? 240 then Some (3%nat, (128, 191))
   else if b =? 240 then Some (4%nat, (144, 191))
   else if b <? 244 then Some (4%nat, (128, 191))
   else if b =? 244 then Some (4%nat, (128, 143))
   else None)%N.

Definition cont_byte (lo hi : N) (c : byte) : bool :=
  ((lo <=? byte_val c) && (byte_val c <=? hi))%N.

Definition low6 (c : byte) : N := (byte_val c mod 64)%N.

(** The rune at the head of [String c s], and the number of bytes it takes. *)
Definition DecodeRune (c : byte) (s : string) : N * nat :=
  let b := byte_val c in
  if (b <? 128)%N then (b, 1) else
  match lead b, s with
  | Some (2, (lo, hi)), String c1 _ =>
      if cont_byte lo hi c1 then (((b mod 32) * 64 + low6 c1)%N, 2)
      else (RuneError, 1)
  | Some (3, (lo, hi)), String c1 (String c2 _) =>
      if cont_byte lo hi c1 && cont_byte 128 191 c2
      then ((((b mod 16) * 64 + low6 c1) * 64 + low6 c2)%N, 3)
      else (RuneError, 1)
  | Some (4, (lo, hi)), String c1 (String c2 (String c3 _)) =>
      if cont_byte lo hi c1 && cont_byte 128 191 c2 && cont_byte 128 191 c3
      then (((((b mod 8) * 64 + low6 c1) * 64 + low6 c2) * 64 + low6 c3)%N, 4)
      else (RuneError, 1)
  | _, _ => (RuneError, 1)
  end.

(** The runes of a string, as [range s] yields them: one decoded rune per step,
    skipping the [skip] bytes that the previous rune already consumed. *)
Fixpoint runes_from (skip : nat) (s : string) : list N :=
  match s with
  | EmptyString => []
  | String c s =>
      match skip with
      | S skip => runes_from skip s
      | O => let '(r, w) := DecodeRune c s in r :: runes_from (w - 1) s
      end
  end.

Definition runes (s : string) : list N := runes_from 0 s.

(** [unicode.ToLower], restricted to what decides whether the result is an
    ASCII rune: A-Z, U+0130 (whose lower case is i) and U+212A (whose lower
    case is k).  Every other non-ASCII rune has a non-ASCII lower case and is
    left as it is. *)
Definition rune_to_lower (r : N) : N :=
  (if (65 <=? r) && (r <=? 90) then r + 32
   else if r =? 304 then 105
   else if r =? 8490 then 107
   else r)%N.

(** ** Errors

    [errors.New], [fmt.Errorf] without and with a wrapped error (the argument of
    the final [%w]), and the API error of the Orchard client library, which
    carries an HTTP status.  Formats are kept with their arguments, unrendered. *)

Inductive error : Type :=
  | ErrorNew (text : string)
  | Errorf (format : string) (args : list string)
  | Errorf_w (format : string) (args : list string) (inner : error)
  | APIError (StatusCode : Z).

#[export] Instance error_eq_dec : EqDecision error.
Proof. solve_decision. Defined.

(** The pair [(T, error)] of a Go call that fails with a zero value. *)
Inductive result (A : Type) : Type :=
  | OK (a : A)
  | Err (e : error).
Arguments OK {A} a.
Arguments Err {A} e.

(** [errors.As(err, &apiErr)]: the first API error in the chain. *)
Fixpoint errors_as_api (e : error) : option Z :=
  match e with
  | APIError c => Some c
  | Errorf_w _ _ e => errors_as_api e
  | ErrorNew _ | Errorf _ _ => None
  end.

(** ** Lemmas: integers and time *)

Lemma int64_id z : in_int64 z → int64 z = z.
Proof.
  unfold in_int64, int64, two63, two64. intros Hz.
  rewrite Z.mod_small; lia.
Qed.

Lemma int64_range z : in_int64 (int64 z).
Proof.
  unfold in_int64, int64, two63, two64.
  pose proof (Z.mod_pos_bound (z + 9223372036854775808)
    18446744073709551616 ltac:(lia)). lia.
Qed.

Lemma uint64_range z : in_uint64 (uint64 z).
Proof. unfold in_uint64, uint64. apply Z.mod_pos_bound. done. Qed.
Lemma uint64_id z : in_uint64 z → uint64 z = z.
Proof. unfold in_uint64, uint64. intros. by apply Z.mod_small. Qed.

(** Away from saturation [Sub] is the plain difference; in every case it
    compares with an in-range duration as the plain difference does. *)
Lemma Sub_le_iff t u d :
  (minDuration ≤ d < maxDuration)%Z → (Sub t u ≤ d ↔ t - u ≤ d)%Z.
Proof. unfold Sub, minDuration, maxDuration, two63. lia. Qed.

(** ** Lemmas: byte strings *)

Lemma len_app s t : len (s +:+ t) = len s + len t.
Proof. induction s; simpl; auto. Qed.

Lemma app_nil_r_str s : s +:+ EmptyString = s.
Proof. induction s; simpl; congruence. Qed.

Lemma app_assoc_str s t u : (s +:+ t) +:+ u = s +:+ (t +:+ u).
Proof. induction s; simpl; congruence. Qed.

Lemma app_inj_l s t u : s +:+ t = s +:+ u → t = u.
Proof. induction s; simpl; [done|]. intros [= ?]. auto. Qed.

Lemma HasPrefix_spec s p : HasPrefix s p = true ↔ ∃ t, s = p +:+ t.
Proof.
  revert s. induction p as [|c p IH]; intros s; simpl.
  - split; [by exists s|]. by destruct s.
  - destruct s as [|d s].
    + split; [done|]. by intros [t ?].
    + rewrite andb_true_iff, bool_decide_eq_true, IH. split.
      * intros [-> [t ->]]. by exists t.
      * intros [t [= -> ->]]. eauto.
Qed.

Lemma HasPrefix_app p t : HasPrefix (p +:+ t) p = true.
Proof. apply HasPrefix_spec. by exists t. Qed.

Lemma slice_from_app p t : slice_from (len p) (p +:+ t) = t.
Proof. induction p; simpl; [by destruct t|done]. Qed.

Lemma slice_to_app p t : slice_to (len p) (p +:+ t) = p.
Proof. induction p; simpl; [by destruct t|congruence]. Qed.

Lemma slice_to_len n s : len (slice_to n s) = n `min` len s.
Proof. revert s. induction n; intros []; simpl; auto. Qed.

Lemma slice_to_prefix n s : ∃ t, s = slice_to n s +:+ t.
Proof.
  revert s. induction n as [|n IH]; intros [|c s]; simpl; eauto.
  destruct (IH s) as [t Ht]. exists t. congruence.
Qed.

Lemma slice_to_ge n s : len s ≤ n → slice_to n s = s.
Proof.
  revert s. induction n as [|n IH]; intros [|c s]; simpl; try done; try lia.
  intros. f_equal. apply IH. lia.
Qed.

Lemma slice_to_app_ge n s t :
  len s ≤ n → slice_to n (s +:+ t) = s +:+ slice_to (n - len s) t.
Proof.
  revert n. induction s as [|c s IH]; intros n; simpl.
  - by rewrite Nat.sub_0_r.
  - destruct n as [|n]; [lia|]. simpl. intros. rewrite IH by lia. done.
Qed.

Lemma slice_to_app_le n s t : n ≤ len s → slice_to n (s +:+ t) = slice_to n s.
Proof.
  revert n. induction s as [|c s IH]; intros [|n]; simpl; try lia; try done.
  intros. rewrite IH by lia. done.
Qed.

Lemma ContainsByte_app s t c :
  ContainsByte (s +:+ t) c = ContainsByte s c || ContainsByte t c.
Proof. induction s; simpl; [done|]. by rewrite IHs, orb_assoc. Qed.

Lemma not_eq_symm_iff {A} (x y : A) : x ≠ y ↔ y ≠ x.
Proof. split; congruence. Qed.

Lemma ContainsByte_false s c :
  ContainsByte s c = false ↔ all_bytes (λ d, d ≠ c) s.
Proof.
  induction s as [|d s IH]; simpl; [done|].
  rewrite orb_false_iff, bool_decide_eq_false, IH. by rewrite (not_eq_symm_iff c d).
Qed.

Lemma all_bytes_app P s t : all_bytes P (s +:+ t) ↔ all_bytes P s ∧ all_bytes P t.
Proof. induction s as [|c s IH]; simpl; [tauto|]. rewrite IH. tauto. Qed.

Lemma all_bytes_mono (P Q : byte → Prop) s :
  (∀ c, P c → Q c) → all_bytes P s → all_bytes Q s.
Proof. intros HPQ. induction s as [|c s IH]; simpl; [done|]. intros []; auto. Qed.

Lemma TrimLeftByte_suffix s c : ∃ t, s = t +:+ TrimLeftByte s c.
Proof.
  induction s as [|d s [t IH]]; simpl; [by exists EmptyString|].
  case_bool_decide; [|by exists EmptyString].
  exists (String d t). simpl. congruence.
Qed.

Lemma TrimRightByte_prefix s c : ∃ t, s = TrimRightByte s c +:+ t.
Proof.
  induction s as [|d s [t IH]]; simpl; [by exists EmptyString|].
  destruct (TrimRightByte s c) as [|e u]; simpl in *.
  - case_bool_decide; simpl; eauto.
  - exists t. simpl. congruence.
Qed.

Lemma all_bytes_TrimByte P s c : all_bytes P s → all_bytes P (TrimByte s c).
Proof.
  intros Hs. unfold TrimByte.
  destruct (TrimLeftByte_suffix s c) as [t Ht].
  rewrite Ht in Hs. apply all_bytes_app in Hs as [_ Hs].
  destruct (TrimRightByte_prefix (TrimLeftByte s c) c) as [u Hu].
  rewrite Hu in Hs. by apply all_bytes_app in Hs as [Hs _].
Qed.

Lemma TrimRightByte_app_other s d c :
  d ≠ c → TrimRightByte (s +:+ String d EmptyString) c = s +:+ String d EmptyString.
Proof.
  intros Hd. induction s as [|e s IH]; simpl.
  - by rewrite bool_decide_eq_false_2.
  - rewrite IH. by destruct s.
Qed.

(** A string of bytes other than [c] is not changed by trimming [c]. *)
Lemma TrimRightByte_id s c : all_bytes (λ d, d ≠ c) s → TrimRightByte s c = s.
Proof.
  induction s as [|d s IH]; simpl; [done|]. intros [Hd Hs].
  rewrite (IH Hs). destruct s; [|done]. by rewrite bool_decide_eq_false_2.
Qed.

Lemma TrimRightByte_app s t c :
  all_bytes (λ d, d ≠ c) t → t ≠ EmptyString →
  TrimRightByte (s +:+ t) c = s +:+ t.
Proof.
  intros Ht Hne. induction s as [|e s IH]; simpl.
  - by apply TrimRightByte_id.
  - rewrite IH. destruct s, t; done.
Qed.

(** Trimming on the right leaves alone whatever precedes a part it keeps. *)
Lemma TrimRightByte_app_keep s t c :
  TrimRightByte t c ≠ EmptyString →
  TrimRightByte (s +:+ t) c = s +:+ TrimRightByte t c.
Proof.
  intros Hne. induction s as [|e s IH]; simpl; [done|].
  rewrite IH. destruct s, (TrimRightByte t c); done.
Qed.

Lemma TrimRightByte_cons_ne d s c :
  d ≠ c → TrimRightByte (String d s) c ≠ EmptyString.
Proof.
  intros Hd. simpl. destruct (TrimRightByte s c); [|done].
  by rewrite bool_decide_eq_false_2.
Qed.

Lemma TrimRightByte_len s c : len (TrimRightByte s c) ≤ len s.
Proof.
  destruct (TrimRightByte_prefix s c) as [t Ht].
  rewrite Ht at 2. rewrite len_app. lia.
Qed.

(** [ends_with s c]: the last byte of [s] is [c]. *)
Fixpoint ends_with (s : string) (c : byte) : bool :=
  match s with
  | EmptyString => false
  | String d EmptyString => bool_decide (d = c)
  | String _ s => ends_with s c
  end.

Lemma ends_with_cons d s c :
  s ≠ EmptyString → ends_with (String d s) c = ends_with s c.
Proof. by destruct s. Qed.

Lemma ends_with_app s t c :
  t ≠ EmptyString → ends_with (s +:+ t) c = ends_with t c.
Proof.
  intros Ht. induction s as [|d s IH]; simpl; [done|].
  rewrite <-IH. by destruct s, t.
Qed.

Lemma ends_with_TrimRightByte s c : ends_with (TrimRightByte s c) c = false.
Proof.
  induction s as [|d s IH]; simpl; [done|].
  destruct (TrimRightByte s c) as [|e u].
  - case_bool_decide; simpl; [done|]. by rewrite bool_decide_eq_false_2.
  - rewrite ends_with_cons; done.
Qed.

Lemma ends_with_all_bytes s c :
  all_bytes (λ d, d ≠ c) s → ends_with s c = false.
Proof.
  induction s as [|d s IH]; [done|]. intros [Hd Hs].
  destruct s as [|e s]; simpl; [by rewrite bool_decide_eq_false_2|auto].
Qed.

Lemma TrimLeftByte_head s c :
  TrimLeftByte s c = EmptyString ∨
  ∃ d t, TrimLeftByte s c = String d t ∧ d ≠ c.
Proof.
  induction s as [|d s IH]; simpl; [by left|].
  case_bool_decide; [done|]. right. eauto.
Qed.

(** A trimmed string is empty or starts with another byte. *)
Lemma TrimByte_head s c :
  TrimByte s c = EmptyString ∨ ∃ d t, TrimByte s c = String d t ∧ d ≠ c.
Proof.
  unfold TrimByte. destruct (TrimLeftByte_head s c) as [->|(d & t & -> & Hd)].
  - by left.
  - right. simpl. destruct (TrimRightByte t c); [|by eauto].
    rewrite bool_decide_eq_false_2 by done. eauto.
Qed.

(** The text before and after the last [c] of a string are determined by it. *)
Lemma last_byte_split c a x b y :
  all_bytes (λ d, d ≠ c) x → all_bytes (λ d, d ≠ c) y →
  a +:+ String c x = b +:+ String c y → a = b ∧ x = y.
Proof.
  intros Hx Hy. revert b. induction a as [|d a IH]; intros [|e b]; simpl.
  - by intros [= ->].
  - intros [= -> ->]. apply all_bytes_app in Hx as [_ [Hc _]]. done.
  - intros [= -> <-]. apply all_bytes_app in Hy as [_ [Hc _]]. done.
  - intros [= -> H]. destruct (IH _ H) as [-> ->]. done.
Qed.
