(* ===== verification/Durations.v ===== *)
(** * Parsing numbers and durations

    [time.ParseDuration] and [strconv.ParseInt(s, 10, 64)] of the Go standard
    library, which the configuration relies on.  The fraction of a duration goes
    through float64 arithmetic, taken from the Standard Library's [SpecFloat]. *)

From Stdlib Require Import SpecFloat.
From S2P Require Import Prelude GoBase.

(** ** Digits *)

Definition is_digit (c : byte) : bool := ((48 <=? byte_val c) && (byte_val c <=? 57))%N.
Definition digit (c : byte) : Z := Z.of_N (byte_val c) - 48.
Definition is_dot (c : byte) : bool := (byte_val c =? 46)%N.

(** [leadingInt]: the integer at the head of a string, or an overflow. *)
Fixpoint leadingInt (x : Z) (s : string) : option (Z * string) :=
  match s with
  | EmptyString => Some (x, s)
  | String c s' =>
      if negb (is_digit c) then Some (x, s)
      else if (two63 / 10 <? x)%Z then None
      else
        let x := uint64 (x * 10 + digit c) in
        if (two63 <? x)%Z then None else leadingInt x s'
  end.

(** ** Floating point *)

Definition to_float64 (z : Z) : spec_float := binary_normalize 53 1024 z 0 false.
Definition float_mul : spec_float → spec_float → spec_float := SFmul 53 1024.
Definition float_div : spec_float → spec_float → spec_float := SFdiv 53 1024.

(** [uint64(f)] of a finite [f] that is not negative. *)
Definition float_to_uint64 (f : spec_float) : Z :=
  match f with
  | S754_finite false m e =>
      uint64 (if (e <? 0)%Z then Z.shiftr (Z.pos m) (- e) else Z.shiftl (Z.pos m) e)
  | _ => 0%Z
  end.

(** [leadingFraction]: further digits are dropped once they would overflow. *)
Fixpoint leadingFraction (x : Z) (scale : spec_float) (overflow : bool) (s : string)
    : Z * spec_float * string :=
  match s with
  | EmptyString => (x, scale, s)
  | String c s' =>
      if negb (is_digit c) then (x, scale, s)
      else if overflow then leadingFraction x scale true s'
      else if ((two63 - 1) / 10 <? x)%Z then leadingFraction x scale true s'
      else
        let y := uint64 (x * 10 + digit c) in
        if (two63 <? y)%Z then leadingFraction x scale true s'
        else leadingFraction y (float_mul scale (to_float64 10)) false s'
  end.

(** ** Units *)

(** The text up to the next dot or digit, and the rest. *)
Fixpoint unit_text (s : string) : string * string :=
  match s with
  | EmptyString => (EmptyString, EmptyString)
  | String c s' =>
      if is_dot c || is_digit c then (EmptyString, s)
      else let '(u, r) := unit_text s' in (String c u, r)
  end.

Definition unitMap : list (string * Duration) :=
  [("ns", Nanosecond); ("us", Microsecond); ("µs", Microsecond); ("μs", Microsecond);
   ("ms", Millisecond); ("s", Second); ("m", Minute); ("h", Hour)].

Fixpoint unit_of (u : string) (m : list (string * Duration)) : option Duration :=
  match m with
  | [] => None
  | (k, d) :: m => if decide (k = u) then Some d else unit_of u m
  end.

#[global] Arguments unit_of : simpl never.

(** ** Durations *)

Definition invalid_duration (orig : string) : error :=
  Errorf "time: invalid duration %q" [orig].

(** One turn of the loop: the value of a component, and the text after it. *)
Definition component (orig s : string) : result (Z * string) :=
  match s with
  | EmptyString => Err (invalid_duration orig)
  | String c _ =>
      if negb (is_dot c || is_digit c) then Err (invalid_duration orig) else
      match leadingInt 0 s with
      | None => Err (invalid_duration orig)
      | Some (v, s1) =>
          let pre := negb (bool_decide (len s = len s1)) in
          let '(f, scale, s2, post) :=
            match s1 with
            | String d s1' =>
                if is_dot d then
                  let '(f, scale, s2) := leadingFraction 0 (to_float64 1) false s1' in
                  (f, scale, s2, negb (bool_decide (len s1' = len s2)))
                else (0%Z, to_float64 1, s1, false)
            | EmptyString => (0%Z, to_float64 1, s1, false)
            end in
          if negb pre && negb post then Err (invalid_duration orig) else
          let '(u, rest) := unit_text s2 in
          if decide (u = EmptyString) then Err (Errorf "time: missing unit in duration %q" [orig])
          else match unit_of u unitMap with
          | None => Err (Errorf "time: unknown unit %q in duration %q" [u; orig])
          | Some unit =>
              if (two63 / unit <? v)%Z then Err (invalid_duration orig) else
              let v := uint64 (v * unit) in
              if (0 <? f)%Z then
                let v := uint64 (v + float_to_uint64
                    (float_mul (to_float64 f) (float_div (to_float64 unit) scale))) in
                if (two63 <? v)%Z then Err (invalid_duration orig) else OK (v, rest)
              else OK (v, rest)
          end
      end
  end.

(** [for s != "" { ... }] with the sum [d] so far; [None] if the fuel does not
    suffice.  A turn consumes text, so as much fuel as the text is long is
    enough (see [components_enough]). *)
Fixpoint components (fuel : nat) (orig : string) (d : Z) (s : string) : option (result Z) :=
  match s, fuel with
  | EmptyString, _ => Some (OK d)
  | _, O => None
  | _, S fuel =>
      match component orig s with
      | Err e => Some (Err e)
      | OK (v, rest) =>
          let d := uint64 (d + v) in
          if (two63 <? d)%Z then Some (Err (invalid_duration orig))
          else components fuel orig d rest
      end
  end.

(** The sign at the head of the text. *)
Definition sign_of (s : string) : bool * string :=
  match s with
  | String c s' =>
      if (byte_val c =? 45)%N then (true, s')
      else if (byte_val c =? 43)%N then (false, s') else (false, s)
  | EmptyString => (false, s)
  end.

Definition ParseDuration (orig : string) : result Duration :=
  let '(neg, s) := sign_of orig in
  if decide (s = "0") then OK 0%Z
  else if decide (s = EmptyString) then Err (invalid_duration orig)
  else match components (len s) orig 0 s with
  | None => Err (invalid_duration orig)
  | Some (Err e) => Err e
  | Some (OK d) =>
      if neg then OK (int64 (- int64 d))
      else if (two63 - 1 <? d)%Z then Err (invalid_duration orig) else OK (int64 d)
  end.

(** ** Integers

    [strconv.ParseInt(s, 10, 64)]; the caller only asks whether it failed. *)

Fixpoint parse_digits (x : Z) (s : string) : option Z :=
  match s with
  | EmptyString => Some x
  | String c s => if is_digit c then parse_digits (x * 10 + digit c) s else None
  end.

Definition ParseInt (orig : string) : option Z :=
  let '(neg, s) := sign_of orig in
  if decide (s = EmptyString) then None else
  match parse_digits 0 s with
  | None => None
  | Some x =>
      let z := (if neg then - x else x)%Z in
      if ((- two63 <=? z) && (z <? two63))%Z then Some z else None
  end.

(** ** The loop ends *)

Lemma leadingInt_len x s v r : leadingInt x s = Some (v, r) → len r ≤ len s.
Proof.
  revert x. induction s as [|c s IH]; intros x; simpl; [by intros [= _ <-]|].
  destruct (negb (is_digit c)); [by intros [= _ <-]|].
  destruct (two63 / 10 <? x)%Z; [done|].
  destruct (two63 <? uint64 (x * 10 + digit c))%Z; [done|].
  intros H%IH. lia.
Qed.

Lemma leadingFraction_len x sc o s v sc' r :
  leadingFraction x sc o s = (v, sc', r) → len r ≤ len s.
Proof.
  revert x sc o. induction s as [|c s IH]; intros x sc o; simpl; [by intros [= _ _ <-]|].
  destruct (negb (is_digit c)); [by intros [= _ _ <-]|].
  destruct o; [by intros H%IH; lia|].
  destruct ((two63 - 1) / 10 <? x)%Z; [by intros H%IH; lia|].
  destruct (two63 <? uint64 (x * 10 + digit c))%Z; intros H%IH; lia.
Qed.

Lemma unit_text_app s u r : unit_text s = (u, r) → s = u +:+ r.
Proof.
  revert u r. induction s as [|c s IH]; intros u r; simpl; [by intros [= <- <-]|].
  destruct (is_dot c || is_digit c); [by intros [= <- <-]|].
  destruct (unit_text s) as [u' r'] eqn:E. intros [= <- <-]. simpl. by rewrite (IH u' r').
Qed.

(** A turn consumes text. *)
Lemma component_consumes orig s v rest :
  component orig s = OK (v, rest) → len rest < len s.
Proof.
  unfold component. destruct s as [|c s']; [done|].
  destruct (negb _); [done|]. destruct (leadingInt 0 (String c s')) as [[v1 s1]|] eqn:Hl; [|done].
  apply leadingInt_len in Hl.
  set (frac := match s1 with String d s1' => _ | EmptyString => _ end).
  destruct frac as [[[f scale] s2] post] eqn:Hf. assert (len s2 ≤ len s1) as Hs2.
  { subst frac. destruct s1 as [|d s1']; [by simplify_eq|]. destruct (is_dot d); [|by simplify_eq].
    destruct (leadingFraction _ _ _ s1') as [[? ?] s2'] eqn:Hlf.
    apply leadingFraction_len in Hlf. simplify_eq. simpl. lia. }
  clearbody frac. destruct (negb _ && negb post); [done|].
  destruct (unit_text s2) as [u r] eqn:Hu. apply unit_text_app in Hu. subst s2.
  destruct (decide (u = EmptyString)) as [|Hne]; [done|].
  assert (len r < len s1) as Hr.
  { rewrite len_app in Hs2. destruct u; [done|]. simpl in Hs2. lia. }
  destruct (unit_of u unitMap); [|done]. destruct (_ <? _)%Z; [done|].
  destruct (0 <? f)%Z; [destruct (_ <? _)%Z; [done|]|]; intros [= _ <-]; lia.
Qed.

Lemma components_enough fuel orig d s : len s ≤ fuel → is_Some (components fuel orig d s).
Proof.
  revert d s. induction fuel as [|fuel IH]; intros d s Hlen.
  { destruct s; [by eexists|simpl in Hlen; lia]. }
  destruct s as [|c s]; [by eexists|]. cbn [components].
  destruct (component orig (String c s)) as [[v rest]|e] eqn:Hc; [|by eexists].
  destruct (_ <? _)%Z; [by eexists|]. apply IH.
  apply component_consumes in Hc. lia.
Qed.

(** ** Durations as people write them *)

Lemma pretty_char_digit x : (x < 10)%N →
  is_digit (pretty_N_char x) = true ∧ digit (pretty_N_char x) = Z.of_N x.
Proof.
  intros Hx.
  assert (x = 0 ∨ x = 1 ∨ x = 2 ∨ x = 3 ∨ x = 4 ∨ x = 5 ∨ x = 6 ∨ x = 7 ∨ x = 8 ∨ x = 9)%N
    as Hcases by lia.
  by repeat destruct Hcases as [->|Hcases]; subst.
Qed.

Lemma leadingInt_digit x c s :
  is_digit c = true → (0 ≤ digit c < 10)%Z → (0 ≤ x)%Z → (x * 10 + digit c ≤ two63)%Z →
  leadingInt x (String c s) = leadingInt (x * 10 + digit c) s.
Proof.
  intros Hc Hd H0 Hx. cbn [leadingInt]. rewrite Hc. cbn [negb].
  rewrite uint64_id by (unfold in_uint64, two64, two63 in *; lia).
  destruct (Z.ltb_spec (two63 / 10) x) as [Hlt|_].
  { unfold two63 in *. simpl in Hlt. exfalso.
    pose proof (Z.div_mod 9223372036854775808 10 ltac:(lia)).
    pose proof (Z.mod_pos_bound 9223372036854775808 10 ltac:(lia)). lia. }
  by destruct (Z.ltb_spec two63 (x * 10 + digit c)); [lia|].
Qed.

(** The digits of a number are read back. *)
Lemma leadingInt_pretty_go n s :
  (Z.of_N n ≤ two63)%Z → leadingInt 0 (pretty_N_go n s) = leadingInt (Z.of_N n) s.
Proof.
  revert s. induction (N.lt_wf_0 n) as [n _ IH]. intros s Hn.
  destruct (decide (n = 0%N)) as [->|Hpos]; [by rewrite pretty_N_go_0|].
  rewrite pretty_N_go_step by lia.
  pose proof (N.mod_lt n 10 ltac:(lia)) as Hm. pose proof (N.div_mod n 10 ltac:(lia)) as Hdm.
  set (q := (n `div` 10)%N) in *. set (r := (n `mod` 10)%N) in *.
  rewrite IH; [|subst q; apply N.div_lt; lia|lia].
  destruct (pretty_char_digit r Hm) as [Hdig Hval].
  rewrite leadingInt_digit; rewrite ?Hval; try lia; [|done].
  f_equal. lia.
Qed.

(** Text that does not continue a number. *)
Definition no_digit_ahead (s : string) : Prop :=
  match s with EmptyString => True | String c _ => is_digit c = false end.

Lemma leadingInt_pretty n s :
  (Z.of_N n ≤ two63)%Z → no_digit_ahead s →
  leadingInt 0 (pretty n +:+ s) = Some (Z.of_N n, s).
Proof.
  intros Hn Hs. assert (pretty n +:+ s = if decide (n = 0%N) then String (pretty_N_char 0) s else pretty_N_go n s)
    as ->.
  { unfold pretty, pretty_N. destruct (decide (n = 0%N)); [done|].
    assert (∀ m t, pretty_N_go m t +:+ s = pretty_N_go m (t +:+ s)) as Happ; [|by rewrite Happ].
    intros m. induction (N.lt_wf_0 m) as [m _ IH]. intros t.
    destruct (decide (m = 0%N)) as [->|]; [by rewrite !pretty_N_go_0|].
    rewrite !(pretty_N_go_step m) by lia. apply IH, N.div_lt; lia. }
  assert (leadingInt (Z.of_N n) s = Some (Z.of_N n, s)) as Hend.
  { destruct s as [|c s]; [done|]. cbn [leadingInt]. by rewrite Hs. }
  destruct (decide (n = 0%N)) as [->|]; [|by rewrite leadingInt_pretty_go].
  rewrite leadingInt_digit; done.
Qed.

Lemma pretty_digit_first (n : N) s : ∃ c t, pretty n +:+ s = String c t ∧ is_digit c = true.
Proof.
  unfold pretty, pretty_N. destruct (decide (n = 0%N)) as [->|Hn]; [by eexists _, _|].
  assert (∀ m t, (0 < m)%N → ∃ c u, pretty_N_go m t = String c u ∧ is_digit c = true) as Hgo.
  { intros m. induction (N.lt_wf_0 m) as [m _ IH]. intros t Hm.
    rewrite pretty_N_go_step by done.
    destruct (decide (m / 10 = 0)%N) as [->|].
    - rewrite pretty_N_go_0. eexists _, _. split; [done|].
      apply pretty_char_digit, N.mod_lt. lia.
    - apply IH; [apply N.div_lt; lia|by apply N.neq_0_lt_0]. }
  destruct (Hgo n EmptyString) as (c & u & -> & Hc); [lia|]. by eexists _, _.
Qed.

(** A duration written as numbers with units, and its value. *)
Definition written (cs : list (N * string)) : string :=
  foldr (λ '(n, u) s, pretty n +:+ u +:+ s) EmptyString cs.

Fixpoint written_value (cs : list (N * string)) : option Z :=
  match cs with
  | [] => Some 0%Z
  | (n, u) :: cs =>
      match unit_of u unitMap, written_value cs with
      | Some d, Some v => Some (Z.of_N n * d + v)%Z
      | _, _ => None
      end
  end.

Lemma unit_text_stop u rest :
  all_bytes (λ c, is_dot c || is_digit c = false) u →
  match rest with EmptyString => True | String c _ => is_digit c = true end →
  unit_text (u +:+ rest) = (u, rest).
Proof.
  intros Hu Hrest. induction u as [|c u IH]; simpl in *.
  - destruct rest as [|c r]; [done|]. simpl. by rewrite Hrest, orb_true_r.
  - destruct Hu as [-> Hu]. by rewrite IH.
Qed.

Lemma unit_of_bounds u d :
  unit_of u unitMap = Some d →
  u ≠ EmptyString ∧ (1 ≤ d ≤ Hour)%Z ∧ all_bytes (λ c, is_dot c || is_digit c = false) u.
Proof.
  cbv [unit_of unitMap].
  repeat (destruct (decide (_ = u)) as [<-|_]; [intros [= <-]; split; [done|split; [by vm_compute|by repeat split]]|]).
  done.
Qed.

Lemma written_value_nonneg cs v : written_value cs = Some v → (0 ≤ v)%Z.
Proof.
  revert v. induction cs as [|[n u] cs IH]; intros v; simpl; [intros [= <-]; lia|].
  destruct (unit_of u unitMap) as [d|] eqn:Hu; [|done].
  destruct (written_value cs) as [v'|]; [|done]. intros [= <-].
  apply unit_of_bounds in Hu as (_ & ? & _). specialize (IH v' eq_refl). nia.
Qed.

(** One written component is read back, and the text after it is left. *)
Lemma component_written orig n u cs d :
  unit_of u unitMap = Some d → (Z.of_N n * d ≤ two63)%Z →
  component orig (pretty n +:+ u +:+ written cs) = OK ((Z.of_N n * d)%Z, written cs).
Proof.
  intros Hu Hn. destruct (unit_of_bounds u d Hu) as (Hne & Hd & Hall).
  assert (match written cs with EmptyString => True | String c _ => is_digit c = true end) as Hw.
  { destruct cs as [|[m w] cs]; [exact I|].
    destruct (pretty_digit_first m (w +:+ written cs)) as (c & t & Hct & Hc).
    change (written ((m, w) :: cs)) with (pretty m +:+ w +:+ written cs). by rewrite Hct. }
  destruct (pretty_digit_first n (u +:+ written cs)) as (c & t & Hct & Hc).
  assert (leadingInt 0 (String c t) = Some (Z.of_N n, u +:+ written cs)) as Hlead.
  { rewrite <-Hct. apply leadingInt_pretty; [nia|].
    destruct u as [|c0 u]; [done|]. simpl in Hall |- *. destruct Hall as [H0 _].
    by apply orb_false_iff in H0 as [_ ?]. }
  rewrite Hct. unfold component. rewrite Hc, orb_true_r. cbn [negb]. rewrite Hlead.
  rewrite bool_decide_eq_false_2.
  2:{ intros Hl. assert (len (String c t) = len (pretty n +:+ u +:+ written cs)) as Hlt by
        by rewrite Hct. rewrite Hl, !len_app in Hlt.
      destruct (pretty_digit_first n EmptyString) as (c1 & t1 & H1 & _).
      rewrite app_nil_r_str in H1. rewrite H1 in Hlt. simpl in Hlt. lia. }
  cbn [negb andb].
  assert (∃ c0 u0, u = String c0 u0 ∧ is_dot c0 = false) as (c0 & u0 & -> & Hdot).
  { destruct u as [|c0 u0]; [done|]. destruct Hall as [H0 _].
    apply orb_false_iff in H0 as [? _]. by eexists _, _. }
  change (String c0 u0 +:+ written cs) with (String c0 (u0 +:+ written cs)).
  cbv beta iota. rewrite Hdot. change (String c0 (u0 +:+ written cs)) with (String c0 u0 +:+ written cs).
  rewrite unit_text_stop by done. rewrite decide_False by done. rewrite Hu.
  destruct (Z.ltb_spec (two63 / d) (Z.of_N n)) as [Hlt|_].
  { assert (Z.of_N n ≤ two63 / d)%Z by (apply Z.div_le_lower_bound; lia). lia. }
  change (0 <? 0)%Z with false. cbv beta iota. rewrite uint64_id; [done|].
  split; [apply Z.mul_nonneg_nonneg; lia|]. by eapply Z.le_lt_trans.
Qed.

Lemma components_written orig cs fuel d v :
  written_value cs = Some v → (0 ≤ d)%Z → (d + v ≤ two63)%Z → len (written cs) ≤ fuel →
  components fuel orig d (written cs) = Some (OK (d + v)%Z).
Proof.
  revert fuel d v. induction cs as [|[n u] cs IH]; intros fuel d v; simpl.
  { intros [= <-] _ _ _. rewrite Z.add_0_r. by destruct fuel. }
  destruct (unit_of u unitMap) as [du|] eqn:Hu; [|done].
  destruct (written_value cs) as [v'|] eqn:Hv; [|done]. intros [= <-] Hd Hsum Hfuel.
  pose proof (written_value_nonneg cs v' Hv).
  assert (0 ≤ Z.of_N n * du)%Z by (apply unit_of_bounds in Hu as (_ & ? & _); nia).
  pose proof (component_written orig n u cs du Hu ltac:(lia)) as Hc.
  destruct (pretty_digit_first n (u +:+ written cs)) as (c & t & Hct & _).
  rewrite Hct in Hc, Hfuel |- *. destruct fuel as [|fuel]; [simpl in Hfuel; lia|].
  cbn [components]. rewrite Hc. apply component_consumes in Hc. simpl in Hfuel, Hc.
  rewrite uint64_id by (unfold in_uint64, two64, two63 in *; lia).
  destruct (Z.ltb_spec two63 (d + Z.of_N n * du)); [lia|].
  rewrite (IH fuel _ v'); [by rewrite Z.add_assoc|done|lia..].
Qed.

(** Durations are read back as they are written, up to the largest one. *)
Lemma ParseDuration_written cs v :
  cs ≠ [] → written_value cs = Some v → (v < two63)%Z → ParseDuration (written cs) = OK v.
Proof.
  intros Hne Hv Hlt. pose proof (written_value_nonneg cs v Hv).
  destruct cs as [|[n u] cs]; [done|]. unfold ParseDuration.
  destruct (pretty_digit_first n (u +:+ written cs)) as (c & t & Hct & Hc).
  assert (sign_of (written ((n, u) :: cs)) = (false, written ((n, u) :: cs))) as ->.
  { simpl. rewrite Hct. unfold sign_of. unfold is_digit in Hc.
    apply andb_true_iff in Hc as [Hc1 Hc2]. apply N.leb_le in Hc1, Hc2.
    by destruct (N.eqb_spec (byte_val c) 45), (N.eqb_spec (byte_val c) 43); lia || done. }
  destruct (decide (written ((n, u) :: cs) = "0")) as [H0|_].
  { exfalso. simpl in H0, Hv. destruct (unit_of u unitMap) eqn:Hu; [|done].
    apply unit_of_bounds in Hu as (Hu & _ & _).
    destruct (pretty_digit_first n EmptyString) as (c1 & t1 & H1 & _).
    rewrite app_nil_r_str in H1. rewrite H1 in H0. destruct u; [done|].
    apply (f_equal len) in H0. simpl in H0. rewrite !len_app in H0. simpl in H0. lia. }
  destruct (decide (written ((n, u) :: cs) = EmptyString)) as [H0|_].
  { simpl in H0. by rewrite Hct in H0. }
  rewrite (components_written _ _ _ 0 v) by (done || lia). rewrite Z.add_0_l.
  destruct (Z.ltb_spec (two63 - 1) v); [lia|].
  by rewrite int64_id by (unfold in_int64; lia).
Qed.

(** Whatever is parsed fits an [int64]. *)
Lemma ParseDuration_range s d : ParseDuration s = OK d → in_int64 d.
Proof.
  unfold ParseDuration. destruct (sign_of s) as [neg s'].
  destruct (decide (s' = "0")); [intros [= <-]; unfold in_int64, two63; lia|].
  destruct (decide (s' = EmptyString)); [done|].
  destruct (components _ _ _ _) as [[z|e]|]; [|done..].
  destruct neg; [intros [= <-]; apply int64_range|].
  destruct (_ <? z)%Z; [done|]. intros [= <-]. apply int64_range.
Qed.
