(* ===== verification/Orchard.v ===== *)
(** * The Orchard client wrapper ([orchard/types.go], [orchard/client.go])

    The bridge-local records, the [Client] interface as a type class over the
    state [W] of the outside world, the implementation [officialClient] on top
    of the third-party v1 client (a parameter), and a recording client used to
    speak about the calls a component makes. *)

From S2P Require Import Prelude GoBase.

(** ** Types ([orchard/types.go]) *)

Record VMScript : Type := mkVMScript { ScriptContent : string }.

Record VM : Type := mkVM {
  vm_Name : string;
  vm_Image : string;
  vm_CPU : Z;
  vm_Memory : Z;
  vm_Nested : bool;
  vm_DiskSize : Z;
  vm_Status : string;
  vm_StatusMessage : string;
  vm_Worker : string;
  vm_StartupScript : option VMScript;
  vm_Labels : gmap string string;
  vm_CreatedAt : Time
}.

Record Worker : Type := mkWorker {
  w_Name : string;
  w_Labels : gmap string string;
  w_Resources : gmap string Z;
  w_SchedulingPaused : bool;
  w_LastSeen : Time
}.

Definition VMStatusCreating : string := "creating".
Definition VMStatusRunning : string := "running".
Definition VMStatusStopped : string := "stopped".
Definition VMStatusFailed : string := "failed".

(** [vm.Status == VMStatusStopped || vm.Status == VMStatusFailed]. *)
Definition vm_terminal (vm : VM) : bool :=
  bool_decide (vm_Status vm = VMStatusStopped) ||
  bool_decide (vm_Status vm = VMStatusFailed).

(** [m[k]] on a [map[string]string]: the empty string when absent. *)
Definition str_at (m : gmap string string) (k : string) : string :=
  default EmptyString (m !! k).

(** ** The [Client] interface *)

Class OrchardClient (W : Type) : Type := {
  CreateVM : VM → M W (result VM);
  GetVM : string → M W (result VM);
  ListVMs : M W (result (list VM));
  DeleteVM : string → M W (option error);
  ListWorkers : M W (result (list Worker));
  DeleteWorker : string → M W (option error);
  Ping : M W (option error)
}.

#[global] Arguments CreateVM {W _} vm : simpl never, rename.
#[global] Arguments GetVM {W _} name : simpl never, rename.
#[global] Arguments ListVMs {W _} : simpl never.
#[global] Arguments DeleteVM {W _} name : simpl never, rename.
#[global] Arguments ListWorkers {W _} : simpl never.
#[global] Arguments DeleteWorker {W _} name : simpl never, rename.
#[global] Arguments Ping {W _} : simpl never.

(** [time.Now()] and [uuid.New().String()] read the world. *)
Class Clock (W : Type) : Type := Now : M W Time.
Class UUIDSource (W : Type) : Type := NewUUID : M W string.

(** ** The v1 client library (third party)

    The fields of [v1.VM] and [v1.Worker] that the wrapper reads or writes, the
    library's constants, and the calls of its services. *)

Record V1VM : Type := mkV1VM {
  v1_Name : string;
  v1_Image : string;
  v1_CPU : Z;
  v1_Memory : Z;
  v1_DiskSize : Z;
  v1_Headless : bool;
  v1_Nested : bool;
  v1_Username : string;
  v1_Password : string;
  v1_OS : string;
  v1_Arch : string;
  v1_Runtime : string;
  v1_RestartPolicy : string;
  v1_StartupScript : option string;
  v1_Labels : gmap string string;
  v1_Status : string;
  v1_StatusMessage : string;
  v1_Worker : string;
  v1_CreatedAt : Time
}.

Record V1Worker : Type := mkV1Worker {
  v1w_Name : string;
  v1w_Labels : gmap string string;
  v1w_Resources : gmap string Z;
  v1w_SchedulingPaused : bool;
  v1w_LastSeen : Time
}.

Class V1Constants : Type := {
  OSDarwin : string;
  ArchitectureARM64 : string;
  RuntimeTart : string;
  RestartPolicyNever : string;
  V1StatusPending : string;
  V1StatusRunning : string;
  V1StatusFailed : string
}.

Class V1Client (W : Type) : Type := {
  V1Create : V1VM → M W (option error);
  V1GetVM : string → M W (result V1VM);
  V1ListVMs : M W (result (list V1VM));
  V1DeleteVM : string → M W (option error);
  V1ListWorkers : M W (result (list V1Worker));
  V1DeleteWorker : string → M W (option error);
  V1Check : M W (option error)
}.

(** ** Type conversions *)

Section Conversions.
Context `{V1Constants}.

Definition toV1VM (vm : VM) : V1VM :=
  {| v1_Name := vm_Name vm;
     v1_Image := vm_Image vm;
     v1_CPU := vm_CPU vm;
     v1_Memory := vm_Memory vm;
     v1_DiskSize := vm_DiskSize vm;
     v1_Headless := true;
     v1_Nested := vm_Nested vm;
     v1_Username := "admin";
     v1_Password := "admin";
     v1_OS := OSDarwin;
     v1_Arch := ArchitectureARM64;
     v1_Runtime := RuntimeTart;
     v1_RestartPolicy := RestartPolicyNever;
     v1_StartupScript :=
       match vm_StartupScript vm with
       | Some s => Some (ScriptContent s)
       | None => None
       end;
     v1_Labels := if decide (0 < size (vm_Labels vm)) then vm_Labels vm else ∅;
     v1_Status := EmptyString;
     v1_StatusMessage := EmptyString;
     v1_Worker := EmptyString;
     v1_CreatedAt := 0%Z |}.

Definition mapV1Status (s : string) : string :=
  if decide (s = V1StatusPending) then VMStatusCreating
  else if decide (s = V1StatusRunning) then VMStatusRunning
  else if decide (s = V1StatusFailed) then VMStatusFailed
  else s.

Definition fromV1Script (s : option string) : option VMScript :=
  match s with None => None | Some c => Some (mkVMScript c) end.

Definition fromV1VM (vm : V1VM) : VM :=
  {| vm_Name := v1_Name vm;
     vm_Image := v1_Image vm;
     vm_CPU := v1_CPU vm;
     vm_Memory := v1_Memory vm;
     vm_Nested := v1_Nested vm;
     vm_DiskSize := v1_DiskSize vm;
     vm_Status := mapV1Status (v1_Status vm);
     vm_StatusMessage := v1_StatusMessage vm;
     vm_Worker := v1_Worker vm;
     vm_StartupScript := fromV1Script (v1_StartupScript vm);
     vm_Labels := v1_Labels vm;
     vm_CreatedAt := v1_CreatedAt vm |}.

Definition fromV1Worker (w : V1Worker) : Worker :=
  {| w_Name := v1w_Name w;
     w_Labels := v1w_Labels w;
     w_Resources := v1w_Resources w;
     w_SchedulingPaused := v1w_SchedulingPaused w;
     w_LastSeen := v1w_LastSeen w |}.

Definition isNotFound (e : error) : bool :=
  match errors_as_api e with
  | Some code => (code =? 404)%Z
  | None => false
  end.

End Conversions.

Definition ErrNotFound : error := ErrorNew "not found".

(** ** [officialClient] *)

Section Official.
Context {W : Type} `{V1Constants} `{V1Client W}.

Definition official_CreateVM (vm : VM) : M W (result VM) :=
  let v1vm := toV1VM vm in
  err ← V1Create v1vm;
  match err with
  | Some e => mret (Err (Errorf_w "creating VM: %w" [] e))
  | None =>
      created ← V1GetVM (vm_Name vm);
      match created with
      | Err _ => mret (OK (fromV1VM v1vm))
      | OK created => mret (OK (fromV1VM created))
      end
  end.

Definition official_GetVM (name : string) : M W (result VM) :=
  r ← V1GetVM name;
  match r with
  | Err e => mret (Err (if isNotFound e then Errorf_w "VM %q: %w" [name] ErrNotFound
                        else Errorf_w "getting VM: %w" [] e))
  | OK vm => mret (OK (fromV1VM vm))
  end.

Definition official_ListVMs : M W (result (list VM)) :=
  r ← V1ListVMs;
  match r with
  | Err e => mret (Err (Errorf_w "listing VMs: %w" [] e))
  | OK v1vms => mret (OK (map fromV1VM v1vms))
  end.

Definition official_DeleteVM (name : string) : M W (option error) :=
  err ← V1DeleteVM name;
  match err with
  | None => mret None
  | Some e => if isNotFound e then mret None
              else mret (Some (Errorf_w "deleting VM: %w" [] e))
  end.

Definition official_ListWorkers : M W (result (list Worker)) :=
  r ← V1ListWorkers;
  match r with
  | Err e => mret (Err (Errorf_w "listing workers: %w" [] e))
  | OK v1workers => mret (OK (map fromV1Worker v1workers))
  end.

Definition official_DeleteWorker (name : string) : M W (option error) :=
  err ← V1DeleteWorker name;
  match err with
  | None => mret None
  | Some e => if isNotFound e then mret None
              else mret (Some (Errorf_w "deleting worker: %w" [] e))
  end.

Definition official_Ping : M W (option error) := V1Check.

Definition officialClient : OrchardClient W :=
  {| CreateVM := official_CreateVM;
     GetVM := official_GetVM;
     ListVMs := official_ListVMs;
     DeleteVM := official_DeleteVM;
     ListWorkers := official_ListWorkers;
     DeleteWorker := official_DeleteWorker;
     Ping := official_Ping |}.
End Official.

(** ** A recording client

    [Logged W] pairs the world with the list of mutating calls answered so far,
    in order, each with whether the controller accepted it.  It wraps any client, so a statement about [calls] is a statement
    about what the component asks of the controller. *)

Inductive Call : Type :=
  | CallCreateVM (vm : VM) (ok : bool)
  | CallDeleteVM (name : string) (ok : bool)
  | CallDeleteWorker (name : string) (ok : bool).

Definition accepted (c : Call) : bool :=
  match c with CallCreateVM _ ok | CallDeleteVM _ ok | CallDeleteWorker _ ok => ok end.

Definition is_OK {A} (r : result A) : bool := match r with OK _ => true | Err _ => false end.
Definition no_error (r : option error) : bool := match r with None => true | Some _ => false end.

Record Logged (W : Type) : Type := mkLogged { base : W; calls : list Call }.
Arguments mkLogged {W} _ _.
Arguments base {W} _.
Arguments calls {W} _.

Definition on_base {W A} (m : M W A) : M (Logged W) A :=
  zoom base (λ w l, mkLogged w (calls l)) m.
Definition record_call {W} (c : Call) : M (Logged W) unit :=
  modify (λ l, mkLogged (base l) (calls l ++ [c])).

(** Make a call and record it with its answer. *)
Definition recorded {W A} (m : M W A) (c : A → Call) : M (Logged W) A :=
  r ← on_base m;
  record_call (c r);;
  mret r.

#[export] Instance logged_client {W} `{OrchardClient W} : OrchardClient (Logged W) :=
  {| CreateVM := λ vm, recorded (CreateVM vm) (λ r, CallCreateVM vm (is_OK r));
     GetVM := λ n, on_base (GetVM n);
     ListVMs := on_base ListVMs;
     DeleteVM := λ n, recorded (DeleteVM n) (λ r, CallDeleteVM n (no_error r));
     ListWorkers := on_base ListWorkers;
     DeleteWorker := λ n, recorded (DeleteWorker n) (λ r, CallDeleteWorker n (no_error r));
     Ping := on_base Ping |}.

#[export] Instance logged_clock {W} `{Clock W} : Clock (Logged W) := on_base Now.
#[export] Instance logged_uuid {W} `{UUIDSource W} : UUIDSource (Logged W) :=
  on_base NewUUID.
