(* ===== verification/OrchardStore.v ===== *)
(** * The Orchard client as a store of VMs and workers

    What the other components expect of the [Client] interface
    ([orchard/client.go]), as an abstract store of VMs and of worker records with a
    result for every call, and that [officialClient] is one whenever the
    third-party client it wraps is: the wrapper turns "not found" into success,
    converts what it is given and what it gets, and answers a creation from the
    request when the VM cannot be read back.

    What is said of the third-party client ([V1Store]) is an assumption: a
    successful call has done what it was asked for, a failed one may or may not
    have (a request that times out can still take effect), the status 404 means
    that there is nothing of that name, and a listing is complete.  The store is
    as one caller sees it: nobody else changes it during a call. *)

From S2P Require Import Prelude GoBase Orchard.

(** What a VM is asked to be; the rest is filled in by the controller. *)
Record same_request (vm vm' : VM) : Prop := {
  same_Name : vm_Name vm' = vm_Name vm;
  same_Image : vm_Image vm' = vm_Image vm;
  same_CPU : vm_CPU vm' = vm_CPU vm;
  same_Memory : vm_Memory vm' = vm_Memory vm;
  same_Nested : vm_Nested vm' = vm_Nested vm;
  same_DiskSize : vm_DiskSize vm' = vm_DiskSize vm;
  same_Script : vm_StartupScript vm' = vm_StartupScript vm;
  same_Labels : vm_Labels vm' = vm_Labels vm
}.

(** The error [GetVM] has for a VM that is not there. *)
Definition vm_not_found (n : string) : error := Errorf_w "VM %q: %w" [n] ErrNotFound.

(** A listing of everything in a store, each under its own name. *)
Definition lists {W A} (name : A → string) (all : W → gmap string A)
    (m : M W (result (list A))) : Prop := ∀ w, wp m (returns (λ r w', all w' = all w ∧
  ∀ l, r = OK l → l ≡ₚ (map_to_list (all w)).*2 ∧ NoDup (name <$> l))) w.

(** A deletion from a store: done if there is no error, and perhaps even then.
    Deleting what is not there is no failure. *)
Definition deletes {W A} (all : W → gmap string A) (m : string → M W (option error))
    : Prop := ∀ n w, wp (m n) (returns (λ r w',
  match r with
  | None => all w' = delete n (all w)
  | Some _ => (all w' = all w ∨ all w' = delete n (all w))
  end)) w.

(** A client over the VMs [vms w] and the worker records [recs w] that the
    controller has. *)
Record ClientStore {W : Type} (C : OrchardClient W) (vms : W → gmap string VM)
    (recs : W → gmap string Worker) : Prop := {
  store_names : ∀ w, map_Forall (λ n vm, vm_Name vm = n) (vms w);
  store_create : ∀ vm w, wp (CreateVM vm) (returns (λ r w',
    let placed_as_asked := vms w !! vm_Name vm = None ∧
      ∃ placed, same_request vm placed ∧ vms w' = <[vm_Name vm := placed]> (vms w) in
    match r with
    | OK vm' => same_request vm vm' ∧ placed_as_asked
    | Err _ => vms w' = vms w ∨ placed_as_asked
    end)) w;
  store_get : ∀ n w, wp (GetVM n) (returns (λ r w', vms w' = vms w ∧
    match r with
    | OK vm => vms w !! n = Some vm
    | Err e => e = vm_not_found n → vms w !! n = None
    end)) w;
  store_list : lists vm_Name vms ListVMs;
  store_delete : deletes vms DeleteVM;
  store_workers : lists w_Name recs ListWorkers;
  store_delete_worker : deletes recs DeleteWorker
}.

(** ** The third-party client *)

(** What a request fixes of the VM that is created. *)
Record v1_same_request (v v' : V1VM) : Prop := {
  v1_same_Name : v1_Name v' = v1_Name v;
  v1_same_Image : v1_Image v' = v1_Image v;
  v1_same_CPU : v1_CPU v' = v1_CPU v;
  v1_same_Memory : v1_Memory v' = v1_Memory v;
  v1_same_DiskSize : v1_DiskSize v' = v1_DiskSize v;
  v1_same_Headless : v1_Headless v' = v1_Headless v;
  v1_same_Nested : v1_Nested v' = v1_Nested v;
  v1_same_Username : v1_Username v' = v1_Username v;
  v1_same_Password : v1_Password v' = v1_Password v;
  v1_same_OS : v1_OS v' = v1_OS v;
  v1_same_Arch : v1_Arch v' = v1_Arch v;
  v1_same_Runtime : v1_Runtime v' = v1_Runtime v;
  v1_same_RestartPolicy : v1_RestartPolicy v' = v1_RestartPolicy v;
  v1_same_Script : v1_StartupScript v' = v1_StartupScript v;
  v1_same_Labels : v1_Labels v' = v1_Labels v
}.

(** A deletion that answers 404 has found nothing to delete. *)
Definition v1_deletes {W A} (all : W → gmap string A) (m : string → M W (option error))
    : Prop := ∀ n w, wp (m n) (returns (λ r w',
  match r with
  | None => all w' = delete n (all w)
  | Some e => (isNotFound e = true → all w' = all w ∧ all w !! n = None) ∧
      (all w' = all w ∨ all w' = delete n (all w))
  end)) w.

Definition v1_lists {W A} (all : W → gmap string A) (m : M W (result (list A))) : Prop :=
  ∀ w, wp m (returns (λ r w', all w' = all w ∧
    ∀ l, r = OK l → l ≡ₚ (map_to_list (all w)).*2)) w.

Record V1Store {W : Type} `{!V1Client W} (store : W → gmap string V1VM)
    (records : W → gmap string V1Worker) : Prop := {
  v1_names : ∀ w, map_Forall (λ n v, v1_Name v = n) (store w);
  v1_worker_names : ∀ w, map_Forall (λ n v, v1w_Name v = n) (records w);
  v1_create : ∀ v w, wp (V1Create v) (returns (λ r w',
    let landed := store w !! v1_Name v = None ∧
      ∃ placed, v1_same_request v placed ∧ store w' = <[v1_Name v := placed]> (store w) in
    match r with None => landed | Some _ => store w' = store w ∨ landed end)) w;
  v1_get : ∀ n w, wp (V1GetVM n) (returns (λ r w', store w' = store w ∧
    match r with
    | OK v => store w !! n = Some v
    | Err e => isNotFound e = true → store w !! n = None
    end)) w;
  v1_list : v1_lists store V1ListVMs;
  v1_delete : v1_deletes store V1DeleteVM;
  v1_list_workers : v1_lists records V1ListWorkers;
  v1_delete_worker : v1_deletes records V1DeleteWorker
}.

Lemma names_of_listing {A} (name : A → string) (m : gmap string A) :
  map_Forall (λ n a, name a = n) m → name <$> (map_to_list m).*2 = (map_to_list m).*1.
Proof.
  intros Hm. rewrite <-list_fmap_compose. apply list_fmap_ext.
  intros i [n a] Hi. simpl. apply Hm, elem_of_map_to_list. by eapply list_elem_of_lookup_2.
Qed.

Section Wrapper.
Context {W : Type} `{!V1Constants, !V1Client W}.
Context (store : W → gmap string V1VM) (records : W → gmap string V1Worker).
Context (Hstore : V1Store store records).

Definition reported_vms (w : W) : gmap string VM := fromV1VM <$> store w.
Definition reported_workers (w : W) : gmap string Worker := fromV1Worker <$> records w.

Lemma same_request_from v v' : v1_same_request v v' → same_request (fromV1VM v) (fromV1VM v').
Proof. intros []. constructor; simpl; congruence. Qed.

(** The request survives its conversion. *)
Lemma same_request_to vm : same_request vm (fromV1VM (toV1VM vm)).
Proof.
  constructor; simpl; try done.
  - by destruct (vm_StartupScript vm) as [[]|].
  - case_decide as Hl; [done|]. symmetry. apply map_size_empty_iff. lia.
Qed.

Lemma same_request_trans a b c : same_request a b → same_request b c → same_request a c.
Proof. intros [] []. constructor; congruence. Qed.

(** A creation that landed, seen through the wrapper: what was asked for is there,
    and so is what the wrapper asks for every VM. *)
Lemma landed_as_asked vm w w' :
  (store w !! vm_Name vm = None ∧ ∃ placed, v1_same_request (toV1VM vm) placed ∧
     store w' = <[vm_Name vm := placed]> (store w)) →
  reported_vms w !! vm_Name vm = None ∧ ∃ placed, same_request vm placed ∧
    reported_vms w' = <[vm_Name vm := placed]> (reported_vms w).
Proof.
  intros (Hnone & placed & Hsame & Hw). unfold reported_vms.
  split; [by rewrite lookup_fmap, Hnone|]. exists (fromV1VM placed).
  split; [|by rewrite Hw, fmap_insert].
  eapply same_request_trans; [apply same_request_to|]. by apply same_request_from.
Qed.

Lemma wrapper_create vm w : wp (official_CreateVM vm) (returns (λ r w',
    let placed_as_asked := reported_vms w !! vm_Name vm = None ∧
      ∃ placed, same_request vm placed ∧
        reported_vms w' = <[vm_Name vm := placed]> (reported_vms w) in
    match r with
    | OK vm' => same_request vm vm' ∧ placed_as_asked
    | Err _ => reported_vms w' = reported_vms w ∨ placed_as_asked
    end)) w.
Proof.
  unfold official_CreateVM. apply wp_bind.
  eapply wp_mono; [apply (v1_create _ _ Hstore)|].
  intros [[e|]| |] w1; simpl; [| |done..].
  { intros Hw. apply wp_ret. simpl. unfold reported_vms at 1 2.
    destruct Hw as [->|Hl]; [by left|right; by apply landed_as_asked]. }
  intros Hl. apply wp_bind. eapply wp_mono; [apply (v1_get _ _ Hstore)|].
  intros [[v|e]| |] w2; simpl; [| |done..]; intros [Hw2 Hv]; apply wp_ret; simpl;
    unfold reported_vms; rewrite Hw2; (split; [|by apply landed_as_asked]).
  - destruct Hl as (_ & placed & Hsame & Hw1). rewrite Hw1, lookup_insert_eq in Hv.
    injection Hv as <-. eapply same_request_trans; [apply same_request_to|].
    by apply same_request_from.
  - apply same_request_to.
Qed.

Lemma wrapper_get n w : wp (official_GetVM n) (returns (λ r w', reported_vms w' = reported_vms w ∧
    match r with
    | OK vm => reported_vms w !! n = Some vm
    | Err e => e = vm_not_found n → reported_vms w !! n = None
    end)) w.
Proof.
  unfold official_GetVM, reported_vms. apply wp_bind.
  eapply wp_mono; [apply (v1_get _ _ Hstore)|].
  intros [[v|e]| |] w1; simpl; [| |done..]; intros [Hw1 Hv]; apply wp_ret;
    (split; [by rewrite Hw1|]); rewrite lookup_fmap; [by rewrite Hv|].
  destruct (isNotFound e); [|done]. intros _. by rewrite Hv.
Qed.

(** Listings and deletions are wrapped the same way for VMs and for workers. *)
Lemma wrap_list {A B} (f : A → B) nameA nameB (all : W → gmap string A) m msg :
  v1_lists all m → (∀ a, nameB (f a) = nameA a) →
  (∀ w, map_Forall (λ n a, nameA a = n) (all w)) →
  lists nameB (λ w, f <$> all w) (r ← m;
    match r with
    | Err e => mret (Err (Errorf_w msg [] e))
    | OK l => mret (OK (map f l))
    end).
Proof.
  intros Hm Hname Hall w. apply wp_bind. eapply wp_mono; [apply Hm|].
  intros [[l|e]| |] w1; simpl; [| |done..]; intros [Hw1 Hl]; apply wp_ret;
    (split; [by rewrite Hw1|]); [|done]. intros l' [= <-]. specialize (Hl l eq_refl).
  change (map f l) with (f <$> l).
  assert (f <$> l ≡ₚ (map_to_list (f <$> all w)).*2) as Hp.
  { rewrite Hl, map_to_list_fmap, <-!list_fmap_compose. done. }
  split; [exact Hp|]. rewrite Hp, names_of_listing; [apply NoDup_fst_map_to_list|].
  apply map_Forall_fmap. intros k a Hk. simpl. rewrite Hname. by apply (Hall w).
Qed.

Lemma wrap_delete {A B} (f : A → B) (all : W → gmap string A) m msg :
  v1_deletes all m →
  deletes (λ w, f <$> all w) (λ n, err ← m n;
    match err with
    | None => mret None
    | Some e => if isNotFound e then mret None else mret (Some (Errorf_w msg [] e))
    end).
Proof.
  intros Hm n w. apply wp_bind. eapply wp_mono; [apply Hm|].
  intros [[e|]| |] w1; simpl; [| |done..].
  - intros [Hno Hor]. destruct (isNotFound e); apply wp_ret; simpl.
    + destruct (Hno eq_refl) as [-> Hnone]. symmetry. apply delete_id.
      by rewrite lookup_fmap, Hnone.
    + destruct Hor as [-> | ->]; [by left|right; apply fmap_delete].
  - intros Hw. apply wp_ret. simpl. rewrite Hw. apply fmap_delete.
Qed.

(** C12: the client the program is run with implements the interface its components
    rely on.  On a third-party client that keeps a store of VMs and of worker
    records, and whose failed calls may or may not have taken effect,
    [officialClient] is such a store too: a creation that succeeds adds the VM with
    everything that was asked for (image, sizes, disk, nesting, script and labels),
    and answers with it even if it cannot be read back; deleting what is gone
    succeeds; a failed call has changed nothing or has done just what it was asked
    for; and a listing has every VM and every worker once, under its own name.
    Every VM it creates is a headless macOS one that is never restarted. *)
Theorem official_client_refines :
  ClientStore officialClient reported_vms reported_workers ∧
  ∀ vm w, wp (official_CreateVM vm) (on_ret (λ r w', is_OK r = true →
    ∃ v, store w' !! vm_Name vm = Some v ∧ same_request vm (fromV1VM v) ∧
      v1_Headless v = true ∧ v1_OS v = OSDarwin ∧ v1_Arch v = ArchitectureARM64 ∧
      v1_Runtime v = RuntimeTart ∧ v1_RestartPolicy v = RestartPolicyNever)) w.
Proof.
  split.
  - constructor.
    + intros w. apply map_Forall_fmap. intros k v Hk. by apply (v1_names _ _ Hstore w k v).
    + apply wrapper_create.
    + apply wrapper_get.
    + eapply wrap_list; [apply (v1_list _ _ Hstore)|done|apply (v1_names _ _ Hstore)].
    + apply wrap_delete, (v1_delete _ _ Hstore).
    + eapply wrap_list; [apply (v1_list_workers _ _ Hstore)|done|
        apply (v1_worker_names _ _ Hstore)].
    + apply wrap_delete, (v1_delete_worker _ _ Hstore).
  - intros vm w. unfold official_CreateVM. apply wp_bind.
    eapply wp_mono; [apply (v1_create _ _ Hstore)|].
    intros [[e|]| |] w1; simpl; [intros _; by apply wp_ret| |done..].
    intros (_ & v & Hsame & Hw1). apply wp_bind. eapply wp_mono; [apply (v1_get _ _ Hstore)|].
    intros o w2 Hget. assert (store w2 !! vm_Name vm = Some v →
      ∃ v, store w2 !! vm_Name vm = Some v ∧ same_request vm (fromV1VM v) ∧
      v1_Headless v = true ∧ v1_OS v = OSDarwin ∧ v1_Arch v = ArchitectureARM64 ∧
      v1_Runtime v = RuntimeTart ∧ v1_RestartPolicy v = RestartPolicyNever) as Hend.
    { intros Hv. exists v. split; [done|]. split.
      - eapply same_request_trans; [apply same_request_to|]. by apply same_request_from.
      - by destruct Hsame. }
    destruct o as [[v'|e]| |]; simpl in Hget |- *; [| |done..]; destruct Hget as [Hw2 _];
      apply wp_ret; intros _; apply Hend; by rewrite Hw2, Hw1, lookup_insert_eq.
Qed.
End Wrapper.

(** ** Witness *)

(** The VMs asked for, none of which is ever placed on a worker, and the worker
    records; [lossy] says that the answers to requests get lost. *)
Record FakeV1 : Type := mkFake {
  fake_vms : gmap string V1VM;
  fake_records : gmap string V1Worker;
  lossy : bool
}.

#[local] Instance fake_constants : V1Constants :=
  {| OSDarwin := "darwin"; ArchitectureARM64 := "arm64"; RuntimeTart := "tart";
     RestartPolicyNever := "Never"; V1StatusPending := "pending";
     V1StatusRunning := "running"; V1StatusFailed := "failed" |}.

Definition fake_pending (n : string) (v : V1VM) : V1VM :=
  {| v1_Name := n; v1_Image := v1_Image v; v1_CPU := v1_CPU v;
     v1_Memory := v1_Memory v; v1_DiskSize := v1_DiskSize v; v1_Headless := v1_Headless v;
     v1_Nested := v1_Nested v; v1_Username := v1_Username v; v1_Password := v1_Password v;
     v1_OS := v1_OS v; v1_Arch := v1_Arch v; v1_Runtime := v1_Runtime v;
     v1_RestartPolicy := v1_RestartPolicy v; v1_StartupScript := v1_StartupScript v;
     v1_Labels := v1_Labels v; v1_Status := "pending"; v1_StatusMessage := EmptyString;
     v1_Worker := EmptyString; v1_CreatedAt := 5%Z |}.

Definition fake_store (m : FakeV1) : gmap string V1VM :=
  map_imap (λ n v, Some (fake_pending n v)) (fake_vms m).
Definition fake_workers (m : FakeV1) : gmap string V1Worker :=
  map_imap (λ n v, Some {| v1w_Name := n; v1w_Labels := v1w_Labels v;
    v1w_Resources := v1w_Resources v; v1w_SchedulingPaused := v1w_SchedulingPaused v;
    v1w_LastSeen := v1w_LastSeen v |}) (fake_records m).

Definition fake_answer (m : FakeV1) : option error :=
  if lossy m then Some (APIError 504) else None.

#[local] Instance fake_v1 : V1Client FakeV1 :=
  {| V1Create := λ v, state_fn (λ m, match fake_store m !! v1_Name v with
       | None => (fake_answer m,
                  mkFake (<[v1_Name v := v]> (fake_vms m)) (fake_records m) (lossy m))
       | Some _ => (Some (APIError 409), m)
       end);
     V1GetVM := λ n, read (λ m, match fake_store m !! n with
       | Some v => OK v
       | None => Err (APIError 404)
       end);
     V1ListVMs := read (λ m, OK (map_to_list (fake_store m)).*2);
     V1DeleteVM := λ n, state_fn (λ m, match fake_store m !! n with
       | Some _ => (fake_answer m, mkFake (delete n (fake_vms m)) (fake_records m) (lossy m))
       | None => (Some (APIError 404), m)
       end);
     V1ListWorkers := read (λ m, OK (map_to_list (fake_workers m)).*2);
     V1DeleteWorker := λ n, state_fn (λ m, match fake_workers m !! n with
       | Some _ => (fake_answer m, mkFake (fake_vms m) (delete n (fake_records m)) (lossy m))
       | None => (Some (APIError 404), m)
       end);
     V1Check := mret None |}.

Lemma fake_names {A B} (f : string → A → B) (name : B → string) (m : gmap string A) :
  (∀ n a, name (f n a) = n) →
  map_Forall (λ n b, name b = n) (map_imap (λ n a, Some (f n a)) m).
Proof.
  intros Hf n b Hb. rewrite map_lookup_imap in Hb. by apply bind_Some in Hb as (a & _ & [= <-]).
Qed.

Lemma fake_is_store : V1Store fake_store fake_workers.
Proof.
  constructor.
  - intros m. by apply fake_names.
  - intros m. by apply (fake_names (λ n v, {| v1w_Name := n |})).
  - intros v m. unfold wp, V1Create, fake_v1, state_fn, fake_answer.
    destruct (fake_store m !! v1_Name v) eqn:Hn; simpl; [by left|].
    set (landed := _ ∧ _). assert landed as Hl; [|by destruct (lossy m); [right|]].
    split; [done|]. exists (fake_pending (v1_Name v) v). split; [by constructor|].
    apply (map_imap_insert (λ n v, Some (fake_pending n v)) (v1_Name v) v (fake_vms m)).
  - intros n m. unfold wp, V1GetVM, fake_v1, read. simpl. split; [done|].
    by destruct (fake_store m !! n) eqn:Hn.
  - intros m. unfold wp, V1ListVMs, fake_v1, read. simpl. split; [done|]. by intros l [= <-].
  - intros n m. unfold wp, V1DeleteVM, fake_v1, state_fn, fake_answer.
    destruct (fake_store m !! n) eqn:Hn; simpl; [|by split; [|left]].
    destruct (lossy m); simpl; [split; [done|right]|]; apply map_imap_delete.
  - intros m. unfold wp, V1ListWorkers, fake_v1, read. simpl. split; [done|]. by intros l [= <-].
  - intros n m. unfold wp, V1DeleteWorker, fake_v1, state_fn, fake_answer.
    destruct (fake_workers m !! n) eqn:Hn; simpl; [|by split; [|left]].
    destruct (lossy m); simpl; [split; [done|right]|]; apply map_imap_delete.
Qed.

Definition wanted : VM :=
  {| vm_Name := "gha-orchard-large-0a0a0a0a"; vm_Image := "macos"; vm_CPU := 4%Z;
     vm_Memory := 8192%Z; vm_Nested := false; vm_DiskSize := 0%Z;
     vm_Status := EmptyString; vm_StatusMessage := EmptyString; vm_Worker := EmptyString;
     vm_StartupScript := Some (mkVMScript "./run.sh"); vm_Labels := ∅;
     vm_CreatedAt := 0%Z |}.

(** Deleted twice, without an error; and, when the answer is lost, created in spite
    of one. *)
Lemma official_client_refines_witness :
  (official_CreateVM wanted;; official_DeleteVM "gha-orchard-large-0a0a0a0a";;
   official_DeleteVM "gha-orchard-large-0a0a0a0a") (mkFake ∅ ∅ false)
    = (Ret None, mkFake ∅ ∅ false) ∧
  (official_CreateVM wanted (mkFake ∅ ∅ true)).1
    = Ret (Err (Errorf_w "creating VM: %w" [] (APIError 504))) ∧
  ClientStore officialClient (reported_vms fake_store) (reported_workers fake_workers).
Proof.
  split; [by vm_compute|]. split; [by vm_compute|].
  apply (official_client_refines fake_store fake_workers). apply fake_is_store.
Defined.
