(* ===== verification/VMNames.v ===== *)
(** * VM names and the startup script ([bridge/vm.go]) *)

From S2P Require Import Prelude GoBase Orchard.

Definition vmNamePrefix : string := "gha-orchard-".

(** [IsManagedVM]: the name carries the bridge's prefix. *)
Definition IsManagedVM (name : string) : bool := HasPrefix name vmNamePrefix.

(** The class [[a-z0-9-]] that [nonAlphanumHyphen] negates. *)
Definition name_rune (r : N) : bool :=
  (((97 <=? r) && (r <=? 122)) || ((48 <=? r) && (r <=? 57)) || (r =? 45))%N.

(** [nonAlphanumHyphen.ReplaceAllString(s, "-")] on the runes of [s]. *)
Fixpoint ReplaceNonAlphanumHyphen (rs : list N) : string :=
  match rs with
  | [] => EmptyString
  | r :: rs => String (if name_rune r then mk_byte r else hyphen)
                      (ReplaceNonAlphanumHyphen rs)
  end.

(** The three sanitising steps: [ToLower], the replacement, [Trim]. *)
Definition sanitize (scaleSetName : string) : string :=
  TrimByte (ReplaceNonAlphanumHyphen (map rune_to_lower (runes scaleSetName))) hyphen.

Definition VMNamePrefixForScaleSet (scaleSetName : string) : string :=
  vmNamePrefix +:+ sanitize scaleSetName +:+ "-".

(** [VMName] after the draw of [short]: at most 63 bytes, and no trailing
    hyphen when the name had to be cut. *)
Definition vm_name_of (scaleSetName short : string) : string :=
  let name := VMNamePrefixForScaleSet scaleSetName +:+ short in
  if 63 <? len name then TrimRightByte (slice_to 63 name) hyphen else name.

(** [uuid.New().String()[:8]] panics on a string shorter than 8 bytes. *)
Definition VMName {W} `{UUIDSource W} (scaleSetName : string) : M W string :=
  uuid ← NewUUID;
  if len uuid <? 8 then panic
  else mret (vm_name_of scaleSetName (slice_to 8 uuid)).

(** A Go raw string literal, with its double quotes written as backquotes
    (which a raw literal cannot contain). *)
Fixpoint raw (s : string) : string :=
  match s with
  | EmptyString => EmptyString
  | String c s => String (if bool_decide (c = mk_byte 96) then mk_byte 34 else c) (raw s)
  end.

Definition dockerSetup (dockerPort : Z) : string :=
  if decide (0 < dockerPort)%Z
  then raw "
# Install Docker CLI and connect to host Docker daemon via TCP
# stdin must be redirected: Orchard pipes the script to bash, and brew
# would otherwise consume the remaining script lines from stdin.
brew install docker docker-compose docker-buildx < /dev/null

# Register Compose/Buildx as Docker CLI plugins (brew installs them outside
# the default plugin search path).
mkdir -p ~/.docker
echo '{`cliPluginsExtraDirs`:[`/opt/homebrew/lib/docker/cli-plugins`]}' > ~/.docker/config.json

DOCKER_HOST_IP=$(route -n get default | awk '/gateway:/ {print $2}')
export DOCKER_HOST=`tcp://${DOCKER_HOST_IP}:"
    +:+ pretty dockerPort
    +:+ raw "`
"
  else EmptyString.

Definition StartupScript (jitConfig : string) (dockerPort : Z) : string :=
  raw "#!/bin/bash
set -euo pipefail

export ACTIONS_RUNNER_INPUT_JITCONFIG=`"
  +:+ jitConfig
  +:+ raw "`

source ~/.zprofile
"
  +:+ dockerSetup dockerPort
  +:+ raw "
# Download the latest GitHub Actions runner to avoid version deprecation.
DOWNLOAD_URL=$(curl -sS 'https://api.github.com/repos/actions/runner/releases/latest' \
  | grep -o '`browser_download_url`: *`[^`]*actions-runner-osx-arm64-[0-9.]*\.tar\.gz`' \
  | cut -d'`' -f4)

RUNNER_DIR=`$HOME/actions-runner`
rm -rf `$RUNNER_DIR` && mkdir -p `$RUNNER_DIR` && cd `$RUNNER_DIR`
curl -sL `$DOWNLOAD_URL` | tar xz

./run.sh
".

(** ** Lemmas *)

(** The bytes a DNS label may contain, and the lower-case hexadecimal digits. *)
Definition safe_byte (c : byte) : Prop := name_rune (byte_val c) = true.
Definition hex_digit (c : byte) : Prop :=
  (48 ≤ byte_val c ≤ 57 ∨ 97 ≤ byte_val c ≤ 102)%N.

Lemma safe_byte_hyphen : safe_byte hyphen.
Proof. done. Qed.

Lemma hex_digit_safe c : hex_digit c → safe_byte c.
Proof.
  unfold hex_digit, safe_byte, name_rune. intros H.
  rewrite !orb_true_iff, !andb_true_iff, !N.leb_le. lia.
Qed.

Lemma hex_digit_not_hyphen c : hex_digit c → c ≠ hyphen.
Proof. intros H ->. unfold hex_digit in H. simpl in H. lia. Qed.

Lemma name_rune_byte r : name_rune r = true → byte_val (mk_byte r) = r.
Proof.
  unfold name_rune. rewrite !orb_true_iff, !andb_true_iff, !N.leb_le, N.eqb_eq.
  intros. apply Ascii.N_ascii_embedding. lia.
Qed.

Lemma replace_safe rs : all_bytes safe_byte (ReplaceNonAlphanumHyphen rs).
Proof.
  induction rs as [|r rs IH]; simpl; [done|]. split; [|done].
  destruct (name_rune r) eqn:Hr; [|done].
  unfold safe_byte. by rewrite name_rune_byte.
Qed.

Lemma sanitize_safe name : all_bytes safe_byte (sanitize name).
Proof. apply all_bytes_TrimByte, replace_safe. Qed.

Lemma prefix_safe name : all_bytes safe_byte (VMNamePrefixForScaleSet name).
Proof.
  unfold VMNamePrefixForScaleSet. rewrite !all_bytes_app.
  split; [|split; [apply sanitize_safe|done]].
  by repeat (split; [done|]).
Qed.

Lemma prefix_len name : len (VMNamePrefixForScaleSet name) = 13 + len (sanitize name).
Proof. unfold VMNamePrefixForScaleSet. rewrite !len_app. simpl. lia. Qed.

Lemma prefix_inj a b :
  VMNamePrefixForScaleSet a = VMNamePrefixForScaleSet b ↔ sanitize a = sanitize b.
Proof.
  unfold VMNamePrefixForScaleSet. split; [|by intros ->].
  intros H%app_inj_l. by apply (last_byte_split hyphen _ EmptyString _ EmptyString) in H as [].
Qed.

Lemma prefix_managed name t : IsManagedVM (VMNamePrefixForScaleSet name +:+ t) = true.
Proof.
  unfold IsManagedVM, VMNamePrefixForScaleSet.
  rewrite app_assoc_str. apply HasPrefix_app.
Qed.

(** When nothing has to be cut, the name is prefix and suffix. *)
Lemma vm_name_uncut name short :
  len (sanitize name) ≤ 42 → len short = 8 →
  vm_name_of name short = VMNamePrefixForScaleSet name +:+ short.
Proof.
  intros Hs Hlen. unfold vm_name_of.
  destruct (63 <? _) eqn:H; [|done].
  apply Nat.ltb_lt in H. rewrite len_app, prefix_len in H. lia.
Qed.

(** When something is cut, the part kept still starts with the prefix and a
    byte that trimming cannot remove. *)
Lemma vm_name_cut name short :
  42 < len (sanitize name) → len short = 8 →
  ∃ d t, vm_name_of name short = vmNamePrefix +:+ TrimRightByte (String d t) hyphen
    ∧ d ≠ hyphen
    ∧ String d t = slice_to 51 (sanitize name +:+ "-" +:+ short).
Proof.
  intros Hs Hlen. unfold vm_name_of.
  destruct (63 <? _) eqn:H.
  2:{ apply Nat.ltb_ge in H. rewrite len_app, prefix_len in H. lia. }
  unfold VMNamePrefixForScaleSet. rewrite !app_assoc_str.
  rewrite (slice_to_app_ge 63 vmNamePrefix) by (simpl; lia).
  change (63 - len vmNamePrefix) with 51.
  destruct (TrimByte_head (ReplaceNonAlphanumHyphen
    (map rune_to_lower (runes name))) hyphen) as [E|(d & t & E & Hd)];
    fold (sanitize name) in E; [by rewrite E in Hs; simpl in Hs; lia|].
  rewrite E. simpl (String d t +:+ _).
  exists d, (slice_to 50 (t +:+ "-" +:+ short)). split; [|done].
  simpl slice_to. rewrite TrimRightByte_app_keep; [done|].
  by apply TrimRightByte_cons_ne.
Qed.

(** What a Kubernetes label value needs: 1 to 63 bytes of [a-z0-9-], not
    starting or ending with a hyphen. *)
Definition label_safe (n : string) : Prop :=
  0 < len n ≤ 63 ∧ all_bytes safe_byte n ∧ HasPrefix n "-" = false ∧
  ends_with n hyphen = false.

Lemma label_safe_uncut name short :
  len (sanitize name) ≤ 42 → len short = 8 → all_bytes hex_digit short →
  label_safe (VMNamePrefixForScaleSet name +:+ short).
Proof.
  intros Hs Hlen Hhex. unfold label_safe. rewrite len_app, prefix_len, all_bytes_app.
  split_and!; try lia.
  - apply prefix_safe.
  - eapply all_bytes_mono; [apply hex_digit_safe|done].
  - done.
  - rewrite ends_with_app by (by intros ->).
    apply ends_with_all_bytes. eapply all_bytes_mono; [apply hex_digit_not_hyphen|done].
Qed.

Lemma label_safe_cut name short :
  42 < len (sanitize name) → len short = 8 → all_bytes hex_digit short →
  label_safe (vm_name_of name short).
Proof.
  intros Hs Hlen Hhex.
  destruct (vm_name_cut name short Hs Hlen) as (d & t & -> & Hd & Ht).
  assert (all_bytes safe_byte (String d t)) as Hsafe.
  { rewrite Ht. destruct (slice_to_prefix 51 (sanitize name +:+ "-" +:+ short)) as [u Hu].
    assert (all_bytes safe_byte (sanitize name +:+ "-" +:+ short)) as Hall.
    { rewrite !all_bytes_app. split; [apply sanitize_safe|split; [done|]].
      eapply all_bytes_mono; [apply hex_digit_safe|done]. }
    rewrite Hu in Hall. by apply all_bytes_app in Hall as [Hall _]. }
  unfold label_safe. rewrite len_app, all_bytes_app. split_and!; [| |..|done|].
  - simpl (len vmNamePrefix). lia.
  - pose proof (TrimRightByte_len (String d t) hyphen) as Hle.
    rewrite Ht, slice_to_len in Hle. rewrite <-Ht in Hle. simpl (len vmNamePrefix). lia.
  - by repeat (split; [done|]).
  - destruct (TrimRightByte_prefix (String d t) hyphen) as [u Hu].
    rewrite Hu in Hsafe. by apply all_bytes_app in Hsafe as [Hsafe _].
  - rewrite ends_with_app by (by apply TrimRightByte_cons_ne).
    apply ends_with_TrimRightByte.
Qed.

Lemma vm_name_managed name short :
  len short = 8 → IsManagedVM (vm_name_of name short) = true.
Proof.
  intros Hlen. destruct (decide (len (sanitize name) ≤ 42)) as [Hs|Hs].
  - rewrite vm_name_uncut by done. apply prefix_managed.
  - destruct (vm_name_cut name short ltac:(lia) Hlen) as (d & t & -> & _).
    apply HasPrefix_app.
Qed.

(** What the bridge relies on from [google/uuid]: the first eight bytes of the
    textual form are hexadecimal digits. *)
Definition uuid_text (u : string) : Prop :=
  8 ≤ len u ∧ all_bytes hex_digit (slice_to 8 u).

(** ** Properties *)

(** Whatever the scale set is called, [VMName] returns (it never
    panics on the slice of the UUID) a name that is managed and safe as a
    Kubernetes label: 1 to 63 bytes of [a-z0-9-], no hyphen at either end. *)
Lemma VMName_label_safe {W} `{UUIDSource W} (scaleSetName : string) (w : W) :
  wp NewUUID (returns (λ u _, uuid_text u)) w →
  wp (VMName scaleSetName)
     (returns (λ n _, label_safe n ∧ IsManagedVM n = true)) w.
Proof.
  intros Huuid. unfold VMName. apply wp_bind. eapply wp_mono; [exact Huuid|].
  intros [u| |] w'; simpl; [|done..]. intros [Hlen Hhex].
  destruct (len u <? 8) eqn:E; [apply Nat.ltb_lt in E; lia|].
  assert (len (slice_to 8 u) = 8) as Hshort by (rewrite slice_to_len; lia).
  apply wp_ret. simpl. split; [|by apply vm_name_managed].
  destruct (decide (len (sanitize scaleSetName) ≤ 42)).
  - rewrite vm_name_uncut by done. by apply label_safe_uncut.
  - apply label_safe_cut; [lia|done..].
Qed.

(** C37: once the sanitised scale set name reaches 50 bytes, cutting at 63
    removes the whole random suffix: two VMs of the scale set get one name, and
    that name does not carry the prefix the scale set is recognised by. *)
Theorem VMName_cut_loses_suffix (scaleSetName short short' : string) :
  50 ≤ len (sanitize scaleSetName) → len short = 8 → len short' = 8 →
  vm_name_of scaleSetName short = vm_name_of scaleSetName short' ∧
  HasPrefix (vm_name_of scaleSetName short)
            (VMNamePrefixForScaleSet scaleSetName) = false.
Proof.
  intros Hs H1 H2.
  assert (∀ sh, len sh = 8 → vm_name_of scaleSetName sh =
    TrimRightByte (slice_to 63 (VMNamePrefixForScaleSet scaleSetName)) hyphen) as Hcut.
  { intros sh Hsh. unfold vm_name_of.
    destruct (63 <? _) eqn:E.
    - rewrite slice_to_app_le; [done|]. rewrite prefix_len. lia.
    - apply Nat.ltb_ge in E. rewrite len_app, prefix_len in E. lia. }
  split; [by rewrite !Hcut|]. rewrite Hcut by done.
  apply not_true_is_false. intros [t Ht]%HasPrefix_spec.
  pose proof (prefix_len scaleSetName) as Hlen.
  pose proof (TrimRightByte_len
    (slice_to 63 (VMNamePrefixForScaleSet scaleSetName)) hyphen) as Hle.
  rewrite slice_to_len, Ht, len_app in Hle.
  assert (len (sanitize scaleSetName) = 50 ∧ t = EmptyString) as [Heq ->].
  { split; [lia|]. assert (len t = 0) by lia. by destruct t. }
  rewrite app_nil_r_str in Ht.
  pose proof (ends_with_TrimRightByte
    (slice_to 63 (VMNamePrefixForScaleSet scaleSetName)) hyphen) as He.
  rewrite Ht in He. unfold VMNamePrefixForScaleSet in He.
  rewrite <-app_assoc_str, ends_with_app in He by done. done.
Qed.

(** ** Witnesses *)

(** A source that counts its draws. *)
#[local] Instance counting_uuids : UUIDSource nat :=
  λ n, (Ret "01234567-89ab-cdef-0123-456789abcdef", S n).

Lemma VMName_label_safe_witness :
  wp (VMName "Test Scale Set!!")
     (returns (λ n _, label_safe n ∧ IsManagedVM n = true)) 0.
Proof.
  apply VMName_label_safe. unfold wp, returns, uuid_text. simpl.
  split; [lia|]. unfold hex_digit. simpl. lia.
Defined.

Definition long_name : string :=
  "macos-tahoe-xcode-26-4-with-nested-virtualisation-large".

Lemma VMName_cut_loses_suffix_witness :
  vm_name_of long_name "01234567" = vm_name_of long_name "89abcdef" ∧
  HasPrefix (vm_name_of long_name "01234567")
            (VMNamePrefixForScaleSet long_name) = false.
Proof.
  apply VMName_cut_loses_suffix; [|done..].
  assert (len (sanitize long_name) = 55) as -> by (vm_compute; reflexivity). lia.
Defined.
