(* ===== verification/Workers.v ===== *)
(** * Worker liveness, label matching and slot counting

    [bridge/worker.go], and the label and capacity predicates of
    [bridge/cleanup.go], [bridge/stateview.go] and [manager/manager.go]. *)

From S2P Require Import Prelude GoBase Orchard.

(** ** Liveness ([bridge/worker.go], [config/config.go]) *)

Definition DefaultWorkerStaleAfter : Duration := (2 * Minute)%Z.

Definition WorkerLive (w : Worker) (staleAfter : Duration) (now : Time) : bool :=
  if (staleAfter <=? 0)%Z then true
  else if IsZero (w_LastSeen w) then true
  else (Sub now (w_LastSeen w) <=? staleAfter)%Z.

Fixpoint LiveWorkers (workers : list Worker) (staleAfter : Duration) (now : Time)
    : list Worker :=
  match workers with
  | [] => []
  | w :: workers =>
      if negb (WorkerLive w staleAfter now) then LiveWorkers workers staleAfter now
      else w :: LiveWorkers workers staleAfter now
  end.

(** ** Label matching

    [for k, v := range want { if have[k] != v { return false } }; return true].
    The same loop is written three times in the source.  The order in which the
    map is ranged over does not matter to the result. *)

Definition labels_match (have want : gmap string string) : bool :=
  bool_decide (map_Forall (λ k v, str_at have k = v) want).

Definition workerMatchesLabels (w : Worker) (vmLabels : gmap string string) : bool :=
  labels_match (w_Labels w) vmLabels.

Definition labelsSuperset (have want : gmap string string) : bool :=
  labels_match have want.

Definition workerMatchesAllLabels (w : Worker) (want : gmap string string) : bool :=
  labels_match (w_Labels w) want.

(** ** Slots *)

Definition resourceTartVMs : string := "org.cirruslabs.tart-vms".

(** [if n, ok := w.Resources[resourceTartVMs]; ok { total += int(n) }]. *)
Definition add_slots (total : Z) (w : Worker) : Z :=
  match w_Resources w !! resourceTartVMs with
  | Some n => int64 (total + int64 n)
  | None => total
  end.

Fixpoint CapacityForLabels_from (total : Z) (workers : list Worker)
    (vmLabels : gmap string string) : Z :=
  match workers with
  | [] => total
  | w :: workers =>
      if w_SchedulingPaused w then CapacityForLabels_from total workers vmLabels
      else if negb (workerMatchesLabels w vmLabels)
      then CapacityForLabels_from total workers vmLabels
      else CapacityForLabels_from (add_slots total w) workers vmLabels
  end.

Definition CapacityForLabels (workers : list Worker) (vmLabels : gmap string string) : Z :=
  CapacityForLabels_from 0 workers vmLabels.

(** The total that [pushMaxCapacity] hands to [SetMax]. *)
Fixpoint total_slots_from (total : Z) (workers : list Worker) : Z :=
  match workers with
  | [] => total
  | w :: workers =>
      if w_SchedulingPaused w then total_slots_from total workers
      else total_slots_from (add_slots total w) workers
  end.

Definition total_slots (workers : list Worker) : Z := total_slots_from 0 workers.

(** The total that [discoverCapacity] reports at start-up. *)
Fixpoint discovered_slots_from (total : Z) (workers : list Worker) : Z :=
  match workers with
  | [] => total
  | w :: workers => discovered_slots_from (add_slots total w) workers
  end.

Definition discovered_slots (workers : list Worker) : Z := discovered_slots_from 0 workers.

(** ** The reference: a plain sum over the workers that qualify *)

Definition slots (w : Worker) : Z := default 0%Z (w_Resources w !! resourceTartVMs).

Fixpoint sum_slots (P : Worker → bool) (workers : list Worker) : Z :=
  match workers with
  | [] => 0
  | w :: workers => (if P w then slots w else 0) + sum_slots P workers
  end%Z.

Definition unpaused (w : Worker) : bool := negb (w_SchedulingPaused w).

(** Slot counts as a controller reports them: [uint64] values whose sum over
    the fleet is an [int]. *)
Definition slots_ok (workers : list Worker) : Prop :=
  Forall (λ w, 0 ≤ slots w)%Z workers ∧ (sum_slots (λ _, true) workers < two63)%Z.

(** ** Lemmas *)

Lemma elem_of_LiveWorkers w workers stale now :
  w ∈ LiveWorkers workers stale now ↔ w ∈ workers ∧ WorkerLive w stale now = true.
Proof.
  induction workers as [|v workers IH]; simpl.
  { by rewrite elem_of_nil; split; [|intros []]. }
  rewrite elem_of_cons. destruct (WorkerLive v stale now) eqn:E; simpl.
  - rewrite elem_of_cons, IH. split; [|tauto]. intros [->|[]]; tauto.
  - rewrite IH. split; [tauto|]. intros [[->|Hin] Hl]; [by rewrite E in Hl|done].
Qed.

Lemma LiveWorkers_sublist workers stale now :
  LiveWorkers workers stale now `sublist_of` workers.
Proof.
  induction workers as [|v workers IH]; simpl; [done|].
  destruct (WorkerLive v stale now); simpl; by constructor.
Qed.

Lemma LiveWorkers_idemp workers stale now :
  LiveWorkers (LiveWorkers workers stale now) stale now = LiveWorkers workers stale now.
Proof.
  induction workers as [|v workers IH]; simpl; [done|].
  destruct (WorkerLive v stale now) eqn:E; simpl; [|done]. rewrite E. simpl. by rewrite IH.
Qed.

Lemma labels_match_spec have want :
  labels_match have want = true ↔ ∀ k v, want !! k = Some v → str_at have k = v.
Proof. unfold labels_match. by rewrite bool_decide_eq_true. Qed.

Lemma labels_match_empty have : labels_match have ∅ = true.
Proof. apply labels_match_spec. intros k v. by rewrite lookup_empty. Qed.

(** For non-empty values, matching is the inclusion of [want] in [have]. *)
Lemma labels_match_subseteq have want :
  map_Forall (λ _ v, v ≠ EmptyString) want →
  labels_match have want = true ↔ want ⊆ have.
Proof.
  intros Hne. rewrite labels_match_spec, map_subseteq_spec.
  unfold str_at. split; intros H k v Hk; specialize (H k v Hk).
  - destruct (have !! k); simpl in H; [by f_equal|]. by destruct (Hne _ _ Hk).
  - by rewrite H.
Qed.

Lemma labels_match_trans a b c :
  map_Forall (λ _ v, v ≠ EmptyString) c →
  labels_match a b = true → labels_match b c = true → labels_match a c = true.
Proof.
  rewrite !labels_match_spec. unfold str_at. intros Hne Hab Hbc k v Hk.
  specialize (Hbc k v Hk). destruct (b !! k) as [u|] eqn:E; simpl in Hbc.
  - subst u. exact (Hab k v E).
  - by destruct (Hne _ _ Hk).
Qed.

Lemma sum_slots_bounds P workers :
  Forall (λ w, 0 ≤ slots w)%Z workers →
  (0 ≤ sum_slots P workers ≤ sum_slots (λ _, true) workers)%Z.
Proof.
  induction 1 as [|w workers Hw _ IH]; simpl; [lia|]. destruct (P w); lia.
Qed.

Lemma sum_slots_sublist P l k :
  Forall (λ w, 0 ≤ slots w)%Z k → l `sublist_of` k →
  (sum_slots P l ≤ sum_slots P k)%Z.
Proof.
  intros Hall Hsub. induction Hsub as [|w l k _ IH|w l k _ IH]; simpl; [done|..];
    apply Forall_cons in Hall as [Hw Hall]; specialize (IH Hall);
    destruct (P w); lia.
Qed.

Lemma slots_ok_sublist l k : l `sublist_of` k → slots_ok k → slots_ok l.
Proof.
  intros Hsub [Hall Hlt]. pose proof (sum_slots_sublist (λ _, true) _ _ Hall Hsub).
  split; [|lia]. rewrite Forall_forall in Hall |- *. intros w Hw.
  apply Hall. revert w Hw. change (l ⊆ k). by apply sublist_subseteq.
Qed.

Lemma slots_ok_nil : slots_ok [].
Proof. split; [constructor|done]. Qed.

Lemma add_slots_id total w :
  (0 ≤ total)%Z → (0 ≤ slots w)%Z → (total + slots w < two63)%Z →
  add_slots total w = (total + slots w)%Z.
Proof.
  unfold add_slots, slots. destruct (w_Resources w !! _); simpl; [|lia].
  intros. rewrite !int64_id; [done|..]; unfold in_int64, two63 in *; try lia.
  rewrite int64_id; unfold in_int64, two63; lia.
Qed.

(** One induction for the three counting loops: [P] selects the workers whose
    slots the loop adds. *)
Lemma slot_loop (P : Worker → bool) (f : Z → list Worker → Z) :
  (∀ t, f t [] = t) →
  (∀ t w ws, f t (w :: ws) = f (if P w then add_slots t w else t) ws) →
  ∀ workers t, Forall (λ w, 0 ≤ slots w)%Z workers → (0 ≤ t)%Z →
    (t + sum_slots (λ _, true) workers < two63)%Z →
    f t workers = (t + sum_slots P workers)%Z.
Proof.
  intros Hnil Hcons workers.
  induction workers as [|w workers IH]; intros t Hall Ht Hlt; simpl in *;
    [rewrite Hnil; lia|].
  apply Forall_cons in Hall as [Hw Hall].
  pose proof (sum_slots_bounds (λ _, true) _ Hall).
  rewrite Hcons. destruct (P w).
  - rewrite add_slots_id by lia. rewrite IH by (done || lia). lia.
  - rewrite IH by (done || lia). lia.
Qed.

Lemma CapacityForLabels_sum workers labels :
  slots_ok workers →
  CapacityForLabels workers labels
  = sum_slots (λ w, unpaused w && workerMatchesLabels w labels) workers.
Proof.
  intros [Hall Hlt]. unfold CapacityForLabels.
  rewrite (slot_loop (λ w, unpaused w && workerMatchesLabels w labels)
    (λ t ws, CapacityForLabels_from t ws labels)); try done; try lia.
  intros t w ws. simpl. unfold unpaused.
  by destruct (w_SchedulingPaused w), (workerMatchesLabels w labels).
Qed.

Lemma total_slots_sum workers :
  slots_ok workers → total_slots workers = sum_slots unpaused workers.
Proof.
  intros [Hall Hlt]. unfold total_slots.
  rewrite (slot_loop unpaused total_slots_from); try done; try lia.
  intros t w ws. simpl. unfold unpaused. by destruct (w_SchedulingPaused w).
Qed.

Lemma discovered_slots_sum workers :
  slots_ok workers → discovered_slots workers = sum_slots (λ _, true) workers.
Proof.
  intros [Hall Hlt]. unfold discovered_slots.
  rewrite (slot_loop (λ _, true) discovered_slots_from); try done; lia.
Qed.
