(* ===== verification/AutoSize.v ===== *)
(** * AutoSize: pin identities, eligibility and sizing

    [bridge/autosize.go], and the exclusion report of [bridge/eligibility.go]. *)

From S2P Require Import Prelude GoBase Orchard VMNames Workers.

Definition resourceLogicalCores : string := "org.cirruslabs.logical-cores".
Definition resourceMemoryMiB : string := "org.cirruslabs.memory-mib".
Definition PinLabelKey : string := "orchard-gh-bridge/worker-name".

Definition DefaultAutoSizeReserveCPU : Z := 4.
Definition DefaultAutoSizeReserveMemoryMiB : Z := 4096.

Definition ExclusionSchedulingPaused : string := "scheduling_paused".
Definition ExclusionMissingPinLabel : string := "missing_pin_label".
Definition ExclusionDuplicatePinLabel : string := "duplicate_pin_label".
Definition ExclusionMissingResources : string := "missing_resources".
Definition ExclusionBelowReserves : string := "below_reserves".

Definition PinIdentity (w : Worker) : string := str_at (w_Labels w) PinLabelKey.

(** [pinCounts[pin]]. *)
Definition count_at (counts : gmap string nat) (pin : string) : nat :=
  default 0 (counts !! pin).

Fixpoint PinCounts_from (out : gmap string nat) (workers : list Worker)
    : gmap string nat :=
  match workers with
  | [] => out
  | w :: workers =>
      let pin := PinIdentity w in
      PinCounts_from (if decide (pin = EmptyString) then out
                      else <[pin := S (count_at out pin)]> out) workers
  end.

Definition PinCounts (workers : list Worker) : gmap string nat :=
  PinCounts_from ∅ workers.

Definition AutoSizeExclusionReason (w : Worker) (pinCounts : gmap string nat)
    (reserveCPU reserveMemMiB : Z) : string :=
  if w_SchedulingPaused w then ExclusionSchedulingPaused else
  let pin := PinIdentity w in
  if decide (pin = EmptyString) then ExclusionMissingPinLabel else
  if decide (1 < count_at pinCounts pin) then ExclusionDuplicatePinLabel else
  match w_Resources w !! resourceLogicalCores, w_Resources w !! resourceMemoryMiB with
  | Some cores, Some mem =>
      if (cores <=? reserveCPU)%Z || (mem <=? reserveMemMiB)%Z
      then ExclusionBelowReserves else EmptyString
  | _, _ => ExclusionMissingResources
  end.

Definition autoSizeCandidates (workers : list Worker) (vmLabels : gmap string string)
    (reserveCPU reserveMemMiB : Z) : list Worker :=
  let counts := PinCounts workers in
  filter (λ w, workerMatchesLabels w vmLabels = true ∧
               AutoSizeExclusionReason w counts reserveCPU reserveMemMiB = EmptyString)
         workers.

Definition WorkerCountForLabels (workers : list Worker) (vmLabels : gmap string string)
    (reserveCPU reserveMemMiB : Z) : Z :=
  Z.of_nat (length (autoSizeCandidates workers vmLabels reserveCPU reserveMemMiB)).

(** [pinByName[w.Name] = PinIdentity(w)], the last record of a name winning. *)
Fixpoint pinByName_from (out : gmap string string) (workers : list Worker)
    : gmap string string :=
  match workers with
  | [] => out
  | w :: workers => pinByName_from (<[w_Name w := PinIdentity w]> out) workers
  end.

Definition pinByName (workers : list Worker) : gmap string string :=
  pinByName_from ∅ workers.

(** The pin identity one VM holds, if any: the body of the loop over [vms]. *)
Definition managedPin (byName : gmap string string) (vm : VM) : option string :=
  let from_label :=
    let target := str_at (vm_Labels vm) PinLabelKey in
    if decide (target = EmptyString) then None else Some target in
  if negb (IsManagedVM (vm_Name vm)) then None
  else if vm_terminal vm then None
  else if decide (vm_Worker vm = EmptyString) then from_label
  else match byName !! vm_Worker vm with
       | Some pin => if decide (pin = EmptyString) then None else Some pin
       | None => from_label
       end.

Definition managedPinIdentities (vms : list VM) (workers : list Worker) : gset string :=
  list_to_set (omap (managedPin (pinByName workers)) vms).

Definition freeAutoSizeWorkers (workers : list Worker) (vms : list VM)
    (vmLabels : gmap string string) (reserveCPU reserveMemMiB : Z) : list Worker :=
  let inUse := managedPinIdentities vms workers in
  filter (λ w, PinIdentity w ∉ inUse)
         (autoSizeCandidates workers vmLabels reserveCPU reserveMemMiB).

(** [w.Resources[k]]: zero when absent. *)
Definition resource (w : Worker) (k : string) : Z := default 0%Z (w_Resources w !! k).

Definition AutoSizedVM (w : Worker) (reserveCPU reserveMemMiB : Z) : result (Z * Z) :=
  let cores := resource w resourceLogicalCores in
  let mem := resource w resourceMemoryMiB in
  if (cores =? 0)%Z || (mem =? 0)%Z then
    Err (Errorf "worker %s missing logical-cores or memory-mib resource" [w_Name w])
  else if (cores <=? reserveCPU)%Z then
    Err (Errorf "worker %s has %d cores, reserve %d would leave VM with 0"
           [w_Name w; pretty cores; pretty reserveCPU])
  else if (mem <=? reserveMemMiB)%Z then
    Err (Errorf "worker %s has %d MiB, reserve %d MiB would leave VM with 0"
           [w_Name w; pretty mem; pretty reserveMemMiB])
  else OK (uint64 (cores - reserveCPU), uint64 (mem - reserveMemMiB))%Z.

Definition AutoSizeReserves (cpu memMiB : Z) : Z * Z :=
  (if (cpu =? 0)%Z then DefaultAutoSizeReserveCPU else cpu,
   if (memMiB =? 0)%Z then DefaultAutoSizeReserveMemoryMiB else memMiB).

(** ** Exclusions ([bridge/eligibility.go]) *)

Record AutoSizeExclusion : Type := mkExclusion {
  ex_Worker : string;
  ex_PinLabel : string;
  ex_Reason : string;
  ex_SharedWith : list string
}.

Definition exclusion_of (workers : list Worker) (w : Worker) (reason : string)
    : AutoSizeExclusion :=
  {| ex_Worker := w_Name w;
     ex_PinLabel := PinIdentity w;
     ex_Reason := reason;
     ex_SharedWith :=
       if decide (reason = ExclusionDuplicatePinLabel)
       then w_Name <$> filter (λ o, w_Name o ≠ w_Name w ∧
                                    PinIdentity o = PinIdentity w) workers
       else [] |}.

(** One turn of the loop: the exclusion of [w], if it is to be reported. *)
Definition exclusion_at (workers : list Worker) (counts : gmap string nat)
    (vmLabels : gmap string string) (reserveCPU reserveMemMiB : Z) (w : Worker)
    : option AutoSizeExclusion :=
  if negb (workerMatchesLabels w vmLabels) then None else
  let reason := AutoSizeExclusionReason w counts reserveCPU reserveMemMiB in
  if decide (reason = EmptyString) then None
  else Some (exclusion_of workers w reason).

Definition AutoSizeExclusions (workers : list Worker) (vmLabels : gmap string string)
    (reserveCPU reserveMemMiB : Z) : list AutoSizeExclusion :=
  omap (exclusion_at workers (PinCounts workers) vmLabels reserveCPU reserveMemMiB)
       workers.

(** ** Lemmas *)

Lemma PinCounts_from_spec out workers pin :
  pin ≠ EmptyString →
  count_at (PinCounts_from out workers) pin
  = count_at out pin + length (filter (λ w, PinIdentity w = pin) workers).
Proof.
  intros Hpin. revert out.
  induction workers as [|w workers IH]; intros out; simpl; [lia|].
  rewrite filter_cons, IH. unfold count_at.
  destruct (decide (PinIdentity w = EmptyString)) as [E|E].
  - case_decide; [congruence|done].
  - rewrite lookup_insert. repeat case_decide; subst; simpl; unfold count_at; done || lia.
Qed.

Lemma PinCounts_spec workers pin :
  pin ≠ EmptyString →
  count_at (PinCounts workers) pin
  = length (filter (λ w, PinIdentity w = pin) workers).
Proof. intros H. unfold PinCounts. by rewrite PinCounts_from_spec. Qed.

(** The conditions the README lists for a live worker to be AutoSize-eligible. *)
Definition eligible (workers : list Worker) (reserveCPU reserveMemMiB : Z) (w : Worker)
    : Prop :=
  w_SchedulingPaused w = false
  ∧ PinIdentity w ≠ EmptyString
  ∧ length (filter (λ o, PinIdentity o = PinIdentity w) workers) ≤ 1
  ∧ (∃ cores mem, w_Resources w !! resourceLogicalCores = Some cores
      ∧ w_Resources w !! resourceMemoryMiB = Some mem
      ∧ reserveCPU < cores ∧ reserveMemMiB < mem)%Z.

Lemma exclusion_reason_eligible workers w c m :
  AutoSizeExclusionReason w (PinCounts workers) c m = EmptyString
  ↔ eligible workers c m w.
Proof.
  unfold AutoSizeExclusionReason, eligible.
  destruct (w_SchedulingPaused w); [naive_solver|].
  case_decide as Hpin; [naive_solver|].
  rewrite (PinCounts_spec workers (PinIdentity w) Hpin).
  case_decide as Hdup; [split; [done|intros (_ & _ & H & _); lia]|].
  assert (length (filter (λ o, PinIdentity o = PinIdentity w) workers) ≤ 1) by lia.
  destruct (w_Resources w !! resourceLogicalCores) as [cores|]; [|naive_solver].
  destruct (w_Resources w !! resourceMemoryMiB) as [mem|]; [|naive_solver].
  destruct ((cores <=? c)%Z || (mem <=? m)%Z) eqn:E.
  - apply orb_true_iff in E. rewrite !Z.leb_le in E.
    split; [done|]. intros (_ & _ & _ & ? & ? & [= ->] & [= ->] & ?). lia.
  - apply orb_false_iff in E. rewrite !Z.leb_gt in E.
    split; [|done]. intros _. do 3 (split; [done|]). eauto.
Qed.

Lemma elem_of_candidates workers labels c m w :
  w ∈ autoSizeCandidates workers labels c m ↔
  w ∈ workers ∧ workerMatchesLabels w labels = true ∧ eligible workers c m w.
Proof.
  unfold autoSizeCandidates. rewrite list_elem_of_filter, exclusion_reason_eligible. tauto.
Qed.

Lemma candidates_pins_NoDup workers labels c m :
  NoDup (PinIdentity <$> autoSizeCandidates workers labels c m).
Proof.
  apply NoDup_counts. intros pin (w & -> & Hw)%list_elem_of_fmap.
  apply elem_of_candidates in Hw as (_ & _ & _ & _ & Hle & _).
  rewrite filter_fmap_length. etrans; [|exact Hle].
  apply sublist_filter_length, sublist_filter.
Qed.

Lemma free_candidates_sublist workers vms labels c m :
  freeAutoSizeWorkers workers vms labels c m
  `sublist_of` autoSizeCandidates workers labels c m.
Proof. apply sublist_filter. Qed.

Lemma free_pins_NoDup workers vms labels c m :
  NoDup (PinIdentity <$> freeAutoSizeWorkers workers vms labels c m).
Proof.
  eapply sublist_NoDup; [apply candidates_pins_NoDup|].
  apply fmap_sublist, free_candidates_sublist.
Qed.

(** Sizes fit in 64 bits, as a controller reports them. *)
Definition resources_ok (w : Worker) : Prop := map_Forall (λ _, in_uint64) (w_Resources w).

Lemma AutoSizedVM_eligible workers c m w :
  (0 ≤ c)%Z → (0 ≤ m)%Z → resources_ok w → eligible workers c m w →
  AutoSizedVM w c m
  = OK (resource w resourceLogicalCores - c, resource w resourceMemoryMiB - m)%Z
  ∧ (0 < resource w resourceLogicalCores - c)%Z
  ∧ (0 < resource w resourceMemoryMiB - m)%Z.
Proof.
  intros Hc Hm Hok (_ & _ & _ & cores & mem & Hcores & Hmem & ? & ?).
  pose proof (Hok _ _ Hcores) as Hu1. pose proof (Hok _ _ Hmem) as Hu2.
  unfold in_uint64 in *. unfold AutoSizedVM, resource. rewrite Hcores, Hmem. simpl.
  rewrite !(proj2 (Z.eqb_neq _ _)), !(proj2 (Z.leb_gt _ _)) by lia. simpl.
  split; [|lia]. by rewrite !uint64_id by (unfold in_uint64; lia).
Qed.

Lemma exclusion_at_Some workers counts labels c m w ex :
  exclusion_at workers counts labels c m w = Some ex ↔
  workerMatchesLabels w labels = true
  ∧ AutoSizeExclusionReason w counts c m ≠ EmptyString
  ∧ ex = exclusion_of workers w (AutoSizeExclusionReason w counts c m).
Proof.
  unfold exclusion_at. destruct (workerMatchesLabels w labels); simpl; [|easy].
  case_decide; split; try tauto; try easy.
  - by intros [= <-].
  - by intros (_ & _ & ->).
Qed.

Lemma pinByName_from_notin out workers n :
  n ∉ w_Name <$> workers → pinByName_from out workers !! n = out !! n.
Proof.
  revert out. induction workers as [|w workers IH]; intros out; [done|].
  rewrite fmap_cons, not_elem_of_cons. intros [Hne Hnot]. simpl.
  rewrite IH by done. by rewrite lookup_insert_ne.
Qed.

Lemma pinByName_in workers w :
  NoDup (w_Name <$> workers) → w ∈ workers →
  pinByName workers !! w_Name w = Some (PinIdentity w).
Proof.
  unfold pinByName. generalize (∅ : gmap string string) as out.
  induction workers as [|v workers IH]; intros out; [by intros _ ?%elem_of_nil|].
  rewrite fmap_cons, NoDup_cons, elem_of_cons. intros [Hnot Hnd] [->|Hin]; simpl.
  - rewrite pinByName_from_notin by done. apply lookup_insert_eq.
  - by apply IH.
Qed.

(** The VM holds the pin identity of every live worker it runs on, and the one
    it carries when it runs on none. *)
Lemma managedPin_on_worker workers vm w :
  NoDup (w_Name <$> workers) → w ∈ workers →
  IsManagedVM (vm_Name vm) = true → vm_terminal vm = false →
  vm_Worker vm ≠ EmptyString → vm_Worker vm = w_Name w →
  PinIdentity w ≠ EmptyString →
  managedPin (pinByName workers) vm = Some (PinIdentity w).
Proof.
  intros Hnd Hin Hm Ht Hne Hw Hpin. unfold managedPin.
  rewrite Hm, Ht. simpl. rewrite decide_False by done.
  rewrite Hw, pinByName_in by done. by rewrite decide_False.
Qed.

Lemma managedPin_by_label workers vm :
  IsManagedVM (vm_Name vm) = true → vm_terminal vm = false →
  vm_Worker vm = EmptyString ∨ vm_Worker vm ∉ w_Name <$> workers →
  str_at (vm_Labels vm) PinLabelKey ≠ EmptyString →
  managedPin (pinByName workers) vm = Some (str_at (vm_Labels vm) PinLabelKey).
Proof.
  intros Hm Ht Hw Hl. unfold managedPin. rewrite Hm, Ht. simpl.
  rewrite (decide_False (P := str_at _ _ = _)) by done.
  case_decide; [done|]. destruct Hw as [|Hw]; [done|].
  unfold pinByName. by rewrite pinByName_from_notin, lookup_empty.
Qed.

Lemma free_not_held workers vms labels c m w vm :
  w ∈ freeAutoSizeWorkers workers vms labels c m → vm ∈ vms →
  managedPin (pinByName workers) vm ≠ Some (PinIdentity w).
Proof.
  unfold freeAutoSizeWorkers. rewrite list_elem_of_filter. intros [Hnot _] Hvm Heq.
  apply Hnot. unfold managedPinIdentities.
  rewrite elem_of_list_to_set, list_elem_of_omap. eauto.
Qed.

Lemma elem_of_free workers vms labels c m w :
  w ∈ freeAutoSizeWorkers workers vms labels c m →
  w ∈ workers ∧ workerMatchesLabels w labels = true ∧ eligible workers c m w.
Proof.
  unfold freeAutoSizeWorkers. rewrite list_elem_of_filter. intros [_ H].
  by apply elem_of_candidates.
Qed.

(** ** Properties *)

(** The AutoSize pool of a scale set is exactly the label-matching live
    workers that meet the README's conditions, and no two of its members share
    a pin identity, so a pinned VM can land on one machine only. *)
Lemma autoSizeCandidates_spec (workers : list Worker) (labels : gmap string string)
    (reserveCPU reserveMem : Z) :
  (∀ w, w ∈ autoSizeCandidates workers labels reserveCPU reserveMem ↔
        w ∈ workers ∧ workerMatchesLabels w labels = true ∧
        eligible workers reserveCPU reserveMem w)
  ∧ NoDup (PinIdentity <$> autoSizeCandidates workers labels reserveCPU reserveMem).
Proof. split; [intros; apply elem_of_candidates|apply candidates_pins_NoDup]. Qed.

(** Exclusions are never silent: the label-matching workers split into
    the pool and the reported exclusions, every excluded worker being reported
    under its name with its reason. *)
Lemma AutoSizeExclusions_complete (workers : list Worker) (labels : gmap string string)
    (reserveCPU reserveMem : Z) :
  let pool := autoSizeCandidates workers labels reserveCPU reserveMem in
  let reported := AutoSizeExclusions workers labels reserveCPU reserveMem in
  let reason w := AutoSizeExclusionReason w (PinCounts workers) reserveCPU reserveMem in
  (∀ w, w ∈ workers → workerMatchesLabels w labels = true →
     w ∈ pool ∧ reason w = EmptyString ∨
     w ∉ pool ∧ reason w ≠ EmptyString ∧
     ∃ ex, ex ∈ reported ∧ ex_Worker ex = w_Name w ∧
           ex_PinLabel ex = PinIdentity w ∧ ex_Reason ex = reason w)
  ∧ (∀ ex, ex ∈ reported → ∃ w, w ∈ workers ∧ w ∉ pool ∧
       workerMatchesLabels w labels = true ∧ ex_Worker ex = w_Name w).
Proof.
  intros pool reported reason. subst pool reported reason. split.
  - intros w Hin Hm. rewrite elem_of_candidates, <-exclusion_reason_eligible.
    destruct (decide (AutoSizeExclusionReason w (PinCounts workers)
                        reserveCPU reserveMem = EmptyString)) as [E|E]; [tauto|].
    right. split; [tauto|]. split; [done|].
    exists (exclusion_of workers w
      (AutoSizeExclusionReason w (PinCounts workers) reserveCPU reserveMem)).
    split; [|done]. apply list_elem_of_omap. exists w.
    by rewrite exclusion_at_Some.
  - intros ex (w & Hin & (Hm & Hr & ->)%exclusion_at_Some)%list_elem_of_omap.
    exists w. rewrite elem_of_candidates, <-exclusion_reason_eligible. tauto.
Qed.

(** C33: a worker offered for placement is occupied by no managed VM that is
    still alive: none runs on it, and none that is pending or stranded on a
    machine that has gone away carries its pin identity.  (On a fleet whose records
    have distinct names.) *)
Theorem freeAutoSizeWorkers_unoccupied (workers : list Worker) (vms : list VM)
    (labels : gmap string string) (reserveCPU reserveMem : Z) (w : Worker) (vm : VM) :
  NoDup (w_Name <$> workers) →
  w ∈ freeAutoSizeWorkers workers vms labels reserveCPU reserveMem →
  vm ∈ vms → IsManagedVM (vm_Name vm) = true → vm_terminal vm = false →
  (vm_Worker vm ≠ EmptyString → vm_Worker vm ≠ w_Name w)
  ∧ (vm_Worker vm = EmptyString ∨ vm_Worker vm ∉ w_Name <$> workers →
     str_at (vm_Labels vm) PinLabelKey ≠ PinIdentity w).
Proof.
  intros Hnd Hfree Hvm Hm Ht.
  pose proof (elem_of_free _ _ _ _ _ _ Hfree) as (Hin & _ & _ & Hpin & _).
  split; intros Hw Heq; eapply free_not_held; try done.
  - by apply managedPin_on_worker.
  - rewrite <-Heq. apply managedPin_by_label; congruence || done.
Qed.

(** [AutoSizedVM] succeeds exactly when the worker has more of each
    resource than is held back, and then hands out the difference, which is
    positive and never wraps around. *)
Lemma AutoSizedVM_spec (w : Worker) (reserveCPU reserveMem : Z) :
  resources_ok w → (0 ≤ reserveCPU)%Z → (0 ≤ reserveMem)%Z →
  let cores := resource w resourceLogicalCores in
  let mem := resource w resourceMemoryMiB in
  match AutoSizedVM w reserveCPU reserveMem with
  | OK (cpu, memMiB) =>
      cpu = (cores - reserveCPU)%Z ∧ memMiB = (mem - reserveMem)%Z ∧
      (0 < cpu ∧ 0 < memMiB)%Z
  | Err _ => (cores ≤ reserveCPU ∨ mem ≤ reserveMem)%Z
  end.
Proof.
  intros Hok Hc Hm cores mem.
  assert (∀ k, in_uint64 (resource w k)) as Hu.
  { intros k. unfold resource. destruct (w_Resources w !! k) as [v|] eqn:E; simpl.
    - exact (Hok _ _ E).
    - done. }
  pose proof (Hu resourceLogicalCores) as H1. pose proof (Hu resourceMemoryMiB) as H2.
  unfold AutoSizedVM. fold cores mem. fold cores in H1. fold mem in H2.
  clearbody cores mem. unfold in_uint64 in *.
  destruct (Z.eqb_spec cores 0); simpl; [lia|].
  destruct (Z.eqb_spec mem 0); simpl; [lia|].
  destruct (Z.leb_spec cores reserveCPU); [lia|].
  destruct (Z.leb_spec mem reserveMem); [lia|].
  rewrite !uint64_id by (unfold in_uint64; lia). lia.
Qed.

(** ** Witnesses *)

Definition mac (name pin : string) (cores mem : Z) : Worker :=
  {| w_Name := name;
     w_Labels := {["vm-class" := "large"; PinLabelKey := pin]};
     w_Resources := {[resourceLogicalCores := cores; resourceMemoryMiB := mem;
                      resourceTartVMs := 1%Z]};
     w_SchedulingPaused := false;
     w_LastSeen := 0%Z |}.

Definition runner_vm (name status worker pin : string) : VM :=
  {| vm_Name := name; vm_Image := "img"; vm_CPU := 4%Z; vm_Memory := 8192%Z;
     vm_Nested := false; vm_DiskSize := 0%Z; vm_Status := status;
     vm_StatusMessage := EmptyString; vm_Worker := worker; vm_StartupScript := None;
     vm_Labels := {["vm-class" := "large"; PinLabelKey := pin]};
     vm_CreatedAt := 0%Z |}.

Lemma freeAutoSizeWorkers_unoccupied_witness :
  let workers := [mac "renamed.local" "mini-1" 10 16384; mac "mini-2" "mini-2" 12 36864] in
  let vm := runner_vm "gha-orchard-large-0a1b2c3d" "running" "renamed.local" "mini-1" in
  mac "mini-2" "mini-2" 12 36864
    ∈ freeAutoSizeWorkers workers [vm] {["vm-class" := "large"]} 4 4096 ∧
  vm_Worker vm ≠ "mini-2".
Proof.
  intros workers vm.
  assert (mac "mini-2" "mini-2" 12 36864
    ∈ freeAutoSizeWorkers workers [vm] {["vm-class" := "large"]} 4 4096) as Hin.
  { rewrite list_elem_of_In. vm_compute. by left. }
  split; [exact Hin|].
  refine (proj1 (freeAutoSizeWorkers_unoccupied workers [vm] {["vm-class" := "large"]}
    4 4096 (mac "mini-2" "mini-2" 12 36864) vm _ Hin _ _ _) _).
  - apply (bool_decide_unpack _). vm_compute. done.
  - by left.
  - vm_compute. reflexivity.
  - vm_compute. reflexivity.
  - done.
Defined.

Lemma AutoSizedVM_spec_witness :
  (0 < 10 - 4)%Z ∧
  match AutoSizedVM (mac "mini-1" "mini-1" 10 16384) 4 4096 with
  | OK (cpu, memMiB) =>
      cpu = (resource (mac "mini-1" "mini-1" 10 16384) resourceLogicalCores - 4)%Z ∧
      memMiB = (resource (mac "mini-1" "mini-1" 10 16384) resourceMemoryMiB - 4096)%Z ∧
      (0 < cpu ∧ 0 < memMiB)%Z
  | Err _ =>
      (resource (mac "mini-1" "mini-1" 10 16384) resourceLogicalCores ≤ 4 ∨
       resource (mac "mini-1" "mini-1" 10 16384) resourceMemoryMiB ≤ 4096)%Z
  end.
Proof.
  split; [lia|]. apply (AutoSizedVM_spec (mac "mini-1" "mini-1" 10 16384) 4 4096); [|lia..].
  intros k v Hk. unfold mac, w_Resources in Hk.
  repeat (apply lookup_insert_Some in Hk as [[_ <-]|[_ Hk]]; [by vm_compute|]).
  apply lookup_singleton_Some in Hk as [_ <-]. by vm_compute.
Defined.
