(* ===== verification/Metrics.v ===== *)
(** * Metrics ([metrics/metrics.go])

    Gauges and counters partitioned by labels, and their text.  A vector is a
    map from keys to series.  Every value the program stores is a whole number
    below 2^53, so a float64 is modelled as a [Z]; [FormatFloat] gives its text. *)

From S2P Require Import Prelude GoBase.

(** ** Vectors *)

Record series : Type := mkSeries { labelValues : list string; value : Z }.

Record vec : Type := mkVec {
  vec_name : string;
  help : string;
  kind : string;
  labelNames : list string;
  vec_series : gmap string series
}.

(** What a [vec] is made with; [GaugeVec] and [CounterVec] wrap a possibly nil
    pointer to one. *)
Definition register (name help kind : string) (labelNames : list string) : vec :=
  mkVec name help kind labelNames ∅.

Definition set_series (m : gmap string series) (v : vec) : vec :=
  mkVec (vec_name v) (help v) (kind v) (labelNames v) m.

(** The byte 0xff, which does not occur in UTF-8 text. *)
Definition separator : byte := mk_byte 255.
Definition seriesKey (labelValues : list string) : string :=
  Join labelValues (String separator EmptyString).

(** [update]: [None] is the panic on a wrong number of label values. *)
Definition update (labelVals : list string) (fn : Z → Z) (v : vec) : option vec :=
  if negb (bool_decide (length labelVals = length (labelNames v))) then None
  else
    let key := seriesKey labelVals in
    let s := default (mkSeries labelVals 0) (vec_series v !! key) in
    Some (set_series (<[key := mkSeries (labelValues s) (fn (value s))]> (vec_series v)) v).

Definition get (labelVals : list string) (v : vec) : option Z :=
  value <$> vec_series v !! seriesKey labelVals.

Definition gauge_Set (x : Z) (labelVals : list string) (v : vec) : option vec :=
  update labelVals (λ _, x) v.
Definition gauge_Delete (labelVals : list string) (v : vec) : vec :=
  set_series (delete (seriesKey labelVals) (vec_series v)) v.
Definition counter_Inc (labelVals : list string) (v : vec) : option vec :=
  update labelVals (λ n, n + 1)%Z v.

(** ** Text *)

(** [strings.NewReplacer] with one-byte patterns: every byte is replaced on its
    own. *)
Fixpoint replace_bytes (f : byte → string) (s : string) : string :=
  match s with
  | EmptyString => EmptyString
  | String c s => f c +:+ replace_bytes f s
  end.

Definition backslash : byte := mk_byte 92.
Definition newline : byte := mk_byte 10.
Definition dquote : byte := mk_byte 34.
Definition char (c : byte) : string := String c EmptyString.

Definition escape_help_byte (c : byte) : string :=
  if decide (c = backslash) then char backslash +:+ char backslash
  else if decide (c = newline) then char backslash +:+ "n"
  else char c.
Definition escapeHelp (s : string) : string := replace_bytes escape_help_byte s.

Definition escape_label_byte (c : byte) : string :=
  if decide (c = dquote) then char backslash +:+ char dquote else escape_help_byte c.
Definition escapeLabelValue (s : string) : string := replace_bytes escape_label_byte s.

(** [strconv.FormatFloat(n, 'g', -1, 64)] of a whole number [n]: plain digits
    below a million, and from there on one digit, the others without trailing
    zeros, and the exponent. *)
Definition exponent_text (n : nat) : string :=
  if (n <? 10)%nat then "0" +:+ pretty n else pretty n.

Definition FormatFloat (n : Z) : string :=
  let sign := if (n <? 0)%Z then "-" else EmptyString in
  let ds := pretty (Z.abs_N n) in
  if (len ds <=? 6)%nat then sign +:+ ds
  else match ds with
       | EmptyString => sign
       | String d rest =>
           let frac := TrimRightByte rest (mk_byte 48) in
           sign +:+ char d
             +:+ (if decide (frac = EmptyString) then EmptyString else "." +:+ frac)
             +:+ "e+" +:+ exponent_text (len rest)
       end.

(** The labels of a series, [name="value"] with commas between. *)
Fixpoint label_pairs (names vals : list string) : list string :=
  match names, vals with
  | n :: names, v :: vals =>
      (n +:+ "=" +:+ char dquote +:+ escapeLabelValue v +:+ char dquote)
        :: label_pairs names vals
  | _, _ => []
  end.

Definition series_line (v : vec) (s : series) : string :=
  vec_name v
    +:+ (if decide (labelNames v = []) then EmptyString
         else "{" +:+ Join (label_pairs (labelNames v) (labelValues s)) "," +:+ "}")
    +:+ " " +:+ FormatFloat (value s) +:+ char newline.

(** [sort.Strings] on the keys of a map: byte order. *)
Fixpoint str_leb (s t : string) : bool :=
  match s, t with
  | EmptyString, _ => true
  | String _ _, EmptyString => false
  | String c s, String d t =>
      (byte_val c <? byte_val d)%N || ((byte_val c =? byte_val d)%N && str_leb s t)
  end.
Definition str_le (s t : string) : Prop := str_leb s t = true.
#[export] Instance str_le_dec s t : Decision (str_le s t).
Proof. unfold str_le. apply _. Defined.

Definition sortedKeys {A} (m : gmap string A) : list string :=
  merge_sort str_le (map_to_list m).*1.

Definition vec_text (v : vec) : string :=
  "# HELP " +:+ vec_name v +:+ " " +:+ escapeHelp (help v) +:+ char newline
    +:+ "# TYPE " +:+ vec_name v +:+ " " +:+ kind v +:+ char newline
    +:+ foldr (λ k s, match vec_series v !! k with
                      | Some x => series_line v x +:+ s
                      | None => s
                      end) EmptyString (sortedKeys (vec_series v)).

(** [WriteText] of a registry: its vectors in the order of registration. *)
Definition WriteText (vecs : list vec) : string :=
  foldr (λ v s, vec_text v +:+ s) EmptyString vecs.

(** ** Keys *)

(** Text without the separator, as all UTF-8 text is. *)
Definition clean (s : string) : Prop := all_bytes (λ c, c ≠ separator) s.

(** The text before the first separator is determined by it. *)
Lemma first_byte_split c a x b y :
  all_bytes (λ d, d ≠ c) a → all_bytes (λ d, d ≠ c) b →
  a +:+ String c x = b +:+ String c y → a = b ∧ x = y.
Proof.
  revert b. induction a as [|d a IH]; intros [|e b]; simpl.
  - by intros _ _ [= ->].
  - intros _ [He _] [= -> _]. done.
  - intros [Hd _] _ [= -> _]. done.
  - intros [_ Ha] [_ Hb] [= -> Heq]. by destruct (IH b Ha Hb Heq) as [-> ->].
Qed.

Lemma Join_cons_cons s t l sep : Join (s :: t :: l) sep = s +:+ sep +:+ Join (t :: l) sep.
Proof. done. Qed.

(** Distinct series have distinct keys: two label tuples of one length,
    in text without the separator, collide only when they are equal. *)
Lemma seriesKey_injective (l k : list string) :
  length l = length k → Forall clean l → Forall clean k → seriesKey l = seriesKey k → l = k.
Proof.
  unfold seriesKey. revert k. induction l as [|s l IH]; intros [|t k]; [done..|].
  intros [= Hlen] [Hs Hl]%Forall_cons [Ht Hk]%Forall_cons.
  destruct l as [|s2 l], k as [|t2 k]; [|done..|].
  - simpl. by intros ->.
  - rewrite !Join_cons_cons. intros [-> H]%first_byte_split; [|done..].
    f_equal. by apply IH.
Qed.

(** The label tuples of a vector. *)
Definition labels_ok (v : vec) (l : list string) : Prop :=
  length l = length (labelNames v) ∧ Forall clean l.

Lemma seriesKey_ne v l k :
  labels_ok v l → labels_ok v k → l ≠ k → seriesKey l ≠ seriesKey k.
Proof.
  intros [Hl Hcl] [Hk Hck] Hne Heq. by apply Hne, seriesKey_injective; [congruence|..].
Qed.

Lemma update_get l fn v v' :
  update l fn v = Some v' →
  labelNames v' = labelNames v ∧ get l v' = Some (fn (default 0%Z (get l v))) ∧
  ∀ k, labels_ok v l → labels_ok v k → k ≠ l → get k v' = get k v.
Proof.
  unfold update. destruct (negb _); [done|]. intros [= <-]. split; [done|].
  unfold get. simpl. split.
  - rewrite lookup_insert_eq. simpl. by destruct (vec_series v !! seriesKey l).
  - intros k Hl Hk Hne. rewrite lookup_insert_ne; [done|].
    intros H. by apply (seriesKey_ne v k l).
Qed.

Lemma update_ok l fn v : labels_ok v l → ∃ v', update l fn v = Some v'.
Proof. intros [Hl _]. unfold update. rewrite bool_decide_eq_true_2 by done. by eexists. Qed.

Lemma delete_get l v :
  labelNames (gauge_Delete l v) = labelNames v ∧ get l (gauge_Delete l v) = None ∧
  ∀ k, labels_ok v l → labels_ok v k → k ≠ l → get k (gauge_Delete l v) = get k v.
Proof.
  split; [done|]. unfold get, gauge_Delete. simpl. split; [by rewrite lookup_delete_eq|].
  intros k Hl Hk Hne. rewrite lookup_delete_ne; [done|].
  intros H. by apply (seriesKey_ne v k l).
Qed.

(** ** Sorted keys *)

Lemma elem_of_sortedKeys {A} (m : gmap string A) n : n ∈ sortedKeys m ↔ is_Some (m !! n).
Proof.
  unfold sortedKeys. rewrite merge_sort_Permutation, list_elem_of_fmap. split.
  - intros ([k x] & -> & H%elem_of_map_to_list). by eexists.
  - intros [x H%elem_of_map_to_list]. by exists (n, x).
Qed.

Lemma sortedKeys_NoDup {A} (m : gmap string A) : NoDup (sortedKeys m).
Proof. unfold sortedKeys. rewrite merge_sort_Permutation. apply NoDup_fst_map_to_list. Qed.

#[export] Instance str_le_total : Total str_le.
Proof.
  intros s. induction s as [|c s IH]; intros [|d t]; [by left|by left|by right|].
  unfold str_le in *. cbn [str_leb].
  destruct (N.ltb_spec (byte_val c) (byte_val d)) as [|Hge]; [by left|].
  destruct (N.ltb_spec (byte_val d) (byte_val c)) as [|Hle]; [by right|].
  assert (byte_val c = byte_val d) as -> by lia. rewrite N.eqb_refl. apply IH.
Qed.

Lemma sortedKeys_Sorted {A} (m : gmap string A) : Sorted str_le (sortedKeys m).
Proof. apply Sorted_merge_sort, _. Qed.
