(* ===== verification/MetricsText.v ===== *)
(** * The text exposition, read back ([metrics/metrics.go])

    A reader of the text format, and the proof that it gets from [WriteText]
    what the vectors hold: series after series, every label with its value. *)

From S2P Require Import Prelude GoBase Metrics.

(** ** A reader *)

(** The text before the first byte that stops, and the rest from there. *)
Fixpoint until (stop : byte → bool) (s : string) : string * string :=
  match s with
  | EmptyString => (EmptyString, EmptyString)
  | String c s' =>
      if stop c then (EmptyString, s)
      else let '(a, r) := until stop s' in (String c a, r)
  end.

Definition is_byte (b : N) (c : byte) : bool := (byte_val c =? b)%N.

Fixpoint split_lines (s : string) : list string :=
  match s with
  | EmptyString => []
  | String c s =>
      if decide (c = newline) then EmptyString :: split_lines s
      else match split_lines s with
           | [] => [char c]
           | l :: ls => String c l :: ls
           end
  end.

(** A quoted value, after the opening quote, and what follows the closing one. *)
Fixpoint read_quoted (s : string) : option (string * string) :=
  match s with
  | EmptyString => None
  | String c s =>
      if decide (c = dquote) then Some (EmptyString, s)
      else if decide (c = backslash) then
        match s with
        | EmptyString => None
        | String d s =>
            '(v, r) ← read_quoted s;
            Some (String (if decide (d = mk_byte 110) then newline else d) v, r)
        end
      else '(v, r) ← read_quoted s; Some (String c v, r)
  end.

(** The labels, after the opening brace, and what follows the closing one. *)
Fixpoint read_labels (fuel : nat) (s : string) : option (list (string * string) * string) :=
  match fuel with
  | O => None
  | S fuel =>
      let '(name, r) := until (is_byte 61) s in
      match r with
      | String _ (String _ r) =>
          '(v, r) ← read_quoted r;
          match r with
          | String c r =>
              if is_byte 44 c then
                '(ls, r) ← read_labels fuel r; Some ((name, v) :: ls, r)
              else Some ([(name, v)], r)
          | EmptyString => None
          end
      | _ => None
      end
  end.

Record sample : Type := mkSample {
  sample_name : string;
  sample_labels : list (string * string);
  sample_value : string
}.

(** A line that is not a comment. *)
Definition read_line (line : string) : option sample :=
  if HasPrefix line "#" then None else
  let '(name, r) := until (λ c, is_byte 123 c || is_byte 32 c) line in
  match r with
  | EmptyString => None
  | String c r =>
      if is_byte 123 c then
        '(ls, r) ← read_labels (len r) r;
        match r with String _ num => Some (mkSample name ls num) | EmptyString => None end
      else Some (mkSample name [] r)
  end.

Definition read_text (s : string) : list sample := omap read_line (split_lines s).

(** ** What is in the registry *)

(** The bytes of metric names, label names and kinds. *)
Definition name_byte (c : byte) : Prop :=
  (48 ≤ byte_val c ≤ 58 ∨ 65 ≤ byte_val c ≤ 90 ∨ byte_val c = 95 ∨ 97 ≤ byte_val c ≤ 122)%N.

Record vec_ok (v : vec) : Prop := {
  ok_name : all_bytes name_byte (vec_name v);
  ok_kind : all_bytes name_byte (kind v);
  ok_labels : Forall (all_bytes name_byte) (labelNames v);
  ok_series : map_Forall (λ _ s, length (labelValues s) = length (labelNames v)) (vec_series v)
}.

Definition sample_of (v : vec) (s : series) : sample :=
  mkSample (vec_name v) (zip (labelNames v) (labelValues s)) (FormatFloat (value s)).

Definition samples (v : vec) : list sample :=
  omap (λ k, sample_of v <$> vec_series v !! k) (sortedKeys (vec_series v)).

(** ** Pieces *)

Definition no_newline (s : string) : Prop := all_bytes (λ c, c ≠ newline) s.

Lemma until_stop stop a c s :
  all_bytes (λ d, stop d = false) a → stop c = true →
  until stop (a +:+ String c s) = (a, String c s).
Proof.
  intros Ha Hc. induction a as [|d a IH]; simpl; [by rewrite Hc|].
  destruct Ha as [Hd Ha]. by rewrite Hd, IH.
Qed.

Lemma split_lines_line a s :
  no_newline a → split_lines (a +:+ char newline +:+ s) = a :: split_lines s.
Proof.
  induction a as [|c a IH]; [done|]. intros [Hc Ha]. simpl in *.
  rewrite decide_False by done. by rewrite IH.
Qed.

Lemma read_quoted_escaped v s :
  read_quoted (escapeLabelValue v +:+ String dquote s) = Some (v, s).
Proof.
  unfold escapeLabelValue. induction v as [|c v IH]; [done|]. simpl replace_bytes.
  rewrite app_assoc_str. unfold escape_label_byte at 1, escape_help_byte at 1.
  destruct (decide (c = dquote)) as [->|Hq]; [simpl; by rewrite IH|].
  destruct (decide (c = backslash)) as [->|Hb]; [simpl; by rewrite IH|].
  destruct (decide (c = newline)) as [->|Hn]; [simpl; by rewrite IH|].
  simpl. rewrite !decide_False by done. by rewrite IH.
Qed.

Lemma name_byte_not c b :
  name_byte c → (b = 10 ∨ b = 32 ∨ b = 35 ∨ b = 61 ∨ b = 123)%N → is_byte b c = false.
Proof. unfold name_byte, is_byte. intros. apply N.eqb_neq. lia. Qed.

Lemma name_no_newline s : all_bytes name_byte s → no_newline s.
Proof.
  apply all_bytes_mono. intros c Hc ->. unfold name_byte in Hc. vm_compute in Hc.
  naive_solver.
Qed.

Lemma escaped_no_newline v : no_newline (escapeLabelValue v).
Proof.
  unfold no_newline, escapeLabelValue. induction v as [|c v IH]; [done|]. simpl.
  apply all_bytes_app. split; [|done]. unfold escape_label_byte, escape_help_byte.
  by repeat case_decide; simpl.
Qed.

Lemma escaped_help_no_newline h : no_newline (escapeHelp h).
Proof.
  unfold no_newline, escapeHelp. induction h as [|c h IH]; [done|]. simpl.
  apply all_bytes_app. split; [|done]. unfold escape_help_byte.
  by repeat case_decide; simpl.
Qed.

(** ** Numbers *)

Lemma pretty_char_no_newline x : (x < 10)%N → pretty_N_char x ≠ newline.
Proof.
  intros Hx.
  assert (x = 0 ∨ x = 1 ∨ x = 2 ∨ x = 3 ∨ x = 4 ∨ x = 5 ∨ x = 6 ∨ x = 7 ∨ x = 8 ∨ x = 9)%N
    as Hcases by lia.
  by repeat destruct Hcases as [->|Hcases]; subst.
Qed.

Lemma pretty_go_no_newline n s : no_newline s → no_newline (pretty_N_go n s).
Proof.
  revert s. induction (N.lt_wf_0 n) as [n _ IH]. intros s Hs.
  destruct (decide (n = 0%N)) as [->|Hpos]; [by rewrite pretty_N_go_0|].
  rewrite pretty_N_go_step by lia. apply IH; [apply N.div_lt; lia|].
  split; [|done]. apply pretty_char_no_newline, N.mod_lt. lia.
Qed.

Lemma pretty_no_newline (n : N) : no_newline (pretty n).
Proof.
  unfold pretty, pretty_N. case_decide; [done|]. by apply pretty_go_no_newline.
Qed.

Lemma no_newline_app s t : no_newline s → no_newline t → no_newline (s +:+ t).
Proof. intros Hs Ht. by apply all_bytes_app. Qed.

Lemma FormatFloat_no_newline n : no_newline (FormatFloat n).
Proof.
  unfold FormatFloat. pose proof (pretty_no_newline (Z.abs_N n)) as Hds.
  assert (no_newline (if (n <? 0)%Z then "-" else EmptyString)) as Hsign
    by by destruct (n <? 0)%Z.
  destruct (len _ <=? 6)%nat; [by apply no_newline_app|].
  destruct (pretty (Z.abs_N n)) as [|d rest]; [done|]. destruct Hds as [Hd Hrest].
  apply no_newline_app; [done|]. apply no_newline_app; [done|].
  assert (no_newline (TrimRightByte rest (mk_byte 48))) as Hfrac.
  { destruct (TrimRightByte_prefix rest (mk_byte 48)) as [u Hu]. unfold no_newline in Hrest.
    rewrite Hu in Hrest. by apply all_bytes_app in Hrest as [? _]. }
  apply no_newline_app; [case_decide; [done|by apply (no_newline_app ".")]|].
  apply no_newline_app; [done|]. unfold exponent_text.
  destruct (_ <? 10)%nat; [apply (no_newline_app "0"); [done|]|]; apply pretty_no_newline.
Qed.

(** ** Lines *)

Lemma label_pairs_no_newline names vals :
  Forall (all_bytes name_byte) names → Forall no_newline (label_pairs names vals).
Proof.
  intros H. revert vals. induction H as [|n names Hn _ IH]; intros [|v vals]; simpl;
    constructor; [|apply IH].
  apply no_newline_app; [by apply name_no_newline|]. split; [done|]. split; [done|].
  by apply no_newline_app; [apply escaped_no_newline|].
Qed.

Lemma Join_no_newline l : Forall no_newline l → no_newline (Join l ",").
Proof.
  induction 1 as [|s l Hs Hl IH]; [done|]. destruct l as [|t l]; [done|].
  rewrite Join_cons_cons. apply no_newline_app; [done|]. by apply (no_newline_app ",").
Qed.

(** One label. *)
Definition label_text (n v : string) : string :=
  n +:+ "=" +:+ char dquote +:+ escapeLabelValue v +:+ char dquote.

Lemma read_one_label fuel n v c s :
  all_bytes name_byte n →
  read_labels (S fuel) (label_text n v +:+ String c s) =
  if is_byte 44 c then '(ls, r) ← read_labels fuel s; Some ((n, v) :: ls, r)
  else Some ([(n, v)], s).
Proof.
  intros Hn. unfold label_text. rewrite !app_assoc_str.
  change ("=" +:+ char dquote +:+ escapeLabelValue v +:+ char dquote +:+ String c s)
    with (String (mk_byte 61) (String dquote (escapeLabelValue v +:+ String dquote (String c s)))).
  cbn [read_labels]. rewrite until_stop; [|eapply all_bytes_mono; [|exact Hn]; intros d Hd;
    apply name_byte_not; [done|lia]|done].
  rewrite read_quoted_escaped. done.
Qed.

Lemma read_labels_pairs names vals s fuel :
  Forall (all_bytes name_byte) names → names ≠ [] → length vals = length names →
  length names ≤ fuel →
  read_labels fuel (Join (label_pairs names vals) "," +:+ "}" +:+ s) = Some (zip names vals, s).
Proof.
  intros H. revert vals fuel. induction H as [|n names Hn Hns IH]; [done|].
  intros [|v vals] [|fuel] _ Hlen Hfuel; simpl in Hlen, Hfuel; try lia.
  destruct names as [|n2 names], vals as [|v2 vals]; simpl in Hlen; try lia.
  - apply (read_one_label fuel n v (mk_byte 125) s Hn).
  - change (label_pairs (n :: n2 :: names) (v :: v2 :: vals)) with
      (label_text n v :: label_text n2 v2 :: label_pairs names vals).
    rewrite Join_cons_cons, !app_assoc_str.
    change ("," +:+ Join (label_text n2 v2 :: label_pairs names vals) "," +:+ "}" +:+ s)
      with (String (mk_byte 44) (Join (label_pairs (n2 :: names) (v2 :: vals)) "," +:+ "}" +:+ s)).
    rewrite read_one_label by done. change (is_byte 44 (mk_byte 44)) with true.
    rewrite IH; [done|done|cbn [List.length]; lia|cbn [List.length] in *; lia].
Qed.

Lemma label_pairs_len names vals :
  length vals = length names → length names ≤ len (Join (label_pairs names vals) ",").
Proof.
  revert vals. induction names as [|n names IH]; intros [|v vals] Hlen; simpl in Hlen;
    try (simpl; lia). specialize (IH vals ltac:(lia)).
  change (label_pairs (n :: names) (v :: vals)) with (label_text n v :: label_pairs names vals).
  assert (1 ≤ len (label_text n v)) as H1.
  { unfold label_text. rewrite !len_app. simpl. lia. }
  destruct (label_pairs names vals) as [|t l].
  - change (Join [label_text n v] ",") with (label_text n v).
    change (len (Join [] ",")) with 0 in IH. cbn [List.length]. lia.
  - rewrite Join_cons_cons, !len_app. cbn [List.length]. lia.
Qed.

(** ** Vectors *)

Definition series_text (v : vec) (s : series) : string :=
  vec_name v
    +:+ (if decide (labelNames v = []) then EmptyString
         else "{" +:+ Join (label_pairs (labelNames v) (labelValues s)) "," +:+ "}")
    +:+ " " +:+ FormatFloat (value s).

Lemma series_line_text v s r : series_line v s +:+ r = series_text v s +:+ char newline +:+ r.
Proof. unfold series_line, series_text. by rewrite !app_assoc_str. Qed.

Lemma series_text_no_newline v s :
  vec_ok v → no_newline (series_text v s).
Proof.
  intros [Hn _ Hl _]. unfold series_text. apply no_newline_app; [by apply name_no_newline|].
  apply no_newline_app.
  - case_decide; [done|]. apply (no_newline_app "{"); [done|]. apply no_newline_app; [|done].
    by apply Join_no_newline, label_pairs_no_newline.
  - apply (no_newline_app " "); [done|]. apply FormatFloat_no_newline.
Qed.

Lemma name_no_comment a c s : all_bytes name_byte a → c ≠ mk_byte 35 →
  HasPrefix (a +:+ String c s) "#" = false.
Proof.
  intros Ha Hc. destruct a as [|d a]; simpl.
  - by rewrite bool_decide_false.
  - destruct Ha as [Hd _]. rewrite bool_decide_false; [done|]. intros <-.
    unfold name_byte in Hd. vm_compute in Hd. naive_solver.
Qed.

Lemma until_name a b s :
  all_bytes name_byte a → (b = 32 ∨ b = 123)%N →
  until (λ c, is_byte 123 c || is_byte 32 c) (a +:+ String (mk_byte b) s)
    = (a, String (mk_byte b) s).
Proof.
  intros Ha Hb. apply until_stop; [|by destruct Hb as [->| ->]].
  eapply all_bytes_mono; [|exact Ha]. intros c Hc. simpl.
  rewrite !name_byte_not; auto.
Qed.

Lemma read_series_text v s k :
  vec_ok v → vec_series v !! k = Some s → read_line (series_text v s) = Some (sample_of v s).
Proof.
  intros [Hn _ Hl Hser] Hk. pose proof (Hser k s Hk) as Hlen. simpl in Hlen.
  unfold series_text, read_line, sample_of.
  destruct (decide (labelNames v = [])) as [Hnil|Hne].
  - change (EmptyString +:+ " " +:+ FormatFloat (value s))
      with (String (mk_byte 32) (FormatFloat (value s))).
    rewrite name_no_comment, until_name by auto. by rewrite Hnil.
  - rewrite !app_assoc_str.
    change ("{" +:+ Join (label_pairs (labelNames v) (labelValues s)) "," +:+ "}" +:+ " "
        +:+ FormatFloat (value s))
      with (String (mk_byte 123) (Join (label_pairs (labelNames v) (labelValues s)) ","
        +:+ "}" +:+ String (mk_byte 32) (FormatFloat (value s)))).
    rewrite name_no_comment, until_name by auto. change (is_byte 123 (mk_byte 123)) with true.
    rewrite read_labels_pairs; [done|done|done|done|].
    pose proof (label_pairs_len _ _ Hlen). rewrite len_app. lia.
Qed.

Lemma read_text_line l s : no_newline l →
  read_text (l +:+ char newline +:+ s) = option_list (read_line l) ++ read_text s.
Proof.
  intros Hl. unfold read_text. rewrite split_lines_line by done. simpl.
  by destruct (read_line l).
Qed.

Lemma read_series_lines v keys s :
  vec_ok v →
  read_text (foldr (λ k t, match vec_series v !! k with
                           | Some x => series_line v x +:+ t
                           | None => t
                           end) EmptyString keys +:+ s)
  = omap (λ k, sample_of v <$> vec_series v !! k) keys ++ read_text s.
Proof.
  intros Hv. induction keys as [|k keys IH]; [done|]. simpl.
  destruct (vec_series v !! k) as [x|] eqn:Hk; simpl; [|exact IH].
  rewrite app_assoc_str, series_line_text, read_text_line by by apply series_text_no_newline.
  rewrite (read_series_text v x k Hv Hk), IH. done.
Qed.

(** Comments are skipped. *)
Lemma read_text_comment a s :
  no_newline a → read_text ("#" +:+ a +:+ char newline +:+ s) = read_text s.
Proof.
  intros Ha. change ("#" +:+ a +:+ char newline +:+ s) with (("#" +:+ a) +:+ char newline +:+ s).
  by rewrite read_text_line by by apply (no_newline_app "#").
Qed.

Lemma read_vec_text v s :
  vec_ok v → read_text (vec_text v +:+ s) = samples v ++ read_text s.
Proof.
  intros Hv. pose proof Hv as [Hn Hk _ _]. unfold vec_text, samples. rewrite !app_assoc_str.
  set (lines := foldr _ _ _ +:+ s).
  assert (no_newline (" HELP " +:+ vec_name v +:+ " " +:+ escapeHelp (help v))) as H1.
  { repeat apply no_newline_app; try done; [by apply name_no_newline|].
    apply escaped_help_no_newline. }
  assert (no_newline (" TYPE " +:+ vec_name v +:+ " " +:+ kind v)) as H2.
  { repeat apply no_newline_app; try done; by apply name_no_newline. }
  pose proof (read_text_comment _ ("# TYPE " +:+ vec_name v +:+ " " +:+ kind v
    +:+ char newline +:+ lines) H1) as E1.
  pose proof (read_text_comment _ lines H2) as E2.
  rewrite !app_assoc_str in E1, E2. etrans; [exact E1|]. etrans; [exact E2|].
  by apply read_series_lines.
Qed.

(** Registering and updating vectors keeps them so. *)
Lemma update_vec_ok l fn v v' : vec_ok v → update l fn v = Some v' → vec_ok v'.
Proof.
  intros [Hn Hk Hl Hs]. unfold update. destruct (bool_decide_reflect
    (length l = length (labelNames v))) as [Hlen|]; simpl; [|done]. intros [= <-].
  split; try done. simpl. apply map_Forall_insert_2; [|done]. simpl.
  destruct (vec_series v !! seriesKey l) as [s|] eqn:Hk'; [|done]. simpl.
  by apply (Hs _ _ Hk').
Qed.

(** The text of the registry says what the registry holds.  Whatever bytes
    the label values and help texts have, a reader of the text format gets from
    [WriteText] each series of each vector once, in the order of registration and
    of the keys, with its name, its labels and its value; no label value can break
    out of its quotes or forge a line. *)
Lemma WriteText_roundtrip (vecs : list vec) :
  Forall vec_ok vecs → read_text (WriteText vecs) = vecs ≫= samples.
Proof.
  induction 1 as [|v vecs Hv _ IH]; [done|].
  change (WriteText (v :: vecs)) with (vec_text v +:+ WriteText vecs).
  by rewrite read_vec_text, IH, bind_cons.
Qed.

(** ** Witness *)

(** A gauge whose label values do what they can to break out. *)
Definition hostile : vec :=
  mkVec "orchard_gh_bridge_excluded" "Help with a \ and a quote." "gauge" ["worker"; "reason"]
    {["k" := mkSeries [String dquote "} 5" +:+ char newline +:+ "up 1"; "back\slash"] 1200000]}.

Lemma WriteText_roundtrip_witness :
  read_text (WriteText [hostile]) = samples hostile ∧
  samples hostile =
    [mkSample "orchard_gh_bridge_excluded"
       [("worker", String dquote "} 5" +:+ char newline +:+ "up 1"); ("reason", "back\slash")]
       "1.2e+06"].
Proof.
  split; [|by vm_compute].
  rewrite (WriteText_roundtrip [hostile]); [by rewrite bind_cons, app_nil_r|].
  constructor; [|constructor].
  split; [..|by apply map_Forall_singleton]; cbn; unfold name_byte; cbn; [lia..|].
  constructor; [|constructor; [|constructor]]; cbn; lia.
Defined.
