(* ===== verification/Registry.v ===== *)
(** * The registry and its scrape ([metrics/metrics.go])

    [GaugeVec] and [CounterVec] are pointers into the registry that gave them: what
    is written through one shows in the next scrape.  Here a registry is the list of
    its vectors and a pointer an index of it; a script of the program's calls runs on
    it, and a scrape is held against what the script's history says. *)

From S2P Require Import Prelude GoBase Metrics MetricsText.

(** ** The registry *)

Notation Registry := (list vec).
Definition NewRegistry : Registry := [].

(** A [*GaugeVec] or a [*CounterVec]: nil, or the vector's place. *)
Definition handle : Type := option nat.

(** The registry is [None] when the pointer to it is nil. *)
Definition register_in (name help kind : string) (labelNames : list string)
    (r : Registry) : handle * Registry :=
  (Some (length r), r ++ [register name help kind labelNames]).

Definition NewGaugeVec (name help : string) (labelNames : list string)
    (r : option Registry) : handle * option Registry :=
  match r with
  | None => (None, None)
  | Some r => let '(h, r) := register_in name help "gauge" labelNames r in (h, Some r)
  end.

Definition NewCounterVec (name help : string) (labelNames : list string)
    (r : option Registry) : handle * option Registry :=
  match r with
  | None => (None, None)
  | Some r => let '(h, r) := register_in name help "counter" labelNames r in (h, Some r)
  end.

(** A method on a handle: nothing on nil; [None] is a panic, of the method or of a
    handle that no registration gave. *)
Definition on_vec (f : vec → option vec) (h : handle) (r : option Registry)
    : option (option Registry) :=
  match h with
  | None => Some r
  | Some i => r ← r; v ← r !! i; v' ← f v; Some (Some (<[i := v']> r))
  end.

Definition Gauge_Set (h : handle) (x : Z) (ls : list string) := on_vec (gauge_Set x ls) h.
Definition Gauge_Delete (h : handle) (ls : list string) :=
  on_vec (λ v, Some (gauge_Delete ls v)) h.
Definition Counter_Inc (h : handle) (ls : list string) := on_vec (counter_Inc ls) h.

Definition vec_of (h : handle) (r : option Registry) : option vec := i ← h; r ← r; r !! i.

(** [Value] of a gauge tells whether there is a series, that of a counter does not. *)
Definition Gauge_Value (h : handle) (ls : list string) (r : option Registry) : Z * bool :=
  match vec_of h r with
  | None => (0%Z, false)
  | Some v => match get ls v with Some x => (x, true) | None => (0%Z, false) end
  end.
Definition Counter_Value (h : handle) (ls : list string) (r : option Registry) : Z :=
  match vec_of h r with None => 0%Z | Some v => default 0%Z (get ls v) end.

(** What a scrape answers. *)
Record response : Type := mkResponse { content_type : string; body : string }.
Definition Handler (r : Registry) : response :=
  mkResponse "text/plain; version=0.0.4; charset=utf-8" (WriteText r).

(** ** Scripts of calls *)

Inductive call : Type :=
  | CNewGauge (name help : string) (labelNames : list string)
  | CNewCounter (name help : string) (labelNames : list string)
  | CSet (h : handle) (x : Z) (ls : list string)
  | CDelete (h : handle) (ls : list string)
  | CInc (h : handle) (ls : list string).

Definition run_call (c : call) (r : option Registry) : option (option Registry) :=
  match c with
  | CNewGauge name help lns => Some (NewGaugeVec name help lns r).2
  | CNewCounter name help lns => Some (NewCounterVec name help lns r).2
  | CSet h x ls => Gauge_Set h x ls r
  | CDelete h ls => Gauge_Delete h ls r
  | CInc h ls => Counter_Inc h ls r
  end.

Fixpoint run_calls (cs : list call) (r : option Registry) : option (option Registry) :=
  match cs with [] => Some r | c :: cs => r ← run_call c r; run_calls cs r end.

(** ** What the history of the calls says

    The value last set for a handle and a label tuple, if it was not deleted since,
    or how often it was incremented: no registry, no keys, no text. *)

Definition level : Type := nat → list string → option Z.

Definition note_call (c : call) (f : level) : level :=
  let at_ i ls y := λ j k, if decide (j = i ∧ k = ls) then y else f j k in
  match c with
  | CSet (Some i) x ls => at_ i ls (Some x)
  | CDelete (Some i) ls => at_ i ls None
  | CInc (Some i) ls => at_ i ls (Some (default 0 (f i ls) + 1)%Z)
  | _ => f
  end.

Definition history (cs : list call) (f : level) : level := foldl (flip note_call) f cs.
Definition nothing : level := λ _ _, None.

(** The vectors registered, in order. *)
Definition header (c : call) : option (string * string * list string) :=
  match c with
  | CNewGauge name _ lns => Some (name, "gauge", lns)
  | CNewCounter name _ lns => Some (name, "counter", lns)
  | _ => None
  end.
Definition vec_header (v : vec) : string * string * list string :=
  (vec_name v, kind v, labelNames v).

Definition sample_at (h : string * string * list string) (f : list string → option Z)
    (l : list string) : sample :=
  mkSample h.1.1 (zip h.2 l) (FormatFloat (default 0%Z (f l))).

(** Scripts of the program: legal names at registration, and text at use, as many
    values as the vector has labels.  [ar]: how many labels each vector has. *)
Definition use_ok (ar : list nat) (h : handle) (ls : list string) : Prop :=
  Forall clean ls ∧ match h with Some i => ar !! i = Some (length ls) | None => True end.

Fixpoint script_ok (ar : list nat) (cs : list call) : Prop :=
  match cs with
  | [] => True
  | CNewGauge name _ lns :: cs | CNewCounter name _ lns :: cs =>
      (all_bytes name_byte name ∧ Forall (all_bytes name_byte) lns)
      ∧ script_ok (ar ++ [length lns]) cs
  | CSet h _ ls :: cs | CDelete h ls :: cs | CInc h ls :: cs =>
      use_ok ar h ls ∧ script_ok ar cs
  end.

(** That given names and label values are legal. *)
Ltac legal :=
  cbn; unfold use_ok, name_byte, clean; cbn;
  repeat match goal with
  | |- _ ∧ _ => split
  | |- Forall _ _ => constructor
  end; cbn; try done; lia.

(** ** One vector *)

(** Each series is under the key of its label values. *)
Definition keyed (v : vec) : Prop :=
  map_Forall (λ k s, k = seriesKey (labelValues s) ∧ labels_ok v (labelValues s))
    (vec_series v).

(** The vector holds what [f] says. *)
Record holds (v : vec) (f : list string → option Z) : Prop := {
  holds_vec : vec_ok v;
  holds_keyed : keyed v;
  holds_get : ∀ l, labels_ok v l → get l v = f l;
  holds_dom : ∀ l, is_Some (f l) → labels_ok v l
}.

Lemma holds_ext v f g : (∀ l, f l = g l) → holds v f → holds v g.
Proof.
  intros Hfg [? ? Hget Hdom]. split; [done..| |]; intros l; rewrite <-Hfg; auto.
Qed.

Lemma holds_register name help kind lns :
  all_bytes name_byte name → all_bytes name_byte kind → Forall (all_bytes name_byte) lns →
  holds (register name help kind lns) (λ _, None).
Proof.
  intros. split; [split; try done; apply map_Forall_empty|apply map_Forall_empty|done|].
  by intros l [].
Qed.

Lemma keyed_update v l fn v' :
  keyed v → labels_ok v l → update l fn v = Some v' → keyed v' ∧ vec_header v' = vec_header v.
Proof.
  intros Hkey Hl. unfold update. destruct (negb _); [done|]. intros [= <-]. split; [|done].
  intros k s. cbn [vec_series set_series].
  intros [[<- <-]|[_ Hk]]%lookup_insert_Some; [|by apply Hkey]. cbn [labelValues].
  destruct (vec_series v !! seriesKey l) as [s'|] eqn:Hs; [|done]. by apply Hkey.
Qed.

Lemma holds_update v f l fn :
  holds v f → labels_ok v l →
  ∃ v', update l fn v = Some v' ∧ vec_header v' = vec_header v ∧
        holds v' (λ k, if decide (k = l) then Some (fn (default 0%Z (f l))) else f k).
Proof.
  intros [Hok Hkey Hget Hdom] Hl. destruct (update_ok l fn v Hl) as [v' Hv'].
  destruct (update_get _ _ _ _ Hv') as (Hn & Hself & Hother).
  destruct (keyed_update _ _ _ _ Hkey Hl Hv') as [Hkey' Hh].
  exists v'. split; [done|]. split; [done|].
  assert (∀ k, labels_ok v' k ↔ labels_ok v k) as Hlab
    by (intros k; unfold labels_ok; by rewrite Hn).
  split; [by eapply update_vec_ok|done|..].
  - intros k. rewrite Hlab. intros Hk. destruct (decide (k = l)) as [->|Hne].
    + by rewrite Hself, Hget.
    + by rewrite Hother, Hget.
  - intros k. rewrite Hlab. destruct (decide (k = l)) as [->|]; [done|apply Hdom].
Qed.

Lemma holds_delete v f l :
  holds v f → labels_ok v l →
  holds (gauge_Delete l v) (λ k, if decide (k = l) then None else f k).
Proof.
  intros [[? ? ? Hser] Hkey Hget Hdom] Hl. destruct (delete_get l v) as (_ & Hself & Hother).
  split.
  - split; try done. by apply map_Forall_delete.
  - by apply map_Forall_delete.
  - intros k Hk. destruct (decide (k = l)) as [->|Hne]; [done|]. by rewrite Hother, Hget.
  - intros k. destruct (decide (k = l)) as [->|]; [done|apply Hdom].
Qed.

(** The label tuples of a vector's series, in the order of their keys. *)
Definition tuples (v : vec) : list (list string) :=
  labelValues <$> omap (λ k, vec_series v !! k) (sortedKeys (vec_series v)).

Lemma keys_of_tuples v : keyed v → seriesKey <$> tuples v = sortedKeys (vec_series v).
Proof.
  intros Hkey. unfold tuples.
  assert (∀ k, k ∈ sortedKeys (vec_series v) → is_Some (vec_series v !! k)) as H
    by (intros k; apply elem_of_sortedKeys).
  induction (sortedKeys (vec_series v)) as [|k ks IH]; [done|].
  destruct (H k) as [s Hs]; [by left|]. cbn. rewrite Hs. cbn.
  destruct (Hkey k s Hs) as [<- _]. f_equal. apply IH. intros k' Hk'. apply H. by right.
Qed.

Lemma elem_of_tuples v f l : holds v f → l ∈ tuples v ↔ is_Some (f l).
Proof.
  intros [_ Hkey Hget Hdom]. split.
  - unfold tuples. intros (s & -> & (k & _ & Hs)%list_elem_of_omap)%list_elem_of_fmap.
    destruct (Hkey k s Hs) as [-> Hl]. rewrite <-Hget by done. unfold get. rewrite Hs. by eexists.
  - intros Hf. pose proof (Hdom l Hf) as Hl. rewrite <-Hget in Hf by done.
    unfold get in Hf. apply fmap_is_Some in Hf as [s Hs].
    destruct (Hkey _ _ Hs) as [Heq [Hlen Hc]].
    apply list_elem_of_fmap. exists s. split.
    { destruct Hl. apply seriesKey_injective; [congruence|done..]. }
    apply list_elem_of_omap. exists (seriesKey l). split; [|done].
    apply elem_of_sortedKeys. by eexists.
Qed.

Lemma tuples_NoDup v : keyed v → NoDup (tuples v).
Proof.
  intros Hkey. apply (NoDup_fmap_1 seriesKey). rewrite keys_of_tuples by done.
  apply sortedKeys_NoDup.
Qed.

(** The samples of a vector are what it holds, tuple by tuple. *)
Lemma holds_samples v f : holds v f → samples v = sample_at (vec_header v) f <$> tuples v.
Proof.
  intros [_ Hkey Hget _]. unfold samples, tuples.
  induction (sortedKeys (vec_series v)) as [|k ks IH]; [done|]. cbn.
  destruct (vec_series v !! k) as [s|] eqn:Hs; cbn; [|done]. f_equal; [|done].
  destruct (Hkey k s Hs) as [-> Hl]. unfold sample_of, sample_at. cbn. do 2 f_equal.
  rewrite <-Hget by done. unfold get. by rewrite Hs.
Qed.

(** ** The whole registry *)

(** Vector after vector, the registry holds what [f] says. *)
Record reports (r : Registry) (f : level) : Prop := {
  reports_at : ∀ i v, r !! i = Some v → holds v (f i);
  reports_beyond : ∀ i l, length r ≤ i → f i l = None
}.

Lemma reports_register r f name help kind lns :
  all_bytes name_byte name → all_bytes name_byte kind → Forall (all_bytes name_byte) lns →
  reports r f → reports (register_in name help kind lns r).2 f.
Proof.
  intros Hn Hk Hl [Hat Hby]. split; cbn.
  - intros i v [Hv|[Hi [_ <-]%list_lookup_singleton_Some]]%lookup_app_Some; [by apply Hat|].
    eapply holds_ext; [|by apply holds_register]. intros l. symmetry. apply Hby. lia.
  - intros i l. rewrite length_app. intros Hi. apply Hby. lia.
Qed.

Lemma reports_insert r f i v v' ls y :
  r !! i = Some v → reports r f →
  holds v' (λ k, if decide (k = ls) then y else f i k) →
  reports (<[i := v']> r) (λ j k, if decide (j = i ∧ k = ls) then y else f j k).
Proof.
  intros Hv [Hat Hby] Hh. pose proof (lookup_lt_Some _ _ _ Hv) as Hi. split.
  - intros j w [(-> & <- & _)|(Hne & Hw)]%list_lookup_insert_Some.
    + eapply holds_ext; [|exact Hh]. intros k. by apply decide_ext; split; [|intros []].
    + eapply holds_ext; [|by apply Hat]. intros k. cbn. by rewrite decide_False by naive_solver.
  - intros j l. rewrite length_insert. intros Hj. rewrite decide_False by lia. by apply Hby.
Qed.

Definition arities (r : Registry) : list nat := (λ v, length (labelNames v)) <$> r.

(** A use of a handle with as many text values as its vector has labels. *)
Lemma use_ok_vec (r : Registry) i ls : use_ok (arities r) (Some i) ls → ∃ v, r !! i = Some v ∧ labels_ok v ls.
Proof.
  intros [Hc Hi]. unfold arities in Hi. rewrite list_lookup_fmap in Hi.
  apply fmap_Some in Hi as (v & Hv & Hlen). by exists v.
Qed.

Lemma headers_insert (r : Registry) (i : nat) v v' :
  r !! i = Some v → vec_header v' = vec_header v →
  vec_header <$> <[i := v']> r = vec_header <$> r.
Proof.
  intros Hv Hh. rewrite list_fmap_insert, Hh. apply list_insert_id.
  by rewrite list_lookup_fmap, Hv.
Qed.

Lemma arities_headers (r : Registry) : arities r = (λ h, length h.2) <$> (vec_header <$> r).
Proof. unfold arities. by rewrite <-list_fmap_compose. Qed.

Lemma on_vec_Some f i r v v' :
  r !! i = Some v → f v = Some v' → on_vec f (Some i) (Some r) = Some (Some (<[i := v']> r)).
Proof. intros Hv Hf. unfold on_vec, mbind, option_bind. by rewrite Hv, Hf. Qed.

(** An update through a handle. *)
Lemma on_vec_update r f h ls fn :
  use_ok (arities r) h ls → reports r f →
  ∃ r', on_vec (update ls fn) h (Some r) = Some (Some r') ∧
    vec_header <$> r' = vec_header <$> r ∧
    reports r' (match h with
               | Some i => λ j k, if decide (j = i ∧ k = ls)
                                  then Some (fn (default 0%Z (f i ls))) else f j k
               | None => f
               end).
Proof.
  intros Hu Ha. destruct h as [i|]; [|by exists r].
  destruct (use_ok_vec r i ls Hu) as (v & Hv & Hl).
  destruct (holds_update v (f i) ls fn (reports_at r f Ha i v Hv) Hl) as (v' & Hup & Hh & Hv').
  exists (<[i := v']> r). split; [by eapply on_vec_Some|].
  split; [by eapply headers_insert|by eapply reports_insert].
Qed.

(** One call, as the history records it. *)
Lemma run_call_reports r f c cs :
  script_ok (arities r) (c :: cs) → reports r f →
  ∃ r', run_call c (Some r) = Some (Some r') ∧
    vec_header <$> r' = (vec_header <$> r) ++ option_list (header c) ∧
    script_ok (arities r') cs ∧ reports r' (note_call c f).
Proof.
  intros Hs Ha. destruct c as [name help lns|name help lns|h x ls|h ls|h ls];
    destruct Hs as [Hc Hs]; cbn [run_call header option_list]; rewrite ?app_nil_r.
  1,2: destruct Hc; eexists; split; [reflexivity|]; split; [by rewrite fmap_app|];
    (split; [by unfold arities; rewrite fmap_app|]);
    apply reports_register; try done; cbn; unfold name_byte; cbn; lia.
  all: assert (∀ r', vec_header <$> r' = vec_header <$> r → script_ok (arities r') cs) as Har
    by (intros r' Hr; by rewrite arities_headers, Hr, <-arities_headers).
  1: destruct (on_vec_update r f h ls (λ _, x) Hc Ha) as (r' & Hr & Hh & Ha').
  3: destruct (on_vec_update r f h ls (λ n, n + 1)%Z Hc Ha) as (r' & Hr & Hh & Ha').
  1,3: exists r'; split; [exact Hr|]; split; [done|]; split; [by apply Har|]; by destruct h.
  destruct h as [i|]; [|by exists r].
  destruct (use_ok_vec r i ls Hc) as (v & Hv & Hl). exists (<[i := gauge_Delete ls v]> r).
  assert (vec_header <$> <[i := gauge_Delete ls v]> r = vec_header <$> r) as Hh
    by by eapply headers_insert.
  split; [by apply (on_vec_Some _ i r v)|]. split; [done|]. split; [by apply Har|].
  eapply reports_insert; [done..|]. apply holds_delete; [|done]. by apply Ha.
Qed.

Lemma run_reports cs r f :
  script_ok (arities r) cs → reports r f →
  ∃ r', run_calls cs (Some r) = Some (Some r') ∧
    vec_header <$> r' = (vec_header <$> r) ++ omap header cs ∧ reports r' (history cs f).
Proof.
  revert r f. induction cs as [|c cs IH]; intros r f Hs Ha.
  { exists r. by rewrite app_nil_r. }
  destruct (run_call_reports r f c cs Hs Ha) as (r1 & Hr1 & Hh1 & Hs1 & Ha1).
  destruct (IH r1 _ Hs1 Ha1) as (r' & Hr' & Hh' & Ha').
  exists r'. cbn [run_calls]. rewrite Hr1. split; [done|]. split; [|done].
  rewrite Hh', Hh1, <-app_assoc. cbn. by destruct (header c).
Qed.

Lemma bind_imap {A B} (l : list A) (g : A → list B) (k : nat → A → list B) :
  (∀ i x, l !! i = Some x → g x = k i x) → l ≫= g = mjoin (imap k l).
Proof.
  revert k. induction l as [|x l IH]; intros k Hk; [done|].
  rewrite bind_cons, imap_cons. cbn [mjoin list_join]. f_equal; [by apply (Hk 0)|].
  apply IH. intros i y Hy. by apply (Hk (S i)).
Qed.

(** What a scrape of it gives. *)
Lemma reports_scrape r f :
  reports r f →
  read_text (body (Handler r)) =
    mjoin (imap (λ i h, sample_at h (f i) <$> default [] (tuples <$> r !! i))
             (vec_header <$> r)).
Proof.
  intros [Hat _]. change (body (Handler r)) with (WriteText r). rewrite WriteText_roundtrip.
  - rewrite imap_fmap. apply bind_imap. intros i v Hv. rewrite Hv. cbn.
    by apply holds_samples, Hat.
  - apply Forall_lookup. intros i v Hv. apply (Hat i v Hv).
Qed.

Lemma reports_nothing : reports NewRegistry nothing.
Proof. by split. Qed.

(** C36: a scrape reports the history of the calls, and nothing else.  Take any
    script of the calls the program makes on its metrics, with legal names and as
    many values, of any text, as labels: none of them panics, and a reader of the
    text format gets from the scrape, for each gauge and counter registered, in that
    order, one sample for each label tuple whose value was set or incremented and not
    deleted since, in the order of the keys, with that value: the one last set, or
    the number of increments.  [Value] says the same. *)
Theorem scrape_reports_history (cs : list call) :
  script_ok [] cs →
  ∃ (r : Registry) (ts : nat → list (list string)),
    run_calls cs (Some NewRegistry) = Some (Some r) ∧
    (∀ i, NoDup (ts i) ∧ Sorted str_le (seriesKey <$> ts i) ∧
          ∀ l, l ∈ ts i ↔ is_Some (history cs nothing i l)) ∧
    read_text (body (Handler r)) =
      mjoin (imap (λ i h, sample_at h (history cs nothing i) <$> ts i) (omap header cs)) ∧
    ∀ i h l, omap header cs !! i = Some h → length l = length h.2 → Forall clean l →
      Gauge_Value (Some i) l (Some r) =
        (default 0%Z (history cs nothing i l), bool_decide (is_Some (history cs nothing i l))) ∧
      Counter_Value (Some i) l (Some r) = default 0%Z (history cs nothing i l).
Proof.
  intros Hs. destruct (run_reports cs NewRegistry nothing Hs reports_nothing) as (r & Hr & Hh & Ha).
  cbn in Hh. exists r, (λ i, default [] (tuples <$> r !! i)). split; [done|]. split; [|split].
  - intros i. destruct (r !! i) as [v|] eqn:Hv; cbn.
    + pose proof (reports_at _ _ Ha i v Hv) as Hv'. pose proof (holds_keyed _ _ Hv') as Hk.
      split; [by apply tuples_NoDup|]. split; [|intros l; by apply elem_of_tuples].
      rewrite keys_of_tuples by done. apply sortedKeys_Sorted.
    + split; [constructor|]. split; [constructor|]. intros l.
      rewrite (reports_beyond _ _ Ha) by by apply lookup_ge_None. rewrite elem_of_nil. by split; [|intros []].
  - rewrite <-Hh. by apply reports_scrape.
  - intros i h l Hi Hlen Hc. rewrite <-Hh, list_lookup_fmap in Hi.
    apply fmap_Some in Hi as (v & Hv & ->).
    pose proof (holds_get _ _ (reports_at _ _ Ha i v Hv) l (conj Hlen Hc)) as Hget.
    unfold Gauge_Value, Counter_Value.
    change (vec_of (Some i) (Some r)) with (r !! i). rewrite Hv. cbn. rewrite Hget.
    destruct (history cs nothing i l).
    + by rewrite bool_decide_eq_true_2 by by eexists.
    + by rewrite bool_decide_eq_false_2 by by intros [].
Qed.

(** ** Witness *)

(** The program's own vectors, and text that tries to break out of its quotes. *)
Definition evil : string := String dquote "} 5" +:+ char newline +:+ "up 1".
Definition script : list call :=
  [CNewGauge "orchard_gh_bridge_autosize_worker_excluded" "1 for each \ worker."
     ["scale_set"; "reason"];
   CNewCounter "orchard_gh_bridge_workers_pruned_total" "Workers pruned." [];
   CSet (Some 0) 1 ["b"; evil]; CSet (Some 0) 1 ["a"; "paused"]; CInc (Some 1) [];
   CSet (Some 0) 1200000 ["a"; evil]; CDelete (Some 0) ["a"; "paused"]; CInc None ["x"];
   CInc (Some 1) []].

Lemma scrape_reports_history_witness :
  script_ok [] script ∧
  (∃ r, run_calls script (Some NewRegistry) = Some (Some r) ∧
     read_text (body (Handler r)) =
       [mkSample "orchard_gh_bridge_autosize_worker_excluded"
          [("scale_set", "a"); ("reason", evil)] "1.2e+06";
        mkSample "orchard_gh_bridge_autosize_worker_excluded"
          [("scale_set", "b"); ("reason", evil)] "1";
        mkSample "orchard_gh_bridge_workers_pruned_total" [] "2"]) ∧
  ∃ r, run_calls script (Some NewRegistry) = Some (Some r) ∧
     Gauge_Value (Some 0) ["a"; "paused"] (Some r) = (0%Z, false) ∧
     Counter_Value (Some 1) [] (Some r) = 2%Z.
Proof.
  assert (script_ok [] script) as Hok.
  { unfold evil. legal. }
  split; [exact Hok|]. split.
  - eexists. split; vm_compute; reflexivity.
  - destruct (scrape_reports_history script Hok) as (r & ts & Hr & _ & _ & Hval).
    exists r. split; [exact Hr|]. split.
    + by destruct (Hval 0 _ ["a"; "paused"] eq_refl eq_refl ltac:(by repeat constructor)) as [-> _].
    + by destruct (Hval 1 _ [] eq_refl eq_refl ltac:(by constructor)) as [_ ->].
Defined.
