(* ===== verification/Eligibility.v ===== *)
(** * The AutoSize eligibility monitor ([bridge/eligibility.go])

    The exclusions themselves are in AutoSize.  The monitor compares those of one
    scale set with the last ones, logs the differences, and keeps a gauge per
    exclusion; [Observe] returns what it logs. *)

From S2P Require Import Prelude GoBase Orchard Workers AutoSize Metrics.

(** ** State *)

(** A vector the registry gave, or nil. *)
Definition GaugeVec : Type := option vec.

(** [None] is a panic. *)
Definition GaugeVec_Set (x : Z) (labelVals : list string) (g : GaugeVec) : option GaugeVec :=
  match g with
  | None => Some None
  | Some v => match gauge_Set x labelVals v with Some v => Some (Some v) | None => None end
  end.

Definition GaugeVec_Delete (labelVals : list string) (g : GaugeVec) : GaugeVec :=
  match g with None => None | Some v => Some (gauge_Delete labelVals v) end.

Definition GaugeVec_Value (labelVals : list string) (g : GaugeVec) : option Z :=
  match g with None => None | Some v => get labelVals v end.

Record EligibilityMonitor : Type := mkMonitor {
  excluded : GaugeVec;
  eligible : GaugeVec;
  m_last : gmap string (gmap string AutoSizeExclusion)  (* scale set, worker *)
}.

(** [reg] tells whether there is a registry. *)
Definition NewEligibilityMonitor (reg : bool) : EligibilityMonitor :=
  let gauge name help labels :=
    if reg then Some (register name help "gauge" labels) else None in
  mkMonitor
    (gauge "orchard_gh_bridge_autosize_worker_excluded"
       "1 for each live worker that matches an AutoSize scale set's labels but cannot take its VMs, labelled with the reason."
       ["scale_set"; "worker"; "pin_label"; "reason"])
    (gauge "orchard_gh_bridge_autosize_eligible_workers"
       "Number of live workers an AutoSize scale set can place VMs on." ["scale_set"])
    ∅.

(** What is logged. *)
Inductive logged : Type :=
  | Excluded (ex : AutoSizeExclusion)              (* WARN *)
  | EligibleAgain (worker previousReason : string)  (* INFO *)
  | NoLongerLive (worker previousReason : string).  (* INFO *)

Definition sameExclusion (a b : AutoSizeExclusion) : bool :=
  bool_decide (ex_Reason a = ex_Reason b) && bool_decide (ex_PinLabel a = ex_PinLabel b)
  && bool_decide (Join (ex_SharedWith a) "," = Join (ex_SharedWith b) ",").

(** ** Observing *)

(** [for _, ex := range exclusions { current[ex.Worker] = ex }]. *)
Definition by_worker (exs : list AutoSizeExclusion) : gmap string AutoSizeExclusion :=
  foldl (λ m ex, <[ex_Worker ex := ex]> m) ∅ exs.

Definition excluded_labels (scaleSet : string) (ex : AutoSizeExclusion) : list string :=
  [scaleSet; ex_Worker ex; ex_PinLabel ex; ex_Reason ex].

Section Loops.
Variables (scaleSet : string) (prev current : gmap string AutoSizeExclusion).

(** The first loop, over the workers now excluded. *)
Fixpoint report_excluded (names : list string) (g : GaugeVec)
    : option (list logged * GaugeVec) :=
  match names with
  | [] => Some ([], g)
  | name :: names =>
      match current !! name with
      | None => report_excluded names g
      | Some ex =>
          let old := prev !! name in
          if match old with Some o => sameExclusion o ex | None => false end
          then report_excluded names g
          else
            let g := match old with
                     | Some o => GaugeVec_Delete (excluded_labels scaleSet o) g
                     | None => g
                     end in
            match GaugeVec_Set 1 (excluded_labels scaleSet ex) g with
            | None => None
            | Some g =>
                match report_excluded names g with
                | None => None
                | Some (log, g) => Some (Excluded ex :: log, g)
                end
            end
      end
  end.

Variable present : gset string.

(** The second loop, over the workers excluded before. *)
Fixpoint report_recovered (names : list string) (g : GaugeVec) : list logged * GaugeVec :=
  match names with
  | [] => ([], g)
  | name :: names =>
      match current !! name, prev !! name with
      | None, Some o =>
          let '(log, g) := report_recovered names
                             (GaugeVec_Delete (excluded_labels scaleSet o) g) in
          ((if decide (name ∈ present) then EligibleAgain name (ex_Reason o)
            else NoLongerLive name (ex_Reason o)) :: log, g)
      | _, _ => report_recovered names g
      end
  end.
End Loops.

(** [Observe], on a monitor or nil: what is logged, and the monitor after it. *)
Definition Observe (scaleSet : string) (workers : list Worker)
    (vmLabels : gmap string string) (reserveCPU reserveMemMiB : Z)
    (m : option EligibilityMonitor) : option (list logged * option EligibilityMonitor) :=
  match m with
  | None => Some ([], None)
  | Some m =>
      let current := by_worker (AutoSizeExclusions workers vmLabels reserveCPU reserveMemMiB) in
      let present := list_to_set (w_Name <$> workers) in
      let prev := default ∅ (m_last m !! scaleSet) in
      match report_excluded scaleSet prev current (sortedKeys current) (excluded m) with
      | None => None
      | Some (log1, g) =>
          let '(log2, g) :=
            report_recovered scaleSet prev current present (sortedKeys prev) g in
          match GaugeVec_Set (WorkerCountForLabels workers vmLabels reserveCPU reserveMemMiB)
                  [scaleSet] (eligible m) with
          | None => None
          | Some el => Some (log1 ++ log2,
                             Some (mkMonitor g el (<[scaleSet := current]> (m_last m))))
          end
      end
  end.

(** ** What the gauge shows *)

(** The value of a series, given the exclusions of its scale set. *)
Definition expected (m : gmap string AutoSizeExclusion) (w p r : string) : option Z :=
  match m !! w with
  | Some ex => if decide (ex_PinLabel ex = p ∧ ex_Reason ex = r) then Some 1%Z else None
  | None => None
  end.

Definition shows (g : GaugeVec) (st : string → gmap string AutoSizeExclusion) : Prop :=
  match g with
  | None => True
  | Some v => length (labelNames v) = 4 ∧
      ∀ ss w p r, Forall clean [ss; w; p; r] → get [ss; w; p; r] v = expected (st ss) w p r
  end.

(** An exclusion recorded under its worker's name, in clean text. *)
Definition recorded_ok (m : gmap string AutoSizeExclusion) : Prop :=
  ∀ n ex, m !! n = Some ex →
    ex_Worker ex = n ∧ clean n ∧ clean (ex_PinLabel ex) ∧ clean (ex_Reason ex).

Definition upd (st : string → gmap string AutoSizeExclusion) (ss : string)
    (m : gmap string AutoSizeExclusion) : string → gmap string AutoSizeExclusion :=
  λ s, if decide (s = ss) then m else st s.

Lemma upd_same st ss m : upd st ss m ss = m.
Proof. unfold upd. by rewrite decide_True. Qed.

Lemma expected_insert m n ex w p r :
  expected (<[n := ex]> m) w p r =
  if decide (w = n) then
    if decide (ex_PinLabel ex = p ∧ ex_Reason ex = r) then Some 1%Z else None
  else expected m w p r.
Proof.
  unfold expected. destruct (decide (w = n)) as [->|Hne].
  - by rewrite lookup_insert_eq.
  - by rewrite lookup_insert_ne.
Qed.

Lemma expected_delete m n w p r :
  expected (delete n m) w p r = if decide (w = n) then None else expected m w p r.
Proof.
  unfold expected. destruct (decide (w = n)) as [->|Hne].
  - by rewrite lookup_delete_eq.
  - by rewrite lookup_delete_ne.
Qed.

Lemma excluded_labels_clean ss m n ex :
  clean ss → recorded_ok m → m !! n = Some ex →
  excluded_labels ss ex = [ss; n; ex_PinLabel ex; ex_Reason ex] ∧
  Forall clean (excluded_labels ss ex).
Proof.
  intros Hss Hm Hex. destruct (Hm n ex Hex) as (Hw & Hn & Hp & Hr).
  unfold excluded_labels. rewrite Hw. split; [done|]. by repeat constructor.
Qed.

(** Dropping the series of a worker's exclusion. *)
Lemma shows_delete g st ss n o :
  clean ss → recorded_ok (st ss) → st ss !! n = Some o → shows g st →
  shows (GaugeVec_Delete (excluded_labels ss o) g) (upd st ss (delete n (st ss))).
Proof.
  intros Hss Hm Ho. destruct g as [v|]; [|done]. intros [Hlen Hget].
  destruct (excluded_labels_clean ss _ n o Hss Hm Ho) as [Hl Hc]. rewrite Hl in Hc |- *.
  destruct (delete_get [ss; n; ex_PinLabel o; ex_Reason o] v) as (Hn & Hd & Hother).
  split; [by rewrite Hn|]. intros s w p r Hcl.
  destruct (decide ([s; w; p; r] = [ss; n; ex_PinLabel o; ex_Reason o])) as [Heq|Hne].
  { injection Heq as -> -> -> ->. rewrite Hd, upd_same, expected_delete.
    by rewrite decide_True. }
  rewrite Hother by (done || (split; [by rewrite Hlen|done])). rewrite Hget by done.
  unfold upd. destruct (decide (s = ss)) as [->|]; [|done].
  rewrite expected_delete. destruct (decide (w = n)) as [->|]; [|done].
  unfold expected. rewrite Ho. rewrite decide_False; [done|].
  intros [<- <-]. by apply Hne.
Qed.

(** Setting the series of an exclusion of a worker that has none. *)
Lemma shows_set g st ss m n ex :
  clean ss → recorded_ok m → m !! n = Some ex → st ss !! n = None → shows g st →
  ∃ g', GaugeVec_Set 1 (excluded_labels ss ex) g = Some g' ∧
        shows g' (upd st ss (<[n := ex]> (st ss))).
Proof.
  intros Hss Hm Hex Hn. destruct g as [v|]; [|by eexists]. intros [Hlen Hget].
  destruct (excluded_labels_clean ss _ n ex Hss Hm Hex) as [Hl Hc]. rewrite Hl in Hc |- *.
  assert (labels_ok v [ss; n; ex_PinLabel ex; ex_Reason ex]) as Hok
    by (split; [by rewrite Hlen|done]).
  destruct (update_ok _ (λ _, 1%Z) v Hok) as [v' Hv'].
  destruct (update_get _ _ _ _ Hv') as (Hnames & Hself & Hother).
  exists (Some v'). unfold GaugeVec_Set, gauge_Set. rewrite Hv'. split; [done|].
  split; [by rewrite Hnames|]. intros s w p r Hcl.
  destruct (decide ([s; w; p; r] = [ss; n; ex_PinLabel ex; ex_Reason ex])) as [Heq|Hne].
  { injection Heq as -> -> -> ->. rewrite Hself, upd_same, expected_insert.
    by rewrite !decide_True. }
  rewrite Hother by (done || (split; [by rewrite Hlen|done])). rewrite Hget by done.
  unfold upd. destruct (decide (s = ss)) as [->|]; [|done].
  rewrite expected_insert. destruct (decide (w = n)) as [->|]; [|done].
  unfold expected. rewrite Hn, decide_False; [done|]. intros [<- <-]. by apply Hne.
Qed.

Lemma shows_ext g st st' :
  (∀ ss w p r, expected (st ss) w p r = expected (st' ss) w p r) → shows g st → shows g st'.
Proof.
  intros Hext. destruct g as [v|]; [|done]. intros [Hlen Hget]. split; [done|].
  intros ss w p r Hc. by rewrite Hget, Hext.
Qed.

Lemma sameExclusion_true a b :
  sameExclusion a b = true → ex_Reason a = ex_Reason b ∧ ex_PinLabel a = ex_PinLabel b.
Proof.
  unfold sameExclusion. rewrite !andb_true_iff, !bool_decide_eq_true. tauto.
Qed.

Lemma sameExclusion_refl a : sameExclusion a a = true.
Proof. unfold sameExclusion. by rewrite !bool_decide_eq_true_2. Qed.

Lemma recorded_insert m n ex : recorded_ok m → recorded_ok {[n := ex]} → recorded_ok (<[n := ex]> m).
Proof.
  intros Hm Hex k ex' [[<- <-]|[_ Hk]]%lookup_insert_Some; [|by apply Hm].
  apply Hex, lookup_singleton_Some. done.
Qed.

Lemma recorded_single m n ex : recorded_ok m → m !! n = Some ex → recorded_ok {[n := ex]}.
Proof. intros Hm Hn k ex' [<- <-]%lookup_singleton_Some. by apply Hm. Qed.

Lemma recorded_delete m n : recorded_ok m → recorded_ok (delete n m).
Proof. intros Hm k ex [_ Hk]%lookup_delete_Some. by apply Hm. Qed.

Section LoopSpecs.
Variables (ss : string) (prev current : gmap string AutoSizeExclusion) (present : gset string).
Hypothesis Hss : clean ss.
Hypothesis Hcur : recorded_ok current.

(** The exclusion of a worker that is to be logged. *)
Definition newly (n : string) : option AutoSizeExclusion :=
  match current !! n with
  | None => None
  | Some ex =>
      if match prev !! n with Some o => sameExclusion o ex | None => false end
      then None else Some ex
  end.

Definition recovered (n : string) : option logged :=
  match current !! n, prev !! n with
  | None, Some o => Some (if decide (n ∈ present) then EligibleAgain n (ex_Reason o)
                          else NoLongerLive n (ex_Reason o))
  | _, _ => None
  end.

Lemma report_excluded_log names g log g' :
  report_excluded ss prev current names g = Some (log, g') →
  log = Excluded <$> omap newly names.
Proof.
  revert g log g'. induction names as [|n names IH]; intros g log g'; simpl.
  { by intros [= <- _]. }
  unfold newly at 1. destruct (current !! n) as [ex|]; [|by apply IH].
  destruct (match prev !! n with Some o => sameExclusion o ex | None => false end);
    [by apply IH|].
  destruct (GaugeVec_Set _ _ _); [|done].
  destruct (report_excluded ss prev current names g0) as [[log1 g1]|] eqn:E; [|done].
  intros [= <- <-]. simpl. f_equal. by apply IH in E.
Qed.

Lemma report_recovered_log names g :
  (report_recovered ss prev current present names g).1 = omap recovered names.
Proof.
  revert g. induction names as [|n names IH]; intros g; [done|]. simpl.
  unfold recovered at 1. destruct (current !! n); [apply IH|].
  destruct (prev !! n) as [o|]; [|apply IH].
  specialize (IH (GaugeVec_Delete (excluded_labels ss o) g)).
  destruct (report_recovered ss prev current present names _). simpl in *. by rewrite IH.
Qed.

(** One worker newly excluded, or excluded otherwise than before. *)
Lemma report_one st n ex g :
  recorded_ok (st ss) → current !! n = Some ex → shows g st →
  ∃ g', GaugeVec_Set 1 (excluded_labels ss ex)
          (match st ss !! n with
           | Some o => GaugeVec_Delete (excluded_labels ss o) g
           | None => g
           end) = Some g' ∧ shows g' (upd st ss (<[n := ex]> (st ss))).
Proof.
  intros Hst Hex Hg. destruct (st ss !! n) as [o|] eqn:Ho.
  - pose proof (shows_delete g st ss n o Hss Hst Ho Hg) as Hd.
    destruct (λ H, shows_set _ _ ss current n ex Hss Hcur Hex H Hd) as (g' & Hg' & Hs).
    { by rewrite upd_same, lookup_delete_eq. }
    exists g'. split; [done|]. eapply shows_ext; [|exact Hs]. intros s w p r.
    unfold upd. destruct (decide (s = ss)) as [->|]; [|done].
    rewrite decide_True by done. by rewrite insert_delete_eq.
  - by apply (shows_set g st ss current n ex).
Qed.

Lemma report_excluded_shows names g st :
  NoDup names → recorded_ok (st ss) → (∀ n, n ∈ names → st ss !! n = prev !! n) → shows g st →
  ∃ log g' m', report_excluded ss prev current names g = Some (log, g') ∧
    shows g' (upd st ss m') ∧ recorded_ok m' ∧
    ∀ n, m' !! n = if decide (n ∈ names ∧ is_Some (current !! n)) then current !! n
                   else st ss !! n.
Proof.
  revert g st. induction names as [|n names IH]; intros g st Hnd Hst Hprev Hg.
  { exists [], g, (st ss). split; [done|]. split; [|split; [done|]].
    - eapply shows_ext; [|exact Hg]. intros s w p r. unfold upd. by destruct (decide (s = ss)) as [->|].
    - intros n. rewrite decide_False; [done|]. by intros [?%elem_of_nil _]. }
  apply NoDup_cons in Hnd as [Hn Hnd]. cbn [report_excluded].
  destruct (current !! n) as [ex|] eqn:Hex.
  2:{ destruct (IH g st Hnd Hst) as (log & g' & m' & Hr & Hs & Hm & Hl); [|done|].
      { intros k Hk. apply Hprev. by right. }
      exists log, g', m'. split; [done|]. split; [done|]. split; [done|]. intros k.
      rewrite Hl. destruct (decide (k = n)) as [->|Hk].
      - rewrite !decide_False; [done|..]; rewrite Hex; intros [_ [? ?]]; done.
      - apply decide_ext. rewrite elem_of_cons. tauto. }
  assert (∃ g1, shows g1 (upd st ss (<[n := ex]> (st ss))) ∧
    ∀ log g', report_excluded ss prev current names g1 = Some (log, g') →
    ∃ log', report_excluded ss prev current (n :: names) g = Some (log', g')) as (g1 & Hg1 & Hrun).
  { cbn [report_excluded]. rewrite Hex, <-(Hprev n) by by left.
    destruct (match st ss !! n with Some o => sameExclusion o ex | None => false end) eqn:Hsame.
    - exists g. split; [|by eauto]. eapply shows_ext; [|exact Hg]. intros s w p r.
      unfold upd. destruct (decide (s = ss)) as [->|]; [|done]. rewrite expected_insert.
      destruct (decide (w = n)) as [->|]; [|done]. unfold expected.
      destruct (st ss !! n) as [o|]; [|done]. by apply sameExclusion_true in Hsame as [-> ->].
    - destruct (report_one st n ex g Hst Hex Hg) as (g1 & Hset & Hs).
      exists g1. split; [done|]. intros log g' Hr. rewrite Hset, Hr. by eexists. }
  destruct (IH g1 (upd st ss (<[n := ex]> (st ss))) Hnd) as (log & g' & m' & Hr & Hs & Hm & Hl).
  - rewrite upd_same. apply recorded_insert; [done|]. by apply (recorded_single current).
  - intros k Hk. rewrite upd_same, lookup_insert_ne by congruence. apply Hprev. by right.
  - done.
  - destruct (Hrun _ _ Hr) as [log' Hr']. cbn [report_excluded] in Hr'. rewrite Hex in Hr'.
    exists log', g', m'. split; [done|]. split; [|split; [done|]].
    + eapply shows_ext; [|exact Hs]. intros s w p r. unfold upd.
      by destruct (decide (s = ss)).
    + intros k. rewrite Hl, upd_same. destruct (decide (k = n)) as [->|Hk].
      * rewrite decide_False by tauto. rewrite lookup_insert_eq, decide_True; [done|].
        split; [by left|by eexists].
      * rewrite lookup_insert_ne by done. apply decide_ext. rewrite elem_of_cons. tauto.
Qed.

Lemma report_recovered_shows names g st :
  NoDup names → recorded_ok (st ss) →
  (∀ n, n ∈ names → current !! n = None → st ss !! n = prev !! n) → shows g st →
  ∃ m', shows (report_recovered ss prev current present names g).2 (upd st ss m') ∧
    recorded_ok m' ∧
    ∀ n, m' !! n = if decide (n ∈ names ∧ current !! n = None) then None else st ss !! n.
Proof.
  revert g st. induction names as [|n names IH]; intros g st Hnd Hst Hprev Hg.
  { exists (st ss). split; [|split; [done|]].
    - eapply shows_ext; [|exact Hg]. intros s w p r. unfold upd. by destruct (decide (s = ss)) as [->|].
    - intros n. rewrite decide_False; [done|]. by intros [?%elem_of_nil _]. }
  apply NoDup_cons in Hnd as [Hn Hnd]. cbn [report_recovered].
  assert ((∀ k, k ∈ names → current !! k = None → st ss !! k = prev !! k)) as Hprev'.
  { intros k Hk. apply Hprev. by right. }
  destruct (current !! n) as [ex|] eqn:Hex.
  { destruct (IH g st Hnd Hst Hprev' Hg) as (m' & Hs & Hm & Hl).
    exists m'. split; [done|]. split; [done|]. intros k. rewrite Hl. apply decide_ext.
    rewrite elem_of_cons. naive_solver. }
  destruct (prev !! n) as [o|] eqn:Ho.
  - rewrite <-(Hprev n) in Ho by (done || by left).
    destruct (IH (GaugeVec_Delete (excluded_labels ss o) g) (upd st ss (delete n (st ss))) Hnd)
      as (m' & Hs & Hm & Hl).
    + rewrite upd_same. by apply recorded_delete.
    + intros k Hk Hck. rewrite upd_same, lookup_delete_ne by congruence. by apply Hprev'.
    + by apply shows_delete.
    + exists m'. split; [|split; [done|]].
      * destruct (report_recovered ss prev current present names _). simpl in *.
        eapply shows_ext; [|exact Hs]. intros s w p r. unfold upd. by destruct (decide (s = ss)).
      * intros k. rewrite Hl, upd_same. destruct (decide (k = n)) as [->|Hk].
        -- rewrite decide_False by tauto. rewrite lookup_delete_eq, decide_True; [done|].
           split; [by left|done].
        -- rewrite lookup_delete_ne by done. apply decide_ext. rewrite elem_of_cons. tauto.
  - destruct (IH g st Hnd Hst Hprev' Hg) as (m' & Hs & Hm & Hl).
    exists m'. split; [done|]. split; [done|]. intros k. rewrite Hl.
    destruct (decide (k = n)) as [->|Hk].
    + rewrite decide_False by tauto. rewrite (Hprev n) by (done || by left).
      by destruct (decide _).
    + apply decide_ext. rewrite elem_of_cons. tauto.
Qed.
End LoopSpecs.

(** ** The monitor *)

Lemma by_worker_key exs n ex : by_worker exs !! n = Some ex → ex ∈ exs ∧ ex_Worker ex = n.
Proof.
  unfold by_worker.
  assert (∀ l (m : gmap string AutoSizeExclusion),
    foldl (λ m ex, <[ex_Worker ex := ex]> m) m l !! n = Some ex →
    m !! n = Some ex ∨ ex ∈ l ∧ ex_Worker ex = n) as Hgen.
  { intros l. induction l as [|x l IH]; intros m; simpl; [by left|].
    intros [[[Hw <-]|[_ Hm]]%lookup_insert_Some|[Hin Hw]]%IH.
    - right. split; [by left|done].
    - by left.
    - right. split; [by right|done]. }
  intros [H|H]%Hgen; [by rewrite lookup_empty in H|done].
Qed.

Lemma by_worker_total exs ex : ex ∈ exs → is_Some (by_worker exs !! ex_Worker ex).
Proof.
  unfold by_worker. generalize (∅ : gmap string AutoSizeExclusion). revert ex.
  induction exs as [|x exs IH]; intros ex m Hin; [by apply elem_of_nil in Hin|]. simpl.
  assert (∀ l (m : gmap string AutoSizeExclusion) k, is_Some (m !! k) →
    is_Some (foldl (λ m ex, <[ex_Worker ex := ex]> m) m l !! k)) as Hkeep.
  { intros l. induction l as [|y l IHl]; intros m' k Hk; [done|]. apply IHl.
    destruct (decide (k = ex_Worker y)) as [->|]; [by rewrite lookup_insert_eq|].
    by rewrite lookup_insert_ne. }
  apply elem_of_cons in Hin as [->|Hin]; [|by apply IH].
  apply Hkeep. by rewrite lookup_insert_eq.
Qed.

(** Workers whose names and pins are clean text. *)
Definition clean_workers (workers : list Worker) : Prop :=
  Forall (λ w, clean (w_Name w) ∧ clean (PinIdentity w)) workers.

Lemma reason_clean w counts cpu mem : clean (AutoSizeExclusionReason w counts cpu mem).
Proof.
  unfold AutoSizeExclusionReason.
  repeat match goal with
  | |- context [if ?b then _ else _] => destruct b
  | |- context [match ?b with Some _ => _ | None => _ end] => destruct b
  end; by vm_compute.
Qed.

Lemma exclusions_recorded workers labels cpu mem :
  clean_workers workers →
  recorded_ok (by_worker (AutoSizeExclusions workers labels cpu mem)).
Proof.
  intros Hc n ex [Hin Hw]%by_worker_key. split; [done|].
  unfold AutoSizeExclusions in Hin. apply list_elem_of_omap in Hin as (w & Hin & Hex).
  unfold exclusion_at in Hex. destruct (negb _); [done|].
  destruct (decide (AutoSizeExclusionReason w (PinCounts workers) cpu mem = EmptyString));
    [done|]. injection Hex as <-. simpl in *. subst n.
  pose proof (proj1 (Forall_forall _ _) Hc w Hin) as [? ?].
  split_and!; [done..|apply reason_clean].
Qed.

(** The invariant: what the monitor remembers is clean, the gauge shows it, and
    the count of eligible workers has one label. *)
Record monitor_ok (m : EligibilityMonitor) : Prop := {
  ok_recorded : ∀ ss, recorded_ok (default ∅ (m_last m !! ss));
  ok_shows : shows (excluded m) (λ ss, default ∅ (m_last m !! ss));
  ok_eligible : ∀ v, eligible m = Some v → length (labelNames v) = 1
}.

Lemma monitor_ok_new reg : monitor_ok (NewEligibilityMonitor reg).
Proof.
  constructor.
  - intros ss n ex. simpl. by rewrite !lookup_empty.
  - destruct reg; [|done]. split; [done|]. intros ss w p r _. unfold get, expected.
    simpl. by rewrite !lookup_empty.
  - destruct reg; [by intros v [= <-]|done].
Qed.

(** The gauge does not come or go. *)
Lemma report_excluded_some ss prev current names g log g' :
  report_excluded ss prev current names g = Some (log, g') → is_Some g → is_Some g'.
Proof.
  revert g log. induction names as [|n names IH]; intros g log; simpl; [by intros [= _ <-]|].
  destruct (current !! n) as [ex|]; [|by apply IH].
  destruct (match prev !! n with Some o => sameExclusion o ex | None => false end);
    [by apply IH|].
  set (g0 := match prev !! n with Some o => _ | None => g end). intros H Hg.
  assert (is_Some g0) as [v Hv].
  { subst g0. destruct Hg as [v ->]. destruct (prev !! n); by eexists. }
  rewrite Hv in H. simpl in H. destruct (gauge_Set _ _ v) as [v'|]; [|done].
  destruct (report_excluded ss prev current names (Some v')) as [[log1 g1]|] eqn:E; [|done].
  injection H as _ <-. eapply IH; [exact E|by eexists].
Qed.

Lemma report_recovered_some ss prev current present names g :
  is_Some g → is_Some (report_recovered ss prev current present names g).2.
Proof.
  revert g. induction names as [|n names IH]; intros g Hg; [done|]. simpl.
  destruct (current !! n); [by apply IH|]. destruct (prev !! n) as [o|]; [|by apply IH].
  specialize (IH (GaugeVec_Delete (excluded_labels ss o) g)).
  destruct (report_recovered ss prev current present names _). simpl in *.
  apply IH. destruct Hg as [v ->]. by eexists.
Qed.

Lemma shows_value g st ss w p r :
  shows g st → is_Some g → Forall clean [ss; w; p; r] →
  GaugeVec_Value [ss; w; p; r] g = expected (st ss) w p r.
Proof. intros Hg [v ->] Hc. by apply Hg. Qed.

Lemma eligible_set n ss (g : GaugeVec) :
  clean ss → (∀ v, g = Some v → length (labelNames v) = 1) →
  ∃ g', GaugeVec_Set n [ss] g = Some g' ∧ (∀ v, g' = Some v → length (labelNames v) = 1) ∧
        (is_Some g → GaugeVec_Value [ss] g' = Some n).
Proof.
  intros Hss Hlen. destruct g as [v|].
  2:{ exists None. split; [done|]. split; [done|]. by intros [? ?]. }
  destruct (update_ok [ss] (λ _, n) v) as [v' Hv'].
  { split; [by rewrite (Hlen v)|by repeat constructor]. }
  exists (Some v'). simpl. unfold gauge_Set. rewrite Hv'. split; [done|].
  destruct (update_get _ _ _ _ Hv') as (Hn & Hg & _). split; [|done].
  intros ? [= <-]. rewrite Hn. by apply Hlen.
Qed.

(** The two loops together bring the gauge from the last exclusions to the
    current ones. *)
Lemma loops_shows ss prev current present g st :
  clean ss → recorded_ok current → recorded_ok prev → st ss = prev → shows g st →
  ∃ log1 g1, report_excluded ss prev current (sortedKeys current) g = Some (log1, g1) ∧
    shows (report_recovered ss prev current present (sortedKeys prev) g1).2
      (upd st ss current).
Proof.
  intros Hss Hcur Hprev Hst Hg.
  destruct (report_excluded_shows ss prev current Hss Hcur (sortedKeys current) g st)
    as (log1 & g1 & m1 & Hr1 & Hs1 & Hm1 & Hl1);
    [apply sortedKeys_NoDup|by rewrite Hst|by rewrite Hst|done|].
  exists log1, g1. split; [done|].
  destruct (report_recovered_shows ss prev current present Hss
    (sortedKeys prev) g1 (upd st ss m1)) as (m2 & Hs2 & Hm2 & Hl2).
  { apply sortedKeys_NoDup. }
  { by rewrite upd_same. }
  { intros n _ Hn. rewrite upd_same, Hl1, decide_False, Hst; [done|]. rewrite Hn.
    by intros [_ [? ?]]. }
  { done. }
  assert (m2 = current) as ->.
  { apply map_eq. intros n. rewrite Hl2, upd_same, Hl1, Hst.
    destruct (current !! n) as [ex|] eqn:Hn.
    - rewrite decide_False by (by intros [_ ?]). rewrite decide_True; [done|].
      split; [apply elem_of_sortedKeys|]; by eexists.
    - destruct (decide (n ∈ sortedKeys prev ∧ None = None)) as [|Hp]; [done|].
      rewrite decide_False by (by intros [_ [? ?]]).
      destruct (prev !! n) as [o|] eqn:Ho; [|done]. exfalso. apply Hp.
      split; [|done]. apply elem_of_sortedKeys. by eexists. }
  eapply shows_ext; [|exact Hs2]. intros s w p r. unfold upd. by destruct (decide (s = ss)).
Qed.

(** One observation: no panic, the invariant, and the state after it. *)
Lemma Observe_runs (m : EligibilityMonitor) (ss : string) (workers : list Worker)
    (labels : gmap string string) (cpu mem : Z) :
  monitor_ok m → clean ss → clean_workers workers →
  ∃ log m', Observe ss workers labels cpu mem (Some m) = Some (log, Some m') ∧ monitor_ok m' ∧
    m_last m' = <[ss := by_worker (AutoSizeExclusions workers labels cpu mem)]> (m_last m) ∧
    (is_Some (excluded m) → is_Some (excluded m')) ∧
    (is_Some (eligible m) → GaugeVec_Value [ss] (eligible m')
       = Some (WorkerCountForLabels workers labels cpu mem)).
Proof.
  intros [Hrec Hshow Hel] Hss Hws.
  pose proof (exclusions_recorded workers labels cpu mem Hws) as Hcur.
  unfold Observe. set (current := by_worker _) in *.
  set (prev := default ∅ (m_last m !! ss)).
  destruct (loops_shows ss prev current (list_to_set (w_Name <$> workers)) (excluded m)
    (λ ss, default ∅ (m_last m !! ss))) as (log1 & g1 & Hr1 & Hs);
    [done|done|apply Hrec|done|done|].
  rewrite Hr1.
  assert (is_Some (excluded m) → is_Some (report_recovered ss prev current
    (list_to_set (w_Name <$> workers)) (sortedKeys prev) g1).2) as Hsome.
  { intros Hg. apply report_recovered_some. by eapply report_excluded_some. }
  destruct (report_recovered ss prev current _ (sortedKeys prev) g1) as [log2 g2].
  simpl in Hs, Hsome.
  destruct (eligible_set (WorkerCountForLabels workers labels cpu mem) ss (eligible m))
    as (el & Hset & Hlen & Hval); [done..|].
  rewrite Hset. eexists _, _. split; [done|]. split; [|done].
  constructor; simpl; [| |done].
  - intros s. destruct (decide (s = ss)) as [->|Hne].
    + by rewrite lookup_insert_eq.
    + rewrite lookup_insert_ne by done. apply Hrec.
  - eapply shows_ext; [|exact Hs]. intros s w p r. unfold upd.
    destruct (decide (s = ss)) as [->|Hne]; [by rewrite lookup_insert_eq|].
    by rewrite lookup_insert_ne.
Qed.

Lemma newly_spec prev current n ex :
  newly prev current n = Some ex ↔
  current !! n = Some ex ∧ ∀ old, prev !! n = Some old → sameExclusion old ex = false.
Proof.
  unfold newly. destruct (current !! n) as [ex'|]; [|by split; [|intros [? _]]].
  destruct (prev !! n) as [o|]; [destruct (sameExclusion o ex') eqn:E|].
  - split; [done|]. intros [[= ->] H]. by rewrite (H o eq_refl) in E.
  - split; [intros [= ->]; split; [done|]; by intros old [= <-]|by intros [? _]].
  - split; [by intros [= ->]|by intros [? _]].
Qed.

Lemma recovered_spec prev current present x :
  x ∈ omap (recovered prev current present) (sortedKeys prev) ↔
  ∃ n o, current !! n = None ∧ prev !! n = Some o ∧
    x = if decide (n ∈ present) then EligibleAgain n (ex_Reason o)
        else NoLongerLive n (ex_Reason o).
Proof.
  rewrite list_elem_of_omap. unfold recovered. split.
  - intros (n & _ & H). destruct (current !! n) eqn:Hc; [done|].
    destruct (prev !! n) as [o|] eqn:Ho; [|done]. exists n, o. by injection H.
  - intros (n & o & Hc & Ho & ->). exists n. rewrite elem_of_sortedKeys, Hc, Ho.
    split; [by eexists|done].
Qed.

(** The whole log of an observation. *)
Lemma Observe_logged m ss workers labels cpu mem log m' :
  Observe ss workers labels cpu mem (Some m) = Some (log, m') →
  let prev := default ∅ (m_last m !! ss) in
  let current := by_worker (AutoSizeExclusions workers labels cpu mem) in
  log = (Excluded <$> omap (newly prev current) (sortedKeys current)) ++
        omap (recovered prev current (list_to_set (w_Name <$> workers))) (sortedKeys prev).
Proof.
  unfold Observe. set (prev := default ∅ (m_last m !! ss)).
  set (current := by_worker _). set (present := list_to_set _).
  destruct (report_excluded ss prev current _ (excluded m)) as [[log1 g]|] eqn:H1; [|done].
  pose proof (report_recovered_log ss prev current present (sortedKeys prev) g) as H2.
  destruct (report_recovered ss prev current present _ g) as [log2 g2]. simpl in H2.
  destruct (GaugeVec_Set _ _ _); [|done]. intros [= <- <-].
  apply report_excluded_log in H1. by subst log1 log2.
Qed.

(** The exclusion gauge is exactly the current exclusions.  Observing
    never panics and keeps the invariant; afterwards the gauge shows 1 for every
    exclusion of the observed workers with its reason, nothing for any other
    combination of labels of that scale set, so that a cleared condition stops
    being reported, and for the other scale sets what was observed last; the
    other gauge shows the size of the pool. *)
Lemma Observe_gauge (m : EligibilityMonitor) (ss : string) (workers : list Worker)
    (labels : gmap string string) (cpu mem : Z) :
  monitor_ok m → clean ss → clean_workers workers →
  let current := by_worker (AutoSizeExclusions workers labels cpu mem) in
  ∃ log m', Observe ss workers labels cpu mem (Some m) = Some (log, Some m') ∧ monitor_ok m' ∧
    m_last m' = <[ss := current]> (m_last m) ∧
    (is_Some (excluded m) → ∀ ss' w p r, Forall clean [ss'; w; p; r] →
       GaugeVec_Value [ss'; w; p; r] (excluded m')
       = expected (default ∅ (m_last m' !! ss')) w p r) ∧
    (is_Some (eligible m) → GaugeVec_Value [ss] (eligible m')
       = Some (WorkerCountForLabels workers labels cpu mem)).
Proof.
  intros Hok Hss Hws current.
  destruct (Observe_runs m ss workers labels cpu mem Hok Hss Hws)
    as (log & m' & Hrun & Hok' & Hlast & Hsome & Hel).
  exists log, m'. do 3 (split; [done|]). split; [|done]. intros Hg ss' w p r Hc.
  exact (shows_value _ _ ss' w p r (ok_shows m' Hok') (Hsome Hg) Hc).
Qed.

(** The reason, the pin and the other holders of the pin are what they were. *)
Definition reported_alike (a b : AutoSizeExclusion) : Prop :=
  ex_Reason a = ex_Reason b ∧ ex_PinLabel a = ex_PinLabel b ∧
  Join (ex_SharedWith a) "," = Join (ex_SharedWith b) ",".

Lemma sameExclusion_false a b : sameExclusion a b = false ↔ ¬ reported_alike a b.
Proof.
  unfold reported_alike. rewrite <-not_true_iff_false. unfold sameExclusion.
  rewrite !andb_true_iff, !bool_decide_eq_true. tauto.
Qed.

Lemma Observe_last m ss workers labels cpu mem log r :
  Observe ss workers labels cpu mem (Some m) = Some (log, r) →
  ∃ m', r = Some m' ∧
    m_last m' = <[ss := by_worker (AutoSizeExclusions workers labels cpu mem)]> (m_last m).
Proof.
  unfold Observe. destruct (report_excluded _ _ _ _ _) as [[log1 g]|]; [|done].
  destruct (report_recovered _ _ _ _ _ _) as [log2 g2].
  destruct (GaugeVec_Set _ _ _) as [el|]; [|done]. intros [= _ <-]. by eexists.
Qed.

Lemma NoDup_omap_inj {A B} (f : A → option B) l :
  NoDup l → (∀ x x' y, f x = Some y → f x' = Some y → x = x') → NoDup (omap f l).
Proof.
  intros Hnd Hf. induction Hnd as [|x l Hx Hnd IH]; simpl; [constructor|].
  destruct (f x) as [y|] eqn:Hy; [|done]. constructor; [|done].
  intros (x' & Hin & Hx')%list_elem_of_omap. apply Hx. by rewrite (Hf x x' y Hy Hx').
Qed.

Lemma logged_NoDup prev exs present :
  NoDup ((Excluded <$> omap (newly prev (by_worker exs)) (sortedKeys (by_worker exs))) ++
         omap (recovered prev (by_worker exs) present) (sortedKeys prev)).
Proof.
  apply NoDup_app. split; [|split].
  - apply NoDup_fmap_2; [by intros x y [= ->]|]. apply NoDup_omap_inj; [apply sortedKeys_NoDup|].
    intros n n' ex [Hn _]%newly_spec [Hn' _]%newly_spec.
    apply by_worker_key in Hn as [_ <-]. by apply by_worker_key in Hn' as [_ <-].
  - intros x (ex & -> & _)%list_elem_of_fmap (n & o & _ & _ & H)%recovered_spec.
    by destruct (decide (n ∈ present)).
  - apply NoDup_omap_inj; [apply sortedKeys_NoDup|]. intros n n' y. unfold recovered.
    destruct (by_worker exs !! n), (prev !! n), (by_worker exs !! n'), (prev !! n'); try done.
    intros [= <-]. by repeat case_decide; intros [= ->].
Qed.

(** C34: exclusions are announced once and never silently dropped.  A worker's
    exclusion is logged exactly when it was not excluded the last time, or for
    another reason, with another pin or other holders of the pin; its recovery
    exactly when it is excluded no longer, told apart from its leaving the live
    set; no line is logged twice, and nothing while the state holds.  What was
    observed now is what the next observation of this scale set is compared with,
    and those of other scale sets are compared with what they were. *)
Theorem Observe_log (m : EligibilityMonitor) (ss : string) (workers : list Worker)
    (labels : gmap string string) (cpu mem : Z) (log : list logged)
    (r : option EligibilityMonitor) :
  Observe ss workers labels cpu mem (Some m) = Some (log, r) →
  let prev := default ∅ (m_last m !! ss) in
  let current := by_worker (AutoSizeExclusions workers labels cpu mem) in
  (∀ ex, Excluded ex ∈ log ↔ ∃ n, current !! n = Some ex ∧
     ∀ old, prev !! n = Some old → ¬ reported_alike old ex) ∧
  (∀ n reason, EligibleAgain n reason ∈ log ↔
     current !! n = None ∧ n ∈ (w_Name <$> workers) ∧
     ∃ old, prev !! n = Some old ∧ ex_Reason old = reason) ∧
  (∀ n reason, NoLongerLive n reason ∈ log ↔
     current !! n = None ∧ n ∉ (w_Name <$> workers) ∧
     ∃ old, prev !! n = Some old ∧ ex_Reason old = reason) ∧
  NoDup log ∧ (current = prev → log = []) ∧
  ∃ m', r = Some m' ∧ default ∅ (m_last m' !! ss) = current ∧
    ∀ ss', ss' ≠ ss → m_last m' !! ss' = m_last m !! ss'.
Proof.
  intros Hobs prev current. pose proof Hobs as (m' & Hr & Hm')%Observe_last.
  pose proof Hobs as Hlog%Observe_logged. cbv zeta in Hlog.
  fold prev current in Hlog.
  subst log. set (present := list_to_set (w_Name <$> workers)).
  assert (∀ n, n ∈ present ↔ n ∈ w_Name <$> workers) as Hpres
    by (intros n; apply elem_of_list_to_set).
  split_and!.
  - intros ex. rewrite elem_of_app, list_elem_of_fmap, recovered_spec. split.
    + intros [(? & [= <-] & (n & _ & Hn)%list_elem_of_omap)|(n & o & _ & _ & H)].
      * exists n. apply newly_spec in Hn as [Hn Hs]. split; [done|].
        intros old Ho. by apply sameExclusion_false, Hs.
      * by destruct (decide (n ∈ present)).
    + intros (n & Hn & Hs). left. exists ex. split; [done|]. apply list_elem_of_omap.
      exists n. split; [apply elem_of_sortedKeys; by exists ex|]. apply newly_spec.
      split; [done|]. intros old Ho. by apply sameExclusion_false, Hs.
  - intros n reason. rewrite elem_of_app, recovered_spec, <-Hpres. split.
    + intros [(? & ? & _)%list_elem_of_fmap|(n' & o & Hc & Ho & H)]; [done|].
      destruct (decide (n' ∈ present)); [|done]. injection H as -> ->. eauto.
    + intros (Hc & Hp & o & Ho & <-). right. exists n, o. by rewrite decide_True.
  - intros n reason. rewrite elem_of_app, recovered_spec, <-Hpres. split.
    + intros [(? & ? & _)%list_elem_of_fmap|(n' & o & Hc & Ho & H)]; [done|].
      destruct (decide (n' ∈ present)); [done|]. injection H as -> ->. eauto.
    + intros (Hc & Hp & o & Ho & <-). right. exists n, o. by rewrite decide_False.
  - apply logged_NoDup.
  - intros Heq. apply elem_of_nil_inv. intros x. rewrite elem_of_app, recovered_spec.
    intros [(ex & -> & (n & _ & Hn)%list_elem_of_omap)%list_elem_of_fmap|(n & o & Hc & Ho & _)].
    + apply newly_spec in Hn as [Hn Hs]. rewrite Heq in Hn. specialize (Hs ex Hn).
      by rewrite sameExclusion_refl in Hs.
    + rewrite Heq in Hc. by rewrite Hc in Ho.
  - exists m'. split; [done|]. rewrite Hm', lookup_insert_eq. split; [done|].
    intros ss' Hne. by rewrite lookup_insert_ne.
Qed.

(** ** Witnesses *)

(** A machine that cannot spare the reserves beside one that can. *)
Definition small_mac : Worker := mac "mini-1" "mini-1" 4 4096.
Definition big_mac : Worker := mac "mini-2" "mini-2" 12 36864.

Lemma Observe_gauge_witness :
  GaugeVec_Value ["large"; "mini-1"; "mini-1"; "below_reserves"]
    (excluded (NewEligibilityMonitor true)) = None ∧
  ∃ log m', Observe "large" [small_mac; big_mac] {["vm-class" := "large"]} 4 4096
              (Some (NewEligibilityMonitor true)) = Some (log, Some m') ∧ monitor_ok m' ∧
    GaugeVec_Value ["large"; "mini-1"; "mini-1"; "below_reserves"] (excluded m') = Some 1%Z.
Proof.
  split; [by vm_compute|].
  destruct (Observe_gauge (NewEligibilityMonitor true) "large" [small_mac; big_mac]
    {["vm-class" := "large"]} 4 4096) as (log & m' & H & Hok & Hlast & Hg & _).
  - apply monitor_ok_new.
  - by vm_compute.
  - repeat constructor; by vm_compute.
  - exists log, m'. split; [exact H|]. split; [done|].
    rewrite Hg; [|by eexists|repeat constructor; by vm_compute].
    rewrite Hlast, lookup_insert_eq. by vm_compute.
Defined.

Lemma Observe_log_witness :
  ∃ log m', Observe "large" [small_mac; big_mac] {["vm-class" := "large"]} 4 4096
              (Some (NewEligibilityMonitor true)) = Some (log, Some m') ∧
    ∃ ex, Excluded ex ∈ log ∧ ex_Worker ex = "mini-1".
Proof.
  destruct (Observe_runs (NewEligibilityMonitor true) "large" [small_mac; big_mac]
    {["vm-class" := "large"]} 4 4096) as (log & m' & H & _).
  { apply monitor_ok_new. }
  { by vm_compute. }
  { repeat constructor; by vm_compute. }
  exists log, m'. split; [exact H|].
  destruct (Observe_log _ _ _ _ _ _ _ _ H) as [Hlog _].
  exists (mkExclusion "mini-1" "mini-1" "below_reserves" []). split; [|done].
  apply Hlog. exists "mini-1". split; [by vm_compute|]. intros old. by vm_compute.
Defined.
