(* ===== verification/Reporting.v ===== *)
(** * What a scrape says of the fleet ([bridge/eligibility.go], [metrics/metrics.go])

    The monitor's gauges are vectors of the registry: after any observations of any
    scale sets, the samples of a scrape are the exclusions and the counts of the
    last observation of each, and no other.  Nobody but the monitor writes its two
    vectors, so that it can hold them itself, as it does in Eligibility. *)

From S2P Require Import Prelude GoBase Orchard Workers AutoSize Metrics MetricsText.
From S2P Require Import Registry Eligibility.

(** ** Observations *)

(** The arguments of one call of [Observe]. *)
Record observation : Type := mkObservation {
  o_scaleSet : string;
  o_workers : list Worker;
  o_vmLabels : gmap string string;
  o_reserveCPU : Z;
  o_reserveMemMiB : Z
}.

Definition observe_one (o : observation) (m : EligibilityMonitor)
    : option (list logged * EligibilityMonitor) :=
  '(log, m) ← Observe (o_scaleSet o) (o_workers o) (o_vmLabels o) (o_reserveCPU o)
                (o_reserveMemMiB o) (Some m);
  m ← m; Some (log, m).

Fixpoint observe_all (os : list observation) (m : EligibilityMonitor)
    : option (EligibilityMonitor) :=
  match os with
  | [] => Some m
  | o :: os => '(_, m) ← observe_one o m; observe_all os m
  end.

(** The monitor's part of the registry, in the order of [NewEligibilityMonitor]. *)
Definition monitor_registry (m : EligibilityMonitor) : Registry :=
  option_list (excluded m) ++ option_list (eligible m).

Definition observation_ok (o : observation) : Prop :=
  clean (o_scaleSet o) ∧ clean_workers (o_workers o).

(** ** What they say

    Of each scale set, the last exclusions of its workers and the last count. *)
Definition exclusions_of (o : observation) : gmap string AutoSizeExclusion :=
  by_worker (AutoSizeExclusions (o_workers o) (o_vmLabels o) (o_reserveCPU o)
    (o_reserveMemMiB o)).
Definition count_of (o : observation) : Z :=
  WorkerCountForLabels (o_workers o) (o_vmLabels o) (o_reserveCPU o) (o_reserveMemMiB o).

Definition latest_from (m : gmap string observation) (os : list observation)
    : gmap string observation :=
  foldl (λ m o, <[o_scaleSet o := o]> m) m os.
Definition latest : list observation → gmap string observation := latest_from ∅.

(** The value of a series of either gauge. *)
Definition excluded_value (m : gmap string observation) (l : list string) : option Z :=
  match l with
  | [ss; w; p; r] => o ← m !! ss; expected (exclusions_of o) w p r
  | _ => None
  end.
Definition eligible_value (m : gmap string observation) (l : list string) : option Z :=
  match l with [ss] => count_of <$> m !! ss | _ => None end.

Definition excluded_header : string * string * list string :=
  ("orchard_gh_bridge_autosize_worker_excluded", "gauge",
   ["scale_set"; "worker"; "pin_label"; "reason"]).
Definition eligible_header : string * string * list string :=
  ("orchard_gh_bridge_autosize_eligible_workers", "gauge", ["scale_set"]).

(** ** The loops keep the vector well keyed *)

(** Properties of a vector that its updates keep. *)
Record stable (P : vec → Prop) : Prop := {
  stable_update : ∀ v l fn v', P v → Forall clean l → update l fn v = Some v' → P v';
  stable_delete : ∀ v l, P v → P (gauge_Delete l v)
}.

Definition on_gauge (P : vec → Prop) (g : GaugeVec) : Prop :=
  match g with Some v => P v | None => True end.

Definition sound (h : string * string * list string) (v : vec) : Prop :=
  vec_ok v ∧ keyed v ∧ vec_header v = h.

Lemma sound_stable h : stable (sound h).
Proof.
  split.
  - intros v l fn v' (Hv & Hk & <-) Hl Hup. split; [by eapply update_vec_ok|].
    assert (labels_ok v l) as Hok.
    { split; [|done]. revert Hup. unfold update.
      destruct (bool_decide_reflect (length l = length (labelNames v))); [done|by intros]. }
    destruct (keyed_update v l fn v' Hk Hok Hup). done.
  - intros v l ([Hn Hki Hl Hs] & Hk & <-). split; [|split; [|done]].
    + split; try done. by apply map_Forall_delete.
    + by apply map_Forall_delete.
Qed.

Section Loops.
Context (P : vec → Prop) (HP : stable P).

Lemma on_gauge_delete l g : on_gauge P g → on_gauge P (GaugeVec_Delete l g).
Proof. destruct g as [v|]; [|done]. exact (stable_delete P HP v l). Qed.

Lemma on_gauge_set x l g g' :
  Forall clean l → on_gauge P g → GaugeVec_Set x l g = Some g' → on_gauge P g'.
Proof.
  intros Hl. destruct g as [v|]; cbn; [|by intros _ [= <-]]. unfold gauge_Set.
  destruct (update l _ v) as [v'|] eqn:Hup; [|done]. intros Hv [= <-].
  by apply (stable_update P HP v l (λ _, x)).
Qed.

Context (ss : string) (Hss : clean ss) (prev current : gmap string AutoSizeExclusion).
Context (Hcur : recorded_ok current).

Lemma report_excluded_stable names g log g' :
  on_gauge P g → report_excluded ss prev current names g = Some (log, g') → on_gauge P g'.
Proof.
  revert g log. induction names as [|n names IH]; intros g log Hg; cbn [report_excluded].
  { by intros [= _ <-]. }
  destruct (current !! n) as [ex|] eqn:Hex; [|by apply IH].
  destruct (match prev !! n with Some o => sameExclusion o ex | None => false end);
    [by apply IH|].
  destruct (GaugeVec_Set _ _ _) as [g1|] eqn:Hset; [|done].
  destruct (report_excluded ss prev current names g1) as [[log1 g2]|] eqn:Hr; [|done].
  intros [= _ <-]. eapply IH; [|exact Hr]. eapply on_gauge_set; [| |exact Hset].
  - by destruct (excluded_labels_clean ss current n ex Hss Hcur Hex).
  - destruct (prev !! n); [by apply on_gauge_delete|done].
Qed.

Lemma report_recovered_stable present names g :
  on_gauge P g → on_gauge P (report_recovered ss prev current present names g).2.
Proof.
  revert g. induction names as [|n names IH]; intros g Hg; cbn [report_recovered]; [done|].
  destruct (current !! n); [by apply IH|]. destruct (prev !! n) as [o|]; [|by apply IH].
  specialize (IH _ (on_gauge_delete (excluded_labels ss o) g Hg)).
  by destruct (report_recovered ss prev current present names _).
Qed.
End Loops.

(** What [Observe] does with the two gauges. *)
Lemma Observe_gauges ss workers labels cpu mem m log m' :
  Observe ss workers labels cpu mem (Some m) = Some (log, Some m') →
  let prev := default ∅ (m_last m !! ss) in
  let current := by_worker (AutoSizeExclusions workers labels cpu mem) in
  (∃ log1 g1, report_excluded ss prev current (sortedKeys current) (excluded m) = Some (log1, g1) ∧
     excluded m' = (report_recovered ss prev current (list_to_set (w_Name <$> workers))
                      (sortedKeys prev) g1).2) ∧
  GaugeVec_Set (WorkerCountForLabels workers labels cpu mem) [ss] (eligible m)
    = Some (eligible m').
Proof.
  intros H prev current. unfold Observe in H. fold prev current in H.
  destruct (report_excluded ss prev current (sortedKeys current) (excluded m))
    as [[log1 g1]|]; [|done].
  destruct (report_recovered _ _ _ _ _ g1) as [log2 g2] eqn:Hr.
  destruct (GaugeVec_Set _ _ (eligible m)) as [el|]; [|done].
  injection H as _ <-. split; [|done]. exists log1, g1. by rewrite Hr.
Qed.

(** ** The monitor against the last observations *)

Record tracks (m : EligibilityMonitor) (lt : gmap string observation) : Prop := {
  tracks_ok : monitor_ok m;
  tracks_last : m_last m = exclusions_of <$> lt;
  tracks_clean : ∀ ss, is_Some (lt !! ss) → clean ss;
  tracks_excluded : ∃ v, excluded m = Some v ∧ sound excluded_header v;
  tracks_eligible : ∃ v, eligible m = Some v ∧ vec_header v = eligible_header ∧
                         holds v (eligible_value lt)
}.

Lemma tracks_new : tracks (NewEligibilityMonitor true) ∅.
Proof.
  split; [apply monitor_ok_new|..].
  - cbn. by rewrite fmap_empty.
  - intros ss. rewrite lookup_empty. by intros [].
  - eexists. split; [reflexivity|]. split; [|split; [apply map_Forall_empty|done]].
    refine (holds_vec _ _ (holds_register _ _ _ _ _ _ _)); legal.
  - eexists. split; [reflexivity|]. split; [done|].
    eapply holds_ext; [|apply holds_register; legal]. by intros [|ss [|]].
Qed.

Lemma tracks_step o m lt :
  observation_ok o → tracks m lt →
  ∃ log m', observe_one o m = Some (log, m') ∧ tracks m' (<[o_scaleSet o := o]> lt).
Proof.
  intros [Hss Hws] [Hok Hlast Hclean (v & Hv & Hsound) (u & Hu & Hhu & Hholds)].
  destruct (Observe_runs m (o_scaleSet o) (o_workers o) (o_vmLabels o) (o_reserveCPU o)
    (o_reserveMemMiB o) Hok Hss Hws) as (log & m' & Hrun & Hok' & Hlast' & Hsome & _).
  destruct (Observe_gauges _ _ _ _ _ _ _ _ Hrun) as [(log1 & g1 & Hr & Hex) Hel].
  exists log, m'. split; [unfold observe_one, mbind, option_bind; by rewrite Hrun|].
  split; [done|..].
  - by rewrite Hlast', Hlast, fmap_insert.
  - intros s [x [[<- _]|[_ Hs]]%lookup_insert_Some]; [done|]. apply Hclean. by eexists.
  - assert (on_gauge (sound excluded_header) (excluded m')) as Hg.
    { rewrite Hex. apply report_recovered_stable; [apply sound_stable|].
      eapply report_excluded_stable; [apply sound_stable|exact Hss| | |exact Hr].
      - by apply exclusions_recorded.
      - by rewrite Hv. }
    destruct Hsome as [v' Hv']; [by eexists|]. rewrite Hv' in Hg. by exists v'.
  - rewrite Hu in Hel. cbn in Hel. unfold gauge_Set in Hel.
    assert (labels_ok u [o_scaleSet o]) as Hl.
    { split; [|by repeat constructor]. unfold vec_header in Hhu. by injection Hhu as _ _ ->. }
    destruct (holds_update u _ [o_scaleSet o] (λ _, count_of o) Hholds Hl)
      as (u' & Hup & Hhu' & Hholds').
    unfold count_of in Hup. rewrite Hup in Hel. injection Hel as Hel.
    exists u'. split; [done|]. split; [congruence|]. eapply holds_ext; [|exact Hholds'].
    intros l. cbn. destruct (decide (l = [o_scaleSet o])) as [->|Hne].
    + cbn. by rewrite lookup_insert_eq.
    + destruct l as [|s [|]]; try done. cbn.
      by rewrite lookup_insert_ne by (intros Heq; apply Hne; by rewrite Heq).
Qed.

Lemma tracks_all os m lt :
  Forall observation_ok os → tracks m lt →
  ∃ m', observe_all os m = Some m' ∧ tracks m' (latest_from lt os).
Proof.
  intros Hos. revert m lt. induction Hos as [|o os Ho _ IH]; intros m lt Hm; [by exists m|].
  destruct (tracks_step o m lt Ho Hm) as (log & m1 & Hone & Hm1).
  destruct (IH m1 _ Hm1) as (m' & Hall & Hm'). exists m'. split; [|done].
  cbn [observe_all]. unfold mbind, option_bind. by rewrite Hone.
Qed.

Lemma expected_Some m w p r x :
  expected m w p r = Some x ↔
  x = 1%Z ∧ ∃ ex, m !! w = Some ex ∧ ex_PinLabel ex = p ∧ ex_Reason ex = r.
Proof.
  unfold expected. destruct (m !! w) as [ex|]; [|naive_solver].
  destruct (decide _) as [[<- <-]|Hne]; naive_solver.
Qed.

Lemma excluded_value_Some lt l x :
  excluded_value lt l = Some x ↔
  x = 1%Z ∧ ∃ ss o n ex, lt !! ss = Some o ∧ exclusions_of o !! n = Some ex ∧
                         l = [ss; n; ex_PinLabel ex; ex_Reason ex].
Proof.
  unfold excluded_value. split.
  - destruct l as [|ss [|w [|p [|r [|]]]]]; try done.
    intros (o & Ho & (-> & ex & Hex & <- & <-)%expected_Some)%bind_Some.
    split; [done|]. by exists ss, o, w, ex.
  - intros (-> & ss & o & n & ex & Ho & Hex & ->). apply bind_Some. exists o.
    split; [done|]. apply expected_Some. by eauto.
Qed.

(** The vector of the exclusions holds them. *)
Lemma tracks_holds m lt v :
  tracks m lt → excluded m = Some v → sound excluded_header v → holds v (excluded_value lt).
Proof.
  intros [[Hrec Hshow _] Hlast Hclean _ _] Hv (Hvok & Hkey & Hh).
  assert (length (labelNames v) = 4) as Hlen
    by (unfold vec_header in Hh; by injection Hh as _ _ ->).
  assert (∀ ss, default ∅ (m_last m !! ss) = default ∅ (exclusions_of <$> lt !! ss)) as Hd
    by (intros ss; by rewrite Hlast, lookup_fmap).
  split; [done|done|..].
  - intros l [Hl Hc]. rewrite Hlen in Hl. destruct l as [|ss [|w [|p [|r [|]]]]]; try done.
    rewrite Hv in Hshow. destruct Hshow as [_ Hget]. rewrite Hget, Hd by done. cbn.
    by destruct (lt !! ss).
  - intros l [x (_ & ss & o & n & ex & Ho & Hex & ->)%excluded_value_Some].
    split; [done|]. assert (recorded_ok (exclusions_of o)) as Hr.
    { specialize (Hrec ss). by rewrite Hd, Ho in Hrec. }
    destruct (Hr n ex Hex) as (_ & Hn & Hp & Hre).
    repeat constructor; try done. apply Hclean. by eexists.
Qed.

(** The sample of an exclusion, and that of a count. *)
Definition exclusion_sample (ss : string) (n : string) (ex : AutoSizeExclusion) : sample :=
  mkSample "orchard_gh_bridge_autosize_worker_excluded"
    [("scale_set", ss); ("worker", n); ("pin_label", ex_PinLabel ex); ("reason", ex_Reason ex)]
    "1".
Definition count_sample (ss : string) (count : Z) : sample :=
  mkSample "orchard_gh_bridge_autosize_eligible_workers" [("scale_set", ss)] (FormatFloat count).

(** One sample for each tuple held. *)
Lemma holds_distinct v f :
  holds v f → NoDup (sample_at (vec_header v) f <$> tuples v).
Proof.
  intros Hv. apply NoDup_fmap_2_strong; [|apply tuples_NoDup, (holds_keyed v f Hv)].
  intros l k Hl Hk [= Hz _].
  apply (elem_of_tuples v f l Hv), (holds_dom v f Hv) in Hl as [Hl _].
  apply (elem_of_tuples v f k Hv), (holds_dom v f Hv) in Hk as [Hk _].
  apply (f_equal (fmap snd)) in Hz. cbn in Hz. 
  assert (∀ j : list string, length j = length (labelNames v) → (zip (labelNames v) j).*2 = j)
    as Hs by (intros j Hj; apply snd_zip; lia).
  by rewrite !Hs in Hz.
Qed.

Lemma holds_shown v f x :
  holds v f →
  x ∈ sample_at (vec_header v) f <$> tuples v ↔
  ∃ l n, f l = Some n ∧ x = sample_at (vec_header v) f l.
Proof.
  intros Hv. rewrite list_elem_of_fmap. split.
  - intros (l & -> & [n Hn]%(elem_of_tuples v f l Hv)). by exists l, n.
  - intros (l & n & Hn & ->). exists l. split; [done|]. apply (elem_of_tuples v f l Hv). by exists n.
Qed.

Lemma exclusions_shown lt x :
  (∃ l n, excluded_value lt l = Some n ∧ x = sample_at excluded_header (excluded_value lt) l) ↔
  ∃ ss o n ex, lt !! ss = Some o ∧ exclusions_of o !! n = Some ex ∧ x = exclusion_sample ss n ex.
Proof.
  split.
  - intros (l & y & Hl & ->). pose proof Hl as (-> & ss & o & n & ex & Ho & Hex & ->)%excluded_value_Some.
    exists ss, o, n, ex. split; [done|]. split; [done|]. unfold sample_at. by rewrite Hl.
  - intros (ss & o & n & ex & Ho & Hex & ->).
    assert (excluded_value lt [ss; n; ex_PinLabel ex; ex_Reason ex] = Some 1%Z) as Hl
      by (apply excluded_value_Some; eauto 10).
    exists [ss; n; ex_PinLabel ex; ex_Reason ex], 1%Z. split; [done|].
    unfold sample_at. by rewrite Hl.
Qed.

Lemma counts_shown lt x :
  (∃ l n, eligible_value lt l = Some n ∧ x = sample_at eligible_header (eligible_value lt) l) ↔
  ∃ ss o, lt !! ss = Some o ∧ x = count_sample ss (count_of o).
Proof.
  split.
  - intros ([|ss [|]] & y & Hl & ->); try done. cbn in Hl.
    apply fmap_Some in Hl as (o & Ho & _). exists ss, o. split; [done|].
    unfold sample_at, count_sample. cbn. by rewrite Ho.
  - intros (ss & o & Ho & ->). exists [ss], (count_of o). unfold sample_at. cbn. by rewrite Ho.
Qed.

(** C27: a scrape shows exactly the exclusions there are.  After any observations of
    any scale sets, in any order, none of which panics, a reader of the text format
    gets one sample for each worker that the last observation of a scale set found
    excluded, with its pin and its reason, one sample for each scale set observed,
    with the number of workers it can place VMs on, and nothing else: no exclusion
    that has cleared lingers, and none that holds is missing. *)
Theorem scrape_shows_exclusions (os : list observation) :
  Forall observation_ok os →
  ∃ m, observe_all os (NewEligibilityMonitor true) = Some m ∧
    let shown := read_text (body (Handler (monitor_registry m))) in
    NoDup shown ∧
    ∀ x, x ∈ shown ↔
      (∃ ss o n ex, latest os !! ss = Some o ∧ exclusions_of o !! n = Some ex ∧
         x = exclusion_sample ss n ex) ∨
      (∃ ss o, latest os !! ss = Some o ∧ x = count_sample ss (count_of o)).
Proof.
  intros Hos. destruct (tracks_all os _ _ Hos tracks_new) as (m & Hm & Ht).
  exists m. split; [exact Hm|]. fold (latest os) in Ht.
  destruct (tracks_excluded _ _ Ht) as (v & Hv & Hs).
  destruct (tracks_eligible _ _ Ht) as (u & Hu & Hhu & Hholds).
  pose proof (tracks_holds _ _ v Ht Hv Hs) as Hvh. destruct Hs as (_ & _ & Hh).
  unfold monitor_registry. rewrite Hv, Hu. cbv zeta.
  change (body (Handler _)) with (WriteText [v; u]).
  rewrite WriteText_roundtrip by (repeat constructor; eapply holds_vec; done).
  change ([v; u] ≫= samples) with (samples v ++ samples u ++ []).
  rewrite app_nil_r, (holds_samples v _ Hvh), (holds_samples u _ Hholds). split.
  - apply NoDup_app. split; [by apply holds_distinct|]. split; [|by apply holds_distinct].
    intros x (l & n & _ & ->)%(holds_shown v _ _ Hvh) (k & n' & _ & Hx)%(holds_shown u _ _ Hholds).
    rewrite Hh, Hhu in Hx. apply (f_equal sample_name) in Hx. done.
  - intros x. rewrite elem_of_app, (holds_shown v _ x Hvh), (holds_shown u _ x Hholds), Hh, Hhu.
    by rewrite exclusions_shown, counts_shown.
Qed.

(** ** Witness *)

(** Two scale sets; the small machine is excluded from both, and leaves the fleet
    that the first one sees. *)
Definition observations : list observation :=
  let labels := {["vm-class" := "large"]} in
  [mkObservation "large" [small_mac; big_mac] labels 4 4096;
   mkObservation "huge" [small_mac; big_mac] labels 4 4096;
   mkObservation "large" [big_mac] labels 4 4096].

Lemma scrape_shows_exclusions_witness :
  Forall observation_ok observations ∧
  ∃ m, observe_all observations (NewEligibilityMonitor true) = Some m ∧
    let shown := read_text (body (Handler (monitor_registry m))) in
    exclusion_sample "huge" "mini-1" (mkExclusion "mini-1" "mini-1" "below_reserves" []) ∈ shown ∧
    exclusion_sample "large" "mini-1" (mkExclusion "mini-1" "mini-1" "below_reserves" []) ∉ shown ∧
    count_sample "large" 1 ∈ shown.
Proof.
  assert (Forall observation_ok observations) as Hok
    by (repeat constructor; by vm_compute).
  split; [exact Hok|].
  destruct (scrape_shows_exclusions observations Hok) as (m & Hm & _ & Hshown).
  exists m. split; [exact Hm|]. cbv zeta. rewrite !Hshown. split; [|split].
  - left. eexists "huge", _, "mini-1", _. split; [reflexivity|]. split; vm_compute; reflexivity.
  - intros [(ss & o & n & ex & Ho & Hex & [= <- <- _ _])|(ss & o & _ & [=])].
    injection Ho as <-. vm_compute in Hex. done.
  - right. eexists "large", _. split; [reflexivity|]. vm_compute. reflexivity.
Defined.
