(* ===== verification/Capacity.v ===== *)
(** * The global slot semaphore ([bridge/capacity.go])

    Every method runs under the mutex, so each is one atomic step on the record.
    The callbacks are values of an abstract type [CB]: [SetMax] hands back the
    ones it calls, outside the lock, and the caller runs them. *)

From S2P Require Import Prelude GoBase Orchard.

Record Capacity (CB : Type) : Type := mkCapacity {
  current : Z;
  max : Z;
  callbacks : list CB
}.
Arguments mkCapacity {CB} _ _ _.
Arguments current {CB} _.
Arguments max {CB} _.
Arguments callbacks {CB} _.

Section Methods.
Context {CB : Type}.
Implicit Types c : Capacity CB.

Definition NewCapacity (max : Z) : Capacity CB := mkCapacity 0 max [].

Definition OnWorkersChanged (fn : CB) c : Capacity CB :=
  mkCapacity (current c) (max c) (callbacks c ++ [fn]).

Definition TryAcquire (n : Z) c : Z * Capacity CB :=
  let available := int64 (max c - current c) in
  if (available <=? 0)%Z then (0%Z, c)
  else let acquired := Z.min n available in
       (acquired, mkCapacity (int64 (current c + acquired)) (max c) (callbacks c)).

Definition Release (n : Z) c : Capacity CB :=
  let cur := int64 (current c - n) in
  mkCapacity (if (cur <? 0)%Z then 0%Z else cur) (max c) (callbacks c).

Definition Available c : Z := int64 (max c - current c).

Definition InUse c : Z := current c.

Definition Reconcile (actual : Z) c : Capacity CB :=
  mkCapacity actual (max c) (callbacks c).

Definition AdoptExisting (n : Z) c : Capacity CB :=
  mkCapacity (int64 (current c + n)) (max c) (callbacks c).

(** The callbacks to run, and the capacity with the new maximum. *)
Definition SetMax (m : Z) c : list CB * Capacity CB :=
  let changed := negb (max c =? m)%Z in
  (if changed then callbacks c else [], mkCapacity (current c) m (callbacks c)).

Definition Max c : Z := max c.
End Methods.

(** ** Lemmas *)

(** Counters far from the ends of the [int] range: no fleet has 2^62 slots. *)
Definition small (z : Z) : Prop := (- 4611686018427387904 ≤ z < 4611686018427387904)%Z.
Definition cap_small {CB} (c : Capacity CB) : Prop := small (current c) ∧ small (max c).

Lemma int64_small_sub a b : small a → small b → int64 (a - b) = (a - b)%Z.
Proof. unfold small. intros. apply int64_id. unfold in_int64, two63. lia. Qed.

Lemma int64_small_add a b : small a → small b → int64 (a + b) = (a + b)%Z.
Proof. unfold small. intros. apply int64_id. unfold in_int64, two63. lia. Qed.

Section Lemmas.
Context {CB : Type}.
Implicit Types c : Capacity CB.

(** What one acquisition grants, and what it leaves. *)
Lemma TryAcquire_spec n c :
  cap_small c → (0 ≤ n)%Z →
  let a := Z.max 0 (Z.min n (max c - current c)) in
  TryAcquire n c = (a, mkCapacity (current c + a) (max c) (callbacks c)).
Proof.
  intros [Hc Hm] Hn a. unfold TryAcquire. rewrite int64_small_sub by done.
  destruct (Z.leb_spec (max c - current c) 0) as [H|H].
  - replace a with 0%Z by (subst a; lia). rewrite Z.add_0_r. by destruct c.
  - replace (Z.min n (max c - current c)) with a by (subst a; lia).
    rewrite int64_id; [done|]. subst a. unfold small, in_int64, two63 in *. lia.
Qed.

Lemma Release_spec n c :
  cap_small c → small n →
  Release n c = mkCapacity (Z.max 0 (current c - n)) (max c) (callbacks c).
Proof.
  intros [Hc Hm] Hn. unfold Release. rewrite int64_small_sub by done.
  f_equal. destruct (Z.ltb_spec (current c - n) 0); lia.
Qed.
End Lemmas.

(** ** Properties *)

(** [SetMax] records the maximum whether or not it shrinks below the
    slots in use, and calls the registered callbacks exactly when it changed;
    as long as the in-use count is at or above the maximum nothing is granted. *)
Lemma SetMax_spec {CB} (m n : Z) (c : Capacity CB) :
  cap_small c → small m → (0 ≤ n)%Z →
  let '(cbs, c') := SetMax m c in
  Max c' = m ∧ InUse c' = InUse c ∧ callbacks c' = callbacks c ∧
  cbs = (if decide (Max c = m) then [] else callbacks c) ∧
  ((m ≤ InUse c)%Z → TryAcquire n c' = (0%Z, c')).
Proof.
  intros [Hc Hmx] Hm Hn. unfold SetMax, Max, InUse. simpl.
  split_and!; try done.
  - destruct (Z.eqb_spec (max c) m); simpl; case_decide; done.
  - intros Hle. rewrite TryAcquire_spec by done. simpl.
    replace (Z.max 0 _) with 0%Z by lia. by rewrite Z.add_0_r.
Qed.

(** ** Witnesses *)

Lemma SetMax_spec_witness :
  let c := mkCapacity (CB := unit) 5 8 [tt] in
  cap_small c ∧
  let '(cbs, c') := SetMax 3 c in
  Max c' = 3%Z ∧ InUse c' = InUse c ∧ callbacks c' = callbacks c ∧
  cbs = (if decide (Max c = 3%Z) then [] else callbacks c) ∧
  ((3 ≤ InUse c)%Z → TryAcquire 2 c' = (0%Z, c')).
Proof.
  intros c. assert (cap_small c) as H by (unfold cap_small, small, c; simpl; lia).
  split; [exact H|]. apply (SetMax_spec 3 2 c); [exact H|unfold small; lia|lia].
Defined.
