(* ===== verification/SlotsConc.v ===== *)
(** * Concurrent handlers and the slot semaphore

    The handlers of several bridges and the cleanup loop run in goroutines of
    their own and meet at the semaphore.  [exec] interleaves their accesses to
    what they share: the calls of the semaphore ([bridge/capacity.go]), the
    answers of the controller to [CreateVM], [DeleteVM] and the listing of a
    sweep, and the critical sections on [activeVMs] ([bridge/bridge.go],
    [bridge/cleanup.go]).  The handlers as functions are in Bridge and Cleanup;
    SlotsRefine and SweepRefine show that one that runs alone is a run of one
    thread. *)

From S2P Require Import Prelude GoBase Capacity.

(** Where a goroutine stands. *)
Inductive pc : Type :=
  | Idle
  (* in the loop over the slots acquired, with [k] turns left *)
  | Creating (acquired skipped created : Z) (k : nat)
  (* the VM [name] is created, but not yet in [activeVMs] *)
  | Tracking (name : string) (acquired skipped created : Z) (k : nat)
  (* a creation failed: about to release [n] slots *)
  | GivingBack (n : Z)
  (* a job is completed: its VM is out of [activeVMs], but not yet deleted *)
  | Deleting (name : string)
  (* its VM is deleted: about to release one slot *)
  | Releasing
  (* a sweep, with [todo] still to be processed and [counted] VMs counted *)
  | Sweeping (counted : Z) (todo : list string)
  (* it reaped [name], and is about to take it out of [activeVMs] *)
  | Purging (name : string) (counted : Z) (todo : list string).

#[export] Instance pc_eq_dec : EqDecision pc.
Proof. solve_decision. Defined.

(** [live] are the bridge's VMs that the controller has, [tracked] those in the
    [activeVMs] of the bridges. *)
Record Shared : Type := mkShared {
  sem : Capacity unit;
  live : gset string;
  tracked : gset string;
  threads : list pc
}.

(** What a sweep does with a VM. *)
Inductive verdict : Type := Reap | Count | Strand.

Inductive event : Type :=
  (* [HandleDesiredRunnerCount], [handleAutoSizeScaleUp] *)
  | Acquire (t : nat) (needed : Z)
  | Create (t : nat) (name : string) (ok : bool)
  | Track (t : nat)
  | Skip (t : nat)
  | GiveBack (t : nat)
  | Finish (t : nat)
  (* [HandleJobCompleted] *)
  | Forget (t : nat) (name : string)
  | Delete (t : nat) (ok : bool)
  | ReleaseOne (t : nat)
  (* [sweep] *)
  | Listing (t : nat) (names : list string)    (* from a cache: perhaps an old list *)
  | Process (t : nat) (v : verdict)
  | Purge (t : nat)
  | Fault (t : nat) (purged : bool) (v : verdict)    (* a callback panicked *)
  | Reconciling (t : nat)
  | Push (m : Z)
  (* outside the process *)
  | Appear (name : string)
  | Vanish (name : string).

Definition set_pc (t : nat) (p : pc) (s : Shared) : Shared :=
  mkShared (sem s) (live s) (tracked s) (<[t := p]> (threads s)).
Definition set_sem (c : Capacity unit) (s : Shared) : Shared :=
  mkShared c (live s) (tracked s) (threads s).
Definition set_live (l : gset string) (s : Shared) : Shared :=
  mkShared (sem s) l (tracked s) (threads s).
Definition set_tracked (m : gset string) (s : Shared) : Shared :=
  mkShared (sem s) (live s) m (threads s).

(** [for ... { ... }] entered with the slots [acquired], or not at all. *)
Definition batch_pc (acquired : Z) : pc :=
  if (acquired =? 0)%Z then Idle else Creating acquired 0 0 (Z.to_nat acquired).

(** The events of a scale-up, if they can happen: [TryAcquire], then one turn of
    the loop after the other. *)
Definition exec_scale_up (ev : event) (s : Shared) : option Shared :=
  match ev with
  | Acquire t needed =>
      match threads s !! t with
      | Some Idle =>
          if (needed <=? 0)%Z then None else
          let '(acquired, c) := TryAcquire needed (sem s) in
          Some (set_pc t (batch_pc acquired) (set_sem c s))
      | _ => None
      end
  | Create t name ok =>
      match threads s !! t with
      | Some (Creating a sk c (S k)) =>
          if ok : bool then
            (* the controller refuses a name it has *)
            if decide (name ∈ live s) then None
            else Some (set_pc t (Tracking name a sk c k) (set_live ({[name]} ∪ live s) s))
          else Some (set_pc t (GivingBack (a - sk - c)) s)
      | _ => None
      end
  | Track t =>
      match threads s !! t with
      | Some (Tracking name a sk c k) =>
          Some (set_pc t (Creating a sk (c + 1) k) (set_tracked ({[name]} ∪ tracked s) s))
      | _ => None
      end
  | Skip t =>
      match threads s !! t with
      | Some (Creating a sk c (S k)) =>
          Some (set_pc t (Creating a (sk + 1) c k) (set_sem (Release 1 (sem s)) s))
      | _ => None
      end
  | GiveBack t =>
      match threads s !! t with
      | Some (GivingBack n) => Some (set_pc t Idle (set_sem (Release n (sem s)) s))
      | _ => None
      end
  | Finish t =>
      match threads s !! t with
      | Some (Creating _ _ _ O) => Some (set_pc t Idle s)
      | _ => None
      end
  | _ => None
  end%Z.

(** Those of a completed job. *)
Definition exec_job_completed (ev : event) (s : Shared) : option Shared :=
  match ev with
  | Forget t name =>
      match threads s !! t with
      | Some Idle =>
          if decide (name ∈ tracked s)
          then Some (set_pc t (Deleting name) (set_tracked (tracked s ∖ {[name]}) s))
          else None
      | _ => None
      end
  | Delete t ok =>
      match threads s !! t with
      | Some (Deleting name) =>
          if ok : bool
          then Some (set_pc t Releasing (set_live (live s ∖ {[name]}) s))
          else Some (set_pc t Idle s)
      | _ => None
      end
  | ReleaseOne t =>
      match threads s !! t with
      | Some Releasing => Some (set_pc t Idle (set_sem (Release 1 (sem s)) s))
      | _ => None
      end
  | _ => None
  end%Z.

(** Those of a sweep. *)
Definition exec_sweep (ev : event) (s : Shared) : option Shared :=
  match ev with
  | Listing t names =>
      match threads s !! t with
      | Some Idle =>
          if decide (NoDup names) then Some (set_pc t (Sweeping 0 names) s) else None
      | _ => None
      end
  | Process t v =>
      match threads s !! t with
      | Some (Sweeping n (name :: todo)) =>
          Some match v with
               | Reap => set_pc t (Purging name n todo) (set_live (live s ∖ {[name]}) s)
               | Count => set_pc t (Sweeping (n + 1) todo) s
               | Strand => set_pc t (Sweeping n todo) s
               end
      | _ => None
      end
  | Purge t =>
      match threads s !! t with
      | Some (Purging name n todo) =>
          Some (set_pc t (Sweeping n todo) (set_tracked (tracked s ∖ {[name]}) s))
      | _ => None
      end
  (* the VM is deleted, but the loop goes on as if it were not *)
  | Fault t purged v =>
      match threads s !! t, v with
      | Some (Purging name n todo), Count | Some (Purging name n todo), Strand =>
          Some (set_pc t (Sweeping (match v with Count => n + 1 | _ => n end) todo)
                  (set_tracked (if purged then tracked s ∖ {[name]} else tracked s) s))
      | _, _ => None
      end
  | Reconciling t =>
      match threads s !! t with
      | Some (Sweeping n []) => Some (set_pc t Idle (set_sem (Reconcile n (sem s)) s))
      | _ => None
      end
  | Push m => Some (set_sem (SetMax m (sem s)).2 s)
  | _ => None
  end%Z.

(** The controller on its own: a VM comes or goes that no answer told of.  A
    creation reported as failed that took effect all the same is a refused
    [Create] and an [Appear]; a deletion of that kind, a refused [Delete] and a
    [Vanish]. *)
Definition exec_outside (ev : event) (s : Shared) : option Shared :=
  match ev with
  | Appear name =>
      if decide (name ∈ live s) then None else Some (set_live ({[name]} ∪ live s) s)
  | Vanish name =>
      if decide (name ∈ live s) then Some (set_live (live s ∖ {[name]}) s) else None
  | _ => None
  end.

Definition exec (ev : event) (s : Shared) : option Shared :=
  match ev with
  | Acquire _ _ | Create _ _ _ | Track _ | Skip _ | GiveBack _ | Finish _ => exec_scale_up ev s
  | Forget _ _ | Delete _ _ | ReleaseOne _ => exec_job_completed ev s
  | Listing _ _ | Process _ _ | Purge _ | Fault _ _ _ | Reconciling _ | Push _ => exec_sweep ev s
  | Appear _ | Vanish _ => exec_outside ev s
  end.

(** A run of given events. *)
Fixpoint run (evs : list event) (s : Shared) : option Shared :=
  match evs with
  | [] => Some s
  | ev :: evs => match exec ev s with Some s' => run evs s' | None => None end
  end.

(** The events of the bridges' handlers, and those of one thread. *)
Definition of_handler (ev : event) : bool :=
  match ev with
  | Listing _ _ | Process _ _ | Purge _ | Fault _ _ _ | Reconciling _ | Push _ => false
  | Appear _ | Vanish _ => false
  | _ => true
  end.

Definition of_thread (t : nat) (ev : event) : bool :=
  match ev with
  | Acquire t' _ | Create t' _ _ | Track t' | Skip t' | GiveBack t' | Finish t'
  | Forget t' _ | Delete t' _ | ReleaseOne t'
  | Listing t' _ | Process t' _ | Purge t' | Fault t' _ _ | Reconciling t' =>
      bool_decide (t' = t)
  | Push _ | Appear _ | Vanish _ => false
  end.

(** A process that adopted the VMs [adopted], with [n] goroutines. *)
Definition start (m : Z) (adopted : gset string) (n : nat) : Shared :=
  mkShared (AdoptExisting (Z.of_nat (size adopted)) (NewCapacity m)) adopted adopted
    (replicate n Idle).

Lemma run_app evs evs' s : run (evs ++ evs') s = run evs s ≫= run evs'.
Proof.
  revert s. induction evs as [|ev evs IH]; intros s; simpl; [done|].
  destruct (exec ev s); [apply IH|done].
Qed.

Lemma run_app_Some evs evs' s s' s'' :
  run evs s = Some s' → run evs' s' = Some s'' → run (evs ++ evs') s = Some s''.
Proof. intros H1 H2. by rewrite run_app, H1. Qed.

Lemma run_cons ev evs s s' s'' :
  exec ev s = Some s' → run evs s' = Some s'' → run (ev :: evs) s = Some s''.
Proof. intros H1 H2. cbn [run]. by rewrite H1. Qed.

Lemma exec_Acquire t needed s a c :
  threads s !! t = Some Idle → (0 < needed)%Z → TryAcquire needed (sem s) = (a, c) →
  exec (Acquire t needed) s = Some (set_pc t (batch_pc a) (set_sem c s)).
Proof.
  intros Ht Hn Ha. simpl. rewrite Ht, (proj2 (Z.leb_gt needed 0)) by done. by rewrite Ha.
Qed.

(** An invariant of the events that satisfy [ok] holds after a run of them. *)
Lemma run_invariant (I : Shared → Prop) (ok : event → Prop) evs s s' :
  run evs s = Some s' → Forall ok evs → I s →
  (∀ ev s s', ok ev → exec ev s = Some s' → I s → I s') → I s'.
Proof.
  intros Hrun Hok Hs Hstep. revert s Hrun Hs. induction Hok as [|ev evs Hev _ IH]; intros s Hrun Hs;
    simpl in Hrun; [by simplify_eq|].
  destruct (exec ev s) as [s1|] eqn:He; [|done]. by eapply IH, Hstep.
Qed.

(** ** Exact accounting *)

(** The slots a thread holds for VMs that do not exist, yet or any more. *)
Definition held (p : pc) : nat :=
  match p with
  | Creating _ _ _ k | Tracking _ _ _ _ k => k
  | GivingBack n => Z.to_nat n
  | Releasing => 1
  | _ => 0
  end.

Definition total_held (ts : list pc) : nat := sum_list_with held ts.

(** The VM that only a thread knows of. *)
Definition owner (p : pc) : option string :=
  match p with
  | Tracking n _ _ _ _ | Deleting n => Some n
  | _ => None
  end.
Definition owns (p : pc) (name : string) : Prop := owner p = Some name.

(** The counters of a batch add up. *)
Definition pc_ok (p : pc) : Prop :=
  match p with
  | Creating a sk c k => (a - sk - c = Z.of_nat k)%Z
  | Tracking _ a sk c k => (a - sk - (c + 1) = Z.of_nat k)%Z
  | GivingBack n => (0 ≤ n)%Z
  | _ => True
  end.

(** Every slot taken is that of a VM, or held by a thread. *)
Definition exact (s : Shared) : Prop :=
  current (sem s) = Z.of_nat (size (live s) + total_held (threads s)).

Record accounted (m bound : Z) (s : Shared) : Prop := {
  acc_exact : exact s;
  acc_max : max (sem s) = m;
  acc_bound : (current (sem s) ≤ bound)%Z;
  acc_tracked : tracked s ⊆ live s;
  acc_owned : ∀ t p n, threads s !! t = Some p → owns p n →
    n ∈ live s ∧ n ∉ tracked s;
  acc_unique : ∀ t t' p p' n, threads s !! t = Some p → threads s !! t' = Some p' →
    owns p n → owns p' n → t = t';
  acc_pcs : Forall pc_ok (threads s)
}.

Lemma total_held_insert ts t p p' :
  ts !! t = Some p →
  total_held (<[t := p']> ts) + held p = total_held ts + held p'.
Proof.
  unfold total_held. revert t. induction ts as [|q ts IH]; intros [|t] Ht; simpl in *;
    simplify_eq; [lia|]. specialize (IH t Ht). lia.
Qed.

Lemma size_add (X : gset string) n : n ∉ X → size ({[n]} ∪ X) = S (size X).
Proof. intros H. rewrite size_union by set_solver. by rewrite size_singleton. Qed.

Lemma size_remove (X : gset string) n : n ∈ X → size X = S (size (X ∖ {[n]})).
Proof.
  intros H. rewrite <-(size_add (X ∖ {[n]}) n) by set_solver.
  f_equal. apply leibniz_equiv. rewrite <-union_difference; set_solver.
Qed.

(** One thread moves from [p] to [p'], and what is shared to [c], [l] and [tr]. *)
Lemma accounted_move m bound s t p p' c l tr :
  accounted m bound s → threads s !! t = Some p → pc_ok p' →
  max c = m → (current c ≤ bound)%Z →
  (current c + Z.of_nat (held p + size (live s))
   = current (sem s) + Z.of_nat (held p' + size l))%Z →
  tr ⊆ l →
  (∀ n, owns p' n → n ∈ l ∧ n ∉ tr ∧
     ∀ t' q, t' ≠ t → threads s !! t' = Some q → ¬ owns q n) →
  (∀ t' q n, t' ≠ t → threads s !! t' = Some q → owns q n → n ∈ l ∧ n ∉ tr) →
  accounted m bound (mkShared c l tr (<[t := p']> (threads s))).
Proof.
  intros [A1 A2 A3 A4 A5 A6 A7] Ht Hp Hmax Hle Hcount Htr Hnew Hold.
  constructor; simpl; try done.
  - unfold exact in *. simpl.
    pose proof (total_held_insert (threads s) t p p' Ht). lia.
  - intros t' q n Hq Hn. apply list_lookup_insert_Some in Hq as [(<- & <- & _)|[? Hq]];
      [by destruct (Hnew n Hn) as (? & ? & _)|by eapply Hold].
  - intros t1 t2 q1 q2 n Hq1 Hq2 Hn1 Hn2.
    apply list_lookup_insert_Some in Hq1 as [(<- & <- & _)|[? Hq1]];
      apply list_lookup_insert_Some in Hq2 as [(<- & <- & _)|[? Hq2]]; try done.
    + by destruct (Hnew n Hn1) as (_ & _ & Hno); destruct (Hno t2 q2).
    + by destruct (Hnew n Hn2) as (_ & _ & Hno); destruct (Hno t1 q1).
    + by eapply A6.
  - by apply Forall_insert.
Qed.

(** The same when the sets stay and the thread ends up owning what it owned. *)
Lemma accounted_move_pc m bound s t p p' c :
  accounted m bound s → threads s !! t = Some p → pc_ok p' →
  owner p' = None → max c = m → (current c ≤ bound)%Z →
  (current c + Z.of_nat (held p) = current (sem s) + Z.of_nat (held p'))%Z →
  accounted m bound (mkShared c (live s) (tracked s) (<[t := p']> (threads s))).
Proof.
  intros HA Ht Hp Hno Hmax Hle Hcount. pose proof HA as [A1 A2 A3 A4 A5 A6 A7].
  eapply accounted_move; try done; [lia| |].
  - intros n Hn. unfold owns in Hn. congruence.
  - intros t' q n _ Hq Hn. by eapply A5.
Qed.

Section Steps.
Context (m bound : Z) (Hbound : (Z.max 0 m ≤ bound)%Z) (Hsm : small m) (Hsb : small bound).

Lemma accounted_small s : accounted m bound s → cap_small (sem s) ∧ (0 ≤ current (sem s))%Z.
Proof.
  intros [A1 A2 A3 A4 A5 A6 A7]. unfold exact, cap_small, small in *. lia.
Qed.

Lemma held_bound s t p : accounted m bound s → threads s !! t = Some p →
  (Z.of_nat (held p) ≤ current (sem s))%Z.
Proof.
  intros [A1 _ _ _ _ _ _] Ht. unfold exact in A1.
  pose proof (total_held_insert (threads s) t p Idle Ht). simpl in *. lia.
Qed.

(** A thread gives back some of the slots it holds. *)
Lemma accounted_release s t p p' n :
  accounted m bound s → threads s !! t = Some p → pc_ok p' → owner p' = None →
  (0 ≤ n)%Z → (Z.of_nat (held p) = n + Z.of_nat (held p'))%Z →
  accounted m bound (set_pc t p' (set_sem (Release n (sem s)) s)).
Proof.
  intros HA Ht Hp Hno Hn Hh. pose proof (accounted_small s HA) as [Hs H0].
  pose proof (held_bound s t p HA Ht) as Hle.
  rewrite Release_spec by (done || (unfold cap_small, small in *; lia)).
  destruct HA as [A1 A2 A3 A4 A5 A6 A7].
  apply (accounted_move_pc m bound s t p); simpl; try done; try lia.
Qed.

Lemma accounted_acquire s t needed :
  accounted m bound s → threads s !! t = Some Idle → (0 < needed)%Z →
  accounted m bound (set_pc t (batch_pc (TryAcquire needed (sem s)).1)
                       (set_sem (TryAcquire needed (sem s)).2 s)).
Proof.
  intros HA Ht Hn. pose proof (accounted_small s HA) as [Hs H0].
  rewrite TryAcquire_spec by (done || lia). simpl.
  set (a := Z.max 0 _). pose proof HA as [A1 A2 A3 A4 A5 A6 A7]. unfold batch_pc.
  destruct (Z.eqb_spec a 0) as [Ha|Ha];
    apply (accounted_move_pc m bound s t Idle); simpl; try done; subst a; lia.
Qed.

Lemma accounted_create s t name a sk c k :
  accounted m bound s → threads s !! t = Some (Creating a sk c (S k)) → name ∉ live s →
  accounted m bound (set_pc t (Tracking name a sk c k) (set_live ({[name]} ∪ live s) s)).
Proof.
  intros HA Ht Hn. pose proof HA as [A1 A2 A3 A4 A5 A6 A7].
  pose proof (Forall_lookup_1 _ _ _ _ A7 Ht) as Hp. simpl in Hp.
  eapply (accounted_move m bound s t); try done; simpl.
  - lia.
  - rewrite size_add by done. lia.
  - set_solver.
  - intros n [= <-]. split; [set_solver|]. split; [set_solver|].
    intros t' q _ Hq Hown. by destruct (A5 t' q name Hq Hown).
  - intros t' q n _ Hq Hown. destruct (A5 t' q n Hq Hown). set_solver.
Qed.

Lemma accounted_track s t name a sk c k :
  accounted m bound s → threads s !! t = Some (Tracking name a sk c k) →
  accounted m bound (set_pc t (Creating a sk (c + 1) k)
                       (set_tracked ({[name]} ∪ tracked s) s)).
Proof.
  intros HA Ht. pose proof HA as [A1 A2 A3 A4 A5 A6 A7].
  pose proof (Forall_lookup_1 _ _ _ _ A7 Ht) as Hp. simpl in Hp.
  destruct (A5 t _ name Ht eq_refl) as [Hl _].
  eapply (accounted_move m bound s t); try done; simpl; [set_solver|].
  intros t' q n Hne Hq Hown. destruct (A5 t' q n Hq Hown) as [? ?]. split; [done|].
  assert (n ≠ name); [|set_solver]. intros ->. apply Hne. by eapply A6.
Qed.

Lemma accounted_forget s t name :
  accounted m bound s → threads s !! t = Some Idle → name ∈ tracked s →
  accounted m bound (set_pc t (Deleting name) (set_tracked (tracked s ∖ {[name]}) s)).
Proof.
  intros HA Ht Hn. pose proof HA as [A1 A2 A3 A4 A5 A6 A7].
  eapply (accounted_move m bound s t); try done; simpl; [set_solver| |].
  - intros n [= <-]. split; [set_solver|]. split; [set_solver|].
    intros t' q _ Hq Hown. by destruct (A5 t' q name Hq Hown).
  - intros t' q n _ Hq Hown. destruct (A5 t' q n Hq Hown). set_solver.
Qed.

Lemma accounted_delete s t name :
  accounted m bound s → threads s !! t = Some (Deleting name) →
  accounted m bound (set_pc t Releasing (set_live (live s ∖ {[name]}) s)).
Proof.
  intros HA Ht. pose proof HA as [A1 A2 A3 A4 A5 A6 A7].
  destruct (A5 t _ name Ht eq_refl) as [Hl Hnt].
  eapply (accounted_move m bound s t); try done; simpl.
  - rewrite (size_remove (live s) name) by done. lia.
  - set_solver.
  - intros t' q n Hne Hq Hown. destruct (A5 t' q n Hq Hown) as [? ?].
    assert (n ≠ name); [|set_solver]. intros ->. apply Hne. by eapply A6.
Qed.

(** A thread moves on and keeps the slots it holds. *)
Lemma accounted_advance s t p p' :
  accounted m bound s → threads s !! t = Some p → pc_ok p' → owner p' = None →
  held p' = held p → accounted m bound (set_pc t p' s).
Proof.
  intros HA Ht Hp Hno Hh. pose proof HA as [A1 A2 A3 A4 A5 A6 A7].
  apply (accounted_move_pc m bound s t p); try done. by rewrite Hh.
Qed.

(** The handlers' events keep the accounts. *)
Lemma accounted_step ev s s' :
  of_handler ev = true → exec ev s = Some s' → accounted m bound s → accounted m bound s'.
Proof.
  intros Hh He HA. pose proof (acc_pcs _ _ _ HA) as A7.
  destruct ev as [t n|t name ok|t|t|t|t|t name|t ok|t| | | | | | | |]; try done; simpl in He;
    destruct (threads s !! t) as [p|] eqn:Ht; try done;
    pose proof (Forall_lookup_1 _ _ _ _ A7 Ht) as Hp;
    destruct p as [|a sk c [|k]|nm a sk c k|x|nm| | |]; try done; simpl in Hp.
  - destruct (Z.leb_spec n 0); [done|]. pose proof (accounted_acquire s t n HA Ht) as H1.
    destruct (TryAcquire n (sem s)). simplify_eq. auto.
  - destruct ok; [case_decide; [done|]|]; simplify_eq; [by apply accounted_create|].
    apply (accounted_advance s t _ _ HA Ht); simpl; done || lia.
  - simplify_eq. by eapply accounted_track.
  - simplify_eq. eapply accounted_release; simpl; try done; simpl; lia.
  - simplify_eq. eapply accounted_release; simpl; try done; simpl; lia.
  - simplify_eq. by apply (accounted_advance s t _ _ HA Ht).
  - case_decide; simplify_eq. by apply accounted_forget.
  - destruct ok; simplify_eq; [by apply accounted_delete|].
    by apply (accounted_advance s t _ _ HA Ht).
  - simplify_eq. by eapply accounted_release.
Qed.
End Steps.

Lemma total_held_idle n : total_held (replicate n Idle) = 0.
Proof. unfold total_held. induction n; simpl; lia. Qed.

Lemma accounted_start m bound adopted n :
  small (Z.of_nat (size adopted)) → (Z.of_nat (size adopted) ≤ bound)%Z →
  accounted m bound (start m adopted n).
Proof.
  intros Hs Hb.
  assert (current (sem (start m adopted n)) = Z.of_nat (size adopted)) as Hc.
  { simpl. rewrite int64_id; [lia|]. unfold small, in_int64, two63 in *. lia. }
  constructor; try done.
  - unfold exact. rewrite Hc. simpl. rewrite total_held_idle. lia.
  - by rewrite Hc.
  - intros t p x Ht Hx. apply lookup_replicate in Ht as [-> _]. done.
  - intros t t' p p' x Ht _ Hx _. apply lookup_replicate in Ht as [-> _]. done.
  - by apply Forall_replicate.
Qed.

(** ** Properties *)

(** C7: however the handlers of any number of bridges interleave, the slots
    taken are exactly those of the VMs that exist and those that some handler is
    about to use or to give back; so there are never more VMs than the maximum,
    or than were adopted at the start when those were more.  No sweep runs, and
    the controller's answers are true: what it does without telling is what the
    sweep is there for. *)
Theorem slots_accounted (m : Z) (adopted : gset string) (n : nat) evs s :
  small m → small (Z.of_nat (size adopted)) →
  Forall (λ ev, of_handler ev = true) evs → run evs (start m adopted n) = Some s →
  InUse (sem s) = Z.of_nat (size (live s) + total_held (threads s)) ∧
  Max (sem s) = m ∧
  (Z.of_nat (size (live s)) ≤ InUse (sem s) ≤ Z.max m (Z.of_nat (size adopted)))%Z ∧
  tracked s ⊆ live s.
Proof.
  intros Hm Ha Hevs Hrun. set (bound := Z.max m (Z.of_nat (size adopted))).
  assert (accounted m bound s) as [A1 A2 A3 A4 _ _ _].
  { eapply (run_invariant (accounted m bound)); [exact Hrun|exact Hevs|..].
    - apply accounted_start; [done|lia].
    - intros ev s1 s2 Hok He.
      eapply (accounted_step m bound); [subst bound; unfold small in *; lia..|exact Hok|exact He]. }
  unfold InUse, Max, exact in *. split; [done|]. split; [done|]. split; [lia|done].
Qed.

(** *** The sweep *)

(** What a sweep still has to look at, and what it has counted. *)
Definition sweeping (s : Shared) (p : pc) : Prop :=
  match p with
  | Idle => exact s
  | Sweeping c todo | Purging _ c todo =>
      NoDup todo ∧ list_to_set todo ⊆ live s ∧
      c = (Z.of_nat (size (live s)) - Z.of_nat (length todo))%Z
  | _ => False
  end.

(** A sweep alone: the other threads are idle, and its events are those of one
    pass that strands nothing. *)
Definition lone_sweep (t : nat) (ev : event) : Prop :=
  match ev with
  | Process t' Strand => False
  | Process t' _ | Purge t' | Reconciling t' => t' = t
  | _ => False
  end.

Definition others_idle (t : nat) (s : Shared) : Prop :=
  ∀ t' p, t' ≠ t → threads s !! t' = Some p → held p = 0.

Lemma total_held_alone t s :
  others_idle t s → (∀ p, threads s !! t = Some p → held p = 0) → total_held (threads s) = 0.
Proof.
  intros Ho Ht. assert (Forall (λ p, held p = 0) (threads s)) as H.
  { apply Forall_lookup. intros t' p Hp. destruct (decide (t' = t)) as [->|]; eauto. }
  clear Ho Ht. unfold total_held. induction H as [|p ts Hp _ IH]; simpl; lia.
Qed.

Lemma others_idle_set_pc t p s : others_idle t s → others_idle t (set_pc t p s).
Proof. intros H t' q Hne. simpl. rewrite list_lookup_insert_ne by done. by apply H. Qed.

Lemma sweeping_step t ev s s' :
  lone_sweep t ev → exec ev s = Some s' →
  others_idle t s ∧ (∃ p, threads s !! t = Some p ∧ sweeping s p) →
  others_idle t s' ∧ (∃ p, threads s' !! t = Some p ∧ sweeping s' p).
Proof.
  intros Hev He [Ho (p & Ht & Hs)].
  pose proof (lookup_lt_Some _ _ _ Ht) as Hlt.
  destruct ev as [| | | | | | | | | |t' v|t'| |t'| | |]; try done; [destruct v; try done|..];
    simpl in Hev; subst t'; simpl in He; rewrite Ht in He;
    destruct p as [| | | | | |c [|nm todo]|nm c todo]; try done; simplify_eq;
    (split; [by apply others_idle_set_pc|]); simpl in Hs;
    eexists; (split; [by apply list_lookup_insert_eq|]); simpl.
  - destruct Hs as (Hnd & Hsub & ->). apply NoDup_cons in Hnd as [Hn Hnd].
    split; [done|]. split; [set_solver|].
    pose proof (size_remove (live s) nm ltac:(set_solver)). simpl. lia.
  - destruct Hs as (Hnd & Hsub & ->). apply NoDup_cons in Hnd as [Hn Hnd].
    split; [done|]. split; [set_solver|lia].
  - done.
  - assert (total_held (threads (set_pc t Idle s)) = 0) as H0.
    { apply (total_held_alone t); [by apply others_idle_set_pc|]. intros p. simpl.
      rewrite list_lookup_insert_eq by done. by intros [= <-]. }
    unfold exact. simpl in *. lia.
Qed.

(** C39: whatever number of slots is taken before it, a sweep leaves the accounts
    exact if nothing disturbs it: when it has reconciled, the slots taken are those
    of the VMs that exist.  Not disturbed means that no handler holds a slot and no
    other event falls into it, that its list is that of the VMs there are, that it
    strands none of them (a stranded VM is left uncounted on purpose) and that no
    callback panics. *)
Theorem quiet_sweep_heals (t : nat) (names : list string) (s s' : Shared) evs :
  threads s !! t = Some Idle → others_idle t s →
  NoDup names → list_to_set names = live s →
  Forall (lone_sweep t) evs → run (Listing t names :: evs) s = Some s' →
  threads s' !! t = Some Idle →
  InUse (sem s') = Z.of_nat (size (live s')).
Proof.
  intros Ht Ho Hnd Hall Hevs Hrun Hend. simpl in Hrun. rewrite Ht, decide_True in Hrun by done.
  pose proof (lookup_lt_Some _ _ _ Ht) as Hlt.
  assert (others_idle t s' ∧ ∃ p, threads s' !! t = Some p ∧ sweeping s' p)
    as [Ho' (p & Hp & Hs)].
  { apply (run_invariant (λ s, others_idle t s ∧ ∃ p, threads s !! t = Some p ∧ sweeping s p)
      (lone_sweep t) _ _ _ Hrun Hevs); [|apply sweeping_step].
    split; [by apply others_idle_set_pc|]. eexists.
    split; [by apply list_lookup_insert_eq|]. simpl. split; [done|]. split; [set_solver|].
    rewrite <-Hall, size_list_to_set by done. lia. }
  simplify_eq. simpl in Hs. unfold exact in Hs. unfold InUse.
  rewrite Hs, (total_held_alone t); [lia|done|]. intros p. rewrite Hend. by intros [= <-].
Qed.

(** *** A whole batch at once *)

Definition creations (t : nat) (names : list string) : list event :=
  names ≫= λ n, [Create t n true; Track t].

Lemma run_creations t names a sk c k s :
  threads s !! t = Some (Creating a sk c (length names + k)) →
  NoDup names → (∀ n, n ∈ names → n ∉ live s) →
  run (creations t names) s =
    Some (mkShared (sem s) (list_to_set names ∪ live s) (list_to_set names ∪ tracked s)
            (<[t := Creating a sk (c + Z.of_nat (length names)) k]> (threads s))).
Proof.
  revert c s. induction names as [|n names IH]; intros c s Ht Hnd Hfresh.
  - simpl in *. rewrite Z.add_0_r, !union_empty_l_L, list_insert_id by done. by destruct s.
  - apply NoDup_cons in Hnd as [Hn Hnd]. pose proof (lookup_lt_Some _ _ _ Ht) as Hlt.
    unfold creations. rewrite bind_cons, run_app. unfold mbind, option_bind.
    cbn [run exec exec_scale_up length Nat.add] in *. rewrite Ht.
    rewrite decide_False by (apply Hfresh; by left). cbn [set_pc set_live threads].
    rewrite list_lookup_insert_eq by done. cbn [set_tracked set_pc threads].
    fold (creations t names). rewrite (IH (c + 1)%Z); simpl.
    + rewrite !list_insert_insert_eq. do 2 f_equal; [set_solver..|]. by repeat (f_equal; try lia).
    + by rewrite list_lookup_insert_eq by (by rewrite length_insert).
    + done.
    + intros x Hx. rewrite not_elem_of_union, not_elem_of_singleton.
      split; [by intros ->|apply Hfresh; by right].
Qed.

(** Two scale-ups of one slot each for every name, and a sweep in between that was
    told of an empty fleet. *)
Definition overlapping (m : Z) (names names' : list string) : list event :=
  [Acquire 0 m; Listing 2 []; Reconciling 2; Acquire 1 m]
  ++ creations 0 names ++ [Finish 0] ++ creations 1 names' ++ [Finish 1].

(** C40: but a sweep that reconciles while a handler holds slots forgets those
    slots, and another handler is given them again.  Whatever the maximum, two
    scale-ups that overlap a sweep can fill the fleet twice although nothing
    failed: twice as many VMs exist as the maximum allows, all goroutines are idle,
    and the semaphore says that just the maximum is taken. *)
Theorem reconcile_forgets_held_slots (m : Z) (names names' : list string) :
  (0 < m)%Z → small m → Z.of_nat (length names) = m → Z.of_nat (length names') = m →
  NoDup (names ++ names') →
  ∃ s, run (overlapping m names names') (start m ∅ 3) = Some s ∧
    threads s = replicate 3 Idle ∧
    InUse (sem s) = m ∧ Max (sem s) = m ∧ Z.of_nat (size (live s)) = (2 * m)%Z.
Proof.
  intros Hm Hs Hl Hl' Hnd. apply NoDup_app in Hnd as (Hnd & Hdisj & Hnd').
  assert (∀ cbs, TryAcquire m (mkCapacity 0 m cbs) = (m, mkCapacity (CB := unit) m m cbs))
    as Hacq.
  { intros cbs. rewrite TryAcquire_spec by (unfold cap_small, small in *; simpl; lia).
    simpl. by rewrite Z.sub_0_r, Z.min_id, Z.max_r by lia. }
  assert (batch_pc m = Creating m 0 0 (Z.to_nat m)) as Hb.
  { unfold batch_pc. by rewrite (proj2 (Z.eqb_neq m 0)) by lia. }
  assert ((m <=? 0)%Z = false) as Hpos by (apply Z.leb_gt; lia).
  set (s1 := mkShared (mkCapacity m m []) ∅ ∅
    [Creating m 0 0 (Z.to_nat m); Creating m 0 0 (Z.to_nat m); Idle]).
  assert (run [Acquire 0 m; Listing 2 []; Reconciling 2; Acquire 1 m] (start m ∅ 3) = Some s1)
    as Hstart.
  { eapply run_cons; [by apply exec_Acquire; [|lia|apply Hacq]|]. rewrite Hb.
    eapply run_cons; [done|].
    eapply run_cons; [done|].
    eapply run_cons; [by apply exec_Acquire; [|lia|apply Hacq]|]. by rewrite Hb. }
  eexists. split; [|split_and!].
  - eapply run_app_Some; [exact Hstart|]. eapply run_app_Some.
    { apply (run_creations 0 names m 0 0 0 s1); [simpl; do 2 f_equal; lia|done|set_solver]. }
    eapply run_cons; [done|]. eapply run_app_Some.
    { apply (run_creations 1 names' m 0 0 0); [simpl; do 2 f_equal; lia|done|].
      simpl. set_solver. }
    by eapply run_cons.
  - done.
  - done.
  - done.
  - simpl. rewrite union_empty_r_L, size_union, !size_list_to_set by (done || set_solver). lia.
Qed.

(** ** Witnesses *)

(** Two scale-ups and a completed job interleave; one creation fails. *)
Definition busy : list event :=
  [Acquire 0 2; Acquire 1 2; Create 0 "gha-orchard-a-0a0a0a0a" true; Forget 2 "gha-orchard-b-1b1b1b1b";
   Create 1 "gha-orchard-b-2c2c2c2c" false; Track 0; Delete 2 true; GiveBack 1;
   Create 0 "gha-orchard-a-3d3d3d3d" true].

Definition busy_end : Shared :=
  mkShared (mkCapacity 3 4 []) {["gha-orchard-a-0a0a0a0a"; "gha-orchard-a-3d3d3d3d"]}
    {["gha-orchard-a-0a0a0a0a"]}
    [Tracking "gha-orchard-a-3d3d3d3d" 2 0 1 0; Idle; Releasing].

Lemma slots_accounted_witness :
  run busy (start 4 {["gha-orchard-b-1b1b1b1b"]} 3) = Some busy_end ∧
  InUse (sem busy_end) = Z.of_nat (size (live busy_end) + total_held (threads busy_end)) ∧
  total_held (threads busy_end) = 1.
Proof.
  assert (run busy (start 4 {["gha-orchard-b-1b1b1b1b"]} 3) = Some busy_end) as Hrun
    by (vm_compute; reflexivity).
  split; [exact Hrun|]. split; [|by vm_compute].
  apply (slots_accounted 4 {["gha-orchard-b-1b1b1b1b"]} 3 busy busy_end).
  - unfold small. lia.
  - rewrite size_singleton. unfold small. lia.
  - by repeat constructor.
  - exact Hrun.
Defined.

(** Three slots are taken for two VMs; the sweep reaps one and counts the other. *)
Definition drifted : Shared :=
  mkShared (mkCapacity 3 4 []) {["gha-orchard-a-0a0a0a0a"; "gha-orchard-a-3d3d3d3d"]}
    {["gha-orchard-a-0a0a0a0a"; "gha-orchard-b-1b1b1b1b"; "gha-orchard-b-2c2c2c2c"]}
    [Idle; Idle].

(** It comes about like this: two VMs are lost, and a creation that was reported
    as failed took effect. *)
Example drifted_arises :
  run [Vanish "gha-orchard-b-1b1b1b1b"; Acquire 0 1; Create 0 "gha-orchard-a-3d3d3d3d" false;
       Vanish "gha-orchard-b-2c2c2c2c"; GiveBack 0; Appear "gha-orchard-a-3d3d3d3d"]
    (start 4 (tracked drifted) 2) = Some drifted.
Proof. vm_compute. reflexivity. Qed.

Definition healed : Shared :=
  mkShared (mkCapacity 1 4 []) {["gha-orchard-a-3d3d3d3d"]}
    {["gha-orchard-b-1b1b1b1b"; "gha-orchard-b-2c2c2c2c"]} [Idle; Idle].

Lemma quiet_sweep_heals_witness :
  run [Listing 1 ["gha-orchard-a-0a0a0a0a"; "gha-orchard-a-3d3d3d3d"];
       Process 1 Reap; Purge 1; Process 1 Count; Reconciling 1] drifted = Some healed ∧
  InUse (sem healed) = Z.of_nat (size (live healed)).
Proof.
  assert (run [Listing 1 ["gha-orchard-a-0a0a0a0a"; "gha-orchard-a-3d3d3d3d"];
    Process 1 Reap; Purge 1; Process 1 Count; Reconciling 1] drifted = Some healed) as Hrun
    by (vm_compute; reflexivity).
  split; [exact Hrun|].
  apply (quiet_sweep_heals 1 ["gha-orchard-a-0a0a0a0a"; "gha-orchard-a-3d3d3d3d"] drifted _
    [Process 1 Reap; Purge 1; Process 1 Count; Reconciling 1]).
  - done.
  - clear Hrun. intros [|[|t]] p Hne Hp; simpl in Hp; by simplify_eq.
  - clear Hrun. repeat constructor; set_solver.
  - vm_compute. reflexivity.
  - by repeat constructor.
  - exact Hrun.
  - done.
Defined.

Lemma reconcile_forgets_held_slots_witness :
  ∃ s, run (overlapping 1 ["gha-orchard-a-0a0a0a0a"] ["gha-orchard-b-1b1b1b1b"]) (start 1 ∅ 3)
       = Some s ∧
    threads s = replicate 3 Idle ∧
    InUse (sem s) = 1%Z ∧ Max (sem s) = 1%Z ∧ Z.of_nat (size (live s)) = (2 * 1)%Z.
Proof.
  apply reconcile_forgets_held_slots; [lia|unfold small; lia|done|done|].
  repeat constructor; set_solver.
Defined.
