(* ===== verification/StateView.v ===== *)
(** * The shared snapshot of Orchard ([bridge/stateview.go])

    [Snapshot] and its queries, and the [StateView] cache.  [Get] is cut where
    the mutex is released: [Get_enter], [refresh], [Get_finish] and, for a
    caller that joined somebody else's refresh, [Get_wake].  [Get] composes them
    for one caller; StateViewConc interleaves them. *)

From S2P Require Import Prelude GoBase Orchard VMNames Workers.

Definition DefaultStateViewTTL : Duration := (5 * Second)%Z.

(** ** Snapshots *)

Record Snapshot : Type := mkSnapshot {
  VMs : list VM;
  snap_Workers : list Worker;
  AllWorkers : list Worker;
  FetchedAt : Time;
  workersByName : gmap string Worker
}.

(** [for i := range live { idx[live[i].Name] = &live[i] }]. *)
Fixpoint index_by_name (idx : gmap string Worker) (live : list Worker)
    : gmap string Worker :=
  match live with
  | [] => idx
  | w :: live => index_by_name (<[w_Name w := w]> idx) live
  end.

Definition newSnapshot (vms : list VM) (workers : list Worker) (at_ : Time)
    (staleAfter : Duration) : Snapshot :=
  let live := LiveWorkers workers staleAfter at_ in
  {| VMs := vms;
     snap_Workers := live;
     AllWorkers := workers;
     FetchedAt := at_;
     workersByName := index_by_name ∅ live |}.

(** The test of the loop in [ManagedVMsForScaleSet]: the prefix of the scale
    set, then a remainder without a hyphen. *)
Definition belongs_to_scale_set (scaleSetName name : string) : bool :=
  let prefix := VMNamePrefixForScaleSet scaleSetName in
  HasPrefix name prefix && negb (ContainsByte (slice_from (len prefix) name) hyphen).

Definition ManagedVMsForScaleSet (s : Snapshot) (scaleSetName : string) : list VM :=
  filter (λ vm, belongs_to_scale_set scaleSetName (vm_Name vm) = true) (VMs s).

(** The test of the loop in [ManagedVMsMatchingLabels]. *)
Definition vm_matches_labels (s : Snapshot) (vmLabels : gmap string string) (vm : VM)
    : bool :=
  if negb (IsManagedVM (vm_Name vm)) then false
  else if decide (vm_Worker vm = EmptyString) then labelsSuperset (vm_Labels vm) vmLabels
  else match workersByName s !! vm_Worker vm with
       | Some w => workerMatchesLabels w vmLabels
       | None => false
       end.

Definition ManagedVMsMatchingLabels (s : Snapshot) (vmLabels : gmap string string)
    : list VM :=
  filter (λ vm, vm_matches_labels s vmLabels vm = true) (VMs s).

(** ** The cache *)

Record StateView : Type := mkStateView {
  ttl : Duration;
  staleAfter : Duration;
  snap : option Snapshot;
  refreshing : option nat;   (* the channel of the refresh in flight *)
  lastErr : option error
}.

Definition NewStateView (ttl staleAfter : Duration) : StateView :=
  {| ttl := if (ttl <=? 0)%Z then DefaultStateViewTTL else ttl;
     staleAfter := if (staleAfter <=? 0)%Z then DefaultWorkerStaleAfter else staleAfter;
     snap := None;
     refreshing := None;
     lastErr := None |}.

(** [s.snap != nil && time.Since(s.snap.FetchedAt) < s.ttl]. *)
Definition fresh_snap (now : Time) (s : StateView) : option Snapshot :=
  match snap s with
  | Some sn => if (Sub now (FetchedAt sn) <? ttl s)%Z then Some sn else None
  | None => None
  end.

Inductive entry : Type :=
  | Hit (sn : Snapshot)
  | Join (ch : nat)
  | Lead (lastSnap : option Snapshot).

(** The first critical section of [Get], on a channel [ch] it may create. *)
Definition Get_enter (now : Time) (ch : nat) (s : StateView) : entry * StateView :=
  match fresh_snap now s with
  | Some sn => (Hit sn, s)
  | None =>
      match refreshing s with
      | Some wait => (Join wait, s)
      | None => (Lead (snap s),
                 mkStateView (ttl s) (staleAfter s) (snap s) (Some ch) (lastErr s))
      end
  end.

(** The leader's second critical section. *)
Definition Get_finish (lastSnap : option Snapshot) (r : result Snapshot) (s : StateView)
    : (option Snapshot * option error) * StateView :=
  match r with
  | OK sn => ((Some sn, None),
              mkStateView (ttl s) (staleAfter s) (Some sn) None None)
  | Err e => ((lastSnap, Some e),
              mkStateView (ttl s) (staleAfter s) (snap s) None (Some e))
  end.

(** What a joined caller returns once the channel is closed. *)
Definition Get_wake (s : StateView) : option Snapshot * option error :=
  match snap s with
  | None => (None, Some (default (ErrorNew "orchard state refresh failed") (lastErr s)))
  | Some sn => (Some sn, lastErr s)
  end.

Definition Invalidate (s : StateView) : StateView :=
  mkStateView (ttl s) (staleAfter s) None (refreshing s) (lastErr s).

Section Sequential.
Context {W : Type} `{OrchardClient W} `{Clock W}.

Definition refresh (stale : Duration) : M W (result Snapshot) :=
  vms ← ListVMs;
  match vms with
  | Err e => mret (Err e)
  | OK vms =>
      workers ← ListWorkers;
      match workers with
      | Err e => mret (Err e)
      | OK workers =>
          now ← Now;
          mret (OK (newSnapshot vms workers now stale))
      end
  end.

(** [Get] by a single caller.  Joining a refresh that nobody is running would
    block for ever. *)
Definition Get : M (StateView * W) (option Snapshot * option error) :=
  s ← read fst;
  now ← (match snap s with
         | Some _ => zoom snd (λ w p, (p.1, w)) Now
         | None => mret 0%Z
         end);
  e ← state_fn (λ p : StateView * W,
        let r := Get_enter now 0 p.1 in (r.1, (r.2, p.2)));
  match e with
  | Hit sn => mret (Some sn, None)
  | Join _ => blocked
  | Lead lastSnap =>
      r ← zoom snd (λ w p, (p.1, w)) (refresh (staleAfter s));
      state_fn (λ p : StateView * W,
        let r := Get_finish lastSnap r p.1 in (r.1, (r.2, p.2)))
  end.
End Sequential.

(** ** Lemmas *)

Lemma index_by_name_notin idx live n :
  n ∉ w_Name <$> live → index_by_name idx live !! n = idx !! n.
Proof.
  revert idx. induction live as [|w live IH]; intros idx; [done|].
  rewrite fmap_cons, not_elem_of_cons. intros [Hne Hnot]. simpl.
  rewrite IH by done. by rewrite lookup_insert_ne.
Qed.

Lemma index_by_name_in idx live w :
  NoDup (w_Name <$> live) → w ∈ live → index_by_name idx live !! w_Name w = Some w.
Proof.
  revert idx. induction live as [|v live IH]; intros idx; [by intros _ ?%elem_of_nil|].
  rewrite fmap_cons, NoDup_cons, elem_of_cons. intros [Hnot Hnd] [->|Hin]; simpl.
  - rewrite index_by_name_notin by done. apply lookup_insert_eq.
  - by apply IH.
Qed.

Lemma index_by_name_Some idx live n w :
  index_by_name idx live !! n = Some w →
  idx !! n = Some w ∨ w ∈ live ∧ w_Name w = n.
Proof.
  revert idx. induction live as [|v live IH]; intros idx; [by left|]. simpl.
  intros [H|[Hin Hn]]%IH.
  - apply lookup_insert_Some in H as [[Hn <-]|[_ H]]; [|by left].
    right. split; [by left|done].
  - right. split; [by right|done].
Qed.

Lemma newSnapshot_live vms workers at_ stale w :
  w ∈ snap_Workers (newSnapshot vms workers at_ stale) ↔
  w ∈ workers ∧ WorkerLive w stale at_ = true.
Proof. apply elem_of_LiveWorkers. Qed.

(** Recognising a name of the form prefix and hyphen-free suffix. *)
Lemma belongs_to_scale_set_spec ss name :
  belongs_to_scale_set ss name = true ↔
  ∃ suffix, name = VMNamePrefixForScaleSet ss +:+ suffix ∧
            all_bytes (λ c, c ≠ hyphen) suffix.
Proof.
  unfold belongs_to_scale_set. rewrite andb_true_iff, HasPrefix_spec, negb_true_iff.
  split.
  - intros [[t ->] Hc]. rewrite slice_from_app in Hc. exists t.
    split; [done|]. by apply ContainsByte_false.
  - intros (t & -> & Ht). rewrite slice_from_app.
    split; [by exists t|]. by apply ContainsByte_false.
Qed.

Lemma belongs_to_other ss ss' suffix :
  all_bytes (λ c, c ≠ hyphen) suffix →
  belongs_to_scale_set ss (VMNamePrefixForScaleSet ss' +:+ suffix) = true ↔
  sanitize ss = sanitize ss'.
Proof.
  intros Hs. rewrite belongs_to_scale_set_spec. unfold VMNamePrefixForScaleSet. split.
  - intros (t & Heq & Ht). rewrite !app_assoc_str in Heq. apply app_inj_l in Heq.
    change ("-" +:+ suffix) with (String hyphen suffix) in Heq.
    change ("-" +:+ t) with (String hyphen t) in Heq.
    by apply (last_byte_split hyphen _ suffix _ t) in Heq as [-> _].
  - intros ->. by exists suffix.
Qed.

(** [Get] changes neither the configuration of the cache nor, when it returns,
    leaves a refresh in flight. *)
Definition view_idle (s : StateView) : Prop := refreshing s = None.

Lemma Get_enter_idle now ch s :
  view_idle s →
  (∃ sn, Get_enter now ch s = (Hit sn, s) ∧ fresh_snap now s = Some sn) ∨
  (Get_enter now ch s = (Lead (snap s),
     mkStateView (ttl s) (staleAfter s) (snap s) (Some ch) (lastErr s))
   ∧ fresh_snap now s = None).
Proof.
  intros Hidle. unfold Get_enter.
  destruct (fresh_snap now s) as [sn|]; [by left; exists sn|]. right.
  by rewrite Hidle.
Qed.

(** The world in which [Get] decides: the clock has been read if there is a
    snapshot to judge by it. *)
Definition clock_read {W} `{Clock W} (s : StateView) (w : W) : W :=
  match snap s with Some _ => (Now w).2 | None => w end.

(** [Get] hands out a snapshot without an error only if it is young, or has just
    been fetched. *)
Lemma Get_without_error {W} `{OrchardClient W} `{Clock W} s (w : W) sn :
  view_idle s → (Get (s, w)).1 = Ret (Some sn, None) →
  (∃ now, (Now w).1 = Ret now ∧ snap s = Some sn ∧ (Sub now (FetchedAt sn) < ttl s)%Z) ∨
  (refresh (staleAfter s) (clock_read s w)).1 = Ret (OK sn).
Proof.
  intros Hidle HG. set (P := _ ∨ _).
  assert (wp Get (λ o _, o = Ret (Some sn, None) → P) (s, w)) as Hwp; [|by apply Hwp].
  clear HG. unfold Get. wp_go.
  assert (∀ now w1, fresh_snap now s = None → w1 = clock_read s w →
    wp (e ← state_fn (λ p : StateView * W, let r := Get_enter now 0 p.1 in (r.1, (r.2, p.2)));
        match e with
        | Hit sn => mret (Some sn, None)
        | Join _ => blocked
        | Lead lastSnap =>
            r ← zoom snd (λ w p, (p.1, w)) (refresh (staleAfter s));
            state_fn (λ p : StateView * W,
              let r := Get_finish lastSnap r p.1 in (r.1, (r.2, p.2)))
        end) (λ o _, o = Ret (Some sn, None) → P) (s, w1)) as Hlead.
  { intros now w1 Hold ->. wp_go.
    destruct (Get_enter_idle now 0 s Hidle) as [(sn' & _ & Hf)|[-> _]]; [congruence|]. simpl. wp_go.
    eapply wp_mono; [apply wp_run|]. intros [[sn'|e]| |] w2 Hr; simpl; [| |done..]; wp_go; [|done].
    intros [= ->]. right. by rewrite Hr. }
  unfold clock_read in Hlead. destruct (snap s) as [sn0|] eqn:Hs.
  2:{ wp_go. apply (Hlead 0%Z w); [|done]. unfold fresh_snap. rewrite Hs. done. }
  wp_go. eapply wp_mono; [apply wp_run|].
  intros [now| |] w1 Hnow; simpl; [|done..].
  destruct (fresh_snap now s) as [sn'|] eqn:Hf; [|apply (Hlead now); [done|by rewrite Hnow]].
  wp_go. destruct (Get_enter_idle now 0 s Hidle) as [(sn2 & -> & Hf2)|[_ Hno]]; [|congruence].
  simpl. wp_go. intros [= ->]. left. exists now. split; [by rewrite Hnow|].
  unfold fresh_snap in Hf2. rewrite Hs in Hf2.
  destruct (Z.ltb_spec (Sub now (FetchedAt sn0)) (ttl s)); [|done]. by injection Hf2 as <-.
Qed.

(** ** Properties *)

(** C35: a VM made for a scale set whose sanitized name has at most 42 bytes, so
    that the VM's name is not cut, is attributed to exactly the scale sets that
    sanitize to the same name: never to one whose name is only a prefix of it. *)
Theorem attribution_exact (sn : Snapshot) (vm : VM) (owner other short : string) :
  len (sanitize owner) ≤ 42 → len short = 8 → all_bytes hex_digit short →
  vm ∈ VMs sn → vm_Name vm = vm_name_of owner short →
  vm ∈ ManagedVMsForScaleSet sn other ↔ sanitize other = sanitize owner.
Proof.
  intros Hlen Hshort Hhex Hvm Hname. unfold ManagedVMsForScaleSet.
  rewrite list_elem_of_filter, Hname, vm_name_uncut by done.
  rewrite belongs_to_other; [tauto|].
  eapply all_bytes_mono; [apply hex_digit_not_hyphen|done].
Qed.

(** The VMs counted against a set of labels are the managed ones that
    run on a live worker with those labels, or that are not placed yet and ask
    for them; a VM on a worker that is gone, or that lacks the labels, is not
    counted, whatever its own labels say. *)
Lemma ManagedVMsMatchingLabels_spec (vms : list VM) (workers : list Worker)
    (at_ : Time) (stale : Duration) (labels : gmap string string) (vm : VM) :
  let sn := newSnapshot vms workers at_ stale in
  NoDup (w_Name <$> snap_Workers sn) →
  vm ∈ ManagedVMsMatchingLabels sn labels ↔
  vm ∈ vms ∧ IsManagedVM (vm_Name vm) = true ∧
  (vm_Worker vm = EmptyString ∧ labels_match (vm_Labels vm) labels = true ∨
   vm_Worker vm ≠ EmptyString ∧
   ∃ w, w ∈ workers ∧ WorkerLive w stale at_ = true ∧ w_Name w = vm_Worker vm ∧
        labels_match (w_Labels w) labels = true).
Proof.
  intros sn Hnd. unfold ManagedVMsMatchingLabels, vm_matches_labels.
  rewrite list_elem_of_filter. simpl.
  destruct (IsManagedVM (vm_Name vm)) eqn:Hm; simpl; [|naive_solver].
  case_decide as Hw.
  { unfold labelsSuperset. naive_solver. }
  destruct (index_by_name ∅ (LiveWorkers workers stale at_) !! vm_Worker vm)
    as [w|] eqn:Hi.
  - assert (w ∈ LiveWorkers workers stale at_ ∧ w_Name w = vm_Worker vm) as [Hin Hn].
    { by apply index_by_name_Some in Hi as [?|?]. }
    pose proof (proj1 (elem_of_LiveWorkers _ _ _ _) Hin) as [Hws Hlive].
    split.
    + intros [Hl Hvm]. split; [done|]. split; [done|]. right. split; [done|].
      by exists w.
    + intros (Hvm & _ & [[? _]|(_ & w' & Hin' & Hlive' & Hn' & Hl)]); [done|].
      assert (w' ∈ snap_Workers sn) as Hw' by by apply elem_of_LiveWorkers.
      pose proof (index_by_name_in ∅ _ w' Hnd Hw') as Hi'.
      rewrite Hn' in Hi'. assert (w' = w) as -> by (simpl in Hi'; congruence).
      done.
  - split; [by intros [? _]|].
    intros (_ & _ & [[? _]|(_ & w' & Hin' & Hlive' & Hn' & _)]); [done|].
    assert (w' ∈ snap_Workers sn) as Hw' by by apply elem_of_LiveWorkers.
    pose proof (index_by_name_in ∅ _ w' Hnd Hw') as Hi'.
    rewrite Hn' in Hi'. simpl in Hi'. congruence.
Qed.

(** ** Witnesses *)

Definition sample_vm (name worker : string) : VM :=
  {| vm_Name := name; vm_Image := "img"; vm_CPU := 4%Z; vm_Memory := 8192%Z;
     vm_Nested := false; vm_DiskSize := 0%Z; vm_Status := "running";
     vm_StatusMessage := EmptyString; vm_Worker := worker; vm_StartupScript := None;
     vm_Labels := {["class" := "large"]}; vm_CreatedAt := 0%Z |}.

Lemma attribution_exact_witness :
  let vm := sample_vm "gha-orchard-macos-large-0a1b2c3d" "mini-1" in
  let sn := newSnapshot [vm] [] 0%Z 0%Z in
  (vm ∈ ManagedVMsForScaleSet sn "macos-large") ∧ vm ∉ ManagedVMsForScaleSet sn "macos".
Proof.
  intros vm sn.
  assert (∀ other, vm ∈ ManagedVMsForScaleSet sn other
            ↔ sanitize other = sanitize "macos-large") as Hattr.
  { intros other. apply (attribution_exact sn vm "macos-large" other "0a1b2c3d").
    - vm_compute. lia.
    - reflexivity.
    - unfold hex_digit. cbn. lia.
    - by left.
    - by vm_compute. }
  rewrite !Hattr. by vm_compute.
Defined.

Definition sample_worker : Worker :=
  {| w_Name := "mini-1"; w_Labels := {["class" := "large"]}; w_Resources := ∅;
     w_SchedulingPaused := false; w_LastSeen := 0%Z |}.

Lemma ManagedVMsMatchingLabels_spec_witness :
  let on := sample_vm "gha-orchard-a-0a1b2c3d" in
  let sn := newSnapshot [on "mini-1"; on "gone"; on EmptyString] [sample_worker] 9%Z 0%Z in
  (on "mini-1" ∈ ManagedVMsMatchingLabels sn {["class" := "large"]})
  ∧ on "gone" ∉ ManagedVMsMatchingLabels sn {["class" := "large"]}.
Proof.
  intros on sn. subst sn.
  rewrite !ManagedVMsMatchingLabels_spec by (vm_compute; repeat constructor; set_solver).
  split.
  - split; [by left|]. split; [by vm_compute|]. right. split; [done|].
    exists sample_worker. split; [by left|]. by vm_compute.
  - intros (_ & _ & [[? _]|(_ & w & Hw & _ & Hn & _)]); [done|].
    apply list_elem_of_singleton in Hw as ->. done.
Defined.
