(* ===== verification/StateViewConc.v ===== *)
(** * Concurrent callers of the state cache ([bridge/stateview.go])

    [Get] releases the mutex while it reads the controller, and while it waits
    for somebody else's refresh.  [exec] interleaves the critical sections of any
    number of callers ([Get_enter], [Get_finish], [Get_wake] of StateView), the
    reads of the controller, [Invalidate], and changes of the fleet.  A caller is
    a thread, named by a number; a channel is a number too, and closing it is
    putting it into [closed]. *)

From S2P Require Import Prelude GoBase Orchard VMNames Workers StateView.

(** Where a caller stands: waiting for a channel; leading a refresh, which has the
    two lists still to ask for, or only the workers, or is answered; or returned. *)
Inductive pc : Type :=
  | Waiting (ch : nat)
  | Leading (ch : nat) (last : option Snapshot)
  | Listed (ch : nat) (last : option Snapshot) (vms : list VM)
  | Answered (ch : nat) (last : option Snapshot) (r : result Snapshot)
  | Returned (r : option Snapshot * option error).

Record Shared : Type := mkShared {
  cache : StateView;
  closed : gset nat;
  next_channel : nat;
  threads : gmap nat pc;
  time_now : Time;
  fleet_vms : list VM;
  fleet_workers : list Worker
}.

Inductive event : Type :=
  | Enter (t : nat)                  (* the first critical section of [Get] *)
  (* the leader's [refresh]: the answer to [ListVMs], and that to [ListWorkers] *)
  | FetchVMs (t : nat) (ok : bool)
  | FetchWorkers (t : nat) (ok : bool)
  | Finish (t : nat)                 (* the leader's second critical section *)
  | Wake (t : nat)                   (* [<-wait], and the section after it *)
  | Cancel (t : nat)                 (* [<-ctx.Done()] *)
  | Invalidating
  | Mutate (vms : list VM)           (* the fleet changes *)
  | Tick (d : Duration).

Definition set_thread (t : nat) (p : pc) (s : Shared) : Shared :=
  mkShared (cache s) (closed s) (next_channel s) (<[t := p]> (threads s)) (time_now s)
    (fleet_vms s) (fleet_workers s).

Definition set_cache (c : StateView) (s : Shared) : Shared :=
  mkShared c (closed s) (next_channel s) (threads s) (time_now s) (fleet_vms s)
    (fleet_workers s).

Definition close (ch : nat) (s : Shared) : Shared :=
  mkShared (cache s) ({[ch]} ∪ closed s) (next_channel s) (threads s) (time_now s)
    (fleet_vms s) (fleet_workers s).

Definition used_channel (s : Shared) : Shared :=
  mkShared (cache s) (closed s) (S (next_channel s)) (threads s) (time_now s)
    (fleet_vms s) (fleet_workers s).

Definition context_canceled : error := ErrorNew "context canceled".

#[local] Arguments Sub : simpl never.

(** One event, if it can happen. *)
Definition exec (ev : event) (s : Shared) : option Shared :=
  match ev with
  | Enter t =>
      match threads s !! t with
      | Some _ => None
      | None =>
          let '(e, c) := Get_enter (time_now s) (next_channel s) (cache s) in
          Some match e with
               | Hit sn => set_thread t (Returned (Some sn, None)) s
               | Join ch => set_thread t (Waiting ch) s
               | Lead last =>
                   used_channel (set_cache c (set_thread t (Leading (next_channel s) last) s))
               end
      end
  | FetchVMs t ok =>
      match threads s !! t with
      | Some (Leading ch last) =>
          Some (set_thread t (if ok : bool then Listed ch last (fleet_vms s)
                              else Answered ch last (Err context_canceled)) s)
      | _ => None
      end
  | FetchWorkers t ok =>
      match threads s !! t with
      | Some (Listed ch last vms) =>
          let r := if ok : bool
                   then OK (newSnapshot vms (fleet_workers s) (time_now s)
                              (staleAfter (cache s)))
                   else Err context_canceled in
          Some (set_thread t (Answered ch last r) s)
      | _ => None
      end
  | Finish t =>
      match threads s !! t with
      | Some (Answered ch last r) =>
          let '(out, c) := Get_finish last r (cache s) in
          Some (close ch (set_cache c (set_thread t (Returned out) s)))
      | _ => None
      end
  | Wake t =>
      match threads s !! t with
      | Some (Waiting ch) =>
          if decide (ch ∈ closed s)
          then Some (set_thread t (Returned (Get_wake (cache s))) s) else None
      | _ => None
      end
  | Cancel t =>
      match threads s !! t with
      | Some (Waiting ch) => Some (set_thread t (Returned (None, Some context_canceled)) s)
      | _ => None
      end
  | Invalidating => Some (set_cache (Invalidate (cache s)) s)
  | Mutate vms =>
      Some (mkShared (cache s) (closed s) (next_channel s) (threads s) (time_now s) vms
              (fleet_workers s))
  | Tick d =>
      if (0 <=? d)%Z
      then Some (mkShared (cache s) (closed s) (next_channel s) (threads s)
                   (time_now s + d)%Z (fleet_vms s) (fleet_workers s))
      else None
  end.

Definition step (s s' : Shared) : Prop := ∃ ev, exec ev s = Some s'.

(** A run of given events. *)
Fixpoint run (evs : list event) (s : Shared) : option Shared :=
  match evs with
  | [] => Some s
  | ev :: evs => match exec ev s with Some s' => run evs s' | None => None end
  end.

Definition start (ttl stale : Duration) (now : Time) (vms : list VM) (ws : list Worker)
    : Shared :=
  mkShared (NewStateView ttl stale) ∅ 0 ∅ now vms ws.

(** ** The invariant *)

(** The channel a leader is going to close. *)
Definition leads (p : pc) (ch : nat) : Prop :=
  match p with
  | Leading ch' _ | Listed ch' _ _ | Answered ch' _ _ => ch' = ch
  | _ => False
  end.

Record cache_inv (s : Shared) : Prop := {
  (* the refresh in flight is led by one thread, whose channel is open *)
  inv_refreshing : ∀ ch, refreshing (cache s) = Some ch →
    ch ∉ closed s ∧ ∃ t p, threads s !! t = Some p ∧ leads p ch;
  (* whoever leads, leads the refresh in flight *)
  inv_leader : ∀ t p ch, threads s !! t = Some p → leads p ch →
    refreshing (cache s) = Some ch;
  (* there is one leader *)
  inv_unique : ∀ t t' p p' ch ch', threads s !! t = Some p → threads s !! t' = Some p' →
    leads p ch → leads p' ch' → t = t';
  (* nobody waits for a channel that nobody will close *)
  inv_waiting : ∀ t ch, threads s !! t = Some (Waiting ch) →
    ch ∈ closed s ∨ refreshing (cache s) = Some ch;
  (* channels are new when they are made *)
  inv_fresh : (∀ ch, ch ∈ closed s → ch < next_channel s) ∧
    (∀ ch, refreshing (cache s) = Some ch → ch < next_channel s)
}.

Lemma cache_inv_start ttl stale now vms ws : cache_inv (start ttl stale now vms ws).
Proof. constructor; simpl; try done; intros *; by rewrite ?lookup_empty. Qed.

(** A thread that is no leader moves on to a place where it leads nothing and
    waits for nothing, or for the refresh in flight. *)
Lemma cache_inv_set_thread t p s :
  cache_inv s →
  (∀ q ch, threads s !! t = Some q → ¬ leads q ch) → (∀ ch, ¬ leads p ch) →
  (∀ ch, p = Waiting ch → refreshing (cache s) = Some ch) →
  cache_inv (set_thread t p s).
Proof.
  intros [H1 H2 H3 H4 H5] Hold Hnew Hwait. constructor; simpl.
  - intros ch Hch. destruct (H1 ch Hch) as (Hc & t' & q & Ht' & Hl). split; [done|].
    exists t', q. split; [|done]. rewrite lookup_insert_ne; [done|].
    intros ->. by eapply Hold.
  - intros t' q ch Ht' Hl. apply lookup_insert_Some in Ht' as [[_ <-]|[_ Ht']];
      [by destruct (Hnew ch)|by eapply H2].
  - intros t1 t2 q1 q2 ch1 ch2 Ht1 Ht2 Hl1 Hl2.
    apply lookup_insert_Some in Ht1 as [[_ <-]|[_ Ht1]]; [by destruct (Hnew ch1)|].
    apply lookup_insert_Some in Ht2 as [[_ <-]|[_ Ht2]]; [by destruct (Hnew ch2)|].
    by eapply H3.
  - intros t' ch Ht'. apply lookup_insert_Some in Ht' as [[_ Hp]|[_ Ht']];
      [right; by apply Hwait|by eapply H4].
  - done.
Qed.

(** The leader has an answer: it leads on. *)
Lemma cache_inv_answered t ch p p' s :
  cache_inv s → threads s !! t = Some p → leads p ch →
  (∀ ch', leads p' ch' ↔ ch' = ch) → (∀ ch', p' ≠ Waiting ch') →
  cache_inv (set_thread t p' s).
Proof.
  intros [H1 H2 H3 H4 H5] Ht Hl Hl' Hw. constructor; simpl.
  - intros ch' Hch. destruct (H1 ch' Hch) as (Hc & _). split; [done|].
    exists t, p'. split; [apply lookup_insert_eq|].
    pose proof (H2 t _ ch Ht Hl). apply Hl'. congruence.
  - intros t' q ch' Ht' Hq. apply lookup_insert_Some in Ht' as [[<- <-]|[_ Ht']];
      [|by eapply H2]. apply Hl' in Hq as ->. by eapply H2.
  - intros t1 t2 q1 q2 ch1 ch2 Ht1 Ht2 Hl1 Hl2.
    apply lookup_insert_Some in Ht1 as [[<- <-]|[_ Ht1]];
      apply lookup_insert_Some in Ht2 as [[<- <-]|[_ Ht2]]; try done.
    + by eapply (H3 t t2).
    + by eapply (H3 t1 t).
    + by eapply (H3 t1 t2).
  - intros t' ch' Ht'. apply lookup_insert_Some in Ht' as [[_ Hp]|[_ Ht']];
      [by destruct (Hw ch')|by eapply H4].
  - done.
Qed.

(** A new leader, when no refresh is in flight. *)
Lemma cache_inv_lead t s :
  cache_inv s → refreshing (cache s) = None → threads s !! t = None →
  cache_inv (used_channel (set_cache
    (mkStateView (ttl (cache s)) (staleAfter (cache s)) (snap (cache s))
       (Some (next_channel s)) (lastErr (cache s)))
    (set_thread t (Leading (next_channel s) (snap (cache s))) s))).
Proof.
  intros [H1 H2 H3 H4 H5] Hno Ht.
  assert (∀ t' q ch, threads s !! t' = Some q → ¬ leads q ch) as Hnobody.
  { intros t' q ch Hq Hl. pose proof (H2 t' q ch Hq Hl). congruence. }
  constructor; simpl.
  - intros ch [= <-]. split.
    + intros Hc. apply H5 in Hc. lia.
    + exists t, (Leading (next_channel s) (snap (cache s))).
      split; [apply lookup_insert_eq|done].
  - intros t' q ch Ht' Hl. apply lookup_insert_Some in Ht' as [[_ <-]|[_ Ht']].
    + simpl in Hl. by subst.
    + by destruct (Hnobody t' q ch).
  - intros t1 t2 q1 q2 ch1 ch2 Ht1 Ht2 Hl1 Hl2.
    apply lookup_insert_Some in Ht1 as [[<- _]|[_ Ht1]]; [|by destruct (Hnobody t1 q1 ch1)].
    apply lookup_insert_Some in Ht2 as [[<- _]|[_ Ht2]]; [|by destruct (Hnobody t2 q2 ch2)].
    done.
  - intros t' ch Ht'. apply lookup_insert_Some in Ht' as [[_ Hp]|[_ Ht']]; [done|].
    destruct (H4 t' ch Ht') as [Hc|Hr]; [by left|congruence].
  - destruct H5 as [H5 _]. split; [intros ch Hc; apply H5 in Hc; lia|].
    intros ch [= <-]. lia.
Qed.

(** The leader finishes: its channel is closed. *)
Lemma cache_inv_finish t ch last r out c s :
  cache_inv s → threads s !! t = Some (Answered ch last r) → refreshing c = None →
  cache_inv (close ch (set_cache c (set_thread t (Returned out) s))).
Proof.
  intros [H1 H2 H3 H4 H5] Ht Hc.
  pose proof (H2 t _ ch Ht eq_refl) as Hrefr.
  assert (∀ t' q ch', t ≠ t' → threads s !! t' = Some q → ¬ leads q ch') as Hnobody.
  { intros t' q ch' Hne Hq Hl. apply Hne. by eapply (H3 t t' _ q ch ch'). }
  constructor; simpl.
  - intros ch' Hch. congruence.
  - intros t' q ch' Ht' Hl. apply lookup_insert_Some in Ht' as [[_ <-]|[Hne Ht']];
      [done|by destruct (Hnobody t' q ch')].
  - intros t1 t2 q1 q2 ch1 ch2 Ht1 Ht2 Hl1 Hl2.
    apply lookup_insert_Some in Ht1 as [[<- <-]|[? Ht1]]; [done|].
    by destruct (Hnobody t1 q1 ch1).
  - intros t' ch' Ht'. apply lookup_insert_Some in Ht' as [[_ Hp]|[_ Ht']]; [done|].
    left. destruct (H4 t' ch' Ht') as [?|Hr]; [set_solver|]. rewrite Hrefr in Hr.
    injection Hr as ->. set_solver.
  - destruct H5 as [H5a H5b]. split; [|intros ch' ?; congruence].
    intros ch' [->%elem_of_singleton|Hin]%elem_of_union; [by apply H5b|by apply H5a].
Qed.

(** A caller that neither leads nor waits any more. *)
Lemma cache_inv_return t r s :
  cache_inv s → (∀ q ch, threads s !! t = Some q → ¬ leads q ch) →
  cache_inv (set_thread t (Returned r) s).
Proof. intros Hinv Hold. apply cache_inv_set_thread; [done|done|by intros ch []|done]. Qed.

Lemma cache_inv_step s s' : cache_inv s → step s s' → cache_inv s'.
Proof.
  intros Hinv [ev Hev]. destruct ev as [t|t ok|t ok|t|t|t| |vms|d]; simpl in Hev.
  - destruct (threads s !! t) eqn:Ht; [done|]. unfold Get_enter in Hev.
    destruct (fresh_snap (time_now s) (cache s)) as [sn|].
    { simplify_eq. apply cache_inv_return; [done|]. intros q ch Hq. congruence. }
    destruct (refreshing (cache s)) as [w|] eqn:Hr; simplify_eq.
    + apply cache_inv_set_thread; [done|intros q ch Hq; congruence|by intros ch []|].
      by intros ch [= <-].
    + by apply cache_inv_lead.
  - destruct (threads s !! t) as [[]|] eqn:Ht; simplify_eq.
    by eapply cache_inv_answered; [done|exact Ht|done|destruct ok; simpl; split; congruence|
      destruct ok].
  - destruct (threads s !! t) as [[]|] eqn:Ht; simplify_eq.
    by eapply cache_inv_answered; [done|exact Ht|done|simpl; split; congruence|].
  - destruct (threads s !! t) as [[?|? ?|? ? ?|ch0 last0 r0|?]|] eqn:Ht; try done.
    destruct (Get_finish last0 r0 (cache s)) as [out c] eqn:Hf. simplify_eq.
    eapply cache_inv_finish; [exact Hinv|exact Ht|]. destruct r0; simpl in Hf; by simplify_eq.
  - destruct (threads s !! t) as [[]|] eqn:Ht; try done. case_decide; simplify_eq.
    apply cache_inv_return; [done|]. intros q c Hq. rewrite Ht in Hq.
    injection Hq as <-. by intros [].
  - destruct (threads s !! t) as [[]|] eqn:Ht; simplify_eq.
    apply cache_inv_return; [done|]. intros q c Hq. rewrite Ht in Hq.
    injection Hq as <-. by intros [].
  - simplify_eq. by destruct Hinv as [H1 H2 H3 H4 H5]; constructor.
  - simplify_eq. by destruct Hinv as [H1 H2 H3 H4 H5]; constructor.
  - destruct (0 <=? d)%Z; simplify_eq. by destruct Hinv as [H1 H2 H3 H4 H5]; constructor.
Qed.

Lemma cache_inv_reachable ttl stale now vms ws s :
  rtc step (start ttl stale now vms ws) s → cache_inv s.
Proof.
  intros Hr. eapply (rtc_invariant step cache_inv); [exact Hr| |].
  - apply cache_inv_start.
  - apply cache_inv_step.
Qed.

(** ** Properties *)

(** C25: however callers, invalidations and changes of the fleet interleave,
    at most one refresh reads the controller at a time: two threads in the
    middle of a refresh are the same thread.  A thread leads the refresh that the
    cache has in flight, and the refresh in flight has a thread that leads it and
    will close its channel, which is still open. *)
Theorem single_flight ttl stale now vms ws s :
  rtc step (start ttl stale now vms ws) s →
  (∀ t t' p p' ch ch',
    threads s !! t = Some p → threads s !! t' = Some p' → leads p ch → leads p' ch' →
    t = t' ∧ refreshing (cache s) = Some ch) ∧
  (∀ ch, refreshing (cache s) = Some ch →
    ch ∉ closed s ∧ ∃ t p, threads s !! t = Some p ∧ leads p ch).
Proof.
  intros Hr. apply cache_inv_reachable in Hr. split; [|exact (inv_refreshing s Hr)].
  intros t t' p p' ch ch' Ht Ht' Hl Hl'.
  split; [exact (inv_unique s Hr t t' p p' ch ch' Ht Ht' Hl Hl')|].
  exact (inv_leader s Hr t p ch Ht Hl).
Qed.

Lemma run_reachable evs s s' : run evs s = Some s' → rtc step s s'.
Proof.
  revert s. induction evs as [|ev evs IH]; intros s; simpl; [by intros [= ->]|].
  destruct (exec ev s) as [s1|] eqn:Hev; [|done]. intros Hrun.
  eapply rtc_l; [by exists ev|by apply IH].
Qed.

(** C28: no caller is left waiting: whatever state is reached, a caller that
    waits for a refresh has a run to its return, in which only the refresh it
    waits for is answered and finished and the caller wakes; nothing else has to
    happen, and no timeout or cancellation. *)
Theorem waiter_returns ttl stale now vms ws s t ch :
  rtc step (start ttl stale now vms ws) s → threads s !! t = Some (Waiting ch) →
  ∃ evs s' r, Forall (λ ev, match ev with
                            | FetchVMs t' _ | FetchWorkers t' _ | Finish t' => t' ≠ t
                            | Wake t' => t' = t
                            | _ => False
                            end) evs
    ∧ run evs s = Some s' ∧ threads s' !! t = Some (Returned r).
Proof.
  intros Hr Ht. apply cache_inv_reachable in Hr.
  destruct (decide (ch ∈ closed s)) as [Hc|Hc].
  { eexists [Wake t], _, _. split; [by repeat constructor|].
    simpl. rewrite Ht, decide_True by done.
    split; [done|]. simpl. apply lookup_insert_eq. }
  destruct (inv_waiting s Hr t ch Ht) as [?|Hrefr]; [done|].
  destruct (inv_refreshing s Hr ch Hrefr) as (_ & t' & p & Ht' & Hl).
  assert (t' ≠ t) as Hne by (intros ->; rewrite Ht in Ht'; injection Ht' as <-; exact Hl).
  assert (∀ s1 last0 r0, threads s1 !! t = Some (Waiting ch) →
    threads s1 !! t' = Some (Answered ch last0 r0) →
    ∃ s2 out, run [Finish t'; Wake t] s1 = Some s2 ∧ threads s2 !! t = Some (Returned out))
    as Hend.
  { intros s1 last0 r0 Hw1 Ha1. cbn [run exec]. rewrite Ha1.
    destruct (Get_finish last0 r0 (cache s1)) as [out c]. simpl.
    rewrite lookup_insert_ne, Hw1 by done. rewrite decide_True by set_solver.
    eexists _, _. split; [done|]. simpl. apply lookup_insert_eq. }
  assert (∀ s1 last0 vms0, threads s1 !! t = Some (Waiting ch) →
    threads s1 !! t' = Some (Listed ch last0 vms0) →
    ∃ s2 out, run [FetchWorkers t' true; Finish t'; Wake t] s1 = Some s2 ∧
      threads s2 !! t = Some (Returned out)) as Hlast.
  { intros s1 last0 vms0 Hw1 Ha1.
    set (r0 := OK (newSnapshot vms0 (fleet_workers s1) (time_now s1) (staleAfter (cache s1)))).
    destruct (Hend (set_thread t' (Answered ch last0 r0) s1) last0 r0)
      as (s2 & out & Hrun & Hout);
      [simpl; by rewrite lookup_insert_ne|apply lookup_insert_eq|].
    exists s2, out. split; [|done]. cbn [run exec] in *. by rewrite Ha1. }
  destruct p as [?|ch' last0|ch' last0 vms0|ch' last0 r0|?]; simpl in Hl; try done; subst ch'.
  - destruct (Hlast (set_thread t' (Listed ch last0 (fleet_vms s)) s) last0 (fleet_vms s))
      as (s2 & out & Hrun & Hout);
      [simpl; by rewrite lookup_insert_ne|apply lookup_insert_eq|].
    exists [FetchVMs t' true; FetchWorkers t' true; Finish t'; Wake t], s2, out.
    split; [by repeat constructor|]. split; [|done].
    cbn [run exec] in *. by rewrite Ht'.
  - destruct (Hlast s last0 vms0 Ht Ht') as (s2 & out & Hrun & Hout).
    exists [FetchWorkers t' true; Finish t'; Wake t], s2, out. split; [by repeat constructor|done].
  - destruct (Hend s last0 r0 Ht Ht') as (s2 & out & Hrun & Hout).
    exists [Finish t'; Wake t], s2, out. split; [by repeat constructor|done].
Qed.

(** A hit is the cached snapshot, younger than the time-to-live. *)
Lemma hits_are_fresh (now : Time) (ch : nat) (c : StateView) (sn : Snapshot) :
  (Get_enter now ch c).1 = Hit sn →
  snap c = Some sn ∧ (Sub now (FetchedAt sn) < ttl c)%Z ∧ (Get_enter now ch c).2 = c.
Proof.
  unfold Get_enter, fresh_snap. destruct (snap c) as [sn'|].
  - destruct (Z.ltb_spec (Sub now (FetchedAt sn')) (ttl c)) as [Hlt|Hge].
    + intros [= ->]. done.
    + by destruct (refreshing c).
  - by destruct (refreshing c).
Qed.

(** C38: [Invalidate] does not force the next [Get] to refresh when a refresh is
    in flight.  Whatever VM [vm] is created after the leader's list of VMs was
    made, and although the cache is invalidated after the creation, the leader
    then stores the older lists as fresh, and the next caller is handed a
    snapshot without [vm]. *)
Theorem invalidate_lost_in_flight (vm : VM) (vms : list VM) (ws : list Worker) (now : Time) :
  vm ∉ vms →
  ∃ s sn, run [Enter 1; FetchVMs 1 true; Mutate (vm :: vms); Invalidating; FetchWorkers 1 true;
             Finish 1; Enter 2]
            (start 0%Z 0%Z now vms ws) = Some s ∧
    fleet_vms s = vm :: vms ∧ threads s !! 2 = Some (Returned (Some sn, None)) ∧
    vm ∉ VMs sn.
Proof.
  intros Hvm. set (sn := newSnapshot vms ws now DefaultWorkerStaleAfter).
  assert (Sub now now = 0%Z) as Hsub.
  { unfold Sub. rewrite Z.sub_diag. done. }
  eexists _, sn. split.
  { cbn [run exec start threads]. rewrite lookup_empty. simpl.
    rewrite lookup_insert_eq. simpl. rewrite lookup_insert_eq. simpl.
    rewrite lookup_insert_eq. simpl.
    rewrite !lookup_insert_ne, lookup_empty by done. simpl.
    unfold Get_enter, fresh_snap. simpl. rewrite Hsub. simpl. done. }
  simpl. split; [done|]. split; [apply lookup_insert_eq|done].
Qed.

(** ** Witnesses *)

(** One caller leads a refresh, another has joined it. *)
Definition joined : Shared :=
  default (start 0%Z 0%Z 0%Z [] []) (run [Enter 1; Enter 2] (start 0%Z 0%Z 0%Z [] [])).

Lemma joined_reachable : rtc step (start 0%Z 0%Z 0%Z [] []) joined.
Proof. apply (run_reachable [Enter 1; Enter 2]). by vm_compute. Qed.

Lemma single_flight_witness :
  threads joined !! 1 = Some (Leading 0 None) ∧ refreshing (cache joined) = Some 0 ∧
  ∃ t p, threads joined !! t = Some p ∧ leads p 0.
Proof.
  assert (threads joined !! 1 = Some (Leading 0 None)) as H by by vm_compute.
  destruct (single_flight _ _ _ _ _ joined joined_reachable) as [Hone Hled].
  destruct (Hone 1 1 _ _ 0 0 H H eq_refl eq_refl) as [_ Hr].
  split; [exact H|]. split; [exact Hr|]. exact (proj2 (Hled 0 Hr)).
Defined.

Lemma waiter_returns_witness :
  threads joined !! 2 = Some (Waiting 0) ∧
  ∃ evs s' r, run evs joined = Some s' ∧ threads s' !! 2 = Some (Returned r).
Proof.
  assert (threads joined !! 2 = Some (Waiting 0)) as H by by vm_compute.
  split; [exact H|].
  destruct (waiter_returns _ _ _ _ _ joined 2 0 joined_reachable H)
    as (evs & s' & r & _ & Hrun & Hr).
  by exists evs, s', r.
Defined.

Lemma invalidate_lost_in_flight_witness :
  let vm := sample_vm "gha-orchard-a-0a1b2c3d" "mini-1" in
  ∃ s sn, run [Enter 1; FetchVMs 1 true; Mutate [vm]; Invalidating; FetchWorkers 1 true;
             Finish 1; Enter 2]
            (start 0%Z 0%Z 7%Z [] []) = Some s ∧
    fleet_vms s = [vm] ∧ threads s !! 2 = Some (Returned (Some sn, None)) ∧ vm ∉ VMs sn.
Proof. intros vm. apply invalidate_lost_in_flight, not_elem_of_nil. Defined.
