(* ===== verification/Config.v ===== *)
(** * Configuration ([config/config.go])

    The configuration's data, its defaults, the environment's overrides, its
    validation and the durations it yields.  Reading a file, reading the
    environment and parsing YAML are parameters. *)

From S2P Require Import Prelude GoBase Durations Orchard Workers.

(** ** Data *)

Record AutoSizeConfig : Type := mkAutoSizeConfig {
  Enabled : bool;
  ReserveCPU : Z;
  ReserveMemoryMiB : Z
}.

Record VMConfig : Type := mkVMConfig {
  cfg_Image : string;
  cfg_CPU : Z;
  cfg_Memory : Z;
  cfg_DockerPort : Z;
  cfg_DiskSize : Z;
  cfg_Labels : gmap string string;
  cfg_AutoSize : AutoSizeConfig
}.

Record ScaleSetConfig : Type := mkScaleSetConfig {
  ss_Name : string;
  ss_GitHubConfigURL : string;
  ss_Labels : list string;
  ss_RunnerGroup : string;
  ss_MaxRunners : Z;
  ss_VM : VMConfig
}.

Record OrchardConfig : Type := mkOrchardConfig {
  o_Address : string;
  o_Username : string;
  o_Password : string;
  o_Insecure : bool
}.

Record GitHubConfig : Type := mkGitHubConfig {
  gh_AppID : Z;
  gh_InstallationID : Z;
  gh_PrivateKeyPath : string;
  gh_PrivateKey : string;
  gh_Token : string
}.

Record HealthConfig : Type := mkHealthConfig { health_Port : Z }.

Record MetricsConfig : Type := mkMetricsConfig {
  metrics_Enabled : bool;
  metrics_Port : Z
}.

Record Config : Type := mkConfig {
  c_LogLevel : string;
  c_MaxVMs : Z;
  c_MaxVMAge : string;
  c_WorkerStaleAfter : string;
  c_WorkerPruneAfter : string;
  c_MaxPendingAge : string;
  c_Orchard : OrchardConfig;
  c_GitHub : GitHubConfig;
  c_ScaleSets : list ScaleSetConfig;
  c_Health : HealthConfig;
  c_Metrics : MetricsConfig
}.

Definition DefaultWorkerPruneAfter : Duration := Hour.

(** ** Defaults *)

(** [if s == "" { s = d }] and [if n == 0 { n = d }]. *)
Definition or_text (d s : string) : string := if decide (s = EmptyString) then d else s.
Definition or_num (d n : Z) : Z := if (n =? 0)%Z then d else n.

Definition applyDefaultsVM (vm : VMConfig) : VMConfig :=
  mkVMConfig (cfg_Image vm) (or_num 4 (cfg_CPU vm)) (or_num 8192 (cfg_Memory vm))
    (cfg_DockerPort vm) (cfg_DiskSize vm) (cfg_Labels vm) (cfg_AutoSize vm).

Definition applyDefaultsSet (ss : ScaleSetConfig) : ScaleSetConfig :=
  mkScaleSetConfig (ss_Name ss) (ss_GitHubConfigURL ss) (ss_Labels ss)
    (or_text "default" (ss_RunnerGroup ss)) (ss_MaxRunners ss) (applyDefaultsVM (ss_VM ss)).

Definition applyDefaults (c : Config) : Config :=
  let o := c_Orchard c in
  let m := c_Metrics c in
  mkConfig (or_text "info" (c_LogLevel c)) (c_MaxVMs c) (c_MaxVMAge c)
    (c_WorkerStaleAfter c) (c_WorkerPruneAfter c) (c_MaxPendingAge c)
    (mkOrchardConfig (o_Address o) (or_text "bootstrap-admin" (o_Username o))
       (o_Password o) (o_Insecure o))
    (c_GitHub c) (applyDefaultsSet <$> c_ScaleSets c)
    (mkHealthConfig (or_num 8080 (health_Port (c_Health c))))
    (mkMetricsConfig (metrics_Enabled m) (or_num 9090 (metrics_Port m))).

(** ** Overrides from the environment *)

(** [if v := os.Getenv(...); v != "" { ... }], for a text and for a number. *)
Definition override_text (v old : string) : string :=
  if decide (v = EmptyString) then old else v.
Definition override_num (v : string) (old : Z) : Z :=
  if decide (v = EmptyString) then old
  else match ParseInt v with Some id => id | None => old end.

Definition applyEnvOverrides (Getenv : string → string) (c : Config) : Config :=
  let o := c_Orchard c in
  let g := c_GitHub c in
  let env := λ key, Getenv ("ORCHARD_GH_BRIDGE_" +:+ key) in
  mkConfig (c_LogLevel c) (c_MaxVMs c) (c_MaxVMAge c)
    (c_WorkerStaleAfter c) (c_WorkerPruneAfter c) (c_MaxPendingAge c)
    (mkOrchardConfig (o_Address o) (o_Username o)
       (override_text (env "ORCHARD_PASSWORD") (o_Password o)) (o_Insecure o))
    (mkGitHubConfig
       (override_num (env "GITHUB_APP_ID") (gh_AppID g))
       (override_num (env "GITHUB_INSTALLATION_ID") (gh_InstallationID g))
       (gh_PrivateKeyPath g)
       (override_text (env "GITHUB_PRIVATE_KEY") (gh_PrivateKey g))
       (override_text (env "GITHUB_TOKEN") (gh_Token g)))
    (c_ScaleSets c) (c_Health c) (c_Metrics c).

(** ** Durations *)

(** [d, _ := time.ParseDuration(s)], where a failure gives 0. *)
Definition parsed_or_zero (s : string) : Duration :=
  match ParseDuration s with OK d => d | Err _ => 0%Z end.

Definition MaxVMAgeDuration (c : Config) : Duration :=
  if decide (c_MaxVMAge c = EmptyString) then 0%Z else parsed_or_zero (c_MaxVMAge c).

Definition WorkerStaleAfterDuration (c : Config) : Duration :=
  if decide (c_WorkerStaleAfter c = EmptyString) then 0%Z
  else parsed_or_zero (c_WorkerStaleAfter c).

Definition effectiveWorkerStaleAfter (c : Config) : Duration :=
  if decide (c_WorkerStaleAfter c = EmptyString) then DefaultWorkerStaleAfter
  else match ParseDuration (c_WorkerStaleAfter c) with OK d => d | Err _ => 0%Z end.

Definition WorkerPruneDefaultSuppressed (c : Config) : bool :=
  bool_decide (c_WorkerPruneAfter c = EmptyString)
  && (DefaultWorkerPruneAfter <=? effectiveWorkerStaleAfter c)%Z.

Definition WorkerPruneAfterDuration (c : Config) : Duration :=
  if decide (c_WorkerPruneAfter c = EmptyString) then
    if WorkerPruneDefaultSuppressed c then 0%Z else DefaultWorkerPruneAfter
  else match ParseDuration (c_WorkerPruneAfter c) with
       | Err _ => 0%Z
       | OK d => if (d <? 0)%Z then 0%Z else d
       end.

Definition MaxPendingAgeDuration (c : Config) : Duration :=
  if decide (c_MaxPendingAge c = EmptyString) then 0%Z
  else parsed_or_zero (c_MaxPendingAge c).

(** ** Validation

    The messages collected, in order: [Validate] fails exactly when there are
    any, with their text joined. *)

Definition quote : string := String (mk_byte 34) EmptyString.

Definition invalid_text (field v : string) (e : error) : error :=
  Errorf_w (field +:+ " %q is not a valid duration: %v") [v] e.

Definition check_duration (field v : string) : list error :=
  if decide (v = EmptyString) then []
  else match ParseDuration v with
       | Err e => [invalid_text field v e]
       | OK d => if (d <=? 0)%Z
                 then [ErrorNew (field +:+ " must be a positive duration")] else []
       end.

Definition check_prune (v : string) : list error :=
  if decide (v = EmptyString) then []
  else match ParseDuration v with
       | Err e => [invalid_text "workerPruneAfter" v e]
       | OK d => if (d <? 0)%Z
                 then [ErrorNew ("workerPruneAfter must not be negative (use "
                         +:+ quote +:+ "0" +:+ quote +:+ " to disable pruning)")] else []
       end.

Definition check_prune_stale (c : Config) : list error :=
  let prune := WorkerPruneAfterDuration c in
  let stale := effectiveWorkerStaleAfter c in
  if bool_decide (c_WorkerPruneAfter c ≠ EmptyString) && (0 <? prune)%Z
     && (0 <? stale)%Z && (prune <=? stale)%Z
  then [Errorf "workerPruneAfter (%s) must be greater than workerStaleAfter (%s)"
          [pretty prune; pretty stale]]
  else [].

Definition hasApp (g : GitHubConfig) : bool :=
  negb (gh_AppID g =? 0)%Z && negb (gh_InstallationID g =? 0)%Z
  && (bool_decide (gh_PrivateKey g ≠ EmptyString)
      || bool_decide (gh_PrivateKeyPath g ≠ EmptyString)).
Definition hasPAT (g : GitHubConfig) : bool := bool_decide (gh_Token g ≠ EmptyString).

Definition check_scale_set (i : nat) (ss : ScaleSetConfig) : list error :=
  (if decide (ss_Name ss = EmptyString)
   then [Errorf "scaleSets[%d].name is required" [pretty i]] else []) ++
  (if decide (ss_GitHubConfigURL ss = EmptyString)
   then [Errorf "scaleSets[%d].githubConfigURL is required" [pretty i]] else []) ++
  (if decide (cfg_Image (ss_VM ss) = EmptyString)
   then [Errorf "scaleSets[%d].vm.image is required" [pretty i]] else []).

(** [for i, ss := range c.ScaleSets]. *)
Fixpoint check_scale_sets (i : nat) (l : list ScaleSetConfig) : list error :=
  match l with
  | [] => []
  | ss :: l => check_scale_set i ss ++ check_scale_sets (S i) l
  end.

Definition Validate (c : Config) : list error :=
  (if decide (o_Address (c_Orchard c) = EmptyString)
   then [ErrorNew "orchard.address is required"] else []) ++
  check_duration "maxVMAge" (c_MaxVMAge c) ++
  check_duration "workerStaleAfter" (c_WorkerStaleAfter c) ++
  check_duration "maxPendingAge" (c_MaxPendingAge c) ++
  check_prune (c_WorkerPruneAfter c) ++
  check_prune_stale c ++
  (if negb (hasApp (c_GitHub c)) && negb (hasPAT (c_GitHub c))
   then [ErrorNew
     "github auth required: set appID+installationID+privateKey, or token"] else []) ++
  (if decide (length (c_ScaleSets c) = 0)
   then [ErrorNew "at least one scaleSet is required"] else []) ++
  check_scale_sets 0 (c_ScaleSets c).

(** ** Loading *)

(** Why [Load] failed; the validation messages are joined in the source. *)
Inductive LoadError : Type :=
  | ReadingFile (e : error)
  | ParsingFile (e : error)
  | Validating (errs : list error).

Section Load.
Context (ReadFile : string → result string) (Getenv : string → string)
  (Unmarshal : string → result Config).

Definition Load (path : string) : Config + LoadError :=
  match ReadFile path with
  | Err e => inr (ReadingFile (Errorf_w "reading config file: %w" [] e))
  | OK data =>
      match Unmarshal data with
      | Err e => inr (ParsingFile (Errorf_w "parsing config file: %w" [] e))
      | OK cfg =>
          let cfg := applyEnvOverrides Getenv (applyDefaults cfg) in
          match Validate cfg with
          | [] => inl cfg
          | errs => inr (Validating errs)
          end
      end
  end.

Definition GitHubPrivateKeyPEM (c : Config) : result string :=
  let g := c_GitHub c in
  if decide (gh_PrivateKey g ≠ EmptyString) then OK (gh_PrivateKey g)
  else if decide (gh_PrivateKeyPath g ≠ EmptyString) then
    match ReadFile (gh_PrivateKeyPath g) with
    | Err e => Err (Errorf_w "reading private key file: %w" [] e)
    | OK data => OK data
    end
  else Err (Errorf "no private key configured" []).
End Load.

(** ** Validation, declaratively *)

(** Unset, or a duration that satisfies [P]. *)
Definition duration_ok (P : Duration → Prop) (v : string) : Prop :=
  v = EmptyString ∨ ∃ d, ParseDuration v = OK d ∧ P d.

Record valid_scale_set (ss : ScaleSetConfig) : Prop := {
  valid_name : ss_Name ss ≠ EmptyString;
  valid_url : ss_GitHubConfigURL ss ≠ EmptyString;
  valid_image : cfg_Image (ss_VM ss) ≠ EmptyString
}.

Record valid_config (c : Config) : Prop := {
  valid_address : o_Address (c_Orchard c) ≠ EmptyString;
  valid_max_age : duration_ok (λ d, 0 < d)%Z (c_MaxVMAge c);
  valid_stale : duration_ok (λ d, 0 < d)%Z (c_WorkerStaleAfter c);
  valid_pending : duration_ok (λ d, 0 < d)%Z (c_MaxPendingAge c);
  (* an explicit pruning age is 0 or beyond the staleness threshold *)
  valid_prune : duration_ok (λ d, d = 0 ∨ effectiveWorkerStaleAfter c < d)%Z
                  (c_WorkerPruneAfter c);
  valid_auth : gh_Token (c_GitHub c) ≠ EmptyString ∨
    (gh_AppID (c_GitHub c) ≠ 0%Z ∧ gh_InstallationID (c_GitHub c) ≠ 0%Z ∧
     (gh_PrivateKey (c_GitHub c) ≠ EmptyString ∨ gh_PrivateKeyPath (c_GitHub c) ≠ EmptyString));
  valid_sets : c_ScaleSets c ≠ [];
  valid_each : Forall valid_scale_set (c_ScaleSets c)
}.

Lemma if_nil {A} (P : Prop) `{Decision P} (x : A) : (if decide P then [x] else []) = [] ↔ ¬ P.
Proof. by destruct (decide P). Qed.

Lemma if_nil_bool {A} (b : bool) (x : A) : (if b then [x] else []) = [] ↔ b = false.
Proof. by destruct b. Qed.

Lemma check_duration_nil field v :
  check_duration field v = [] ↔ duration_ok (λ d, 0 < d)%Z v.
Proof.
  unfold check_duration, duration_ok. destruct (decide (v = EmptyString)) as [->|Hv].
  { split; [by left|done]. }
  destruct (ParseDuration v) as [d|e].
  - rewrite if_nil_bool, Z.leb_gt. split; [intros; right; by exists d|].
    intros [?|(d' & [= <-] & ?)]; done.
  - split; [done|]. by intros [?|(d & ? & _)].
Qed.

Lemma check_scale_set_nil i ss : check_scale_set i ss = [] ↔ valid_scale_set ss.
Proof.
  unfold check_scale_set. rewrite !app_nil, !if_nil.
  split; [by intros (? & ? & ?)|by intros []].
Qed.

Lemma check_scale_sets_nil i l : check_scale_sets i l = [] ↔ Forall valid_scale_set l.
Proof.
  revert i. induction l as [|ss l IH]; intros i; simpl.
  - split; [by constructor|done].
  - by rewrite app_nil, check_scale_set_nil, IH, Forall_cons.
Qed.

Lemma effective_stale_pos c :
  duration_ok (λ d, 0 < d)%Z (c_WorkerStaleAfter c) → (0 < effectiveWorkerStaleAfter c)%Z.
Proof.
  unfold effectiveWorkerStaleAfter. intros [->|(d & Hd & Hpos)]; [done|].
  destruct (decide (c_WorkerStaleAfter c = EmptyString)); [done|]. by rewrite Hd.
Qed.

Lemma check_prune_nil c :
  (0 < effectiveWorkerStaleAfter c)%Z →
  check_prune (c_WorkerPruneAfter c) = [] ∧ check_prune_stale c = [] ↔
  duration_ok (λ d, d = 0 ∨ effectiveWorkerStaleAfter c < d)%Z (c_WorkerPruneAfter c).
Proof.
  intros Hs. unfold check_prune, check_prune_stale, WorkerPruneAfterDuration, duration_ok.
  rewrite if_nil_bool. destruct (decide (c_WorkerPruneAfter c = EmptyString)) as [->|Hv].
  { split; [by left|]. intros _. split; [done|].
    rewrite bool_decide_eq_false_2; [done|]. intros H. by apply H. }
  rewrite bool_decide_eq_true_2 by done.
  destruct (ParseDuration (c_WorkerPruneAfter c)) as [d|e].
  2:{ split; [by intros []|]. by intros [?|(d & ? & _)]. }
  rewrite if_nil_bool, Z.ltb_ge. simpl.
  assert (0 <? effectiveWorkerStaleAfter c = true)%Z as -> by lia. split.
  - intros [Hd Hle]. right. exists d. split; [done|].
    destruct (Z.ltb_spec d 0); [lia|]. lia.
  - intros [?|(d' & [= <-] & Hd)]; [done|]. split; [lia|].
    destruct (Z.ltb_spec d 0); lia.
Qed.

Lemma auth_nil g :
  negb (hasApp g) && negb (hasPAT g) = false ↔
  gh_Token g ≠ EmptyString ∨
  (gh_AppID g ≠ 0%Z ∧ gh_InstallationID g ≠ 0%Z ∧
   (gh_PrivateKey g ≠ EmptyString ∨ gh_PrivateKeyPath g ≠ EmptyString)).
Proof.
  unfold hasApp, hasPAT. rewrite andb_false_iff, !negb_false_iff, !andb_true_iff, orb_true_iff.
  rewrite !negb_true_iff, !Z.eqb_neq, !bool_decide_eq_true. tauto.
Qed.

(** ** Properties *)

Lemma Validate_parts c :
  Validate c = [] ↔
  o_Address (c_Orchard c) ≠ EmptyString ∧
  duration_ok (λ d, 0 < d)%Z (c_MaxVMAge c) ∧
  duration_ok (λ d, 0 < d)%Z (c_WorkerStaleAfter c) ∧
  duration_ok (λ d, 0 < d)%Z (c_MaxPendingAge c) ∧
  (check_prune (c_WorkerPruneAfter c) = [] ∧ check_prune_stale c = []) ∧
  negb (hasApp (c_GitHub c)) && negb (hasPAT (c_GitHub c)) = false ∧
  c_ScaleSets c ≠ [] ∧ Forall valid_scale_set (c_ScaleSets c).
Proof.
  unfold Validate. rewrite !app_nil, !if_nil, !check_duration_nil, check_scale_sets_nil,
    if_nil_bool, length_zero_iff_nil. tauto.
Qed.

Lemma Validate_valid c : Validate c = [] → valid_config c.
Proof.
  rewrite Validate_parts, auth_nil. intros (? & ? & Hs & ? & Hp & ? & ? & ?).
  constructor; try done. apply check_prune_nil; [by apply effective_stale_pos|done].
Qed.

Lemma valid_Validate c : valid_config c → Validate c = [].
Proof.
  intros [? ? Hs ? Hp Hauth ? ?]. apply Validate_parts. rewrite auth_nil.
  split_and!; try done; by apply check_prune_nil; [apply effective_stale_pos|].
Qed.

(** C30: [Validate] accepts exactly the well-formed configurations: an
    address, positive durations where they are set, an explicit pruning age that
    is 0 or beyond the staleness threshold in effect, one complete way to
    authenticate to GitHub, and at least one scale set, each with name, URL and
    image. *)
Theorem Validate_spec (c : Config) : Validate c = [] ↔ valid_config c.
Proof. split; [apply Validate_valid|apply valid_Validate]. Qed.

(** What the components are started with: [New] of the manager takes the default
    for a threshold that is not positive. *)
Definition staleness (c : Config) : Duration :=
  if (WorkerStaleAfterDuration c <=? 0)%Z then DefaultWorkerStaleAfter
  else WorkerStaleAfterDuration c.

Lemma staleness_effective c :
  duration_ok (λ d, 0 < d)%Z (c_WorkerStaleAfter c) → staleness c = effectiveWorkerStaleAfter c.
Proof.
  unfold staleness, WorkerStaleAfterDuration, effectiveWorkerStaleAfter, parsed_or_zero.
  destruct (decide (c_WorkerStaleAfter c = EmptyString)) as [->|Hv]; [done|].
  intros [?|(d & -> & Hd)]; [done|]. by destruct (Z.leb_spec d 0); [lia|].
Qed.

Lemma prune_beyond_stale c :
  valid_config c →
  (WorkerPruneAfterDuration c = 0 ∨ staleness c < WorkerPruneAfterDuration c)%Z.
Proof.
  intros Hv. rewrite (staleness_effective c (valid_stale c Hv)).
  unfold WorkerPruneAfterDuration, WorkerPruneDefaultSuppressed.
  destruct (decide (c_WorkerPruneAfter c = EmptyString)) as [Hu|Hu].
  - rewrite Hu, bool_decide_eq_true_2 by done. simpl.
    destruct (Z.leb_spec DefaultWorkerPruneAfter (effectiveWorkerStaleAfter c)); lia.
  - destruct (valid_prune c Hv) as [?|(d & -> & Hd)]; [done|].
    pose proof (effective_stale_pos c (valid_stale c Hv)). destruct (Z.ltb_spec d 0); lia.
Qed.

(** With a configuration that validates, a worker old enough to be
    pruned is never one that the bridge counts as live: the pruning age is 0,
    which disables pruning, or beyond the staleness threshold the snapshots are
    taken with, whether the two are configured or defaults. *)
Lemma pruned_workers_not_live (c : Config) (w : Worker) (now : Time) :
  Validate c = [] → (0 < WorkerPruneAfterDuration c)%Z →
  (WorkerPruneAfterDuration c < Sub now (w_LastSeen w))%Z → w_LastSeen w ≠ 0%Z →
  (staleness c < WorkerPruneAfterDuration c)%Z ∧ WorkerLive w (staleness c) now = false.
Proof.
  intros Hv%Validate_valid Hpos Hold Hseen.
  pose proof (effective_stale_pos c (valid_stale c Hv)) as Hs.
  destruct (prune_beyond_stale c Hv) as [?|Hlt]; [lia|]. split; [done|].
  rewrite (staleness_effective c (valid_stale c Hv)) in Hlt |- *. unfold WorkerLive, IsZero.
  destruct (Z.leb_spec (effectiveWorkerStaleAfter c) 0); [lia|].
  destruct (Z.eqb_spec (w_LastSeen w) 0); [done|].
  apply Z.leb_gt. lia.
Qed.

(** *** What a loaded configuration is *)

(** A field with a default: as configured, unless it was left unset. *)
Definition filled {A} (unset dflt configured got : A) : Prop :=
  (configured = unset ∧ got = dflt) ∨ (configured ≠ unset ∧ got = configured).

(** A field the environment can override. *)
Definition overridden {A} (parse : string → option A) (v : string) (configured got : A) : Prop :=
  match (if decide (v = EmptyString) then None else parse v) with
  | Some a => got = a
  | None => got = configured
  end.

Record set_filled (ss got : ScaleSetConfig) : Prop := {
  f_RunnerGroup : filled EmptyString "default" (ss_RunnerGroup ss) (ss_RunnerGroup got);
  f_CPU : filled 0%Z 4%Z (cfg_CPU (ss_VM ss)) (cfg_CPU (ss_VM got));
  f_Memory : filled 0%Z 8192%Z (cfg_Memory (ss_VM ss)) (cfg_Memory (ss_VM got));
  f_set_rest :
    (ss_Name got, ss_GitHubConfigURL got, ss_Labels got, ss_MaxRunners got,
     cfg_Image (ss_VM got), cfg_DockerPort (ss_VM got), cfg_DiskSize (ss_VM got),
     cfg_Labels (ss_VM got), cfg_AutoSize (ss_VM got))
    = (ss_Name ss, ss_GitHubConfigURL ss, ss_Labels ss, ss_MaxRunners ss,
       cfg_Image (ss_VM ss), cfg_DockerPort (ss_VM ss), cfg_DiskSize (ss_VM ss),
       cfg_Labels (ss_VM ss), cfg_AutoSize (ss_VM ss))
}.

(** [got] is the configuration [cfg] of the file with the defaults filled in and
    the environment's overrides on top, and nothing else changed. *)
Record configured_as (Getenv : string → string) (cfg got : Config) : Prop := {
  f_LogLevel : filled EmptyString "info" (c_LogLevel cfg) (c_LogLevel got);
  f_Username : filled EmptyString "bootstrap-admin"
    (o_Username (c_Orchard cfg)) (o_Username (c_Orchard got));
  f_health : filled 0%Z 8080%Z (health_Port (c_Health cfg)) (health_Port (c_Health got));
  f_metrics : filled 0%Z 9090%Z (metrics_Port (c_Metrics cfg)) (metrics_Port (c_Metrics got));
  f_sets : Forall2 set_filled (c_ScaleSets cfg) (c_ScaleSets got);
  f_Password : overridden Some (Getenv "ORCHARD_GH_BRIDGE_ORCHARD_PASSWORD")
    (o_Password (c_Orchard cfg)) (o_Password (c_Orchard got));
  f_Token : overridden Some (Getenv "ORCHARD_GH_BRIDGE_GITHUB_TOKEN")
    (gh_Token (c_GitHub cfg)) (gh_Token (c_GitHub got));
  f_PrivateKey : overridden Some (Getenv "ORCHARD_GH_BRIDGE_GITHUB_PRIVATE_KEY")
    (gh_PrivateKey (c_GitHub cfg)) (gh_PrivateKey (c_GitHub got));
  f_AppID : overridden ParseInt (Getenv "ORCHARD_GH_BRIDGE_GITHUB_APP_ID")
    (gh_AppID (c_GitHub cfg)) (gh_AppID (c_GitHub got));
  f_InstallationID : overridden ParseInt (Getenv "ORCHARD_GH_BRIDGE_GITHUB_INSTALLATION_ID")
    (gh_InstallationID (c_GitHub cfg)) (gh_InstallationID (c_GitHub got));
  f_rest :
    (c_MaxVMs got, c_MaxVMAge got, c_WorkerStaleAfter got, c_WorkerPruneAfter got,
     c_MaxPendingAge got, o_Address (c_Orchard got), o_Insecure (c_Orchard got),
     gh_PrivateKeyPath (c_GitHub got), metrics_Enabled (c_Metrics got))
    = (c_MaxVMs cfg, c_MaxVMAge cfg, c_WorkerStaleAfter cfg, c_WorkerPruneAfter cfg,
       c_MaxPendingAge cfg, o_Address (c_Orchard cfg), o_Insecure (c_Orchard cfg),
       gh_PrivateKeyPath (c_GitHub cfg), metrics_Enabled (c_Metrics cfg))
}.

Lemma filled_text d s got : filled EmptyString d s got ↔ got = or_text d s.
Proof. unfold filled, or_text. destruct (decide (s = EmptyString)); naive_solver. Qed.

Lemma filled_num d n got : filled 0%Z d n got ↔ got = or_num d n.
Proof. unfold filled, or_num. destruct (Z.eqb_spec n 0); naive_solver. Qed.

Lemma overridden_text v old got : overridden Some v old got ↔ got = override_text v old.
Proof. unfold overridden, override_text. by destruct (decide (v = EmptyString)). Qed.

Lemma overridden_num v old got : overridden ParseInt v old got ↔ got = override_num v old.
Proof.
  unfold overridden, override_num. destruct (decide (v = EmptyString)); [done|].
  by destruct (ParseInt v).
Qed.

Lemma set_filled_iff ss got : set_filled ss got ↔ got = applyDefaultsSet ss.
Proof.
  split.
  - intros [H1%filled_text H2%filled_num H3%filled_num H4].
    destruct got as [n u l g mr [im cpu mem dp ds la az]]. simpl in *. by simplify_eq.
  - intros ->. constructor; simpl; [by apply filled_text|by apply filled_num..|done].
Qed.

Lemma configured_as_iff Getenv cfg got :
  configured_as Getenv cfg got ↔ got = applyEnvOverrides Getenv (applyDefaults cfg).
Proof.
  split.
  - intros [H1%filled_text H2%filled_text H3%filled_num H4%filled_num H5 H6%overridden_text
      H7%overridden_text H8%overridden_text H9%overridden_num H10%overridden_num H11].
    assert (c_ScaleSets got = applyDefaultsSet <$> c_ScaleSets cfg) as Hss.
    { symmetry. apply list_eq_Forall2, Forall2_fmap_l. eapply Forall2_impl; [exact H5|].
      intros ss ss' ->%set_filled_iff. done. }
    destruct got as [ll mv ma ws wp mp [oa ou op oi] [ai ii kp pk tk] ss [hp] [me mport]].
    simpl in *. by simplify_eq.
  - intros ->. constructor; simpl; try by apply filled_text; try by apply filled_num.
    all: try by apply filled_num. all: try by apply overridden_text.
    all: try by apply overridden_num. 2: done.
    apply Forall2_fmap_r, Forall_Forall2_diag, Forall_true. intros ss. by apply set_filled_iff.
Qed.

Section LoadSpec.
Context (ReadFile : string → result string) (Getenv : string → string)
  (Unmarshal : string → result Config).

(** C31: a configuration loads exactly if the file can be read and parsed and what
    it comes to is valid; it is then what the file says with every default filled
    in where the file leaves the field unset, and only there, the environment's
    overrides on top, and nothing else changed.  Without a token the configuration
    has the text of a private key, which is the one used, or the path of its file,
    whose content is used, or whose reading fails. *)
Theorem Load_usable path c :
  (Load ReadFile Getenv Unmarshal path = inl c ↔
   ∃ data cfg, ReadFile path = OK data ∧ Unmarshal data = OK cfg ∧
     configured_as Getenv cfg c ∧ valid_config c) ∧
  (Load ReadFile Getenv Unmarshal path = inl c → gh_Token (c_GitHub c) = EmptyString →
   let g := c_GitHub c in
   (gh_PrivateKey g ≠ EmptyString ∧ GitHubPrivateKeyPEM ReadFile c = OK (gh_PrivateKey g)) ∨
   (gh_PrivateKeyPath g ≠ EmptyString ∧
    match ReadFile (gh_PrivateKeyPath g) with
    | OK data => GitHubPrivateKeyPEM ReadFile c = OK data
    | Err e => GitHubPrivateKeyPEM ReadFile c
               = Err (Errorf_w "reading private key file: %w" [] e)
    end)).
Proof.
  assert (Load ReadFile Getenv Unmarshal path = inl c ↔
   ∃ data cfg, ReadFile path = OK data ∧ Unmarshal data = OK cfg ∧
     configured_as Getenv cfg c ∧ valid_config c) as Hload.
  { unfold Load. split.
    - destruct (ReadFile path) as [data|] eqn:Hd; [|done].
      destruct (Unmarshal data) as [cfg|] eqn:Hu; [|done].
      set (c' := applyEnvOverrides Getenv (applyDefaults cfg)).
      destruct (Validate c') eqn:Hv; [|done]. intros [= <-]. exists data, cfg.
      split; [done|]. split; [done|]. split; [by apply configured_as_iff|].
      by apply Validate_valid.
    - intros (data & cfg & -> & -> & ->%configured_as_iff & Hv).
      by rewrite (valid_Validate _ Hv). }
  split; [exact Hload|]. intros (_ & _ & _ & _ & _ & Hv)%Hload Htok g.
  unfold GitHubPrivateKeyPEM. fold g.
  destruct (valid_auth c Hv) as [?|(_ & _ & Hkey)]; [done|]. fold g in Hkey.
  destruct (decide (gh_PrivateKey g ≠ EmptyString)) as [Hk|Hk]; [by left|]. right.
  destruct Hkey as [?|Hp]; [done|]. split; [done|]. rewrite decide_True by done.
  by destruct (ReadFile (gh_PrivateKeyPath g)).
Qed.
End LoadSpec.

(** A duration written as numbers with units, as in 1h30m, means its sum,
    up to the largest duration: the accessors return it and [Validate] accepts
    it. *)
Lemma durations_as_written (c : Config) cs v :
  cs ≠ [] → written_value cs = Some v → (0 < v < two63)%Z →
  (c_MaxVMAge c = written cs → MaxVMAgeDuration c = v) ∧
  (c_WorkerStaleAfter c = written cs → WorkerStaleAfterDuration c = v) ∧
  (c_WorkerPruneAfter c = written cs → WorkerPruneAfterDuration c = v) ∧
  (c_MaxPendingAge c = written cs → MaxPendingAgeDuration c = v) ∧
  ∀ field, check_duration field (written cs) = [].
Proof.
  intros Hne Hv Hpos. pose proof (ParseDuration_written cs v Hne Hv ltac:(lia)) as Hp.
  assert (written cs ≠ EmptyString) as Hw by (intros H0; rewrite H0 in Hp; discriminate).
  unfold MaxVMAgeDuration, WorkerStaleAfterDuration, WorkerPruneAfterDuration,
    MaxPendingAgeDuration, check_duration, parsed_or_zero.
  split_and!; try (intros ->; rewrite decide_False by done; by rewrite Hp).
  - intros ->. rewrite decide_False, Hp by done. by destruct (Z.ltb_spec v 0); [lia|].
  - intros field. rewrite decide_False, Hp by done. by destruct (Z.leb_spec v 0); [lia|].
Qed.

(** ** Witnesses *)

(** A configuration as YAML would be read, without what has a default. *)
Definition minimal : Config :=
  mkConfig EmptyString 0 EmptyString "5m" "1h30m" EmptyString
    (mkOrchardConfig "http://orchard" EmptyString "secret" false)
    (mkGitHubConfig 0 0 EmptyString EmptyString EmptyString)
    [mkScaleSetConfig "large" "https://github.com/acme" ["macos"] EmptyString 0
       (mkVMConfig "macos" 0 0 0 0 ∅ (mkAutoSizeConfig false 0 0))]
    (mkHealthConfig 0) (mkMetricsConfig false 0).

(** The token comes from the environment. *)
Definition token_env (key : string) : string :=
  if decide (key = "ORCHARD_GH_BRIDGE_GITHUB_TOKEN") then "token" else EmptyString.

Definition loaded : Config := applyEnvOverrides token_env (applyDefaults minimal).

Lemma pruned_workers_not_live_witness :
  WorkerPruneAfterDuration loaded = (90 * Minute)%Z ∧
  WorkerLive (mkWorker "old" ∅ ∅ false 1%Z) (staleness loaded) (2 * Hour)%Z = false.
Proof.
  split; [by vm_compute|].
  refine (proj2 (pruned_workers_not_live loaded _ _ _ _ _ _)); by vm_compute.
Defined.

Lemma Load_usable_witness :
  Load (λ _, OK "file") token_env (λ _, OK minimal) "/config/config.yaml" = inl loaded ∧
  cfg_CPU <$> (ss_VM <$> c_ScaleSets loaded) = [4%Z] ∧ valid_config loaded.
Proof.
  assert (Load (λ _, OK "file") token_env (λ _, OK minimal) "/config/config.yaml" = inl loaded)
    as H by by vm_compute.
  split; [exact H|]. split; [by vm_compute|].
  destruct (Load_usable (λ _, OK "file") token_env (λ _, OK minimal) "/config/config.yaml" loaded)
    as [Hload _].
  by destruct (proj1 Hload H) as (_ & _ & _ & _ & _ & Hv).
Defined.

Lemma durations_as_written_witness :
  written [(1%N, "h"); (30%N, "m")] = "1h30m" ∧ WorkerPruneAfterDuration minimal = (90 * Minute)%Z.
Proof.
  split; [by vm_compute|].
  destruct (durations_as_written minimal [(1%N, "h"); (30%N, "m")] (90 * Minute)%Z)
    as (_ & _ & H & _); [done|by vm_compute|by vm_compute|].
  apply H. by vm_compute.
Defined.
