(* ===== verification/Process.v ===== *)
(** * The process ([main.go], [health/health.go])

    Where the configuration comes from, the log level, the exit status, and the
    two health endpoints. *)

From S2P Require Import Prelude GoBase Orchard Config.

(** ** Health *)

(** A value of the JSON object in a response: a text, or the text of an error. *)
Inductive field : Type :=
  | Text (s : string)
  | ErrorText (e : error).

(** A response: its status, and the object encoded in its body. *)
Record Response : Type := mkResponse {
  StatusCode : Z;
  Body : gmap string field
}.

Definition StatusOK : Z := 200.
Definition StatusServiceUnavailable : Z := 503.

Definition handleHealthz : Response := mkResponse StatusOK {["status" := Text "ok"]}.

(** [handleReadyz]: ready exactly when the controller answers a ping. *)
Definition handleReadyz {W} `{OrchardClient W} : M W Response :=
  err ← Ping;
  match err with
  | Some e =>
      mret (mkResponse StatusServiceUnavailable
              {["status" := Text "not ready"; "error" := ErrorText e]})
  | None => mret (mkResponse StatusOK {["status" := Text "ready"]})
  end.

(** ** Start *)

(** The path of the configuration: the flag, [CONFIG_PATH], or the default. *)
Definition config_path (flag : string) (Getenv : string → string) : string :=
  if decide (flag ≠ EmptyString) then flag
  else if decide (Getenv "CONFIG_PATH" ≠ EmptyString) then Getenv "CONFIG_PATH"
  else "/config/config.yaml".

Inductive Level : Type := LevelDebug | LevelInfo | LevelWarn | LevelError.

Definition setupLogger (level : string) : Level :=
  if decide (level = "debug") then LevelDebug
  else if decide (level = "warn") then LevelWarn
  else if decide (level = "error") then LevelError
  else LevelInfo.

(** [orchard.NewClient]: the options it makes the third-party client with. *)
Inductive ClientOption : Type :=
  | WithAddress (address : string)
  | WithCredentials (username password : string).

Definition NewClient {Inner} (orchardclient_New : list ClientOption → result Inner)
    (cfg : OrchardConfig) : result Inner :=
  let opts := [WithAddress (o_Address cfg)] in
  let opts := if decide (o_Username cfg ≠ EmptyString ∨ o_Password cfg ≠ EmptyString)
              then opts ++ [WithCredentials (o_Username cfg) (o_Password cfg)] else opts in
  match orchardclient_New opts with
  | Err e => Err (Errorf_w "creating orchard client: %w" [] e)
  | OK inner => OK inner
  end.

Section Main.
Context (ReadFile : string → result string) (Getenv : string → string)
  (Unmarshal : string → result Config).
(** The third-party Orchard client, and [manager.New] with [Run]. *)
Context {Client : Type} (orchardclient_New : list ClientOption → result Client)
  (NewManager : Config → Client → option error) (Run : Config → Client → option error).

(** The exit status of [main]. *)
Definition main (flag : string) : Z :=
  match Load ReadFile Getenv Unmarshal (config_path flag Getenv) with
  | inr _ => 1%Z
  | inl cfg =>
      match NewClient orchardclient_New (c_Orchard cfg) with
      | Err _ => 1%Z
      | OK client =>
          match NewManager cfg client with
          | Some _ => 1%Z
          | None => match Run cfg client with Some _ => 1%Z | None => 0%Z end
          end
      end
  end.

(** Once the manager runs, the exit status is what [Run] returns. *)
Lemma main_exits flag cfg client :
  Load ReadFile Getenv Unmarshal (config_path flag Getenv) = inl cfg →
  NewClient orchardclient_New (c_Orchard cfg) = OK client → NewManager cfg client = None →
  main flag = match Run cfg client with Some _ => 1%Z | None => 0%Z end.
Proof. unfold main. by intros -> -> ->. Qed.

(** The process ends well only with a configuration that is well formed. *)
Lemma main_ok flag : main flag = 0%Z → ∃ cfg, valid_config cfg ∧
  Load ReadFile Getenv Unmarshal (config_path flag Getenv) = inl cfg.
Proof.
  unfold main. destruct (Load _ _ _ _) as [cfg|e] eqn:Hl; [|done]. intros _.
  exists cfg. split; [|done]. unfold Load in Hl.
  destruct (ReadFile _); [|done]. destruct (Unmarshal _); [|done].
  destruct (Validate _) eqn:Hv; [|done]. injection Hl as <-. by apply Validate_valid.
Qed.
End Main.
