(* ===== verification/Env.v ===== *)
(** * What the components share

    The bridges, the cleanup loop and the manager share the outside world, the
    capacity semaphore and the state cache ([*StateView], possibly nil); [ext]
    is whatever else their callbacks reach.  This file has the operations on
    that environment, the laws expected of the clients, and the rules by which
    the components' proofs use them. *)

From S2P Require Import Prelude GoBase Orchard VMNames Workers Capacity StateView.

Record Env (W CB X : Type) : Type := mkEnv {
  world : W;
  capacity : Capacity CB;
  view : option StateView;
  ext : X
}.
Arguments mkEnv {W CB X} _ _ _ _.
Arguments world {W CB X} _.
Arguments capacity {W CB X} _.
Arguments view {W CB X} _.
Arguments ext {W CB X} _.

Section Operations.
Context {W CB X : Type}.
Notation E := (Env W CB X).

Definition on_world {A} (m : M W A) : M E A :=
  zoom world (λ w e, mkEnv w (capacity e) (view e) (ext e)) m.

Definition on_capacity {A} (f : Capacity CB → A * Capacity CB) : M E A :=
  zoom capacity (λ c e, mkEnv (world e) c (view e) (ext e)) (state_fn f).

Definition on_ext {A} (m : M X A) : M E A :=
  zoom ext (λ x e, mkEnv (world e) (capacity e) (view e) x) m.

(** [c.TryAcquire(n)], [c.Release(n)], [c.Reconcile(n)]. *)
Definition cap_TryAcquire (n : Z) : M E Z := on_capacity (TryAcquire n).
Definition cap_Release (n : Z) : M E unit := on_capacity (λ c, (tt, Release n c)).
Definition cap_Reconcile (n : Z) : M E unit := on_capacity (λ c, (tt, Reconcile n c)).

(** [if s != nil { s.Invalidate() }]. *)
Definition state_Invalidate : M E unit :=
  modify (λ e, mkEnv (world e) (capacity e) (Invalidate <$> view e) (ext e)).

(** [s.Get(ctx)] on a non-nil [s]; on a nil one Go would dereference nil. *)
Definition state_Get `{OrchardClient W} `{Clock W}
    : M E (option Snapshot * option error) := λ e,
  match view e with
  | None => (Panic, e)
  | Some s =>
      let r := Get (s, world e) in
      (r.1, mkEnv (r.2).2 (capacity e) (Some (r.2).1) (ext e))
  end.

(** What [s.Get(ctx)] answers in an environment. *)
Definition gets `{OrchardClient W} `{Clock W} (e : E) (r : option Snapshot * option error)
    : Prop := (state_Get e).1 = Ret r.
End Operations.

(** The answer depends on the cache and the world alone. *)
Lemma gets_elsewhere {W CB X Y} `{OrchardClient W} `{Clock W} w c c' v (x : X) (y : Y) r :
  gets (CB := CB) (mkEnv w c v x) r → gets (CB := CB) (mkEnv w c' v y) r.
Proof. unfold gets, state_Get. simpl. by destruct v. Qed.

(** ** Laws of the clients *)

(** A call that always returns, with a value or an error. *)
Definition total {S A} (m : M S A) : Prop := ∀ s, wp m (returns (λ _ _, True)) s.

Class ClientTotal (W : Type) `{OrchardClient W} `{Clock W} : Prop := {
  CreateVM_total : ∀ vm, total (CreateVM vm);
  ListVMs_total : total ListVMs;
  DeleteVM_total : ∀ n, total (DeleteVM n);
  ListWorkers_total : total ListWorkers;
  DeleteWorker_total : ∀ n, total (DeleteWorker n);
  Now_total : total Now
}.

(** What the controller reports satisfies [Pv] and [Pw]. *)
Class Reports (W : Type) `{OrchardClient W}
    (Pv : list VM → Prop) (Pw : list Worker → Prop) : Prop := {
  reported_vms : ∀ w,
    wp ListVMs (on_ret (λ r _, ∀ vms, r = OK vms → Pv vms)) w;
  reported_workers : ∀ w,
    wp ListWorkers (on_ret (λ r _, ∀ ws, r = OK ws → Pw ws)) w
}.

(** A snapshot built from such reports, and a cache that holds only those and
    has no refresh in flight. *)
Definition snapshot_of (Pv : list VM → Prop) (Pw : list Worker → Prop) (sn : Snapshot)
    : Prop :=
  ∃ vms ws at_ stale, Pv vms ∧ Pw ws ∧ sn = newSnapshot vms ws at_ stale.

Definition view_ok (Pv : list VM → Prop) (Pw : list Worker → Prop) (s : StateView)
    : Prop :=
  view_idle s ∧ ∀ sn, snap s = Some sn → snapshot_of Pv Pw sn.

(** ** Rules *)

Lemma wp_total {S A} (m : M S A) (Q : outcome A → S → Prop) s :
  total m → (∀ a s', Q (Ret a) s') → wp m Q s.
Proof.
  intros Ht HQ. eapply wp_mono; [apply Ht|]. intros [a| |] s'; simpl; [auto|done..].
Qed.

Section GetRule.
Context {W : Type} `{!OrchardClient W} `{!Clock W} `{!ClientTotal W}.
Context (Pv : list VM → Prop) (Pw : list Worker → Prop) `{!Reports W Pv Pw}.

(** A property of the world that reading calls keep. *)
Class ReadsKeep (I : W → Prop) : Prop := {
  ListVMs_keeps : ∀ w, I w → wp ListVMs (always I) w;
  ListWorkers_keeps : ∀ w, I w → wp ListWorkers (always I) w;
  Now_keeps : ∀ w, I w → wp Now (always I) w
}.
Context (I : W → Prop) `{!ReadsKeep I}.

Lemma wp_refresh stale (Q : outcome (result Snapshot) → W → Prop) w :
  I w →
  (∀ r w', I w' → (∀ sn, r = OK sn → snapshot_of Pv Pw sn) → Q (Ret r) w') →
  wp (refresh stale) Q w.
Proof.
  intros Hw HQ. unfold refresh. apply wp_bind.
  eapply wp_mono; [apply wp_and; [apply ListVMs_total|apply wp_and;
    [apply reported_vms|by apply ListVMs_keeps]]|].
  intros [[vms|e]| |] w1; simpl; try (intros []; done).
  2:{ intros (_ & _ & H1). by apply wp_ret, HQ. }
  intros (_ & Hv & H1). apply wp_bind.
  eapply wp_mono; [apply wp_and; [apply ListWorkers_total|apply wp_and;
    [apply reported_workers|by apply ListWorkers_keeps]]|].
  intros [[ws|e]| |] w2; simpl; try (intros []; done).
  2:{ intros (_ & _ & H2). by apply wp_ret, HQ. }
  intros (_ & Hws & H2). apply wp_bind.
  eapply wp_mono; [apply wp_and; [apply Now_total|by apply Now_keeps]|].
  intros [now| |] w3; simpl; try (intros []; done). intros [_ H3].
  apply wp_ret, HQ; [done|]. intros sn [= <-]. exists vms, ws, now, stale. auto.
Qed.

(** [Get] on an idle cache returns, leaves the cache idle with its settings,
    and hands out a snapshot of reported data or, with an error, possibly
    nothing. *)
Lemma wp_Get (Q : outcome (option Snapshot * option error) → StateView * W → Prop) s w :
  view_ok Pv Pw s → I w →
  (∀ osn err s' w',
     view_ok Pv Pw s' → ttl s' = ttl s → staleAfter s' = staleAfter s → I w' →
     (∀ sn, osn = Some sn → snapshot_of Pv Pw sn) →
     (err = None → is_Some osn) →
     Q (Ret (osn, err)) (s', w')) →
  wp Get Q (s, w).
Proof.
  intros [Hidle Hsnap] Hw HQ. unfold Get. wp_go.
  assert (∀ K : outcome Time → StateView * W → Prop,
    (∀ now w', I w' → K (Ret now) (s, w')) →
    wp (match snap s with
        | Some _ => zoom snd (λ w p, (p.1, w)) Now
        | None => mret 0%Z end) K (s, w)) as Hnow.
  { intros K HK. destruct (snap s); [|by apply wp_ret, HK].
    apply wp_zoom. eapply wp_mono; [apply wp_and; [apply Now_total|by apply Now_keeps]|].
    intros [now| |] w3; simpl; try (intros []; done). intros [_ H3]. by apply HK. }
  apply Hnow. intros now w1 H1. simpl. wp_go.
  destruct (Get_enter_idle now 0 s Hidle) as [(sn & -> & Hfresh)|[-> _]]; simpl.
  - apply wp_ret, HQ; [by split|done..| |by eauto].
    intros sn' [= <-]. apply Hsnap. unfold fresh_snap in Hfresh.
    destruct (snap s); [|done]. by case_match; simplify_eq.
  - wp_go. apply wp_refresh; [done|]. intros r w2 H2 Hr. simpl. wp_go.
    destruct r as [sn|e]; simpl; apply HQ; try done.
    + split; [done|]. simpl. intros sn' [= <-]. by apply Hr.
    + intros sn' [= <-]. by apply Hr.
Qed.
End GetRule.

(** ** The recording client keeps the laws *)

Section LoggedLaws.
Context {W : Type} `{!OrchardClient W} `{!Clock W}.

Lemma wp_on_base {A} (m : M W A) (Q : outcome A → Logged W → Prop) l :
  wp m (λ o w, Q o (mkLogged w (calls l))) (base l) → wp (on_base m) Q l.
Proof. done. Qed.

(** A read-only call on the recorded world leaves the record alone. *)
Lemma wp_on_base_total {A} (m : M W A) (Q : outcome A → Logged W → Prop) l :
  total m → (∀ a w, Q (Ret a) (mkLogged w (calls l))) → wp (on_base m) Q l.
Proof. intros Ht HQ. by apply wp_on_base, wp_total. Qed.

Lemma on_base_total {A} (m : M W A) : total m → total (on_base m).
Proof. intros Ht l. by apply wp_on_base_total. Qed.

Lemma wp_record c (Q : outcome unit → Logged W → Prop) l :
  Q (Ret tt) (mkLogged (base l) (calls l ++ [c])) → wp (record_call c) Q l.
Proof. done. Qed.

(** A mutating call is made, then recorded with its answer. *)
Lemma wp_recorded {A} (c : A → Call) (m : M W A) (Q : outcome A → Logged W → Prop) l :
  total m → (∀ a w, Q (Ret a) (mkLogged w (calls l ++ [c a]))) →
  wp (recorded m c) Q l.
Proof.
  intros Ht HQ. apply wp_bind, wp_on_base_total; [done|]. intros a w. simpl.
  apply wp_bind, wp_record, wp_ret. apply HQ.
Qed.

Context `{!ClientTotal W}.

Lemma wp_logged_CreateVM vm (Q : outcome (result VM) → Logged W → Prop) l :
  (∀ r w, calls w = calls l ++ [CallCreateVM vm (is_OK r)] → Q (Ret r) w) →
  wp (CreateVM vm) Q l.
Proof. intros HQ. apply wp_recorded; [apply CreateVM_total|]. intros r w. by apply HQ. Qed.

Lemma wp_logged_DeleteVM n (Q : outcome (option error) → Logged W → Prop) l :
  (∀ r w, calls w = calls l ++ [CallDeleteVM n (no_error r)] → Q (Ret r) w) →
  wp (DeleteVM n) Q l.
Proof. intros HQ. apply wp_recorded; [apply DeleteVM_total|]. intros r w. by apply HQ. Qed.

Lemma wp_logged_DeleteWorker n (Q : outcome (option error) → Logged W → Prop) l :
  (∀ r w, calls w = calls l ++ [CallDeleteWorker n (no_error r)] → Q (Ret r) w) →
  wp (DeleteWorker n) Q l.
Proof. intros HQ. apply wp_recorded; [apply DeleteWorker_total|]. intros r w. by apply HQ. Qed.

#[export] Instance logged_total : ClientTotal (Logged W).
Proof.
  destruct ClientTotal0 as [C1 C2 C3 C4 C5 C6]. constructor.
  - intros vm l. by apply wp_recorded.
  - by apply on_base_total.
  - intros n l. by apply wp_recorded.
  - by apply on_base_total.
  - intros n l. by apply wp_recorded.
  - by apply on_base_total.
Qed.

#[export] Instance logged_reports Pv Pw : Reports W Pv Pw → Reports (Logged W) Pv Pw.
Proof. intros [R1 R2]. constructor; intros l; apply wp_on_base; [apply R1|apply R2]. Qed.
End LoggedLaws.

(** The UUIDs drawn have the textual form of [google/uuid]. *)
Class UUIDLaw (W : Type) `{UUIDSource W} : Prop :=
  uuid_drawn : ∀ w, wp NewUUID (returns (λ u _, uuid_text u)) w.

(** ** Environments over the recorded world *)

Section EnvRules.
Context {W CB X : Type} `{!OrchardClient W} `{!Clock W} `{!ClientTotal W}.
Context (Pv : list VM → Prop) (Pw : list Worker → Prop) `{!Reports W Pv Pw}.
Notation E := (Env (Logged W) CB X).

Definition env_ok (e : E) : Prop :=
  match view e with Some s => view_ok Pv Pw s | None => True end.

Definition env_calls (e : E) : list Call := calls (world e).

(** Reading calls are not recorded. *)
#[local] Instance reads_not_recorded (cs : list Call) :
  ReadsKeep (W := Logged W) (λ l, calls l = cs).
Proof.
  destruct ClientTotal0. constructor; intros l <-; by apply wp_on_base_total.
Qed.

(** [Get] on a shared cache that is there: it moves the world and the cache, and
    leaves the semaphore, the record of calls and the rest alone. *)
Lemma wp_state_Get (Q : outcome (option Snapshot * option error) → E → Prop) e :
  env_ok e → is_Some (view e) →
  (∀ osn err e',
     env_ok e' → is_Some (view e') → capacity e' = capacity e → ext e' = ext e →
     env_calls e' = env_calls e →
     (∀ sn, osn = Some sn → snapshot_of Pv Pw sn) →
     (err = None → is_Some osn) →
     Q (Ret (osn, err)) e') →
  wp state_Get Q e.
Proof.
  intros Hok [s Hs] HQ. unfold env_ok in Hok. rewrite Hs in Hok.
  unfold wp, state_Get. rewrite Hs.
  apply (wp_Get Pv Pw (λ l, calls l = calls (world e))
    (λ o p, Q o (mkEnv p.2 (capacity e) (Some p.1) (ext e)))); [done|done|].
  intros osn err s' w' Hok' _ _ Hcalls Hsn Herr.
  apply HQ; simpl; [done|by eexists|done..].
Qed.

(** The same, with the answer named. *)
Lemma wp_state_Get_gets (Q : outcome (option Snapshot * option error) → E → Prop) e :
  env_ok e → is_Some (view e) →
  (∀ osn err e',
     gets e (osn, err) →
     env_ok e' → is_Some (view e') → capacity e' = capacity e → ext e' = ext e →
     env_calls e' = env_calls e →
     (∀ sn, osn = Some sn → snapshot_of Pv Pw sn) →
     (err = None → is_Some osn) →
     Q (Ret (osn, err)) e') →
  wp state_Get Q e.
Proof.
  intros Hok Hv HQ. eapply wp_mono; [apply wp_and; [apply wp_run|]|].
  - apply (wp_state_Get (λ o e', ∀ osn err, o = Ret (osn, err) → gets e (osn, err) → Q o e'));
      [done..|]. intros osn err e' ?????? Herr osn' err' [= <- <-] Hg. by apply HQ.
  - intros [[osn err]| |] e' [Hrun HQ']; cbv beta in HQ'.
    + apply (HQ' osn err); [done|]. unfold gets. by rewrite Hrun.
    + exfalso. revert Hrun. pose proof (wp_state_Get (λ o _, o ≠ Panic) e Hok Hv) as Hp.
      unfold wp in Hp. intros Hrun. rewrite Hrun in Hp. by apply Hp.
    + exfalso. revert Hrun. pose proof (wp_state_Get (λ o _, o ≠ Blocked) e Hok Hv) as Hp.
      unfold wp in Hp. intros Hrun. rewrite Hrun in Hp. by apply Hp.
Qed.
End EnvRules.
