(* ===== verification/Bridge.v ===== *)
(** * The scaler of one scale set ([bridge/bridge.go])

    A handler runs on the bridge's own state and on the shared environment.
    The callbacks it may invoke are the fields of [Hooks]. *)

From S2P Require Import Prelude GoBase Orchard VMNames Workers AutoSize Capacity.
From S2P Require Import StateView Config Env.

(** The calls of the GitHub scale set client (third party). *)
Record GHClient (W : Type) : Type := mkGHClient {
  GenerateJitRunnerConfig : string → Z → M W (result string);
  RemoveRunner : Z → M W (option error);
  GetRunnerByName : string → M W (result (option Z))
}.
Arguments GenerateJitRunnerConfig {W} _ _ _.
Arguments RemoveRunner {W} _ _.
Arguments GetRunnerByName {W} _ _.

Record Bridge (W : Type) : Type := mkBridge {
  scaleSetName : string;
  scaleSetID : Z;
  vmConfig : VMConfig;
  ghClient : GHClient W;
  placementCursor : Z;                (* atomic.Uint64 *)
  activeVMs : gmap string string      (* runnerName or vmName -> vmName *)
}.
Arguments mkBridge {W} _ _ _ _ _ _.
Arguments scaleSetName {W} _.
Arguments scaleSetID {W} _.
Arguments vmConfig {W} _.
Arguments ghClient {W} _.
Arguments placementCursor {W} _.
Arguments activeVMs {W} _.

Definition New {W} (name : string) (id : Z) (cfg : VMConfig) (gh : GHClient W)
    : Bridge W :=
  mkBridge name id cfg gh 0 ∅.

Definition set_activeVMs {W} (m : gmap string string) (b : Bridge W) : Bridge W :=
  mkBridge (scaleSetName b) (scaleSetID b) (vmConfig b) (ghClient b)
    (placementCursor b) m.

Definition set_cursor {W} (c : Z) (b : Bridge W) : Bridge W :=
  mkBridge (scaleSetName b) (scaleSetID b) (vmConfig b) (ghClient b) c (activeVMs b).

Definition VMLabels {W} (b : Bridge W) : gmap string string := cfg_Labels (vmConfig b).
Definition AutoSizeEnabled {W} (b : Bridge W) : bool := Enabled (cfg_AutoSize (vmConfig b)).
Definition AutoSizeReserveConfig {W} (b : Bridge W) : Z * Z :=
  (ReserveCPU (cfg_AutoSize (vmConfig b)), ReserveMemoryMiB (cfg_AutoSize (vmConfig b))).
Definition ActiveVMCount {W} (b : Bridge W) : Z := Z.of_nat (size (activeVMs b)).

(** [PurgeActiveVM]: [delete(b.activeVMs, vmName)]. *)
Definition PurgeActiveVM {W} (vmName : string) (b : Bridge W) : Bridge W :=
  set_activeVMs (delete vmName (activeVMs b)) b.

Definition mergePinLabel (base : gmap string string) (pin : string) : gmap string string :=
  <[PinLabelKey := pin]> base.

Fixpoint countActiveVMs_from (n : Z) (vms : list VM) : Z :=
  match vms with
  | [] => n
  | vm :: vms => countActiveVMs_from (if vm_terminal vm then n else n + 1)%Z vms
  end.
Definition countActiveVMs (vms : list VM) : Z := countActiveVMs_from 0 vms.

Definition vmSpec {W} (b : Bridge W) (name script : string) (cpu memory : Z)
    (labels : gmap string string) : VM :=
  {| vm_Name := name;
     vm_Image := cfg_Image (vmConfig b);
     vm_CPU := cpu;
     vm_Memory := memory;
     vm_Nested := false;
     vm_DiskSize := cfg_DiskSize (vmConfig b);
     vm_Status := EmptyString;
     vm_StatusMessage := EmptyString;
     vm_Worker := EmptyString;
     vm_StartupScript := Some (mkVMScript script);
     vm_Labels := labels;
     vm_CreatedAt := 0%Z |}.

Section Handlers.
Context {W CB X : Type} `{!OrchardClient W} `{!Clock W} `{!UUIDSource W}.
Notation E := (Env W CB X).
Notation St := (Bridge W * Env W CB X)%type.

Record Hooks : Type := mkHooks {
  onVMChange : option (M E unit);
  onDeleteFailed : option (string → M E unit);
  testCreateOneVM :
    option (Z → Z → gmap string string → M St (option error))
}.

Definition on_bridge {A} (m : M (Bridge W) A) : M St A := zoom fst (λ b p, (b, p.2)) m.
Definition on_env {A} (m : M E A) : M St A := zoom snd (λ e p, (p.1, e)) m.

Definition this : M St (Bridge W) := read fst.
Definition has_state : M St bool := read (λ p, bool_decide (is_Some (view p.2))).

Variable hooks : Hooks.

Definition notifyChange : M St unit := on_env (call_opt (onVMChange hooks)).

(** [if b.state != nil { b.state.Invalidate() }]. *)
Definition invalidate : M St unit := on_env state_Invalidate.

(** ** Creating one VM *)

Definition createOneVM (cpu memory : Z) (labels : gmap string string)
    : M St (option error) :=
  b ← this;
  vmName ← on_env (on_world (VMName (scaleSetName b)));
  jitConfig ← on_env (on_world
    (GenerateJitRunnerConfig (ghClient b) vmName (scaleSetID b)));
  match jitConfig with
  | Err e => mret (Some (Errorf_w "generating JIT config: %w" [] e))
  | OK encodedJITConfig =>
      let script := StartupScript encodedJITConfig (cfg_DockerPort (vmConfig b)) in
      let vm := vmSpec b vmName script cpu memory labels in
      r ← on_env (on_world (CreateVM vm));
      match r with
      | Err e => mret (Some (Errorf_w "creating VM %s: %w" [vmName] e))
      | OK _ =>
          on_bridge (modify (λ b, set_activeVMs (<[vmName := vmName]> (activeVMs b)) b));;
          mret None
      end
  end.

Definition doCreateOneVM (cpu memory : Z) (labels : gmap string string)
    : M St (option error) :=
  match testCreateOneVM hooks with
  | Some f => f cpu memory labels
  | None => createOneVM cpu memory labels
  end.

(** ** Scaling up *)

(** [for range acquired { ... }], with [k] turns left: the number created, and
    the error that stopped the loop. *)
Fixpoint create_loop (acquired created : Z) (k : nat) : M St (Z * option error) :=
  match k with
  | O => mret (created, None)
  | S k =>
      b ← this;
      err ← createOneVM (cfg_CPU (vmConfig b)) (cfg_Memory (vmConfig b))
              (cfg_Labels (vmConfig b));
      match err with
      | Some e =>
          on_env (cap_Release (acquired - created));;
          notifyChange;;
          mret (created, Some e)
      | None => create_loop acquired (created + 1)%Z k
      end
  end.

(** [candidates[z]]: a negative or too large index panics. *)
Definition index {A} (l : list A) (z : Z) : M St A :=
  if (z <? 0)%Z then panic
  else match l !! Z.to_nat z with Some x => mret x | None => panic end.

(** [for i := 0; i < acquired; i++ { ... }], with [k] turns left. *)
Fixpoint autosize_loop (candidates : list Worker) (reserveCPU reserveMem : Z)
    (start acquired created skipped i : Z) (k : nat) : M St (Z * option error) :=
  match k with
  | O => mret (created, None)
  | S k =>
      w ← index candidates
            (go_rem (int64 (start + i)) (Z.of_nat (length candidates)));
      match AutoSizedVM w reserveCPU reserveMem with
      | Err _ =>
          on_env (cap_Release 1);;
          autosize_loop candidates reserveCPU reserveMem start acquired created
            (skipped + 1) (i + 1) k
      | OK (cpu, mem) =>
          b ← this;
          let labels := mergePinLabel (cfg_Labels (vmConfig b)) (PinIdentity w) in
          err ← doCreateOneVM cpu mem labels;
          match err with
          | Some e =>
              on_env (cap_Release (acquired - skipped - created));;
              notifyChange;;
              mret (created, Some e)
          | None =>
              autosize_loop candidates reserveCPU reserveMem start acquired
                (created + 1) skipped (i + 1) k
          end
      end
  end%Z.

(** [int(b.placementCursor.Add(uint64(acquired)) - uint64(acquired))]. *)
Definition advance_cursor (acquired : Z) : M St Z :=
  on_bridge (state_fn (λ b,
    let c := uint64 (placementCursor b + acquired) in
    (int64 (uint64 (c - acquired)), set_cursor c b))).

Definition handleAutoSizeScaleUp (needed currentActive : Z) : M St (Z * option error) :=
  st ← has_state;
  if negb st then mret (currentActive, None) else
  '(snap, _) ← on_env state_Get;
  match snap with
  | None => mret (currentActive, None)
  | Some snap =>
      b ← this;
      let '(rawCPU, rawMem) := AutoSizeReserveConfig b in
      let '(reserveCPU, reserveMem) := AutoSizeReserves rawCPU rawMem in
      let candidates := freeAutoSizeWorkers (snap_Workers snap) (VMs snap)
                          (cfg_Labels (vmConfig b)) reserveCPU reserveMem in
      if decide (length candidates = 0) then mret (currentActive, None) else
      let needed := Z.min needed (Z.of_nat (length candidates)) in
      acquired ← on_env (cap_TryAcquire needed);
      if (acquired =? 0)%Z then mret (currentActive, None) else
      start ← advance_cursor acquired;
      '(created, err) ← autosize_loop candidates reserveCPU reserveMem start acquired
                          0 0 0 (Z.to_nat acquired);
      match err with
      | Some e => mret ((currentActive + created)%Z, Some e)
      | None =>
          invalidate;;
          notifyChange;;
          mret ((currentActive + created)%Z, None)
      end
  end.

(** The limit a fixed-size scale set puts on [needed] from the snapshot: [None]
    when the handler returns at once. *)
Definition clamp_needed (needed : Z) : M St (option Z) :=
  st ← has_state;
  if negb st then mret (Some needed) else
  '(snap, _) ← on_env state_Get;
  match snap with
  | None => mret None
  | Some snap =>
      b ← this;
      let workerCap := CapacityForLabels (snap_Workers snap) (cfg_Labels (vmConfig b)) in
      let managedMatching :=
        countActiveVMs (ManagedVMsMatchingLabels snap (cfg_Labels (vmConfig b))) in
      let free := int64 (workerCap - managedMatching) in
      if (free <=? 0)%Z then mret None else mret (Some (Z.min needed free))
  end.

Definition HandleDesiredRunnerCount (count : Z) : M St (Z * option error) :=
  b ← this;
  let currentActive := ActiveVMCount b in
  let needed := int64 (count - currentActive) in
  if (needed <=? 0)%Z then mret (currentActive, None) else
  if AutoSizeEnabled b then handleAutoSizeScaleUp needed currentActive else
  clamped ← clamp_needed needed;
  match clamped with
  | None => mret (currentActive, None)
  | Some needed =>
      acquired ← on_env (cap_TryAcquire needed);
      if (acquired =? 0)%Z then mret (currentActive, None) else
      '(created, err) ← create_loop acquired 0 (Z.to_nat acquired);
      match err with
      | Some e => mret ((currentActive + created)%Z, Some e)
      | None =>
          invalidate;;
          notifyChange;;
          mret ((currentActive + created)%Z, None)
      end
  end.

(** ** Hydration *)

(** [b.activeVMs[vm.Name] = vm.Name; adopted++] over the VMs still alive. *)
Fixpoint hydrate (m : gmap string string) (adopted : Z) (vms : list VM)
    : gmap string string * Z :=
  match vms with
  | [] => (m, adopted)
  | vm :: vms =>
      if vm_terminal vm then hydrate m adopted vms
      else hydrate (<[vm_Name vm := vm_Name vm]> m) (adopted + 1)%Z vms
  end.

Definition HydrateFromOrchard : M St (Z * option error) :=
  st ← has_state;
  if negb st then mret (0%Z, None) else
  '(snap, err) ← on_env state_Get;
  match snap with
  | None => mret (0%Z, err)
  | Some snap =>
      b ← this;
      let vms := ManagedVMsForScaleSet snap (scaleSetName b) in
      let '(m, adopted) := hydrate (activeVMs b) 0 vms in
      on_bridge (modify (set_activeVMs m));;
      mret (adopted, err)
  end.

(** ** Jobs *)

(** A job start is only logged. *)
Definition HandleJobStarted : M St (option error) := mret None.

Definition HandleJobCompleted (runnerName : string) (runnerID : Z)
    : M St (option error) :=
  b ← this;
  match activeVMs b !! runnerName with
  | None => mret None
  | Some vmName =>
      on_bridge (modify (λ b, set_activeVMs (delete runnerName (activeVMs b)) b));;
      err ← on_env (on_world (DeleteVM vmName));
      match err with
      | Some _ =>
          on_env (match onDeleteFailed hooks with
                  | Some f => f vmName
                  | None => mret tt
                  end);;
          mret None
      | None =>
          _ ← on_env (on_world (RemoveRunner (ghClient b) runnerID));
          on_env (cap_Release 1);;
          invalidate;;
          notifyChange;;
          mret None
      end
  end.
End Handlers.
Arguments Hooks : clear implicits.
Arguments Hooks W CB X : assert.
