(* ===== verification/Sample.v ===== *)
(** * A concrete controller

    A simulated world with a fixed fleet, in which the laws expected of the
    clients hold: the witnesses run the handlers on it. *)

From S2P Require Import Prelude GoBase Orchard VMNames Workers AutoSize StateView.
From S2P Require Import Env Bridge.

(** The reports of the controller, and the numbers of the mutating calls it
    refuses. *)
Record Fleet : Type := mkFleet {
  fleet_reported_vms : list VM;
  fleet_workers : list Worker;
  fleet_refuses : nat → bool
}.

Record Sim (f : Fleet) : Type := mkSim { sim_clock : Time; serial : nat }.
Arguments mkSim {f} _ _.
Arguments sim_clock {f} _.
Arguments serial {f} _.

Section Sim.
Context {f : Fleet}.

(** Number a call, and say whether it is refused. *)
Definition attempt : M (Sim f) bool :=
  state_fn (λ s, (fleet_refuses f (serial s), mkSim (sim_clock s) (S (serial s)))).

Definition sim_mutate {A} (a : A) : M (Sim f) (result A) :=
  refused ← attempt;
  mret (if refused : bool then Err (APIError 503) else OK a).

Definition sim_remove : M (Sim f) (option error) :=
  refused ← attempt;
  mret (if refused : bool then Some (APIError 503) else None).

#[export] Instance sim_client : OrchardClient (Sim f) :=
  {| CreateVM := sim_mutate;
     GetVM := λ _, mret (Err (APIError 404));
     ListVMs := mret (OK (fleet_reported_vms f));
     DeleteVM := λ _, sim_remove;
     ListWorkers := mret (OK (fleet_workers f));
     DeleteWorker := λ _, sim_remove;
     Ping := mret None |}.

#[export] Instance sim_now : Clock (Sim f) :=
  state_fn (λ s, (sim_clock s, mkSim (sim_clock s + 1)%Z (serial s))).

#[export] Instance sim_uuid : UUIDSource (Sim f) :=
  read (λ s, match serial s with
             | 0 => "00000000-89ab-4def-8123-456789abcdef"
             | 1 => "1a1a1a1a-89ab-4def-8123-456789abcdef"
             | 2 => "2b2b2b2b-89ab-4def-8123-456789abcdef"
             | _ => "3c3c3c3c-89ab-4def-8123-456789abcdef"
             end).

Definition sim_gh : GHClient (Sim f) :=
  {| GenerateJitRunnerConfig := λ n id, mret (OK "ZW5jb2RlZA==");
     Bridge.RemoveRunner := λ id, mret None;
     GetRunnerByName := λ n, mret (OK None) |}.

Lemma sim_remove_total : total sim_remove.
Proof. by intros s. Qed.

#[export] Instance sim_total : ClientTotal (Sim f).
Proof. by constructor; intros; intros s. Qed.

#[export] Instance sim_uuid_law : UUIDLaw (Sim f).
Proof.
  intros [t [|[|[|n]]]]; unfold wp; simpl; unfold uuid_text, hex_digit; simpl;
    split; lia || (cbn; lia).
Qed.

#[export] Instance sim_reports :
  Reports (Sim f) (λ vms, vms = fleet_reported_vms f) (λ ws, ws = fleet_workers f).
Proof. by constructor; intros w; unfold wp; simpl; intros ? [= <-]. Qed.
End Sim.
