(* ===== verification/BridgeScaleUp.v ===== *)
(** * Scaling up: accounting, bounds and placement

    Proofs about [HandleDesiredRunnerCount] and [handleAutoSizeScaleUp], over
    the recorded world.  The two creation loops share one description of a batch
    of creations, [batch]. *)

From S2P Require Import Prelude GoBase Orchard VMNames Workers AutoSize Capacity.
From S2P Require Import StateView Config Env Bridge.

(** The GitHub client does not touch the record of Orchard calls. *)
Definition logged_gh {W} (gh : GHClient W) : GHClient (Logged W) :=
  {| GenerateJitRunnerConfig := λ n id, on_base (GenerateJitRunnerConfig gh n id);
     RemoveRunner := λ id, on_base (RemoveRunner gh id);
     GetRunnerByName := λ n, on_base (GetRunnerByName gh n) |}.

Definition gh_total {W} (gh : GHClient W) : Prop :=
  (∀ n id, total (GenerateJitRunnerConfig gh n id))
  ∧ (∀ id, total (RemoveRunner gh id)) ∧ (∀ n, total (GetRunnerByName gh n)).

(** The bridge tracks the VM of an accepted creation under its name. *)
Definition track (m : gmap string string) (c : Call) : gmap string string :=
  match c with CallCreateVM vm true => <[vm_Name vm := vm_Name vm]> m | _ => m end.

Definition count_accepted (news : list Call) : nat :=
  length (filter (λ c, accepted c = true) news).

(** Calls the controller refused track nothing and create nothing. *)
Lemma refused_calls m news :
  Forall (λ c, accepted c = false) news →
  foldl track m news = m ∧ count_accepted news = 0.
Proof.
  unfold count_accepted. induction 1 as [|c news Hc _ IH]; [done|]. simpl.
  rewrite filter_cons, decide_False by congruence.
  by destruct c as [vm []| |]; simpl in *.
Qed.

(** The parts of a bridge that no handler changes. *)
Definition same_bridge {W} (b b' : Bridge W) : Prop :=
  scaleSetName b' = scaleSetName b ∧ scaleSetID b' = scaleSetID b ∧
  vmConfig b' = vmConfig b ∧ ghClient b' = ghClient b.

#[export] Instance same_bridge_preorder {W} : PreOrder (@same_bridge W).
Proof.
  split; [by intros b|].
  intros b1 b2 b3 (?&?&?&?) (?&?&?&?). split_and!; congruence.
Qed.

Section ScaleUp.
Context {W CB X : Type} `{!OrchardClient W} `{!Clock W} `{!UUIDSource W}.
Context `{!ClientTotal W} `{!UUIDLaw W}.
Context (Pv : list VM → Prop) (Pw : list Worker → Prop) `{!Reports W Pv Pw}.
Notation LW := (Logged W).
Notation E := (Env LW CB X).
Notation St := (Bridge LW * Env LW CB X)%type.
Context (hooks : Hooks LW CB X).

(** The environment a handler starts from.  Without a state cache there must be
    no callbacks, which use it. *)
Definition env_live (e : E) : Prop :=
  env_ok Pv Pw e ∧
  (is_Some (view e) ∨ onVMChange hooks = None ∧ onDeleteFailed hooks = None).

(** What a callback may do: look at the world and update the rest; the
    semaphore and the controller are not its business. *)
Definition hook_ok (m : M E unit) : Prop := ∀ e, env_ok Pv Pw e → is_Some (view e) →
  wp m (returns (λ _ e', env_ok Pv Pw e' ∧ is_Some (view e') ∧
                         capacity e' = capacity e ∧ env_calls e' = env_calls e)) e.

Record hooks_ok : Prop := {
  onVMChange_ok : ∀ m, onVMChange hooks = Some m → hook_ok m;
  onDeleteFailed_ok : ∀ f n, onDeleteFailed hooks = Some f → hook_ok (f n);
  production : testCreateOneVM hooks = None
}.

(** A creation call made by bridge [b] for one runner. *)
Definition creates (b : Bridge LW) (cpu mem : Z) (labels : gmap string string)
    (c : Call) : Prop :=
  ∃ short script ok, len short = 8 ∧ all_bytes hex_digit short ∧
    c = CallCreateVM (vmSpec b (vm_name_of (scaleSetName b) short) script cpu mem labels) ok.

Lemma creates_same b b' cpu mem labels c :
  same_bridge b b' → creates b' cpu mem labels c → creates b cpu mem labels c.
Proof.
  intros (Hn & _ & Hc & _) (short & script & ok & ? & ? & ->).
  exists short, script, ok. split; [done|]. split; [done|].
  by rewrite <-Hn; unfold vmSpec; rewrite Hc.
Qed.

(** A batch of up to [k] creations, the turns numbered from [i]: [made] of them
    succeeded, and the run stopped early if there is an error [err].  Every call
    satisfies [P] of its turn, the VMs created are tracked, and the slots of the
    turns that did not happen, or failed, have been given back. *)
Record batch (P : nat → Call → Prop) (i k : nat) (s s' : St) (made : nat)
    (err : option error) (news : list Call) : Prop := {
  batch_bridge : same_bridge s.1 s'.1;
  batch_cursor : placementCursor s'.1 = placementCursor s.1;
  batch_env : env_live s'.2;
  batch_view : is_Some (view s.2) → is_Some (view s'.2);
  batch_calls : env_calls s'.2 = env_calls s.2 ++ news;
  batch_turns : ∀ j c, news !! j = Some c → P (i + j) c;
  batch_tracked : activeVMs s'.1 = foldl track (activeVMs s.1) news;
  batch_accepted : made = count_accepted news;
  batch_made : made ≤ length news ≤ made + (if err then 1 else 0);
  batch_bound : made + (if err then 1 else 0) ≤ k;
  batch_complete : err = None → made = k;
  batch_max : max (capacity s'.2) = max (capacity s.2);
  batch_current : current (capacity s'.2) = (current (capacity s.2)
    - (if err then Z.of_nat (k - made) else 0))%Z
}.

Lemma batch_nil P i s : env_live s.2 → batch P i 0 s s 0 None [].
Proof.
  intros Hok. constructor; simpl; try done; try lia.
  by rewrite app_nil_r.
Qed.

(** A successful turn in front of a batch. *)
Lemma batch_cons P i k s s1 s' c made err news :
  same_bridge s.1 s1.1 → placementCursor s1.1 = placementCursor s.1 →
  (is_Some (view s.2) → is_Some (view s1.2)) →
  env_calls s1.2 = env_calls s.2 ++ [c] → P i c → accepted c = true →
  activeVMs s1.1 = track (activeVMs s.1) c → capacity s1.2 = capacity s.2 →
  batch P (S i) k s1 s' made err news →
  batch P i (S k) s s' (S made) err (c :: news).
Proof.
  intros Hb Hcu Hv Hc HP Hacc Ha Hcap [B1 B0 B2 B3 B4 B5 B6 B6' B7 B8 B9 B10 B11].
  constructor; simpl; try done.
  - by etrans.
  - by rewrite B0.
  - auto.
  - by rewrite B4, Hc, <-app_assoc.
  - intros [|j] c' Hj; simpl in Hj; simplify_eq; [by rewrite Nat.add_0_r|].
    rewrite Nat.add_succ_r. by apply (B5 j).
  - by rewrite B6, Ha.
  - unfold count_accepted. rewrite filter_cons, decide_True by done. simpl. by rewrite B6'.
  - lia.
  - lia.
  - intros ->. by rewrite B9.
  - by rewrite B10, Hcap.
  - by rewrite B11, Hcap.
Qed.

(** ** Creating one VM *)

Definition with_world (e : E) (w : LW) : E := mkEnv w (capacity e) (view e) (ext e).

Lemma wp_VMName ss (Q : outcome string → LW → Prop) l :
  (∀ short w, len short = 8 → all_bytes hex_digit short →
     Q (Ret (vm_name_of ss short)) (mkLogged w (calls l))) →
  wp (VMName ss) Q l.
Proof.
  intros HQ. unfold VMName. apply wp_bind, wp_on_base.
  eapply wp_mono; [apply uuid_drawn|]. intros [u| |] w'; simpl; [|done..].
  intros [Hlen Hhex]. destruct (len u <? 8) eqn:Hlt; [apply Nat.ltb_lt in Hlt; lia|].
  apply wp_ret. simpl. apply (HQ (slice_to 8 u)); [rewrite slice_to_len; lia|done].
Qed.

Lemma wp_createOneVM gh cpu mem labels (Q : outcome (option error) → St → Prop) b e :
  ghClient b = logged_gh gh → gh_total gh →
  (∀ err w, calls w = env_calls e → Q (Ret (Some err)) (b, with_world e w)) →
  (∀ err w c, calls w = env_calls e ++ [c] → creates b cpu mem labels c →
     accepted c = false → Q (Ret (Some err)) (b, with_world e w)) →
  (∀ w c, calls w = env_calls e ++ [c] → creates b cpu mem labels c →
     accepted c = true →
     Q (Ret None) (set_activeVMs (track (activeVMs b) c) b, with_world e w)) →
  wp (createOneVM cpu mem labels) Q (b, e).
Proof.
  intros Hgh (Hjit & _ & _) Hjiterr Hcreateerr Hok.
  unfold createOneVM, this. wp_go. unfold on_env, on_world. wp_go.
  apply wp_VMName. intros short w1 Hlen Hhex. simpl. wp_go.
  rewrite Hgh. simpl. apply wp_on_base_total; [apply Hjit|].
  intros [cfg|err] w2; simpl.
  2:{ apply wp_ret. by apply Hjiterr. }
  wp_go. apply wp_logged_CreateVM.
  set (vm := vmSpec b (vm_name_of (scaleSetName b) short)
      (StartupScript cfg (cfg_DockerPort (vmConfig b))) cpu mem labels).
  assert (∀ ok, creates b cpu mem labels (CallCreateVM vm ok)) as Hc.
  { intros ok. by exists short, (StartupScript cfg (cfg_DockerPort (vmConfig b))), ok. }
  intros [vm'|err] w3 Hw3; simpl; unfold on_bridge; wp_go.
  - by apply (Hok w3 (CallCreateVM vm true)).
  - by apply (Hcreateerr _ w3 (CallCreateVM vm false)).
Qed.

(** ** The loops *)

Context (Hhooks : hooks_ok).

Lemma wp_notifyChange (Q : outcome unit → St → Prop) b e :
  env_live e →
  (∀ e', env_live e' → (is_Some (view e) → is_Some (view e')) →
     capacity e' = capacity e → env_calls e' = env_calls e → Q (Ret tt) (b, e')) →
  wp (notifyChange hooks) Q (b, e).
Proof.
  intros He HQ. pose proof He as [Hok Hlive]. unfold notifyChange, on_env. wp_go. unfold call_opt.
  destruct (onVMChange hooks) as [m|] eqn:Hm; [|by apply wp_ret, HQ].
  destruct Hlive as [Hv|[? _]]; [|congruence].
  eapply wp_mono; [by apply (onVMChange_ok Hhooks m Hm)|].
  intros [[]| |] e'; simpl; [|done..]. intros (? & ? & ? & ?). apply HQ; try done.
  split; [done|by left].
Qed.

(** The error path of both loops: give back [r] slots and report the change. *)
Lemma wp_give_up (P : nat → Call → Prop) i k s b e err news
    (Q : outcome (Z * option error) → St → Prop) (r : Z) (n : Z) :
  env_live e → same_bridge s.1 b → placementCursor b = placementCursor s.1 →
  (is_Some (view s.2) → is_Some (view e)) →
  env_calls e = env_calls s.2 ++ news → length news ≤ 1 →
  Forall (λ c, accepted c = false) news →
  (∀ j c, news !! j = Some c → P (i + j) c) →
  activeVMs b = activeVMs s.1 → capacity e = capacity s.2 →
  cap_small (capacity s.2) → r = Z.of_nat (S k) →
  (r ≤ current (capacity s.2))%Z →
  (∀ s', batch P i (S k) s s' 0 (Some err) news → Q (Ret (n, Some err)) s') →
  wp (on_env (cap_Release r);; notifyChange hooks;; mret (n, Some err)) Q (b, e).
Proof.
  intros Hok Hb Hcu Hv Hc Hlen Hrej HP Ha Hcap [Hs1 Hs2] -> Hr HQ.
  unfold on_env, cap_Release, on_capacity. wp_go.
  rewrite Hcap, Release_spec by (unfold cap_small, small in *; lia).
  apply wp_notifyChange; [done|]. simpl. intros e' Hok' Hv' Hcap' Hc'.
  apply wp_ret, HQ. constructor; simpl; try done; try lia.
  - auto.
  - rewrite Hc'. simpl. unfold env_calls in *. by rewrite <-Hc.
  - by rewrite Ha, (proj1 (refused_calls _ _ Hrej)).
  - by rewrite (proj2 (refused_calls ∅ _ Hrej)).
  - by rewrite Hcap'.
  - rewrite Hcap'. simpl. lia.
Qed.

Lemma wp_create_loop gh k : ∀ acquired created i s
    (Q : outcome (Z * option error) → St → Prop),
  ghClient s.1 = logged_gh gh → gh_total gh → env_live s.2 →
  cap_small (capacity s.2) → (Z.of_nat k ≤ current (capacity s.2))%Z →
  acquired = (created + Z.of_nat k)%Z →
  (∀ s' made err news,
     batch (λ _, creates s.1 (cfg_CPU (vmConfig s.1)) (cfg_Memory (vmConfig s.1))
                   (cfg_Labels (vmConfig s.1))) i k s s' made err news →
     Q (Ret (created + Z.of_nat made, err)%Z) s') →
  wp (create_loop hooks acquired created k) Q s.
Proof.
  induction k as [|k IH]; intros acquired created i [b e] Q Hgh Hgt Hok Hs Hcur -> HQ;
    simpl in *; set (P := λ _ : nat, creates b _ _ _) in HQ.
  { apply wp_ret. specialize (HQ (b, e) 0 None []). rewrite Z.add_0_r in HQ.
    by apply HQ, (batch_nil _ _ (b, e)). }
  unfold this. wp_go.
  apply (wp_createOneVM gh); [done|done|..].
  - intros err w Hw. simpl.
    eapply (wp_give_up P i k (b, e) _ _ err []); simpl; try done; try lia.
    { by rewrite app_nil_r. }
    intros s' Hb. specialize (HQ s' 0 (Some err) []). rewrite Z.add_0_r in HQ. by apply HQ.
  - intros err w c Hw Hc Hrej. simpl.
    eapply (wp_give_up P i k (b, e) _ _ err [c]); simpl; try done; try lia.
    { by constructor. }
    { intros [|j] c' Hj; simpl in Hj; [by simplify_eq|done]. }
    intros s' Hb. specialize (HQ s' 0 (Some err) [c]). rewrite Z.add_0_r in HQ. by apply HQ.
  - intros w c Hw Hc Hacc. simpl.
    eapply (IH _ (created + 1)%Z (S i)); simpl; try done; try lia.
    intros s' made err news Hbatch.
    specialize (HQ s' (S made) err (c :: news)).
    replace (created + 1 + Z.of_nat made)%Z with (created + Z.of_nat (S made))%Z by lia.
    apply HQ. eapply (batch_cons P i k (b, e)); [..|exact Hbatch]; try done.
Qed.
(** Turn [i] of an AutoSize batch that starts at [start] makes the call for the
    worker at [(start + i) mod len(candidates)], sized and pinned to it. *)
Definition pinned (b : Bridge LW) (candidates : list Worker) (c m start : Z)
    (i : nat) (call : Call) : Prop :=
  ∃ w cpu mem,
    candidates !! Z.to_nat ((start + Z.of_nat i) mod Z.of_nat (length candidates)) = Some w ∧
    AutoSizedVM w c m = OK (cpu, mem) ∧
    creates b cpu mem (mergePinLabel (cfg_Labels (vmConfig b)) (PinIdentity w)) call.

Lemma wp_index {A} (l : list A) z (Q : outcome A → St → Prop) s :
  l ≠ [] → (0 ≤ z < two63)%Z →
  (∀ x, l !! Z.to_nat (z mod Z.of_nat (length l)) = Some x → Q (Ret x) s) →
  wp (index l (go_rem (int64 z) (Z.of_nat (length l)))) Q s.
Proof.
  intros Hl Hz HQ. rewrite int64_id by (unfold in_int64; lia).
  assert (0 < Z.of_nat (length l))%Z by (destruct l; [done|simpl; lia]).
  unfold go_rem, index. rewrite Z.rem_mod_nonneg by lia.
  pose proof (Z.mod_pos_bound z (Z.of_nat (length l)) ltac:(lia)) as Hb.
  rewrite (proj2 (Z.ltb_ge _ _)) by lia.
  destruct (l !! Z.to_nat _) as [x|] eqn:Hx; [by apply wp_ret, HQ|].
  apply lookup_ge_None in Hx. lia.
Qed.

Lemma wp_autosize_loop gh candidates c m start acquired k :
  candidates ≠ [] → (∀ w, w ∈ candidates → ∃ r, AutoSizedVM w c m = OK r) →
  (0 ≤ start)%Z →
  ∀ created i s (Q : outcome (Z * option error) → St → Prop),
  ghClient s.1 = logged_gh gh → gh_total gh → env_live s.2 →
  cap_small (capacity s.2) → (Z.of_nat k ≤ current (capacity s.2))%Z →
  acquired = (created + Z.of_nat k)%Z → (start + Z.of_nat i + Z.of_nat k < two63)%Z →
  (∀ s' made err news,
     batch (pinned s.1 candidates c m start) i k s s' made err news →
     Q (Ret (created + Z.of_nat made, err)%Z) s') →
  wp (autosize_loop hooks candidates c m start acquired created 0 (Z.of_nat i) k) Q s.
Proof.
  intros Hne Hsized Hstart.
  induction k as [|k IH]; intros created i [b e] Q Hgh Hgt Hok Hs Hcur -> Hroom HQ;
    simpl in *; set (P := pinned b candidates c m start) in HQ.
  { apply wp_ret. specialize (HQ (b, e) 0 None []). rewrite Z.add_0_r in HQ.
    by apply HQ, (batch_nil _ _ (b, e)). }
  apply wp_bind, wp_index; [done|lia|]. intros w Hw. simpl.
  destruct (Hsized w) as [[cpu mem] Hsz]; [by eapply list_elem_of_lookup_2|].
  rewrite Hsz. unfold this. wp_go. unfold doCreateOneVM. rewrite (production Hhooks).
  assert (∀ call, creates b cpu mem (mergePinLabel (cfg_Labels (vmConfig b))
            (PinIdentity w)) call → P i call) as HP by (intros; by exists w, cpu, mem).
  apply (wp_createOneVM gh); [done|done|..].
  - intros err w' Hw'. simpl. rewrite Z.sub_0_r.
    eapply (wp_give_up P i k (b, e) _ _ err []); simpl; try done; try lia.
    { by rewrite app_nil_r. }
    intros s' Hb. specialize (HQ s' 0 (Some err) []). rewrite Z.add_0_r in HQ. by apply HQ.
  - intros err w' call Hw' Hc Hrej. simpl. rewrite Z.sub_0_r.
    eapply (wp_give_up P i k (b, e) _ _ err [call]); simpl; try done; try lia.
    { by constructor. }
    { intros [|j] c' Hj; simpl in Hj; [|done]. rewrite Nat.add_0_r.
      simplify_eq. by apply HP. }
    intros s' Hb. specialize (HQ s' 0 (Some err) [call]). rewrite Z.add_0_r in HQ. by apply HQ.
  - intros w' call Hw' Hc Hacc. simpl.
    replace (Z.of_nat i + 1)%Z with (Z.of_nat (S i)) by lia.
    eapply (IH (created + 1)%Z (S i)); simpl; try done; try lia.
    intros s' made err news Hbatch.
    specialize (HQ s' (S made) err (call :: news)).
    replace (created + 1 + Z.of_nat made)%Z with (created + Z.of_nat (S made))%Z by lia.
    apply HQ. eapply (batch_cons P i k (b, e)); [..|exact Hbatch]; try done. by apply HP.
Qed.
(** ** The handlers *)

(** How a scale-up call bounded by [limit] ends: [made] VMs were created for
    calls that satisfy [P] of their turn, the semaphore holds [made] slots more,
    and without an error everything the limit and the semaphore allow was
    created. *)
Record scaled (P : nat → Call → Prop) (limit : Z) (s s' : St) (made : nat)
    (err : option error) (news : list Call) : Prop := {
  scaled_bridge : same_bridge s.1 s'.1;
  scaled_env : env_live s'.2;
  scaled_calls : env_calls s'.2 = env_calls s.2 ++ news;
  scaled_turns : ∀ j c, news !! j = Some c → P j c;
  scaled_tracked : activeVMs s'.1 = foldl track (activeVMs s.1) news;
  scaled_accepted : made = count_accepted news;
  scaled_made : made ≤ length news ≤ made + (if err then 1 else 0);
  scaled_limit : (Z.of_nat (made + if err then 1 else 0) ≤
    Z.max 0 (Z.min limit (max (capacity s.2) - current (capacity s.2))))%Z;
  scaled_complete : err = None → Z.of_nat made =
    Z.max 0 (Z.min limit (max (capacity s.2) - current (capacity s.2)));
  scaled_max : max (capacity s'.2) = max (capacity s.2);
  scaled_current : current (capacity s'.2) = (current (capacity s.2) + Z.of_nat made)%Z
}.

(** A call that creates nothing. *)
Lemma scaled_none P limit b e e' :
  env_live e' → env_calls e' = env_calls e → capacity e' = capacity e →
  (Z.min limit (max (capacity e) - current (capacity e)) ≤ 0)%Z →
  scaled P limit (b, e) (b, e') 0 None [].
Proof.
  intros Hok Hc Hcap Hle. constructor; simpl; try done; try lia.
  - by rewrite app_nil_r.
  - by rewrite Hcap.
  - rewrite Hcap. lia.
Qed.

(** A batch of [k] turns after [k] slots were taken from the semaphore. *)
Lemma scaled_of_batch P limit k s s1 s' made err news :
  cap_small (capacity s.2) → 
  batch P 0 k s1 s' made err news →
  Z.of_nat k = Z.max 0 (Z.min limit (max (capacity s.2) - current (capacity s.2))) →
  same_bridge s.1 s1.1 → activeVMs s1.1 = activeVMs s.1 →
  env_calls s1.2 = env_calls s.2 →
  max (capacity s1.2) = max (capacity s.2) →
  current (capacity s1.2) = (current (capacity s.2) + Z.of_nat k)%Z →
  scaled P limit s s' made err news.
Proof.
  intros Hs [B1 B0 B2 B3 B4 B5 B6 B6' B7 B8 B9 B10 B11] Hk Hb Ha Hc Hm Hcur.
  constructor; try done.
  - by etrans.
  - by rewrite B4, Hc.
  - by rewrite B6, Ha.
  - rewrite <-Hk. lia.
  - rewrite <-Hk. intros ->. by rewrite B9.
  - by rewrite B10.
  - rewrite B11, Hcur. destruct err; [lia|]. rewrite B9 by done. lia.
Qed.

(** The end of a batch without an error. *)
Lemma wp_finish {A} P i k s made news (r : A) (Q : outcome A → St → Prop) s1 :
  batch P i k s s1 made None news →
  (∀ s', batch P i k s s' made None news → Q (Ret r) s') →
  wp (invalidate;; notifyChange hooks;; mret r) Q s1.
Proof.
  destruct s1 as [b e]. intros [B1 B0 B2 B3 B4 B5 B6 B6' B7 B8 B9 B10 B11] HQ; simpl in *.
  unfold invalidate, on_env, state_Invalidate. wp_go.
  apply wp_notifyChange.
  { destruct B2 as [Hok Hlive]. split; [|by destruct Hlive as [[sv Hv]|?];
      [left; simpl; rewrite Hv; eexists|right]].
    unfold env_ok in *. simpl. destruct (view e) as [sv|]; [|done].
    destruct Hok as [Hidle _]. by split. }
  simpl. intros e' Hok Hv Hcap Hcalls. apply wp_ret, HQ.
  constructor; simpl; rewrite ?Hcap; try done.
  - intros Hsome. apply Hv. destruct (B3 Hsome) as [sv ->]. by eexists.
  - by rewrite Hcalls.
Qed.

(** Taking slots from the semaphore. *)
Lemma wp_acquire n (Q : outcome Z → St → Prop) b e :
  cap_small (capacity e) → (0 ≤ n)%Z →
  (∀ a e', a = Z.max 0 (Z.min n (max (capacity e) - current (capacity e))) →
     e' = mkEnv (world e) (mkCapacity (current (capacity e) + a) (max (capacity e))
            (callbacks (capacity e))) (view e) (ext e) →
     Q (Ret a) (b, e')) →
  wp (on_env (cap_TryAcquire n)) Q (b, e).
Proof.
  intros Hs Hn HQ. unfold on_env, cap_TryAcquire, on_capacity. wp_go.
  rewrite TryAcquire_spec by done. by eapply HQ.
Qed.

(** What the controller reports, bounded as in any real fleet. *)
Record fleet_ok : Prop := {
  fleet_vms : ∀ vms, Pv vms → (Z.of_nat (length vms) < 4611686018427387904)%Z;
  fleet_slots : ∀ ws, Pw ws → slots_ok ws;
  fleet_resources : ∀ ws, Pw ws → Forall resources_ok ws
}.

Lemma snapshot_live sn :
  snapshot_of Pv Pw sn → ∃ ws, Pw ws ∧ snap_Workers sn `sublist_of` ws.
Proof. intros (vms & ws & at_ & stale & _ & H & ->). exists ws. split; [done|]. apply LiveWorkers_sublist. Qed.

Lemma snapshot_vms sn :
  snapshot_of Pv Pw sn → Pv (VMs sn).
Proof. by intros (vms & ws & at_ & stale & H & _ & ->). Qed.
(** The slots left for a set of labels: those of the live, unpaused, matching
    workers, less the managed VMs alive that occupy one. *)
Definition free_slots (sn : Snapshot) (labels : gmap string string) : Z :=
  (sum_slots (λ w, unpaused w && workerMatchesLabels w labels) (snap_Workers sn)
   - Z.of_nat (length (filter (λ vm, vm_terminal vm = false)
                         (ManagedVMsMatchingLabels sn labels))))%Z.

Lemma countActiveVMs_from_spec n vms :
  countActiveVMs_from n vms
  = (n + Z.of_nat (length (filter (λ vm, vm_terminal vm = false) vms)))%Z.
Proof.
  revert n. induction vms as [|vm vms IH]; intros n; simpl; [lia|].
  rewrite IH, filter_cons. destruct (vm_terminal vm); case_decide; simpl; done || lia.
Qed.

Lemma free_slots_computed sn labels :
  fleet_ok → snapshot_of Pv Pw sn →
  int64 (CapacityForLabels (snap_Workers sn) labels
         - countActiveVMs (ManagedVMsMatchingLabels sn labels)) = free_slots sn labels.
Proof.
  intros Hfleet Hsn. destruct (snapshot_live sn Hsn) as (ws & Hws & Hsub).
  pose proof (slots_ok_sublist _ _ Hsub (fleet_slots Hfleet ws Hws)) as Hok.
  pose proof (fleet_vms Hfleet _ (snapshot_vms sn Hsn)) as Hlen.
  rewrite (CapacityForLabels_sum _ _ Hok).
  unfold countActiveVMs. rewrite countActiveVMs_from_spec, Z.add_0_l.
  apply int64_id. unfold in_int64.
  destruct Hok as [Hall Hlt].
  pose proof (sum_slots_bounds (λ w, unpaused w && workerMatchesLabels w labels) _ Hall).
  assert (length (filter (λ vm, vm_terminal vm = false)
            (ManagedVMsMatchingLabels sn labels)) ≤ length (VMs sn)).
  { etrans; [apply length_filter|]. apply length_filter. }
  unfold free_slots, two63 in *. lia.
Qed.

(** The limit of a fixed-size scale set: what is asked for, and, with a shared
    cache, the free slots of the snapshot it gives; nothing if it gives none. *)
Definition fixed_limit (b : Bridge LW) (e : E) (needed limit : Z) : Prop :=
  match view e with
  | None => limit = needed
  | Some _ => ∃ osn err, gets e (osn, err) ∧
      match osn with
      | None => limit = 0%Z
      | Some sn => snapshot_of Pv Pw sn ∧ limit = Z.min needed (free_slots sn (VMLabels b))
      end
  end.

Lemma wp_clamp_needed needed b e (Q : outcome (option Z) → St → Prop) :
  env_live e → fleet_ok → (0 < needed)%Z →
  (∀ r e', env_live e' → env_calls e' = env_calls e → capacity e' = capacity e →
     match r with
     | Some n => (0 < n ≤ needed)%Z ∧ fixed_limit b e needed n
     | None => ∃ n, (n ≤ 0)%Z ∧ fixed_limit b e needed n
     end → Q (Ret r) (b, e')) →
  wp (clamp_needed needed) Q (b, e).
Proof.
  intros Hok Hfleet Hn HQ. unfold clamp_needed, has_state, this, on_env. wp_go.
  destruct (view e) as [sv|] eqn:Hv; simpl; unfold fixed_limit in HQ; rewrite Hv in HQ.
  2:{ apply wp_ret, HQ; try done. }
  wp_go. apply (wp_state_Get_gets Pv Pw); [by destruct Hok|by eexists|].
  intros osn err e' Hgets Hok' Hv' Hcap _ Hcalls Hsn _.
  assert (env_live e') as Hlive' by (split; [done|by left]). simpl.
  destruct osn as [sn|]; simpl; wp_go.
  2:{ apply HQ; try done. exists 0%Z. split; [lia|]. by exists None, err. }
  specialize (Hsn sn eq_refl).
  rewrite (free_slots_computed sn _ Hfleet Hsn).
  destruct (Z.leb_spec (free_slots sn (cfg_Labels (vmConfig b))) 0); apply wp_ret, HQ; try done.
  - exists (Z.min needed (free_slots sn (cfg_Labels (vmConfig b)))).
    split; [lia|]. by exists (Some sn), err.
  - split; [lia|]. by exists (Some sn), err.
Qed.

(** Counts far from the ends of [int]. *)
Definition count_ok (b : Bridge LW) (count : Z) : Prop :=
  small count ∧ (ActiveVMCount b < 4611686018427387904)%Z.

Lemma needed_exact b count : count_ok b count →
  int64 (count - ActiveVMCount b) = (count - ActiveVMCount b)%Z.
Proof.
  intros [Hc Hl]. apply int64_small_sub; [done|]. unfold small, ActiveVMCount in *. lia.
Qed.

Lemma wp_fixed_scale_up gh count b e (Q : outcome (Z * option error) → St → Prop) :
  ghClient b = logged_gh gh → gh_total gh → env_live e → fleet_ok →
  cap_small (capacity e) → (0 ≤ current (capacity e))%Z → count_ok b count →
  AutoSizeEnabled b = false →
  (∀ limit s' made err news,
     (limit ≤ Z.max 0 (count - ActiveVMCount b))%Z →
     (count ≤ ActiveVMCount b ∧ limit = 0 ∨
      fixed_limit b e (count - ActiveVMCount b) limit)%Z →
     scaled (λ _, creates b (cfg_CPU (vmConfig b)) (cfg_Memory (vmConfig b))
                    (cfg_Labels (vmConfig b))) limit (b, e) s' made err news →
     placementCursor s'.1 = placementCursor b →
     Q (Ret (ActiveVMCount b + Z.of_nat made, err)%Z) s') →
  wp (HandleDesiredRunnerCount hooks count) Q (b, e).
Proof.
  intros Hgh Hgt Hok Hfleet Hs Hcur Hcount Hfix HQ.
  assert (∀ limit e', (limit ≤ Z.max 0 (count - ActiveVMCount b))%Z →
    (count ≤ ActiveVMCount b ∧ limit = 0 ∨
      fixed_limit b e (count - ActiveVMCount b) limit)%Z →
    env_live e' → env_calls e' = env_calls e → capacity e' = capacity e →
    (Z.min limit (max (capacity e) - current (capacity e)) ≤ 0)%Z →
    Q (Ret (ActiveVMCount b, None)) (b, e')) as Hnone.
  { intros limit e' Hle Hlim ????. rewrite <-(Z.add_0_r (ActiveVMCount b)).
    apply (HQ limit _ 0 None []); [done..|by apply scaled_none|done]. }
  unfold HandleDesiredRunnerCount, this. wp_go. rewrite needed_exact by done.
  destruct (Z.leb_spec (count - ActiveVMCount b) 0) as [Hneed|Hneed].
  { apply wp_ret, (Hnone 0%Z); try done; lia. }
  rewrite Hfix. apply wp_bind, wp_clamp_needed; [done..|].
  intros [n|] e' Hok' Hcalls Hcap Hlim; simpl.
  2:{ destruct Hlim as (n & Hn & Hlim). apply wp_ret, (Hnone n); try done; [lia|by right|lia]. }
  destruct Hlim as [Hn Hlim].
  apply wp_bind, wp_acquire; [by rewrite Hcap|lia|]. intros a e1 Ha ->. simpl.
  rewrite Hcap in *.
  destruct (Z.eqb_spec a 0) as [->|Ha0].
  { apply wp_ret, (Hnone n); try done; [lia|by right| |lia].
    simpl. rewrite Z.add_0_r. by destruct (capacity e). }
  set (e1 := mkEnv _ _ _ _). apply wp_bind.
  apply (wp_create_loop gh _ _ _ 0); try done; simpl.
  - unfold cap_small, small in *. simpl. lia.
  - lia.
  - lia.
  - intros s' made err news Hbatch. simpl.
    assert (∀ s'', batch (λ _, creates b (cfg_CPU (vmConfig b)) (cfg_Memory (vmConfig b))
                    (cfg_Labels (vmConfig b))) 0 (Z.to_nat a) (b, e1) s'' made err news →
      Q (Ret (ActiveVMCount b + Z.of_nat made, err)%Z) s'') as Hend.
    { intros s'' Hb. apply (HQ n _ _ _ news); [lia|by right|..].
      - eapply (scaled_of_batch _ _ (Z.to_nat a) (b, e) (b, e1)); try done; simpl; lia.
      - exact (batch_cursor _ _ _ _ _ _ _ _ Hb). }
    destruct err as [err|]; [by apply wp_ret, Hend|].
    eapply wp_finish; [done|]. intros s''. apply Hend.
Qed.
(** What an AutoSize bridge reserves on a worker, and the workers a snapshot
    offers it. *)
Definition reserves (b : Bridge LW) : Z * Z :=
  AutoSizeReserves (AutoSizeReserveConfig b).1 (AutoSizeReserveConfig b).2.

Definition offered (b : Bridge LW) (sn : Snapshot) : list Worker :=
  freeAutoSizeWorkers (snap_Workers sn) (VMs sn) (VMLabels b) (reserves b).1 (reserves b).2.

(** Unsigned reserves, and a cursor that has not come near its end. *)
Definition autosize_ok (b : Bridge LW) : Prop :=
  in_uint64 (AutoSizeReserveConfig b).1 ∧ in_uint64 (AutoSizeReserveConfig b).2 ∧
  (0 ≤ placementCursor b < 4611686018427387904)%Z.

Lemma reserves_nonneg b : autosize_ok b → (0 ≤ (reserves b).1)%Z ∧ (0 ≤ (reserves b).2)%Z.
Proof.
  unfold autosize_ok, reserves, AutoSizeReserves, in_uint64,
    DefaultAutoSizeReserveCPU, DefaultAutoSizeReserveMemoryMiB.
  destruct (AutoSizeReserveConfig b) as [c m]. simpl. intros (H1 & H2 & _).
  destruct (Z.eqb_spec c 0), (Z.eqb_spec m 0); lia.
Qed.

Lemma offered_sized b sn w :
  fleet_ok → autosize_ok b → snapshot_of Pv Pw sn → w ∈ offered b sn →
  AutoSizedVM w (reserves b).1 (reserves b).2
  = OK (resource w resourceLogicalCores - (reserves b).1,
        resource w resourceMemoryMiB - (reserves b).2)%Z
  ∧ (0 < resource w resourceLogicalCores - (reserves b).1)%Z
  ∧ (0 < resource w resourceMemoryMiB - (reserves b).2)%Z.
Proof.
  intros Hfleet [Hc Hm]%reserves_nonneg Hsn Hin.
  apply elem_of_free in Hin as (Hin & _ & Helig).
  destruct (snapshot_live sn Hsn) as (ws & Hws & Hsub).
  eapply AutoSizedVM_eligible; try done.
  pose proof (fleet_resources Hfleet ws Hws) as Hall. rewrite Forall_forall in Hall.
  by apply Hall, (sublist_subseteq _ _ Hsub).
Qed.

(** Why an AutoSize scale set is offered no workers: nothing is asked for, or
    there is no cache, or the cache gives no snapshot. *)
Definition no_offer (e : E) (needed : Z) : Prop :=
  (needed ≤ 0)%Z ∨ view e = None ∨ ∃ err, gets e (None, err).

(** The limit of an AutoSize scale set: what is asked for, and the workers that
    the snapshot of the cache offers. *)
Definition auto_limit (b : Bridge LW) (e : E) (needed limit : Z)
    (candidates : list Worker) : Prop :=
  (limit = 0%Z ∧ candidates = [] ∧ no_offer e needed) ∨
  (∃ sn err, gets e (Some sn, err) ∧ snapshot_of Pv Pw sn ∧ candidates = offered b sn ∧
     limit = Z.min needed (Z.of_nat (length candidates))).

Lemma wp_advance_cursor a b e (Q : outcome Z → St → Prop) :
  autosize_ok b → (0 ≤ a ≤ 4611686018427387904)%Z →
  Q (Ret (placementCursor b)) (set_cursor (placementCursor b + a) b, e) →
  wp (advance_cursor a) Q (b, e).
Proof.
  intros (_ & _ & Hc) Ha HQ. unfold advance_cursor, on_bridge. wp_go.
  rewrite (uint64_id (_ + _)) by (unfold in_uint64, two64; lia).
  rewrite Z.add_simpl_r, uint64_id by (unfold in_uint64, two64; lia).
  rewrite int64_id by (unfold in_int64, two63; lia). done.
Qed.

(** The part of an AutoSize scale-up after [a] slots were taken: the cursor, the
    batch, and what follows it. *)
Lemma wp_auto_batch gh b sn a e1 active (Q : outcome (Z * option error) → St → Prop) :
  ghClient b = logged_gh gh → gh_total gh → env_live e1 → fleet_ok → autosize_ok b →
  snapshot_of Pv Pw sn → offered b sn ≠ [] → cap_small (capacity e1) →
  (0 ≤ a ≤ current (capacity e1))%Z →
  (∀ s' made err news,
     batch (pinned b (offered b sn) (reserves b).1 (reserves b).2 (placementCursor b)) 0
       (Z.to_nat a) (set_cursor (placementCursor b + a) b, e1) s' made err news →
     Q (Ret (active + Z.of_nat made, err)%Z) s') →
  wp (start ← advance_cursor a;
      '(created, err) ← autosize_loop hooks (offered b sn) (reserves b).1 (reserves b).2
                          start a 0 0 0 (Z.to_nat a);
      match err with
      | Some e => mret ((active + created)%Z, Some e)
      | None => invalidate;; notifyChange hooks;; mret ((active + created)%Z, None)
      end) Q (b, e1).
Proof.
  intros Hgh Hgt Hlive Hfleet Haok Hsn Hne [Hcs Hms] Ha HQ. unfold small in Hcs, Hms.
  pose proof Haok as (_ & _ & Hcu).
  apply wp_bind, wp_advance_cursor; [done|lia|]. simpl. apply wp_bind.
  apply (wp_autosize_loop gh (offered b sn) (reserves b).1 (reserves b).2
    (placementCursor b) a (Z.to_nat a)) with (i := 0); try done; simpl.
  - intros w Hw. eexists. by apply (offered_sized b sn w).
  - lia.
  - lia.
  - lia.
  - unfold two63. lia.
  - intros s' made err news Hbatch. simpl.
    destruct err as [err|]; [by apply wp_ret, (HQ s' made (Some err) news)|].
    eapply wp_finish; [exact Hbatch|]. intros s''. apply HQ.
Qed.

Lemma wp_auto_scale_up gh count b e (Q : outcome (Z * option error) → St → Prop) :
  ghClient b = logged_gh gh → gh_total gh → env_live e → fleet_ok →
  cap_small (capacity e) → (0 ≤ current (capacity e))%Z → count_ok b count →
  AutoSizeEnabled b = true → autosize_ok b →
  (∀ limit candidates s' made err news,
     (limit ≤ Z.max 0 (count - ActiveVMCount b))%Z →
     (auto_limit b e (count - ActiveVMCount b) limit candidates)%Z →
     scaled (pinned b candidates (reserves b).1 (reserves b).2 (placementCursor b))
       limit (b, e) s' made err news →
     placementCursor s'.1 = (placementCursor b +
       Z.max 0 (Z.min limit (max (capacity e) - current (capacity e))))%Z →
     Q (Ret (ActiveVMCount b + Z.of_nat made, err)%Z) s') →
  wp (HandleDesiredRunnerCount hooks count) Q (b, e).
Proof.
  intros Hgh Hgt Hok Hfleet Hs Hcur Hcount Hauto Haok HQ.
  assert (∀ limit candidates e', (limit ≤ Z.max 0 (count - ActiveVMCount b))%Z →
    auto_limit b e (count - ActiveVMCount b) limit candidates →
    env_live e' → env_calls e' = env_calls e → capacity e' = capacity e →
    (Z.min limit (max (capacity e) - current (capacity e)) ≤ 0)%Z →
    Q (Ret (ActiveVMCount b, None)) (b, e')) as Hnone.
  { intros limit candidates e' Hle Hlim ????. rewrite <-(Z.add_0_r (ActiveVMCount b)).
    apply (HQ limit candidates _ 0 None []); [done..|by apply scaled_none|]. simpl. lia. }
  unfold HandleDesiredRunnerCount, this. wp_go. rewrite needed_exact by done.
  destruct (Z.leb_spec (count - ActiveVMCount b) 0) as [Hneed|Hneed].
  { apply wp_ret, (Hnone 0%Z []); try done; [lia|by left; do 2 (split; [done|]); left|lia]. }
  rewrite Hauto. unfold handleAutoSizeScaleUp, has_state, this. wp_go.
  destruct (view e) as [sv|] eqn:Hv; simpl.
  2:{ apply wp_ret, (Hnone 0%Z []); try done; [lia| |lia].
      left. do 2 (split; [done|]). by right; left. }
  apply wp_bind. unfold on_env at 1. wp_go.
  apply (wp_state_Get_gets Pv Pw); [by destruct Hok|by eexists|].
  intros osn serr e' Hgets Hok' Hv' Hcap _ Hcalls Hsn _.
  assert (env_live e') as Hlive' by (split; [done|by left]). simpl.
  destruct osn as [sn|].
  2:{ apply wp_ret, (Hnone 0%Z []); try done; [lia| |lia].
      left. do 2 (split; [done|]). right; right. by exists serr. }
  specialize (Hsn sn eq_refl). wp_go.
  change (freeAutoSizeWorkers _ _ _ _ _) with (offered b sn).
  set (n := Z.min (count - ActiveVMCount b) (Z.of_nat (length (offered b sn)))).
  assert (auto_limit b e (count - ActiveVMCount b) n (offered b sn)) as Hlim.
  { right. by exists sn, serr. }
  case_decide as Hlen.
  { apply wp_ret, (Hnone n (offered b sn)); try done; lia. }
  apply wp_bind, wp_acquire; [by rewrite Hcap|lia|]. intros a e1 Ha ->. simpl.
  rewrite Hcap in *.
  destruct (Z.eqb_spec a 0) as [->|Ha0].
  { apply wp_ret, (Hnone n (offered b sn)); try done; [lia| |lia].
    simpl. rewrite Z.add_0_r. by destruct (capacity e). }
  set (e1 := mkEnv _ _ _ _). destruct Hs as [Hcs Hms].
  pose proof Hcount as [Hsmall Hact]. unfold small, ActiveVMCount in Hsmall, Hact, Hcs, Hms.
  apply (wp_auto_batch gh b sn a e1); try done; simpl.
  - by intros Heq; rewrite Heq in Hlen.
  - unfold cap_small, small. simpl. lia.
  - lia.
  - intros s' made err news Hb. apply (HQ n (offered b sn) _ _ _ news); [lia|done| |].
    + by eapply (scaled_of_batch _ _ (Z.to_nat a) (b, e) (set_cursor (placementCursor b + a) b, e1));
        try done; simpl; unfold cap_small, small; lia.
    + rewrite (batch_cursor _ _ _ _ _ _ _ _ Hb). simpl. lia.
Qed.
End ScaleUp.
