(* ===== verification/Scaling.v ===== *)
(** * What a scale-up does

    The properties of [HandleDesiredRunnerCount], from the rules of
    BridgeScaleUp, with their witnesses. *)

From S2P Require Import Prelude GoBase Orchard VMNames Workers AutoSize Capacity.
From S2P Require Import StateView Config Env Bridge Sample BridgeScaleUp.

Section Scaling.
Context {W CB X : Type} `{!OrchardClient W} `{!Clock W} `{!UUIDSource W}.
Context `{!ClientTotal W} `{!UUIDLaw W}.
Context (Pv : list VM → Prop) (Pw : list Worker → Prop) `{!Reports W Pv Pw}.
Context (hooks : Hooks (Logged W) CB X) (gh : GHClient W).

(** A bridge and its environment as they are between two handlers, and a
    request within range. *)
Record ready (b : Bridge (Logged W)) (e : Env (Logged W) CB X) (count : Z) : Prop := {
  ready_hooks : hooks_ok Pv Pw hooks;
  ready_gh : ghClient b = logged_gh gh;
  ready_gh_total : gh_total gh;
  ready_env : env_live Pv Pw hooks e;
  ready_fleet : fleet_ok Pv Pw;
  ready_capacity : cap_small (capacity e);
  ready_current : (0 ≤ current (capacity e))%Z;
  ready_count : count_ok b count;
  ready_autosize : autosize_ok b
}.

(** One more when the run stopped at an error. *)
Definition failed (err : option error) : nat := if err then 1 else 0.

(** The room the scale set and the semaphore leave. *)
Definition room (b : Bridge (Logged W)) (e : Env (Logged W) CB X) (count : Z) : Z :=
  Z.max 0 (Z.min (count - ActiveVMCount b) (max (capacity e) - current (capacity e))).

(** C1: a call of [HandleDesiredRunnerCount] always returns, and on every
    path (nothing to do, no snapshot, no free slot, semaphore exhausted, an
    error in the middle of a batch, success; fixed size and AutoSize) it reports
    the VMs tracked before plus those the controller accepted; it attempts no more creations
    than the missing runners and the free slots of the semaphore; each VM
    created is tracked under its own name; and the semaphore holds exactly one
    more slot per VM created, what was acquired for the others being given
    back. *)
Theorem HandleDesiredRunnerCount_accounting b e count :
  ready b e count →
  wp (HandleDesiredRunnerCount hooks count)
     (returns (λ '(n, err) '(b', e'), ∃ made news,
        n = (ActiveVMCount b + Z.of_nat made)%Z ∧ made = count_accepted news ∧
        (Z.of_nat (made + failed err) ≤ room b e count)%Z ∧
        env_calls e' = env_calls e ++ news ∧
        made ≤ length news ≤ made + failed err ∧
        Forall (λ c, ∃ cpu mem labels, creates b cpu mem labels c) news ∧
        activeVMs b' = foldl track (activeVMs b) news ∧
        max (capacity e') = max (capacity e) ∧
        current (capacity e') = (current (capacity e) + Z.of_nat made)%Z)) (b, e).
Proof.
  intros [Hh Hgh Hgt Hok Hfl Hs Hcur Hcnt Hau].
  assert (∀ P limit s' made err news,
    (limit ≤ Z.max 0 (count - ActiveVMCount b))%Z →
    scaled Pv Pw hooks P limit (b, e) s' made err news →
    (∀ j c, P j c → ∃ cpu mem labels, creates b cpu mem labels c) →
    returns (λ '(n, err) '(b', e'), ∃ made news,
        n = (ActiveVMCount b + Z.of_nat made)%Z ∧ made = count_accepted news ∧
        (Z.of_nat (made + failed err) ≤ room b e count)%Z ∧
        env_calls e' = env_calls e ++ news ∧
        made ≤ length news ≤ made + failed err ∧
        Forall (λ c, ∃ cpu mem labels, creates b cpu mem labels c) news ∧
        activeVMs b' = foldl track (activeVMs b) news ∧
        max (capacity e') = max (capacity e) ∧
        current (capacity e') = (current (capacity e) + Z.of_nat made)%Z)
      (Ret (ActiveVMCount b + Z.of_nat made, err)%Z) s') as Hend.
  { intros P limit [b' e'] made err news Hle [S1 S2 S3 S4 S5 S5' S6 S7 S8 S9 S10] HP.
    exists made, news. simpl in *. unfold room, failed.
    split; [done|]. split; [done|]. split; [lia|]. split; [done|]. split; [done|].
    split; [|done]. apply Forall_lookup. intros j c Hj. by eapply HP, S4. }
  destruct (AutoSizeEnabled b) eqn:Ha.
  - eapply wp_auto_scale_up; try done. intros. eapply Hend; try done.
    intros j c (w & cpu & mem & _ & _ & Hc). by eauto.
  - eapply wp_fixed_scale_up; try done. intros. eapply Hend; try done.
    intros j c Hc. eexists _, _, _. exact Hc.
Qed.

(** C9: a fixed-size scale set that shares a cache asks it for a snapshot and
    creates at most the free slots that shows on the live, unpaused workers with
    its labels (their slots less the managed VMs alive that occupy one), every VM
    with the configured CPU, memory and labels; when nothing fails it creates
    exactly the missing runners, as far as those slots and the semaphore go.  If
    the cache gives none it creates nothing. *)
Theorem fixed_scale_up_within_slots b e count :
  ready b e count → AutoSizeEnabled b = false → is_Some (view e) →
  (ActiveVMCount b < count)%Z →
  wp (HandleDesiredRunnerCount hooks count)
     (returns (λ '(n, err) '(_, e'), ∃ made news osn got,
        n = (ActiveVMCount b + Z.of_nat made)%Z ∧
        env_calls e' = env_calls e ++ news ∧
        Forall (creates b (cfg_CPU (vmConfig b)) (cfg_Memory (vmConfig b)) (VMLabels b))
          news ∧
        gets e (osn, got) ∧
        match osn with
        | None => news = [] ∧ made = 0
        | Some sn =>
           snapshot_of Pv Pw sn ∧
           (Z.of_nat (length news) ≤ Z.max 0 (free_slots sn (VMLabels b)))%Z ∧
           (err = None →
            Z.of_nat made = Z.min (room b e count)
                                  (Z.max 0 (free_slots sn (VMLabels b))))
        end)) (b, e).
Proof.
  intros [Hh Hgh Hgt Hok Hfl Hs Hcur Hcnt Hau] Hfix [sv Hv] Hlt.
  eapply wp_fixed_scale_up; try done.
  intros limit [b' e'] made err news _ Hlim [S1 S2 S3 S4 S5 S5' S6 S7 S8 S9 S10] _.
  destruct Hlim as [[??]|Hlim]; [lia|]. unfold fixed_limit in Hlim. rewrite Hv in Hlim.
  destruct Hlim as (osn & got & Hgets & Hlim).
  exists made, news, osn, got. simpl in *. split; [done|]. split; [done|].
  split; [apply Forall_lookup; intros j c Hj; by eapply S4|]. split; [done|].
  destruct osn as [sn|].
  - destruct Hlim as [Hsn ->]. split; [done|]. split; [lia|].
    intros Herr. rewrite (S8 Herr). unfold room. lia.
  - subst limit. assert (length news = 0) as ->%nil_length_inv by lia. split; [done|lia].
Qed.

(** C8: an AutoSize scale-up aims each creation at its own worker: the
    targets are pairwise distinct machines, all offered by one snapshot as free
    and eligible; each VM is pinned to its target by the pin label and given
    what the target has less the reserves, which is positive.  When nothing fails
    there are as many as the missing runners, the semaphore and the workers offered
    allow, and there is none only for want of an offer. *)
Theorem auto_scale_up_pins_distinct_workers b e count :
  ready b e count → AutoSizeEnabled b = true →
  wp (HandleDesiredRunnerCount hooks count)
     (returns (λ '(_, err) '(_, e'), ∃ targets news,
        env_calls e' = env_calls e ++ news ∧
        NoDup (PinIdentity <$> targets) ∧
        Forall2 (λ w c,
          creates b (resource w resourceLogicalCores - (reserves b).1)
                    (resource w resourceMemoryMiB - (reserves b).2)
                    (mergePinLabel (VMLabels b) (PinIdentity w)) c ∧
          (0 < resource w resourceLogicalCores - (reserves b).1)%Z ∧
          (0 < resource w resourceMemoryMiB - (reserves b).2)%Z) targets news ∧
        (targets = [] ∧ no_offer e (count - ActiveVMCount b) ∨
         ∃ sn got, gets e (Some sn, got) ∧ snapshot_of Pv Pw sn ∧ targets ⊆+ offered b sn ∧
           (err = None → Z.of_nat (length targets) =
              Z.min (room b e count) (Z.of_nat (length (offered b sn))))))) (b, e).
Proof.
  intros [Hh Hgh Hgt Hok Hfl Hs Hcur Hcnt Hau] Hauto.
  eapply wp_auto_scale_up; try done.
  intros limit cands [b' e'] made err news _ Hlim [S1 S2 S3 S4 S5 S5' S6 S7 S8 S9 S10] _.
  simpl in *.
  destruct Hlim as [(-> & -> & Hno)|(sn & got & Hgets & Hsn & -> & ->)].
  { exists [], []. assert (length news = 0) as ->%nil_length_inv by lia.
    repeat split; [by rewrite S3|constructor..|by left]. }
  exists (rotation (offered b sn) (placementCursor b) (length news)), news.
  assert (length news ≤ length (offered b sn)) as Hlen by lia.
  pose proof (rotation_submseteq (offered b sn) (placementCursor b) _ Hlen) as Hsub.
  assert (length (rotation (offered b sn) (placementCursor b) (length news)) = length news)
    as Hrot.
  { destruct (decide (offered b sn = [])) as [Hnil|Hne]; [|by apply rotation_length].
    rewrite Hnil in Hlen |- *. simpl in Hlen. by replace (length news) with 0 by lia. }
  split; [done|]. split.
  { eapply NoDup_contained; [by apply fmap_submseteq, Hsub|]. apply free_pins_NoDup. }
  split.
  2:{ right. exists sn, got. do 3 (split; [done|]). intros Herr. rewrite Hrot.
      assert (length news = made) as -> by (rewrite Herr in S6; simpl in S6; lia).
      rewrite (S8 Herr). unfold room. lia. }
  apply Forall2_same_length_lookup_2; [done|].
  intros i w c Hw Hc. destruct (S4 i c Hc) as (w' & cpu & mem & Hw' & Hsz & Hcr).
  assert (offered b sn ≠ []) as Hne by (by intros Heq; rewrite Heq in Hw').
  rewrite rotation_lookup in Hw by (done || by eapply lookup_lt_Some).
  assert (w' = w) as -> by congruence.
  destruct (offered_sized Pv Pw b sn w) as (Hsz' & ? & ?); try done.
  { by eapply list_elem_of_lookup_2. }
  assert (OK (cpu, mem) = OK (resource w resourceLogicalCores - (reserves b).1,
    resource w resourceMemoryMiB - (reserves b).2)%Z) as [= -> ->].
  { etrans; [symmetry; exact Hsz|exact Hsz']. }
  done.
Qed.

(** C32: AutoSize placements go round the pool: the creations of a batch are
    pinned to the candidates from the cursor on, in order and wrapping around,
    and a batch without an error leaves the cursor just behind its last
    placement.  So as many successive placements as there are candidates visit
    each of them once, however they are cut into batches. *)
Theorem auto_scale_up_rotates b e count :
  ready b e count → AutoSizeEnabled b = true →
  wp (HandleDesiredRunnerCount hooks count)
     (returns (λ '(_, err) '(b', e'), ∃ candidates news,
        env_calls e' = env_calls e ++ news ∧
        (candidates = [] ∧ no_offer e (count - ActiveVMCount b) ∨
         ∃ sn got, gets e (Some sn, got) ∧ snapshot_of Pv Pw sn ∧ candidates = offered b sn) ∧
        Forall2 (λ w c, ∃ vm ok, c = CallCreateVM vm ok ∧
                   vm_Labels vm !! PinLabelKey = Some (PinIdentity w))
          (rotation candidates (placementCursor b) (length news)) news ∧
        (err = None →
         Z.of_nat (length news) = Z.min (room b e count) (Z.of_nat (length candidates)) ∧
         placementCursor b' = (placementCursor b + Z.of_nat (length news))%Z ∧
         ∀ k, length news + k = length candidates →
           rotation candidates (placementCursor b) (length news)
           ++ rotation candidates (placementCursor b') k ≡ₚ candidates))) (b, e).
Proof.
  intros [Hh Hgh Hgt Hok Hfl Hs Hcur Hcnt Hau] Hauto.
  eapply wp_auto_scale_up; try done.
  intros limit cands [b' e'] made err news _ Hlim [S1 S2 S3 S4 S5 S5' S6 S7 S8 S9 S10] Hc.
  exists cands, news. simpl in *. split; [done|].
  assert (cands = [] → news = []) as Hnil.
  { intros ->. destruct Hlim as [(-> & _)|(sn & got & _ & _ & _ & ->)]; apply nil_length_inv;
      simpl in *; lia. }
  split; [destruct Hlim as [(_ & -> & ?)|(sn & got & ? & ? & -> & _)];
            [by left|right; by exists sn, got]|].
  split.
  - apply Forall2_same_length_lookup_2.
    { destruct (decide (cands = [])) as [->|Hne]; [by rewrite Hnil|].
      by apply rotation_length. }
    intros i w c Hw Hc'. destruct (S4 i c Hc') as (w' & cpu & mem & Hw' & _ & Hcr).
    rewrite rotation_lookup in Hw; [|by intros ->|by eapply lookup_lt_Some].
    assert (w' = w) as -> by congruence.
    destruct Hcr as (short & script & ok & _ & _ & ->). eexists _, ok. split; [done|].
    apply lookup_insert_eq.
  - intros Herr. specialize (S8 Herr).
    assert (made = length news) as Hmade by (rewrite Herr in S6; simpl in S6; lia).
    split; [|rewrite Hc, <-S8, Hmade; split; [done|]].
    + rewrite <-Hmade, S8. unfold room.
      destruct Hlim as [(-> & -> & _)|(sn & got & _ & _ & -> & ->)]; simpl; lia.
    + intros k Hk. rewrite <-rotation_app, Hk. apply rotation_full.
Qed.
End Scaling.

(** ** Witnesses *)

(** Two idle machines, a scale set without VMs, and a semaphore of two slots. *)
Definition two_macs : Fleet :=
  mkFleet [] [mac "mini-1" "mini-1" 10 16384; mac "mini-2" "mini-2" 12 36864] (λ _, false).

Definition large (auto : bool) : VMConfig :=
  {| cfg_Image := "macos"; cfg_CPU := 4; cfg_Memory := 8192; cfg_DockerPort := 0;
     cfg_DiskSize := 0; cfg_Labels := {["vm-class" := "large"]};
     cfg_AutoSize := mkAutoSizeConfig auto 0 0 |}.

Definition large_bridge (auto : bool) : Bridge (Logged (Sim two_macs)) :=
  New "large" 7 (large auto) (logged_gh sim_gh).

Definition start_env : Env (Logged (Sim two_macs)) unit unit :=
  mkEnv (mkLogged (mkSim 100%Z 0) []) (NewCapacity 2%Z) (Some (NewStateView 0%Z 0%Z)) tt.

Definition no_hooks : Hooks (Logged (Sim two_macs)) unit unit := mkHooks None None None.

#[local] Notation reported_vms := (λ vms, vms = fleet_reported_vms two_macs).
#[local] Notation reported_ws := (λ ws, ws = fleet_workers two_macs).

Lemma start_ready auto :
  ready reported_vms reported_ws no_hooks sim_gh (large_bridge auto) start_env 3.
Proof.
  constructor; try done; [split; [done|left; by eexists]|].
  constructor.
  - intros ? ->. by vm_compute.
  - intros ? ->. split; [|by vm_compute]. repeat constructor; by vm_compute.
  - intros ? ->. apply Forall_cons; split; [|apply Forall_cons; split; [|constructor]];
      intros k v Hk; unfold mac, w_Resources in Hk;
      repeat (apply lookup_insert_Some in Hk as [[_ <-]|[_ Hk]]; [by vm_compute|]);
      apply lookup_singleton_Some in Hk as [_ <-]; by vm_compute.
Qed.

(** What three wanted runners come to on those machines. *)
Definition run_large (auto : bool) :=
  HandleDesiredRunnerCount no_hooks 3 (large_bridge auto, start_env).

Lemma HandleDesiredRunnerCount_accounting_witness :
  (run_large true).1 = Ret (2%Z, None) ∧
  current (capacity (run_large true).2.2) = 2%Z ∧
  wp (HandleDesiredRunnerCount no_hooks 3)
     (returns (λ '(n, _) '(_, e'), n = current (capacity e')))
     (large_bridge true, start_env).
Proof.
  split; [by vm_compute|]. split; [by vm_compute|].
  eapply wp_mono; [apply (HandleDesiredRunnerCount_accounting _ _ _ _ _ _ _ (start_ready true))|].
  intros [[n err]| |] [b' e']; simpl; [|done..].
  intros (made & news & -> & _ & _ & _ & _ & _ & _ & _ & ->). done.
Defined.

Lemma fixed_scale_up_within_slots_witness :
  (run_large false).1 = Ret (2%Z, None) ∧
  wp (HandleDesiredRunnerCount no_hooks 3)
     (returns (λ '(n, _) '(_, e'), ∃ made news, n = Z.of_nat made ∧ env_calls e' = news ∧
        Forall (creates (large_bridge false) 4 8192 {["vm-class" := "large"]}) news))
     (large_bridge false, start_env).
Proof.
  split; [by vm_compute|].
  eapply wp_mono; [apply (fixed_scale_up_within_slots _ _ _ _ _ _ _ (start_ready false));
    [reflexivity|by eexists|vm_compute; reflexivity]|].
  intros [[n err]| |] [b' e']; simpl; [|done..].
  intros (made & news & osn & got & -> & Hc & Hall & _). by exists made, news.
Defined.

Lemma auto_scale_up_pins_distinct_workers_witness :
  length (env_calls (run_large true).2.2) = 2 ∧
  wp (HandleDesiredRunnerCount no_hooks 3)
     (returns (λ _ '(_, e'), ∃ targets : list Worker,
        NoDup (PinIdentity <$> targets) ∧ length targets = length (env_calls e')))
     (large_bridge true, start_env).
Proof.
  split; [by vm_compute|].
  eapply wp_mono; [apply (auto_scale_up_pins_distinct_workers _ _ _ _ _ _ _ (start_ready true));
    reflexivity|].
  intros [[n err]| |] [b' e']; simpl; [|done..].
  intros (targets & news & -> & Hnd & Hall & _). exists targets. split; [done|].
  by apply Forall2_length in Hall.
Defined.

Lemma auto_scale_up_rotates_witness :
  placementCursor (run_large true).2.1 = 2%Z ∧
  wp (HandleDesiredRunnerCount no_hooks 3)
     (returns (λ '(_, err) '(b', e'), ∃ news : list Call, env_calls e' = news ∧
        (err = None → placementCursor b' = Z.of_nat (length news))))
     (large_bridge true, start_env).
Proof.
  split; [by vm_compute|].
  eapply wp_mono; [apply (auto_scale_up_rotates _ _ _ _ _ _ _ (start_ready true));
    reflexivity|].
  intros [[n err]| |] [b' e']; simpl; [|done..].
  intros (cands & news & Hc & _ & _ & Hcur). exists news. split; [done|].
  intros Herr. by destruct (Hcur Herr) as (_ & -> & _).
Defined.

(** ** Two corners of the accounting *)

(** A busy machine whose scheduling an operator has paused, and an idle one. *)
Definition paused (w : Worker) : Worker :=
  {| w_Name := w_Name w; w_Labels := w_Labels w; w_Resources := w_Resources w;
     w_SchedulingPaused := true; w_LastSeen := w_LastSeen w |}.

Definition paused_mac : Fleet :=
  mkFleet [runner_vm "gha-orchard-other-0a0a0a0a" "running" "mini-1" "mini-1"]
    [paused (mac "mini-1" "mini-1" 10 16384); mac "mini-2" "mini-2" 12 36864] (λ _, false).

(** The VM on the paused machine is counted in use while the slot it occupies is
    not counted, so the idle machine gets no VM. *)
Example paused_worker_starves_idle_one :
  let e : Env (Logged (Sim paused_mac)) unit unit :=
    mkEnv (mkLogged (mkSim 100%Z 0) []) (NewCapacity 2%Z) (Some (NewStateView 0%Z 0%Z)) tt in
  let b := New "large" 7 (large false) (logged_gh sim_gh) in
  let r := HandleDesiredRunnerCount (mkHooks None None None) 1 (b, e) in
  r.1 = Ret (0%Z, None) ∧ env_calls r.2.2 = [].
Proof. by vm_compute. Qed.

(** Two idle machines, and a controller that refuses its second call. *)
Definition flaky_macs : Fleet :=
  mkFleet [] [mac "mini-1" "mini-1" 10 16384; mac "mini-2" "mini-2" 12 36864]
    (λ n, bool_decide (n = 1)).

(** A batch that fails after its first VM leaves the snapshot taken before that
    VM in the cache: the next decision counts the VM's slot as free. *)
Example failed_batch_keeps_snapshot :
  let e : Env (Logged (Sim flaky_macs)) unit unit :=
    mkEnv (mkLogged (mkSim 100%Z 0) []) (NewCapacity 2%Z) (Some (NewStateView 0%Z 0%Z)) tt in
  let b := New "large" 7 (large false) (logged_gh sim_gh) in
  let r := HandleDesiredRunnerCount (mkHooks None None None) 2 (b, e) in
  length (env_calls r.2.2) = 2 ∧ size (activeVMs r.2.1) = 1 ∧
  VMs <$> (view r.2.2 ≫= fresh_snap 200%Z) = Some [].
Proof. by vm_compute. Qed.
