(* ===== verification/BridgeJobs.v ===== *)
(** * Jobs and hydration

    The properties of [HandleJobCompleted] and [HydrateFromOrchard], over the
    recorded world. *)

From S2P Require Import Prelude GoBase Orchard VMNames Workers AutoSize Capacity.
From S2P Require Import StateView Config Env Bridge Sample BridgeScaleUp.

Section Jobs.
Context {W CB X : Type} `{!OrchardClient W} `{!Clock W} `{!UUIDSource W}.
Context `{!ClientTotal W}.
Context (Pv : list VM → Prop) (Pw : list Worker → Prop) `{!Reports W Pv Pw}.
Context (hooks : Hooks (Logged W) CB X) (gh : GHClient W).
Notation St := (Bridge (Logged W) * Env (Logged W) CB X)%type.

(** ** Completed jobs *)

(** The queue of names handed to [onDeleteFailed], seen through [queued]. *)
Definition queues (queued : Env (Logged W) CB X → string → Prop) : Prop :=
  ∀ f n e, onDeleteFailed hooks = Some f → n ≠ EmptyString →
    wp (f n) (returns (λ _ e', queued e' n)) e.

Lemma wp_queues queued f n e :
  queues queued → onDeleteFailed hooks = Some f →
  wp (f n) (λ o e', o = Ret tt → n ≠ EmptyString → queued e' n) e.
Proof.
  intros Hq Hf. destruct (decide (n = EmptyString)) as [->|Hn]; [by intros _ []|].
  eapply wp_mono; [by apply (Hq f n e Hf)|]. by intros [[]| |] e' H; simpl in H.
Qed.

Lemma wp_invalidate (Q : outcome unit → St → Prop) b e :
  env_live Pv Pw hooks e →
  (∀ e', env_live Pv Pw hooks e' → (is_Some (view e) → is_Some (view e')) →
     capacity e' = capacity e → env_calls e' = env_calls e → Q (Ret tt) (b, e')) →
  wp invalidate Q (b, e).
Proof.
  intros [Hok Hlive] HQ. unfold invalidate, on_env, state_Invalidate. wp_go.
  assert (is_Some (view e) → is_Some (Invalidate <$> view e)) as Hsome.
  { intros [sv Hv]. rewrite Hv. by eexists. }
  apply HQ; try done. split; [|by destruct Hlive as [?|?]; [left; apply Hsome|right]].
  unfold env_ok in *. simpl. destruct (view e) as [sv|]; [|done].
  destruct Hok as [Hidle _]. by split.
Qed.

(** What the answer to the deletion of [vmName] leaves: a slot released, or a VM
    in the queue. *)
Definition completed (queued : Env (Logged W) CB X → string → Prop) (vmName : string)
    (ok : bool) (e e' : Env (Logged W) CB X) : Prop :=
  if ok then capacity e' = Release 1 (capacity e)
  else capacity e' = capacity e ∧ (vmName ≠ EmptyString → queued e' vmName).

Lemma wp_HandleJobCompleted queued runnerName runnerID
    (Q : outcome (option error) → St → Prop) b e :
  hooks_ok Pv Pw hooks → ghClient b = logged_gh gh → gh_total gh →
  env_live Pv Pw hooks e → cap_small (capacity e) → queues queued →
  is_Some (onDeleteFailed hooks) →
  (activeVMs b !! runnerName = None → Q (Ret None) (b, e)) →
  (∀ vmName ok e', activeVMs b !! runnerName = Some vmName →
     env_live Pv Pw hooks e' → env_calls e' = env_calls e ++ [CallDeleteVM vmName ok] →
     completed queued vmName ok e e' → Q (Ret None) (PurgeActiveVM runnerName b, e')) →
  wp (HandleJobCompleted hooks runnerName runnerID) Q (b, e).
Proof.
  intros Hh Hgh (_ & Hrm & _) Hok Hs Hq [f Hf] Hno HQ.
  unfold HandleJobCompleted, this, on_env, on_bridge. wp_go.
  destruct (activeVMs b !! runnerName) as [vmName|] eqn:Hin; [|by apply wp_ret, Hno].
  wp_go. unfold on_world at 1. wp_go. apply wp_logged_DeleteVM.
  intros [err|] w Hw; simpl.
  - rewrite Hf. wp_go.
    set (e1 := mkEnv w (capacity e) (view e) (ext e)).
    destruct Hok as [Hok [Hv|[_ ?]]]; [|congruence].
    eapply wp_mono; [apply wp_and; [by apply (onDeleteFailed_ok _ _ _ Hh f vmName Hf)|
      apply (wp_queues queued f vmName e1 Hq Hf)]|].
    intros [[]| |] e2; simpl; [|by intros [[] _]..].
    intros [(Hok2 & Hv2 & Hcap & Hcalls) Hqd]. apply wp_ret, (HQ vmName false); [done|..].
    + split; [done|by left].
    + by rewrite Hcalls.
    + split; [done|auto].
  - wp_go. unfold on_world. wp_go. rewrite Hgh. simpl.
    apply wp_on_base_total; [apply Hrm|]. intros r w1. simpl.
    wp_go. unfold cap_Release, on_capacity. wp_go.
    apply wp_invalidate; [done|]. intros e2 Hok2 Hv2 Hcap2 Hcalls2. simpl. wp_go.
    apply (wp_notifyChange Pv Pw hooks Hh); [done|].
    intros e3 Hok3 Hv3 Hcap3 Hcalls3. simpl. apply wp_ret, (HQ vmName true); [done|done|..].
    + rewrite Hcalls3, Hcalls2. exact Hw.
    + unfold completed. by rewrite Hcap3, Hcap2.
Qed.

(** The completion of a job never returns an error (which would stop the
    whole manager).  For a runner the bridge does not track it changes nothing.
    For one it tracks, the runner is forgotten, and the deletion of its VM, and
    nothing else, is asked of the controller: if it accepts, one slot of the
    semaphore is released; if it refuses, the slot stays taken and the VM is
    handed to the cleanup loop. *)
Lemma HandleJobCompleted_spec queued runnerName runnerID b e :
  hooks_ok Pv Pw hooks → ghClient b = logged_gh gh → gh_total gh →
  env_live Pv Pw hooks e → cap_small (capacity e) → queues queued →
  is_Some (onDeleteFailed hooks) →
  wp (HandleJobCompleted hooks runnerName runnerID)
     (returns (λ r '(b', e'), r = None ∧
        match activeVMs b !! runnerName with
        | None => b' = b ∧ e' = e
        | Some vmName =>
            b' = PurgeActiveVM runnerName b ∧
            ∃ ok, env_calls e' = env_calls e ++ [CallDeleteVM vmName ok] ∧
              if ok : bool
              then InUse (capacity e') = Z.max 0 (InUse (capacity e) - 1)
                   ∧ Max (capacity e') = Max (capacity e)
              else capacity e' = capacity e ∧
                   (vmName ≠ EmptyString → queued e' vmName)
        end)) (b, e).
Proof.
  intros Hh Hgh Hgt Hok Hs Hq Hf. eapply wp_HandleJobCompleted; [done..| |].
  - intros Hno. simpl. by rewrite Hno.
  - intros vmName ok e' Hvm _ Hcalls Hc. simpl. rewrite Hvm. split; [done|].
    split; [done|]. exists ok. split; [done|]. destruct ok; [|done]. simpl in Hc.
    rewrite Hc, Release_spec; [done|done|]. unfold small. lia.
Qed.

(** ** Hydration *)

Definition alive (vm : VM) : Prop := vm_terminal vm = false.

Lemma hydrate_count m n vms :
  (hydrate m n vms).2 = (n + Z.of_nat (length (filter alive vms)))%Z.
Proof.
  revert m n. induction vms as [|vm vms IH]; intros m n; simpl; [lia|].
  rewrite filter_cons. unfold alive. case_decide as Ht.
  - rewrite Ht, IH. simpl. unfold alive. lia.
  - apply not_false_is_true in Ht. rewrite Ht. apply IH.
Qed.

Lemma hydrate_lookup m n vms k v :
  (∀ k v, m !! k = Some v → v = k) →
  (hydrate m n vms).1 !! k = Some v ↔
  v = k ∧ (is_Some (m !! k) ∨ ∃ vm, vm ∈ vms ∧ alive vm ∧ vm_Name vm = k).
Proof.
  revert m n. induction vms as [|vm vms IH]; intros m n Hm; simpl.
  { split.
    - intros Hk. split; [by eapply Hm|left; by eexists].
    - intros [-> [[x Hx]|(vm & Hin & _)]]; [|by apply elem_of_nil in Hin].
      by rewrite Hx, (Hm _ _ Hx). }
  destruct (vm_terminal vm) eqn:Ht.
  - rewrite IH by done. split; intros (-> & H); (split; [done|]).
    + destruct H as [?|(u & ? & ?)]; [by left|]. right. exists u. by rewrite elem_of_cons; auto.
    + destruct H as [?|(u & [->|?]%elem_of_cons & Ha & ?)]; [by left| |].
      * by unfold alive in Ha; rewrite Ht in Ha.
      * right. by exists u.
  - rewrite IH; [split; intros (-> & H); (split; [done|])|].
    + destruct H as [[x Hx]|(u & ? & ?)]; [|by right; exists u; rewrite elem_of_cons; auto].
      apply lookup_insert_Some in Hx as [[Heq <-]|[_ Hx]]; [|by left; eexists].
      right. exists vm. by rewrite elem_of_cons; auto.
    + destruct H as [[x Hx]|(u & [->|?]%elem_of_cons & Ha & Hu)].
      * left. apply lookup_insert_is_Some'. right. by eexists.
      * left. rewrite Hu. apply lookup_insert_is_Some'. by left.
      * right. by exists u.
    + intros k' v' [[<- <-]|[_ Hk']]%lookup_insert_Some; [done|by eapply Hm].
Qed.

(** [b'] tracks exactly the live VMs of [b]'s scale set in a snapshot, [n] many. *)
Definition adopts (b : Bridge (Logged W)) (sn : Snapshot) (n : Z) (b' : Bridge (Logged W))
    : Prop :=
  n = Z.of_nat (length (filter alive (ManagedVMsForScaleSet sn (scaleSetName b)))) ∧
  ∀ k v, activeVMs b' !! k = Some v ↔
    v = k ∧ ∃ vm, vm ∈ VMs sn ∧ alive vm ∧ vm_Name vm = k ∧
                  belongs_to_scale_set (scaleSetName b) k = true.

(** What hydration from the answer [osn] of the cache comes to. *)
Definition hydrated (b : Bridge (Logged W)) (osn : option Snapshot) (n : Z)
    (b' : Bridge (Logged W)) : Prop :=
  match osn with
  | None => activeVMs b' = ∅ ∧ n = 0%Z
  | Some sn => snapshot_of Pv Pw sn ∧ adopts b sn n b'
  end.

(** The rule for hydration: only the cache, the world and the tracking map move. *)
Lemma wp_HydrateFromOrchard b e (Q : outcome (Z * option error) → St → Prop) :
  env_ok Pv Pw e → is_Some (view e) → activeVMs b = ∅ →
  (∀ n err m e', env_ok Pv Pw e' → is_Some (view e') → capacity e' = capacity e →
     ext e' = ext e → env_calls e' = env_calls e →
     (∃ osn, gets e (osn, err) ∧ (osn = None → is_Some err) ∧
             hydrated b osn n (set_activeVMs m b)) →
     Q (Ret (n, err)) (set_activeVMs m b, e')) →
  wp HydrateFromOrchard Q (b, e).
Proof.
  intros Hok Hv Hempty HQ. unfold HydrateFromOrchard, has_state, this, on_env, on_bridge.
  wp_go. rewrite bool_decide_true by done. simpl. wp_go.
  apply (wp_state_Get_gets Pv Pw); [done|done|].
  intros osn err e' Hgets Hok' Hv' Hcap Hext Hcalls Hsn Herr. simpl.
  destruct osn as [sn|].
  2:{ apply wp_ret. replace (b, e') with (set_activeVMs ∅ b, e')
        by (rewrite <-Hempty; by destruct b).
      apply HQ; try done. exists None. split; [done|]. split; [|done]. intros _.
      destruct err; [by eexists|]. by destruct (Herr eq_refl). }
  wp_go. set (vms := ManagedVMsForScaleSet sn (scaleSetName b)).
  pose proof (hydrate_count (activeVMs b) 0 vms) as Hcount.
  pose proof (hydrate_lookup (activeVMs b) 0 vms) as Hlook.
  destruct (hydrate (activeVMs b) 0 vms) as [m n]. simpl in Hcount, Hlook. wp_go.
  apply HQ; try done. exists (Some sn). split; [done|]. split; [done|].
  split; [by apply Hsn|]. split; [done|]. intros k v. simpl.
  rewrite Hlook by (rewrite Hempty; intros ??; by rewrite lookup_empty).
  rewrite Hempty, lookup_empty. subst vms. unfold ManagedVMsForScaleSet.
  split; intros (-> & H); (split; [done|]).
  - destruct H as [[? ?]|(vm & [Hb Hin]%list_elem_of_filter & ? & <-)]; [done|].
    by exists vm.
  - destruct H as (vm & ? & ? & <- & ?). right. exists vm. by rewrite list_elem_of_filter.
Qed.

(** After a restart the bridge adopts, from the snapshot it is handed,
    exactly the VMs that carry its scale set's name and are not in a final
    state, each under its own name, and reports how many; without a snapshot it
    adopts nothing and passes the error on.  Nothing is asked of the
    controller. *)
Lemma HydrateFromOrchard_spec b e :
  env_ok Pv Pw e → is_Some (view e) → activeVMs b = ∅ →
  wp (HydrateFromOrchard (CB := CB) (X := X))
     (returns (λ '(n, err) '(b', e'),
        env_calls e' = env_calls e ∧ capacity e' = capacity e ∧
        ((b' = b ∧ n = 0%Z ∧ is_Some err) ∨
         ∃ sn, snapshot_of Pv Pw sn ∧
           n = Z.of_nat (length (filter alive
                  (ManagedVMsForScaleSet sn (scaleSetName b)))) ∧
           ∀ k v, activeVMs b' !! k = Some v ↔
             v = k ∧ ∃ vm, vm ∈ VMs sn ∧ alive vm ∧ vm_Name vm = k ∧
                          belongs_to_scale_set (scaleSetName b) k = true))) (b, e).
Proof.
  intros Hok Hv Hempty. apply wp_HydrateFromOrchard; [done..|].
  intros n err m e' _ _ Hcap _ Hcalls ([sn|] & _ & Herr & Hyd); simpl in Hyd |- *;
    (split; [done|]; split; [done|]).
  - destruct Hyd as (Hsn & Hn & Hm). right. by exists sn.
  - destruct Hyd as [-> ->]. left. split; [|split; [done|by apply Herr]].
    rewrite <-Hempty. by destruct b.
Qed.
End Jobs.

(** ** Witnesses *)

(** A controller that refuses every deletion, and a bridge whose failed
    deletions are put on a list. *)
Definition refusing : Fleet :=
  mkFleet [runner_vm "gha-orchard-large-0a0a0a0a" "running" "mini-1" "mini-1";
           runner_vm "gha-orchard-large-1b1b1b1b" "failed" "mini-2" "mini-2";
           runner_vm "gha-orchard-small-2c2c2c2c" "running" "mini-2" "mini-2"]
    [mac "mini-1" "mini-1" 10 16384] (λ _, true).

Definition queueing : Hooks (Logged (Sim refusing)) unit (list string) :=
  mkHooks None (Some (λ n, on_ext (modify (cons n)))) None.

Definition one_job : Bridge (Logged (Sim refusing)) :=
  set_activeVMs {["gha-orchard-large-0a0a0a0a" := "gha-orchard-large-0a0a0a0a"]}
    (New "large" 7 (mkVMConfig "macos" 4 8192 0 0 ∅ (mkAutoSizeConfig false 0 0))
       (logged_gh sim_gh)).

Definition job_env : Env (Logged (Sim refusing)) unit (list string) :=
  mkEnv (mkLogged (mkSim 100%Z 0) []) (mkCapacity 1 2 []) (Some (NewStateView 0%Z 0%Z)) [].

Lemma HandleJobCompleted_spec_witness :
  wp (HandleJobCompleted queueing "gha-orchard-large-0a0a0a0a" 5)
     (returns (λ r '(b', e'), r = None ∧ activeVMs b' = ∅ ∧
        env_calls e' = [CallDeleteVM "gha-orchard-large-0a0a0a0a" false] ∧
        ext e' = ["gha-orchard-large-0a0a0a0a"])) (one_job, job_env).
Proof.
  eapply wp_mono; [apply wp_and;
    [apply (HandleJobCompleted_spec (λ vms, vms = fleet_reported_vms refusing)
       (λ ws, ws = fleet_workers refusing) queueing sim_gh (λ e n, n ∈ ext e))|
     instantiate (1 := returns (λ _ s', ext s'.2 = ["gha-orchard-large-0a0a0a0a"] ∧
       env_calls s'.2 = [CallDeleteVM "gha-orchard-large-0a0a0a0a" false]));
     by vm_compute]|].
  - constructor; try done. by intros f n [= <-].
  - done.
  - by repeat split.
  - split; [done|left; by eexists].
  - by vm_compute.
  - intros f n e [= <-] _. unfold wp. simpl. by left.
  - by eexists.
  - intros [r| |] [b' e']; simpl; [|intros []; done..].
    intros [(-> & -> & _) [-> ->]]. split; [done|]. split; [by vm_compute|done].
Defined.

Lemma HydrateFromOrchard_spec_witness :
  wp HydrateFromOrchard
     (returns (λ '(n, err) '(b', e'), (n = 1%Z ∧ err = None) ∧ capacity e' = capacity job_env))
     (set_activeVMs ∅ one_job, job_env).
Proof.
  eapply wp_mono; [apply wp_and;
    [apply (HydrateFromOrchard_spec (λ vms, vms = fleet_reported_vms refusing)
       (λ ws, ws = fleet_workers refusing)); [done|by eexists|done]|
     instantiate (1 := returns (λ '(n, err) _, n = 1%Z ∧ err = None)); by vm_compute]|].
  intros [[n err]| |] [b' e']; simpl; [|intros []; done..].
  intros [(_ & Hcap & _) Hn]. done.
Defined.
