(* ===== verification/SlotsRefine.v ===== *)
(** * A handler that runs alone is a run of one thread

    The handlers of Bridge, run from start to end, against the interleaved model
    of SlotsConc: what a handler does to the semaphore, to the VMs of the
    controller and to its tracking map is what some events of one thread do to
    the shared state.  So the interleaved model has every behaviour of the
    sequential one. *)

From S2P Require Import Prelude GoBase Orchard VMNames Workers AutoSize Capacity.
From S2P Require Import StateView Config Env Bridge Sample BridgeScaleUp Scaling.
From S2P Require Import BridgeJobs.
From S2P Require Import SlotsConc.

(** ** What calls do to the VMs there are *)

Definition accepted_name (c : Call) : option string :=
  match c with CallCreateVM vm true => Some (vm_Name vm) | _ => None end.
Definition accepted_names (news : list Call) : list string := omap accepted_name news.

Definition live_after (X : gset string) (c : Call) : gset string :=
  match c with
  | CallCreateVM vm true => {[vm_Name vm]} ∪ X
  | CallDeleteVM n true => X ∖ {[n]}
  | _ => X
  end.

(** The controller has no two VMs of one name. *)
Definition creatable (news : list Call) (X : gset string) : Prop :=
  NoDup (accepted_names news) ∧ ∀ n, n ∈ accepted_names news → n ∉ X.

Definition is_create (c : Call) : Prop :=
  match c with CallCreateVM _ _ => True | _ => False end.

Lemma accepted_names_length news :
  Forall is_create news → length (accepted_names news) = count_accepted news.
Proof.
  unfold count_accepted. induction 1 as [|c news Hc _ IH]; [done|].
  rewrite filter_cons. by destruct c as [vm []|n ?|n ?]; simpl; rewrite <-?IH.
Qed.

Lemma live_after_creations X news :
  Forall is_create news →
  foldl live_after X news = list_to_set (accepted_names news) ∪ X.
Proof.
  intros H. revert X. induction H as [|c news Hc _ IH]; intros X; simpl; [set_solver|].
  destruct c as [vm []| |]; simpl in *; try done; rewrite IH; set_solver.
Qed.

Lemma dom_tracked m news :
  dom (foldl track m news) = list_to_set (accepted_names news) ∪ dom m.
Proof.
  revert m. induction news as [|c news IH]; intros m; simpl; [set_solver|].
  rewrite IH. destruct c as [vm []| |]; simpl; set_solver.
Qed.

(** A set less a part of it, and the part. *)
Lemma difference_union_part (X Y : gset string) : Y ⊆ X → (X ∖ Y) ∪ Y = X.
Proof.
  intros H. apply set_eq. intros x. destruct (decide (x ∈ Y)); set_solver.
Qed.

(** ** Refinement *)

Section Refine.
Context {W CB X : Type} `{!OrchardClient W} `{!Clock W} `{!UUIDSource W}.
Context `{!ClientTotal W} `{!UUIDLaw W}.
Context (Pv : list VM → Prop) (Pw : list Worker → Prop) `{!Reports W Pv Pw}.
Context (hooks : Hooks (Logged W) CB X) (gh : GHClient W).
Notation St := (Bridge (Logged W) * Env (Logged W) CB X)%type.

(** The shared state as a bridge and its environment show it. *)
Record agrees (b : Bridge (Logged W)) (e : Env (Logged W) CB X) (s : Shared) : Prop := {
  agrees_current : current (sem s) = current (capacity e);
  agrees_max : max (sem s) = max (capacity e);
  agrees_tracked : dom (activeVMs b) ⊆ tracked s
}.

(** From [s], some events of the thread [t] lead to what the calls [news] and the
    new state [b'], [e'] show; the thread is idle again, and nothing else moved. *)
Definition thread_run (t : nat) (b b' : Bridge (Logged W)) (e' : Env (Logged W) CB X)
    (news : list Call) (s : Shared) : Prop :=
  ∃ evs s', Forall (λ ev, of_thread t ev = true ∧ of_handler ev = true) evs ∧
    run evs s = Some s' ∧ agrees b' e' s' ∧ threads s' = threads s ∧
    live s' = foldl live_after (live s) news ∧
    tracked s' = (tracked s ∖ dom (activeVMs b)) ∪ dom (activeVMs b').

Definition refines_thread {A} (m : M St A) (b : Bridge (Logged W))
    (e : Env (Logged W) CB X) : Prop :=
  ∀ s t, agrees b e s → threads s !! t = Some Idle →
    wp m (returns (λ _ '(b', e'), ∃ news, env_calls e' = env_calls e ++ news ∧
            (creatable news (live s) → thread_run t b b' e' news s))) (b, e).

(** Nothing happens. *)
Lemma thread_run_nil t b e e' s :
  agrees b e s → current (capacity e') = current (capacity e) →
  max (capacity e') = max (capacity e) → thread_run t b b e' [] s.
Proof.
  intros [H1 H2 H3] Hc Hm. exists [], s. split; [constructor|]. split; [done|].
  split; [constructor; congruence || done|]. split; [done|]. split; [done|].
  by rewrite difference_union_part.
Qed.

Lemma creations_of_thread t names :
  Forall (λ ev, of_thread t ev = true ∧ of_handler ev = true) (creations t names).
Proof.
  unfold creations. induction names as [|n names IH]; [constructor|]. rewrite bind_cons.
  apply Forall_app. split; [|done].
  repeat constructor; simpl; by rewrite bool_decide_true.
Qed.

(** The way a batch of [k] slots ends after the last VM. *)
Definition batch_end (t : nat) (err : option error) : list event :=
  match err with
  | Some _ => [Create t EmptyString false; GiveBack t]
  | None => [Finish t]
  end.

Lemma run_batch t limit names (err : option error) s :
  let a := Z.max 0 (Z.min limit (max (sem s) - current (sem s))) in
  cap_small (sem s) → (0 ≤ current (sem s))%Z → (0 < a)%Z → threads s !! t = Some Idle →
  (Z.of_nat (length names + failed err) ≤ a)%Z →
  (err = None → Z.of_nat (length names) = a) →
  NoDup names → (∀ n, n ∈ names → n ∉ live s) →
  run (Acquire t limit :: creations t names ++ batch_end t err) s =
    Some (mkShared (mkCapacity (current (sem s) + Z.of_nat (length names)) (max (sem s))
                     (callbacks (sem s)))
            (list_to_set names ∪ live s) (list_to_set names ∪ tracked s) (threads s)).
Proof.
  intros a Hs Hcur Ha Ht Hle Hdone Hnd Hfresh.
  pose proof (lookup_lt_Some _ _ _ Ht) as Hlt.
  eapply run_cons; [apply exec_Acquire; [done|lia|by apply TryAcquire_spec; [done|lia]]|].
  fold a. unfold batch_pc. rewrite (proj2 (Z.eqb_neq a 0)) by lia.
  eapply run_app_Some.
  { apply (run_creations t names a 0 0 (Z.to_nat a - length names)); [|done|done].
    simpl. rewrite list_lookup_insert_eq by done. do 2 f_equal. lia. }
  destruct err as [err|]; simpl in *; rewrite list_insert_insert_eq.
  - rewrite list_lookup_insert_eq by done.
    destruct (Z.to_nat a - length names) as [|k] eqn:Hk; [lia|]. simpl.
    rewrite list_lookup_insert_eq by (by rewrite length_insert). simpl.
    rewrite Release_spec by (unfold cap_small, small in *; simpl; lia). simpl.
    unfold set_pc, set_sem. simpl.
    rewrite !list_insert_insert_eq, list_insert_id by done.
    do 2 f_equal. unfold cap_small, small in *. f_equal. lia.
  - specialize (Hdone eq_refl). replace (Z.to_nat a - length names) with 0 by lia.
    rewrite list_lookup_insert_eq by done. simpl.
    unfold set_pc. simpl. rewrite list_insert_insert_eq, list_insert_id by done.
    by rewrite Hdone.
Qed.

(** A job completed: the VM is forgotten, deleted, and its slot released. *)
Lemma run_completion t name (ok : bool) s :
  threads s !! t = Some Idle → name ∈ tracked s →
  run (Forget t name :: (if ok then [Delete t true; ReleaseOne t] else [Delete t false])) s =
    Some (mkShared (if ok then Release 1 (sem s) else sem s)
            (if ok then live s ∖ {[name]} else live s) (tracked s ∖ {[name]}) (threads s)).
Proof.
  intros Ht Hn. pose proof (lookup_lt_Some _ _ _ Ht) as Hlt.
  eapply run_cons; [simpl; by rewrite Ht, decide_True|]. destruct ok.
  - eapply run_cons; [simpl; by rewrite list_lookup_insert_eq|].
    eapply run_cons; [simpl; by rewrite list_lookup_insert_eq by (by rewrite length_insert)|].
    unfold set_pc, set_live, set_tracked, set_sem. simpl.
    by rewrite !list_insert_insert_eq, list_insert_id.
  - eapply run_cons; [simpl; by rewrite list_lookup_insert_eq|].
    unfold set_pc, set_tracked. simpl. by rewrite list_insert_insert_eq, list_insert_id.
Qed.

(** A scale-up described by [scaled] is a run of its thread. *)
Lemma scaled_thread_run P limit b e b' e' made err news s t :
  scaled Pv Pw hooks P limit (b, e) (b', e') made err news →
  (∀ j c, P j c → is_create c) → cap_small (capacity e) → (0 ≤ current (capacity e))%Z →
  agrees b e s → threads s !! t = Some Idle → creatable news (live s) →
  thread_run t b b' e' news s.
Proof.
  intros [S1 S2 S3 S4 S5 S5' S6 S7 S8 S9 S10] HP Hs Hcur [G1 G2 G3] Ht [Hnd Hfresh].
  simpl in *.
  assert (Forall is_create news) as Hcr.
  { apply Forall_lookup. intros j c Hj. by eapply HP, S4. }
  rewrite <-accepted_names_length in S5' by done. subst made.
  set (names := accepted_names news) in *.
  set (a := Z.max 0 (Z.min limit (max (capacity e) - current (capacity e)))) in *.
  assert (dom (activeVMs b') = list_to_set names ∪ dom (activeVMs b)) as Hdom
    by (rewrite S5; apply dom_tracked).
  assert (list_to_set names ∪ tracked s
    = (tracked s ∖ dom (activeVMs b)) ∪ dom (activeVMs b')) as Htr.
  { rewrite Hdom. rewrite <-(difference_union_part _ _ G3) at 1. set_solver. }
  destruct (decide (a = 0%Z)) as [Ha|Ha].
  - assert (names = []) as Hn by (apply nil_length_inv; lia).
    exists [], s. split; [constructor|]. split; [done|]. rewrite Hn in *. simpl in *.
    rewrite live_after_creations by done. fold names. rewrite Hn. simpl.
    rewrite union_empty_l_L in *. rewrite <-Htr.
    split; [constructor; [lia|congruence|set_solver]|]. done.
  - exists (Acquire t limit :: creations t names ++ batch_end t err).
    eexists. split; [|split; [apply run_batch; unfold cap_small; rewrite ?G1, ?G2; try done; lia|]].
    + constructor; [simpl; by rewrite bool_decide_true|]. apply Forall_app.
      split; [apply creations_of_thread|].
      destruct err; repeat constructor; simpl; by rewrite bool_decide_true.
    + simpl. rewrite live_after_creations by done.
      split; [constructor; simpl; [lia|congruence|set_solver]|]. done.
Qed.

(** C10: the handlers refine the threads of the interleaved model.  A call of
    [HandleDesiredRunnerCount], fixed size or AutoSize, whatever fails, does to
    the semaphore, the VMs and the tracked names exactly what a thread does that
    acquires, creates and tracks, and finishes or gives back. *)
Theorem scale_up_refines_thread b e count :
  ready Pv Pw hooks gh b e count → refines_thread (HandleDesiredRunnerCount hooks count) b e.
Proof.
  intros [Hh Hgh Hgt Hok Hfl Hs Hcur Hcnt Hau] s t Hag Ht.
  assert (∀ P limit s' made err news,
    scaled Pv Pw hooks P limit (b, e) s' made err news → (∀ j c, P j c → is_create c) →
    returns (λ _ '(b', e'), ∃ news, env_calls e' = env_calls e ++ news ∧
      (creatable news (live s) → thread_run t b b' e' news s))
      (Ret (ActiveVMCount b + Z.of_nat made, err)%Z) s') as Hend.
  { intros P limit [b' e'] made err news Hsc HP. exists news.
    split; [apply (scaled_calls _ _ _ _ _ _ _ _ _ _ Hsc)|].
    intros Hcr. by eapply scaled_thread_run. }
  destruct (AutoSizeEnabled b) eqn:Ha.
  - eapply wp_auto_scale_up; try done. intros. eapply Hend; [done|].
    intros j c (w & cpu & mem & _ & _ & short & script & ok & _ & _ & ->). done.
  - eapply wp_fixed_scale_up; try done. intros. eapply Hend; [done|].
    intros j c (short & script & ok & _ & _ & ->). done.
Qed.

(** C29: so does [HandleJobCompleted], for a bridge that tracks each VM under its
    own name: it forgets the VM, deletes it, and releases a slot if the controller
    accepts; if not, the VM and its slot stay. *)
Theorem job_completed_refines_thread queued runnerName runnerID b e :
  hooks_ok Pv Pw hooks → ghClient b = logged_gh gh → gh_total gh →
  env_live Pv Pw hooks e → cap_small (capacity e) → queues hooks queued →
  is_Some (onDeleteFailed hooks) → map_Forall (λ k v, v = k) (activeVMs b) →
  refines_thread (HandleJobCompleted hooks runnerName runnerID) b e.
Proof.
  intros Hh Hgh Hgt Hok Hs Hq Hf Hkv s t Hag Ht.
  eapply (wp_HandleJobCompleted Pv Pw hooks gh queued); try done.
  - intros _. exists []. split; [by rewrite app_nil_r|]. intros _.
    by apply (thread_run_nil _ b e).
  - intros n ok e' Hin _ Hcalls Hdone. exists [CallDeleteVM n ok]. split; [done|]. intros _.
    assert (n = runnerName) as -> by exact (Hkv _ _ Hin).
    destruct Hag as [G1 G2 G3].
    assert (runnerName ∈ dom (activeVMs b)) as Hdom by by apply elem_of_dom.
    exists (Forget t runnerName :: (if ok then [Delete t true; ReleaseOne t] else [Delete t false])).
    assert (tracked s ∖ {[runnerName]} = (tracked s ∖ dom (activeVMs b))
      ∪ dom (activeVMs (PurgeActiveVM runnerName b))) as Htr.
    { simpl. rewrite dom_delete_L. apply set_eq. intros x.
      destruct (decide (x ∈ dom (activeVMs b))); set_solver. }
    eexists. split; [|split; [apply run_completion; [done|by apply G3]|]].
    + constructor; [simpl; by rewrite bool_decide_true|].
      destruct ok; repeat constructor; simpl; by rewrite bool_decide_true.
    + rewrite <-Htr. simpl. split; [|by destruct ok].
      assert (dom (delete runnerName (activeVMs b)) ⊆ tracked s ∖ {[runnerName]}) as Hsub
        by (rewrite dom_delete_L; set_solver).
      destruct ok; simpl in Hdone; [|by destruct Hdone as [Hcap _]; constructor; rewrite ?Hcap].
      destruct Hs. constructor; simpl; [| |done]; rewrite Hdone; unfold Release; simpl;
        by rewrite ?G1.
Qed.
End Refine.

(** ** Witnesses *)

#[local] Notation macs_vms := (λ vms, vms = fleet_reported_vms two_macs).
#[local] Notation macs_ws := (λ ws, ws = fleet_workers two_macs).

Definition one_thread (m : Z) (vms : gset string) : Shared :=
  mkShared (mkCapacity (Z.of_nat (size vms)) m []) vms vms [Idle].

Lemma scale_up_refines_thread_witness :
  accepted_names (env_calls (run_large true).2.2) =
    ["gha-orchard-large-00000000"; "gha-orchard-large-1a1a1a1a"] ∧
  wp (HandleDesiredRunnerCount no_hooks 3)
     (returns (λ _ '(b', e'), ∃ news, env_calls e' = news ∧
        (creatable news ∅ → thread_run 0 (large_bridge true) b' e' news (one_thread 2 ∅))))
     (large_bridge true, start_env).
Proof.
  split; [by vm_compute|].
  apply (scale_up_refines_thread macs_vms macs_ws no_hooks sim_gh _ _ _ (start_ready true)
    (one_thread 2 ∅) 0); [|done].
  by constructor.
Defined.

Definition one_job_thread : Shared := one_thread 2 {["gha-orchard-large-0a0a0a0a"]}.

Lemma job_completed_refines_thread_witness :
  wp (HandleJobCompleted queueing "gha-orchard-large-0a0a0a0a" 5)
     (returns (λ _ '(b', e'), ∃ news, env_calls e' = env_calls job_env ++ news ∧
        (creatable news (live one_job_thread) →
         thread_run 0 one_job b' e' news one_job_thread))) (one_job, job_env).
Proof.
  assert (refines_thread (HandleJobCompleted queueing "gha-orchard-large-0a0a0a0a" 5)
    one_job job_env) as Href.
  { apply (job_completed_refines_thread (λ vms, vms = fleet_reported_vms refusing)
      (λ ws, ws = fleet_workers refusing) queueing sim_gh (λ e n, n ∈ ext e)).
    - constructor; try done. by intros f n [= <-].
    - done.
    - by repeat split.
    - split; [done|left; by eexists].
    - by vm_compute.
    - intros f n e [= <-] _. unfold wp. simpl. by left.
    - by eexists.
    - by apply map_Forall_singleton. }
  refine (Href one_job_thread 0 _ _); [|done]. by constructor; vm_compute.
Defined.
