(* ===== verification/Cleanup.v ===== *)
(** * The cleanup loop ([bridge/cleanup.go], [bridge/runner_remover.go])

    [Cleanup] is the loop's own state; [CleanupHooks] are its collaborators.
    One iteration of [Run] is [sweep], cut into the pieces the source names. *)

From S2P Require Import Prelude GoBase Orchard VMNames Workers AutoSize Capacity.
From S2P Require Import StateView Env Bridge.

Definition DefaultCleanupInterval : Duration := (60 * Second)%Z.
Definition DefaultMaxVMAge : Duration := (2 * Hour)%Z.
Definition DefaultMaxPendingAge : Duration := (10 * Minute)%Z.

Record Cleanup : Type := mkCleanup {
  interval : Duration;
  maxAge : Duration;
  maxPendingAge : Duration;
  pruneAfter : Duration;
  pruneSkipLogged : gmap string string;
  prunedTotal : option Z;              (* a counter, nil before [SetMetrics] *)
  pendingDeletes : gset string
}.

Definition NewCleanup : Cleanup :=
  mkCleanup DefaultCleanupInterval DefaultMaxVMAge DefaultMaxPendingAge 0%Z ∅ None ∅.

Definition set_pending (p : gset string) (c : Cleanup) : Cleanup :=
  mkCleanup (interval c) (maxAge c) (maxPendingAge c) (pruneAfter c)
    (pruneSkipLogged c) (prunedTotal c) p.

Definition set_skipLogged (m : gmap string string) (c : Cleanup) : Cleanup :=
  mkCleanup (interval c) (maxAge c) (maxPendingAge c) (pruneAfter c)
    m (prunedTotal c) (pendingDeletes c).

Definition MarkForDeletion (vmName : string) (c : Cleanup) : Cleanup :=
  if decide (vmName = EmptyString) then c
  else set_pending ({[vmName]} ∪ pendingDeletes c) c.

Definition isPendingDelete (vmName : string) (c : Cleanup) : bool :=
  bool_decide (vmName ∈ pendingDeletes c).

Definition retainPendingDeletes (seen : gset string) (c : Cleanup) : Cleanup :=
  set_pending (filter (λ n, n ∈ seen) (pendingDeletes c)) c.

Definition clearPendingDelete (vmName : string) (c : Cleanup) : Cleanup :=
  set_pending (pendingDeletes c ∖ {[vmName]}) c.

Definition SetMaxAge (d : Duration) (c : Cleanup) : Cleanup :=
  if (0 <? d)%Z
  then mkCleanup (interval c) d (maxPendingAge c) (pruneAfter c)
         (pruneSkipLogged c) (prunedTotal c) (pendingDeletes c)
  else c.

Definition SetMaxPendingAge (d : Duration) (c : Cleanup) : Cleanup :=
  if (0 <? d)%Z
  then mkCleanup (interval c) (maxAge c) d (pruneAfter c)
         (pruneSkipLogged c) (prunedTotal c) (pendingDeletes c)
  else c.

Definition SetWorkerPruneAfter (d : Duration) (c : Cleanup) : Cleanup :=
  mkCleanup (interval c) (maxAge c) (maxPendingAge c) (if (d <? 0)%Z then 0%Z else d)
    (pruneSkipLogged c) (prunedTotal c) (pendingDeletes c).

(** [SetMetrics]: [reg] tells whether there is a registry. *)
Definition SetMetrics (reg : bool) (c : Cleanup) : Cleanup :=
  mkCleanup (interval c) (maxAge c) (maxPendingAge c) (pruneAfter c)
    (pruneSkipLogged c) (if reg then Some 0%Z else None) (pendingDeletes c).

(** [c.prunedTotal.Inc()], which does nothing on a nil counter. *)
Definition inc_pruned (c : Cleanup) : Cleanup :=
  mkCleanup (interval c) (maxAge c) (maxPendingAge c) (pruneAfter c)
    (pruneSkipLogged c) ((λ n, n + 1)%Z <$> prunedTotal c) (pendingDeletes c).

(** ** Reaping rules *)

(** [!t.IsZero() && now.Sub(t) > limit]. *)
Definition older_than (t now : Time) (limit : Duration) : bool :=
  negb (IsZero t) && (limit <? Sub now t)%Z.

Definition shouldDeleteByStatus (c : Cleanup) (vm : VM) (now : Time) : bool * string :=
  if decide (vm_Status vm = VMStatusStopped) then (true, "stopped")
  else if decide (vm_Status vm = VMStatusFailed) then (true, "failed")
  else if decide (vm_Status vm = VMStatusCreating) then
    if older_than (vm_CreatedAt vm) now (maxPendingAge c)
    then (true, "stuck pending") else (false, EmptyString)
  else
    if older_than (vm_CreatedAt vm) now (maxAge c)
    then (true, "max age exceeded") else (false, EmptyString).

Definition shouldDelete (c : Cleanup) (vm : VM) (now : Time) : bool :=
  if negb (isPendingDelete (vm_Name vm) c) then (shouldDeleteByStatus c vm now).1 else true.

(** ** One sweep *)

Record sweepState : Type := mkSweepState {
  st_vms : list VM;
  st_live : list Worker;
  st_all : list Worker;
  st_fetchedAt : Time;
  st_fresh : bool
}.

(** The local variables of the loop over the VMs. *)
Record Tally : Type := mkTally {
  managedCount : Z;
  deleted : Z;
  orphaned : Z;
  seen : gset string
}.

(** [for k := range m { if _, ok := keep[k]; !ok { delete(m, k) } }]. *)
Definition keep_only {A} (keep : gset string) (m : gmap string A) : gmap string A :=
  filter (λ p, p.1 ∈ keep) m.

(** [hasVMs[w.Name]]: the VMs assigned to a worker. *)
Definition hasVMs (vms : list VM) (name : string) : Z :=
  Z.of_nat (length (filter (λ vm, vm_Worker vm ≠ EmptyString ∧ vm_Worker vm = name) vms)).

(** Why an offline worker is not pruned: empty if it is. *)
Definition prune_skip (vms : list VM) (w : Worker) : string :=
  if w_SchedulingPaused w then "scheduling paused by an operator"
  else if (0 <? hasVMs vms (w_Name w))%Z then "worker still has VMs assigned"
  else EmptyString.

Section Sweep.
Context {W CB X : Type} `{!OrchardClient W} `{!Clock W}.
Notation E := (Env W CB X).
Notation St := (Cleanup * Env W CB X)%type.

Record CleanupHooks : Type := mkCleanupHooks {
  runnerRemover : option (string → M W (option error));
  onVMCleaned : option (string → M E unit);
  onSweep : option (list Worker → M E unit);
  run_callback : CB → list Worker → M E unit
}.

(** [ScaleSetRunnerRemover.RemoveRunnerByName]. *)
Definition RemoveRunnerByName (gh : GHClient W) (name : string) : M W (option error) :=
  r ← GetRunnerByName gh name;
  match r with
  | Err e => mret (Some (Errorf_w "looking up runner %q: %w" [name] e))
  | OK None => mret None
  | OK (Some id) => Bridge.RemoveRunner gh id
  end.

Variable hooks : CleanupHooks.

Definition on_cleanup (f : Cleanup → Cleanup) : M St unit :=
  zoom fst (λ c p, (c, p.2)) (modify f).
Definition the_cleanup : M St Cleanup := read fst.
Definition on_rest {A} (m : M E A) : M St A := zoom snd (λ e p, (p.1, e)) m.
Definition state_set : M St bool := read (λ p, bool_decide (is_Some (view p.2))).

(** [if c.state != nil { c.state.Invalidate() }]. *)
Definition invalidate_state : M St unit := on_rest state_Invalidate.

Definition listVMsAndWorkers : M St (result sweepState) :=
  st ← state_set;
  if (st : bool) then
    '(snap, err) ← on_rest state_Get;
    match snap, err with
    | None, Some e => mret (Err e)
    | None, None => panic
    | Some snap, _ =>
        mret (OK (mkSweepState (VMs snap) (snap_Workers snap) (AllWorkers snap)
                    (FetchedAt snap) (bool_decide (err = None))))
    end
  else
    vms ← on_rest (on_world ListVMs);
    match vms with
    | Err e => mret (Err e)
    | OK vms =>
        workers ← on_rest (on_world ListWorkers);
        match workers with
        | Err e => mret (Err e)
        | OK workers =>
            now ← on_rest (on_world Now);
            mret (OK (mkSweepState vms workers workers now true))
        end
    end.

(** [removeRunner]: best effort. *)
Definition removeRunner (name : string) : M St unit :=
  match runnerRemover hooks with
  | None => mret tt
  | Some rm => _ ← on_rest (on_world (rm name)); mret tt
  end.

Definition processVM (vm : VM) (now : Time) : M St bool :=
  recover_with false (
    c ← the_cleanup;
    if negb (shouldDelete c vm now) then mret false else
    err ← on_rest (on_world (DeleteVM (vm_Name vm)));
    match err with
    | Some _ => mret false
    | None =>
        on_cleanup (clearPendingDelete (vm_Name vm));;
        removeRunner (vm_Name vm);;
        match onVMCleaned hooks with
        | Some f => on_rest (f (vm_Name vm));; mret true
        | None => mret true
        end
    end).

(** The body of the loop over the VMs. *)
Definition sweep_vm (liveWorkers : gset string) (now : Time) (t : Tally) (vm : VM)
    : M St Tally :=
  if negb (IsManagedVM (vm_Name vm)) then mret t else
  let seen := {[vm_Name vm]} ∪ seen t in
  del ← processVM vm now;
  if (del : bool) then mret (mkTally (managedCount t) (deleted t + 1) (orphaned t) seen)
  else if decide (vm_Worker vm ≠ EmptyString ∧ vm_Worker vm ∉ liveWorkers)
  then mret (mkTally (managedCount t) (deleted t) (orphaned t + 1) seen)
  else mret (mkTally (managedCount t + 1) (deleted t) (orphaned t) seen).

Definition pushMaxCapacity (workers : list Worker) : M St unit :=
  cbs ← on_rest (on_capacity (SetMax (total_slots workers)));
  for_each (λ cb, on_rest (run_callback hooks cb workers)) cbs.

(** The body of the loop over the worker records: the number pruned, and the
    names still skipped. *)
Definition prune_worker (vms : list VM) (live : gset string) (now : Time)
    (acc : Z * gset string) (w : Worker) : M St (Z * gset string) :=
  let '(pruned, stillSkipped) := acc in
  c ← the_cleanup;
  if decide (w_Name w ∈ live) then mret acc
  else if IsZero (w_LastSeen w) || (Sub now (w_LastSeen w) <=? pruneAfter c)%Z
  then mret acc
  else
    let skip := prune_skip vms w in
    if decide (skip ≠ EmptyString) then
      (if decide (str_at (pruneSkipLogged c) (w_Name w) ≠ skip)
       then on_cleanup (set_skipLogged (<[w_Name w := skip]> (pruneSkipLogged c)))
       else mret tt);;
      mret (pruned, {[w_Name w]} ∪ stillSkipped)
    else
      err ← on_rest (on_world (DeleteWorker (w_Name w)));
      match err with
      | Some _ => mret acc
      | None => on_cleanup inc_pruned;; mret ((pruned + 1)%Z, stillSkipped)
      end.

Definition pruneOfflineWorkers (vms : list VM) (all : list Worker) (live : gset string)
    (now : Time) : M St Z :=
  c ← the_cleanup;
  if (pruneAfter c <=? 0)%Z then mret 0%Z else
  '(pruned, stillSkipped) ← fold_m (prune_worker vms live now) (0%Z, ∅) all;
  on_cleanup (λ c, set_skipLogged (keep_only stillSkipped (pruneSkipLogged c)) c);;
  mret pruned.

Definition sweep : M St unit :=
  st ← listVMsAndWorkers;
  match st with
  | Err _ => mret tt
  | OK st =>
      now ← on_rest (on_world Now);
      let liveWorkers := list_to_set (w_Name <$> st_live st) in
      t ← fold_m (sweep_vm liveWorkers now) (mkTally 0 0 0 ∅) (st_vms st);
      on_cleanup (retainPendingDeletes (seen t));;
      (if (0 <? deleted t)%Z then invalidate_state else mret tt);;
      on_rest (cap_Reconcile (managedCount t));;
      pushMaxCapacity (st_live st);;
      pruned ← (if st_fresh st
                then pruneOfflineWorkers (st_vms st) (st_all st) liveWorkers (st_fetchedAt st)
                else mret 0%Z);
      (if (0 <? pruned)%Z then invalidate_state else mret tt);;
      match onSweep hooks with
      | Some f => on_rest (f (st_live st))
      | None => mret tt
      end
  end.

(** The ways out of the [select] of [Run]: the context is done, or the ticker
    fired. *)
Inductive wakeup : Type := CtxDone | Tick.

(** [Run], woken up as [ws] says; with no more to come it still waits. *)
Fixpoint Run (ws : list wakeup) : M St unit :=
  match ws with
  | [] => blocked
  | CtxDone :: _ => mret tt
  | Tick :: ws => sweep;; Run ws
  end.
End Sweep.
Arguments CleanupHooks : clear implicits.
Arguments CleanupHooks W CB X : assert.
