(* ===== verification/Reaping.v ===== *)
(** * What a sweep does

    The proofs about [Cleanup], over the recorded world: which VMs and worker
    records a sweep deletes, what it leaves in the semaphore and in the queue of
    failed deletions. *)

From S2P Require Import Prelude GoBase Orchard VMNames Workers AutoSize Capacity.
From S2P Require Import StateView Config Env Bridge Sample BridgeScaleUp Cleanup.

Section Reaping.
Context {W CB X : Type} `{!OrchardClient W} `{!Clock W} `{!ClientTotal W}.
Context (Pv : list VM → Prop) (Pw : list Worker → Prop) `{!Reports W Pv Pw}.
Context (hooks : CleanupHooks (Logged W) CB X).
Notation LW := (Logged W).
Notation E := (Env LW CB X).
Notation St := (Cleanup * Env LW CB X)%type.
Context (cached : bool).

(** The environment of a sweep.  Callbacks that use the state cache ([cached])
    need one. *)
Definition sweepable (e : E) : Prop :=
  env_ok Pv Pw e ∧ (cached = true → is_Some (view e)).

(** The environment moves on: [news] calls are answered, the semaphore is not
    touched. *)
Record evolves (news : list Call) (e e' : E) : Prop := {
  ev_ok : sweepable e → sweepable e';
  ev_view : is_Some (view e) ↔ is_Some (view e');
  ev_capacity : capacity e' = capacity e;
  ev_calls : env_calls e' = env_calls e ++ news
}.

Lemma evolves_refl e : evolves [] e e.
Proof. constructor; try done. by rewrite app_nil_r. Qed.

Lemma evolves_trans n1 n2 e1 e2 e3 :
  evolves n1 e1 e2 → evolves n2 e2 e3 → evolves (n1 ++ n2) e1 e3.
Proof.
  intros [A1 A2 A3 A4] [B1 B2 B3 B4]. constructor.
  - auto.
  - tauto.
  - congruence.
  - by rewrite B4, A4, app_assoc.
Qed.

Lemma evolves_world w e news :
  calls w = env_calls e ++ news → evolves news e (with_world e w).
Proof. intros Hw. by constructor. Qed.

(** Callbacks stay away from the semaphore and the controller.  Those that
    [processVM] runs may panic; nothing may block. *)
Definition quiet {A} (m : M E A) : Prop := ∀ e, sweepable e →
  wp m (λ o e', o ≠ Blocked ∧ evolves [] e e') e.
Definition quiet_total {A} (m : M E A) : Prop := ∀ e, sweepable e →
  wp m (returns (λ _ e', evolves [] e e')) e.

Record cleanup_hooks_ok : Prop := {
  remover_ok : ∀ rm n, runnerRemover hooks = Some rm → quiet (on_world (rm n));
  cleaned_ok : ∀ f n, onVMCleaned hooks = Some f → quiet (f n);
  onSweep_ok : ∀ f ws, onSweep hooks = Some f → quiet_total (f ws);
  callback_ok : ∀ cb ws, quiet_total (run_callback hooks cb ws)
}.
Context (Hhooks : cleanup_hooks_ok).

Lemma wp_on_rest {A} (m : M E A) (Q : outcome A → St → Prop) c e :
  wp m (λ o e', Q o (c, e')) e → wp (on_rest m) Q (c, e).
Proof. done. Qed.

Lemma wp_on_world {A} (m : M LW A) (Q : outcome A → E → Prop) e :
  wp m (λ o w, Q o (with_world e w)) (world e) → wp (on_world m) Q e.
Proof. done. Qed.

(** ** One VM *)

Lemma wp_quiet {A B} (m : M E A) (K : M St B) Q c e :
  quiet m → sweepable e →
  (∀ e', evolves [] e e' → Q Panic (c, e')) →
  (∀ e', evolves [] e e' → wp K Q (c, e')) →
  wp (_ ← on_rest m; K) Q (c, e).
Proof.
  intros Hm Hok HP HK. apply wp_bind, wp_on_rest.
  eapply wp_mono; [by apply Hm|].
  intros [a| |] e'; simpl; [|by intros [_ ?]; apply HP|by intros [[] _]].
  intros [_ ?]. by apply HK.
Qed.

Lemma wp_removeRunner n (Q : outcome unit → St → Prop) c e :
  sweepable e → (∀ o e', o ≠ Blocked → evolves [] e e' → Q o (c, e')) →
  wp (removeRunner hooks n) Q (c, e).
Proof.
  intros Hok HQ. unfold removeRunner.
  destruct (runnerRemover hooks) as [rm|] eqn:Hrm;
    [|by apply wp_ret, HQ; [|apply evolves_refl]].
  apply wp_quiet; [by apply (remover_ok Hhooks)|done|auto|].
  intros e' He. by apply wp_ret, HQ.
Qed.

(** What follows an accepted deletion. *)
Definition finishing (n : string) : M St unit :=
  removeRunner hooks n;;
  match onVMCleaned hooks with Some f => on_rest (f n) | None => mret tt end.

(** [panics] says for which VMs a callback panics. *)
Definition faulty (panics : string → bool) : Prop := ∀ n c e, sweepable e →
  wp (finishing n) (λ o _, o = if panics n then Panic else Ret tt) (c, e).

(** The end of [processVM]: it returns [true] or panics, away from the world. *)
Lemma wp_finishing n c e :
  sweepable e →
  wp (removeRunner hooks n;;
      match onVMCleaned hooks with
      | Some f => on_rest (f n);; mret true
      | None => mret true
      end)
     (λ o s', ∃ e', s' = (c, e') ∧ (o = Panic ∨ o = Ret true) ∧ evolves [] e e') (c, e).
Proof.
  intros Hok. apply wp_bind, wp_removeRunner; [done|].
  intros [[]| |] e1 Hb H1; simpl; [|by exists e1; auto|done].
  destruct (onVMCleaned hooks) as [f|] eqn:Hf; [|apply wp_ret; by exists e1; auto].
  apply wp_quiet; [by apply (cleaned_ok Hhooks)|by apply (ev_ok _ _ _ H1)| |]; intros e2 H2;
    [|apply wp_ret]; exists e2; (split; [done|]); (split; [by auto|]);
    by apply (evolves_trans [] [] _ _ _ H1).
Qed.

Lemma finish_faulty panics n c e :
  faulty panics → sweepable e →
  wp (removeRunner hooks n;;
      match onVMCleaned hooks with
      | Some f => on_rest (f n);; mret true
      | None => mret true
      end) (λ o _, o = if panics n then Panic else Ret true) (c, e).
Proof.
  intros Hp Hok. specialize (Hp n c e Hok). unfold finishing in Hp.
  apply wp_unbind in Hp. apply wp_bind.
  eapply wp_mono; [exact Hp|]. intros [[]| |] s; simpl; [|by destruct (panics n)..].
  destruct (onVMCleaned hooks).
  - intros Hs. apply wp_bind. eapply wp_mono; [exact Hs|].
    by intros [[]| |] s'; simpl; destruct (panics n).
  - intros Hs. unfold wp in *. simpl in *. by destruct (panics n).
Qed.

(** What [processVM] comes to: nothing, a refused deletion, or an accepted one.
    After an accepted one the result is [true] unless a callback panicked. *)
Lemma wp_processVM vm now (Q : outcome bool → St → Prop) c e :
  sweepable e →
  (shouldDelete c vm now = false → Q (Ret false) (c, e)) →
  (∀ e', shouldDelete c vm now = true →
     evolves [CallDeleteVM (vm_Name vm) false] e e' → Q (Ret false) (c, e')) →
  (∀ r e', shouldDelete c vm now = true →
     (∀ panics, faulty panics → r = negb (panics (vm_Name vm))) →
     evolves [CallDeleteVM (vm_Name vm) true] e e' →
     Q (Ret r) (clearPendingDelete (vm_Name vm) c, e')) →
  wp (processVM hooks vm now) Q (c, e).
Proof.
  intros Hok Hkeep Href Hdel. unfold processVM, the_cleanup.
  apply wp_recover_with. wp_go.
  destruct (shouldDelete c vm now) eqn:Hsd; simpl; [|by apply wp_ret, Hkeep].
  apply wp_bind, wp_on_rest, wp_on_world, wp_logged_DeleteVM.
  intros [err|] w Hw; simpl.
  { apply wp_ret, Href; [done|]. by apply (evolves_world w). }
  apply wp_bind. unfold on_cleanup at 1. apply wp_zoom, wp_modify. simpl.
  set (e1 := with_world e w).
  assert (evolves [CallDeleteVM (vm_Name vm) true] e e1) as H1 by by apply (evolves_world w).
  assert (sweepable e1) as Hok1 by by apply (ev_ok _ _ _ H1).
  assert (∀ r e2, (∀ panics, faulty panics → r = negb (panics (vm_Name vm))) →
    evolves [] e1 e2 → Q (Ret r) (clearPendingDelete (vm_Name vm) c, e2)) as Hend.
  { intros r e2 Hr H2. apply Hdel; [done..|]. rewrite <-(app_nil_r [_]). by eapply evolves_trans. }
  eapply wp_mono; [apply wp_and; [apply wp_finishing|apply wp_run]; done|].
  intros o s2 [(e2 & -> & Hb & H2) Hrun].
  assert (∀ panics, faulty panics → o = if panics (vm_Name vm) then Panic else Ret true) as Ho.
  { intros panics Hp. pose proof (finish_faulty panics (vm_Name vm)
      (clearPendingDelete (vm_Name vm) c) e1 Hp Hok1) as Hf.
    unfold wp in Hf. by rewrite Hrun in Hf. }
  destruct Hb as [-> | ->]; apply Hend; try done; intros panics Hp;
    specialize (Ho panics Hp); by destruct (panics _).
Qed.

(** ** The loop over the VMs *)

(** The VMs a sweep has to delete, and those it counts as in use once [gone]
    have been deleted. *)
Definition due (c : Cleanup) (now : Time) (vm : VM) : Prop :=
  IsManagedVM (vm_Name vm) = true ∧ shouldDelete c vm now = true.
#[export] Instance due_dec c now vm : Decision (due c now vm) := and_dec _ _.

Definition stranded (live : gset string) (vm : VM) : Prop :=
  vm_Worker vm ≠ EmptyString ∧ vm_Worker vm ∉ live.
#[export] Instance stranded_dec live vm : Decision (stranded live vm) := and_dec _ _.

Definition in_use (live : gset string) (reaped : gset string) (vm : VM) : Prop :=
  IsManagedVM (vm_Name vm) = true ∧ vm_Name vm ∉ reaped ∧ ¬ stranded live vm.
#[export] Instance in_use_dec live reaped vm : Decision (in_use live reaped vm) :=
  and_dec _ _.

Definition managed_names (vms : list VM) : gset string :=
  list_to_set (vm_Name <$> filter (λ vm, IsManagedVM (vm_Name vm) = true) vms).

(** The deletions of a list of VMs, as recorded: [gone] are those accepted. *)
Definition deletions (gone : gset string) (vms : list VM) : list Call :=
  (λ vm, CallDeleteVM (vm_Name vm) (bool_decide (vm_Name vm ∈ gone))) <$> vms.

Lemma deletions_ext gone gone' vms :
  (∀ vm, vm ∈ vms → vm_Name vm ∈ gone ↔ vm_Name vm ∈ gone') →
  deletions gone vms = deletions gone' vms.
Proof.
  intros Hext. unfold deletions. apply list_fmap_ext. intros i vm Hi.
  f_equal. apply bool_decide_ext, Hext. by eapply list_elem_of_lookup_2.
Qed.

Lemma managed_names_app l vm :
  managed_names (l ++ [vm]) =
  managed_names l ∪ (if IsManagedVM (vm_Name vm) then {[vm_Name vm]} else ∅).
Proof.
  unfold managed_names. rewrite filter_app, fmap_app, list_to_set_app_L. f_equal.
  rewrite filter_cons. destruct (IsManagedVM (vm_Name vm)); case_decide; try done.
  simpl. set_solver.
Qed.

Lemma managed_names_in vms n : n ∈ managed_names vms → n ∈ vm_Name <$> vms.
Proof.
  unfold managed_names. rewrite elem_of_list_to_set, !list_elem_of_fmap.
  intros (vm & -> & [_ ?]%list_elem_of_filter). by exists vm.
Qed.

(** What the loop has done after the VMs [past]: [gone] were deleted, [reaped]
    of them to the end. *)
Record tallied (c0 : Cleanup) (e0 : E) (live : gset string) (now : Time)
    (past : list VM) (gone reaped : gset string) (t : Tally) (c : Cleanup) (e : E)
    : Prop := {
  ta_gone : reaped ⊆ gone;
  ta_due : ∀ n, n ∈ gone → ∃ vm, vm ∈ past ∧ due c0 now vm ∧ vm_Name vm = n;
  ta_cleanup : c = set_pending (pendingDeletes c0 ∖ gone) c0;
  ta_evolves : evolves (deletions gone (filter (due c0 now) past)) e0 e;
  ta_count : managedCount t = Z.of_nat (length (filter (in_use live reaped) past));
  ta_deleted : deleted t = Z.of_nat (size reaped);
  ta_seen : seen t = managed_names past;
  ta_faults : ∀ panics, faulty panics → ∀ n, n ∈ gone → n ∈ reaped ↔ panics n = false
}.

Lemma shouldDelete_after c0 gone vm now :
  vm_Name vm ∉ gone →
  shouldDelete (set_pending (pendingDeletes c0 ∖ gone) c0) vm now = shouldDelete c0 vm now.
Proof.
  intros Hn. unfold shouldDelete, isPendingDelete. simpl.
  assert (bool_decide (vm_Name vm ∈ pendingDeletes c0 ∖ gone)
          = bool_decide (vm_Name vm ∈ pendingDeletes c0)) as ->; [|done].
  apply bool_decide_ext. set_solver.
Qed.

(** One more managed VM: [a] says whether a deletion was accepted, [b] whether
    [processVM] reported it. *)
Lemma tallied_snoc c0 e0 live now past vm gone reaped t c e (a b : bool) t' e' :
  tallied c0 e0 live now past gone reaped t c e →
  vm_Name vm ∉ vm_Name <$> past → IsManagedVM (vm_Name vm) = true →
  (a = true → due c0 now vm) → (b = true → a = true) →
  (∀ panics, faulty panics → a = true → b = negb (panics (vm_Name vm))) →
  evolves (if decide (due c0 now vm) then [CallDeleteVM (vm_Name vm) a] else []) e e' →
  let gone' := if a then {[vm_Name vm]} ∪ gone else gone in
  let reaped' := if b then {[vm_Name vm]} ∪ reaped else reaped in
  managedCount t' = (managedCount t + if decide (in_use live reaped' vm) then 1 else 0)%Z →
  deleted t' = (deleted t + if b then 1 else 0)%Z →
  seen t' = {[vm_Name vm]} ∪ seen t →
  tallied c0 e0 live now (past ++ [vm]) gone' reaped' t'
    (if a then clearPendingDelete (vm_Name vm) c else c) e'.
Proof.
  intros [T1 T2 -> T4 T5 T6 T7 T8] Hnew Hman Hdue Hba Hf Hev gone' reaped' Hc Hd Hs.
  assert (vm_Name vm ∉ gone) as Hng.
  { intros (u & Hu & _ & Hn)%T2. apply Hnew. rewrite <-Hn. by apply list_elem_of_fmap_2. }
  assert (∀ u, u ∈ past → vm_Name u ≠ vm_Name vm) as Hne.
  { intros u Hu Heq. apply Hnew. rewrite <-Heq. by apply list_elem_of_fmap_2. }
  assert (vm_Name vm ∈ gone' ↔ a = true) as Hina by (destruct a; set_solver).
  constructor.
  - subst gone' reaped'. destruct b; [rewrite (Hba eq_refl)|destruct a]; set_solver.
  - intros n Hn. destruct (decide (n ∈ gone)) as [Hin|Hnot].
    + destruct (T2 n Hin) as (u & Hu & ? & ?). exists u. rewrite elem_of_app. auto.
    + subst gone'. destruct a; [|done]. exists vm. rewrite elem_of_app.
      repeat split; [right; by left|by apply Hdue..|set_solver].
  - subst gone'. destruct a; [|done]. unfold clearPendingDelete, set_pending. simpl.
    f_equal. set_solver.
  - rewrite filter_app. unfold deletions. rewrite fmap_app.
    change (_ <$> filter (due c0 now) past)
      with (deletions gone' (filter (due c0 now) past)).
    rewrite <-(deletions_ext gone).
    2:{ intros u [_ Hu]%list_elem_of_filter. specialize (Hne u Hu).
        subst gone'. destruct a; set_solver. }
    eapply evolves_trans; [exact T4|]. rewrite filter_cons.
    destruct (decide (due c0 now vm)); [|done]. simpl.
    replace (bool_decide _) with a; [done|].
    destruct a; symmetry; [by apply bool_decide_true, Hina|].
    apply bool_decide_false. intros ?%Hina. done.
  - rewrite Hc, T5, filter_app, length_app.
    rewrite (Prelude.filter_ext_in (in_use live reaped') (in_use live reaped) past).
    2:{ intros u Hu. specialize (Hne u Hu). unfold in_use. subst reaped'.
        destruct b; set_solver. }
    rewrite filter_cons. destruct (decide (in_use live reaped' vm)); simpl; lia.
  - rewrite Hd, T6. subst reaped'. destruct b; [|lia].
    rewrite size_union, size_singleton; [lia|]. set_solver.
  - rewrite Hs, T7, managed_names_app, Hman. set_solver.
  - intros panics Hp n Hn. destruct (decide (n ∈ gone)) as [Hin|Hnot].
    + rewrite <-(T8 panics Hp n Hin). subst reaped'. destruct b; [|done]. set_solver.
    + subst gone'. destruct a; [|done]. assert (n = vm_Name vm) as -> by set_solver.
      subst reaped'. rewrite (Hf panics Hp eq_refl) in *.
      destruct (panics (vm_Name vm)); simpl; set_solver.
Qed.

(** One that is not managed. *)
Lemma tallied_unmanaged c0 e0 live now past vm gone reaped t c e :
  tallied c0 e0 live now past gone reaped t c e → IsManagedVM (vm_Name vm) = false →
  tallied c0 e0 live now (past ++ [vm]) gone reaped t c e.
Proof.
  intros [T1 T2 T3 T4 T5 T6 T7 T8] Hman.
  assert (∀ P : VM → Prop, (P vm → IsManagedVM (vm_Name vm) = true) →
    ∀ `{∀ x, Decision (P x)}, filter P (past ++ [vm]) = filter P past) as Hf.
  { intros P HP ?. rewrite filter_app, filter_cons, decide_False, app_nil_r; [done|].
    intros Hm%HP. congruence. }
  constructor; try done.
  - intros n (u & Hu & ?)%T2. exists u. rewrite elem_of_app. auto.
  - by rewrite Hf by by intros [].
  - by rewrite Hf by by intros [].
  - rewrite T7, managed_names_app, Hman. set_solver.
Qed.

Lemma wp_sweep_vm c0 e0 live now past vm gone reaped t c e
    (Q : outcome Tally → St → Prop) :
  sweepable e0 → vm_Name vm ∉ vm_Name <$> past →
  tallied c0 e0 live now past gone reaped t c e →
  (∀ gone' reaped' t' c' e',
     tallied c0 e0 live now (past ++ [vm]) gone' reaped' t' c' e' → Q (Ret t') (c', e')) →
  wp (sweep_vm hooks live now t vm) Q (c, e).
Proof.
  intros Hok Hnew Hta HQ. pose proof Hta as [T1 T2 T3 T4 T5 T6 T7 T8].
  unfold sweep_vm. destruct (IsManagedVM (vm_Name vm)) eqn:Hman; simpl.
  2:{ by apply wp_ret, (HQ gone reaped), tallied_unmanaged. }
  assert (vm_Name vm ∉ gone) as Hng.
  { intros (u & Hu & _ & Hn)%T2. apply Hnew. rewrite <-Hn. by apply list_elem_of_fmap_2. }
  assert (shouldDelete c vm now = shouldDelete c0 vm now) as Hsame
    by (rewrite T3; by apply shouldDelete_after).
  assert (∀ (a b : bool) e1,
    (a = true → due c0 now vm) → (b = true → a = true) →
    (∀ panics, faulty panics → a = true → b = negb (panics (vm_Name vm))) →
    evolves (if decide (due c0 now vm) then [CallDeleteVM (vm_Name vm) a] else []) e e1 →
    wp (if b then mret (mkTally (managedCount t) (deleted t + 1) (orphaned t)
                          ({[vm_Name vm]} ∪ seen t))
        else if decide (vm_Worker vm ≠ EmptyString ∧ vm_Worker vm ∉ live)
        then mret (mkTally (managedCount t) (deleted t) (orphaned t + 1)
                     ({[vm_Name vm]} ∪ seen t))
        else mret (mkTally (managedCount t + 1) (deleted t) (orphaned t)
                     ({[vm_Name vm]} ∪ seen t)))%Z Q
      (if a then clearPendingDelete (vm_Name vm) c else c, e1)) as Hend.
  { intros a b e1 Ha Hb Hf Hev. destruct b.
    - apply wp_ret; eapply HQ.
      eapply (tallied_snoc _ _ _ _ _ _ _ _ _ _ _ a true); try done; simpl.
      destruct (decide (in_use live _ vm)) as [(_ & Hin & _)|_]; [set_solver|lia].
    - assert (vm_Name vm ∉ reaped) as Hnr by set_solver.
      destruct (decide (vm_Worker vm ≠ EmptyString ∧ vm_Worker vm ∉ live)) as [Hst|Hst];
        apply wp_ret; eapply HQ;
        eapply (tallied_snoc _ _ _ _ _ _ _ _ _ _ _ a false); try done; simpl; try lia.
      + destruct (decide (in_use live _ vm)) as [(_ & _ & Hn)|_]; [by destruct Hn|lia].
      + destruct (decide (in_use live _ vm)) as [_|Hn]; [done|by destruct Hn]. }
  apply wp_bind, wp_processVM; [by apply (ev_ok _ _ _ T4)|..].
  - intros Hno. apply (Hend false false); try done.
    rewrite decide_False; [apply evolves_refl|]. intros [_ Hd]. congruence.
  - intros e1 Hyes Hev. apply (Hend false false); try done.
    by rewrite decide_True by (split; congruence).
  - intros r e1 Hyes Hf Hev. apply (Hend true r); try done.
    + intros _. split; congruence.
    + intros panics Hp _. by apply Hf.
    + by rewrite decide_True by (split; congruence).
Qed.

Lemma wp_sweep_vms c0 e0 live now vms (Q : outcome Tally → St → Prop) :
  sweepable e0 → NoDup (vm_Name <$> vms) →
  (∀ gone reaped t c e,
     tallied c0 e0 live now vms gone reaped t c e → Q (Ret t) (c, e)) →
  wp (fold_m (sweep_vm hooks live now) (mkTally 0 0 0 ∅) vms) Q (c0, e0).
Proof.
  intros Hok Hnd HQ.
  apply wp_fold_m with
    (I := λ past t s, ∃ gone reaped, tallied c0 e0 live now past gone reaped t s.1 s.2).
  - exists ∅, ∅. constructor; try done.
    + destruct c0 as [i ma mpa pa psl pt pd]. unfold set_pending. simpl. f_equal. set_solver.
    + apply evolves_refl.
  - intros past vm rest t [c e] Hvms (gone & reaped & Hta).
    eapply wp_sweep_vm; [done| |exact Hta|].
    + rewrite Hvms, fmap_app, fmap_cons in Hnd. apply NoDup_app in Hnd as (_ & Hnd & _).
      intros Hin. by apply (Hnd _ Hin); left.
    + intros gone' reaped' t' c' e' Hta'. simpl. by exists gone', reaped'.
  - intros t [c e] (gone & reaped & Hta). by eapply HQ.
Qed.

(** ** Pruning *)

(** The worker records a sweep deletes. *)
Definition prunable (after : Duration) (vms : list VM) (live : gset string) (now : Time)
    (w : Worker) : Prop :=
  w_Name w ∉ live ∧ IsZero (w_LastSeen w) = false ∧ (after < Sub now (w_LastSeen w))%Z
  ∧ prune_skip vms w = EmptyString.
#[export] Instance prunable_dec after vms live now w :
  Decision (prunable after vms live now w) := and_dec _ _.

(** What pruning leaves of the cleanup record: only the log of skipped workers
    and the counter change. *)
Definition pruned_by (n : Z) (c c' : Cleanup) : Prop :=
  ∃ m, c' = mkCleanup (interval c) (maxAge c) (maxPendingAge c) (pruneAfter c) m
              ((λ k, k + n)%Z <$> prunedTotal c) (pendingDeletes c).

Lemma pruned_by_refl c : pruned_by 0 c c.
Proof.
  exists (pruneSkipLogged c). destruct c as [i ma mpa pa psl [k|] pd]; simpl; [|done].
  by rewrite Z.add_0_r.
Qed.

Lemma pruned_by_log m n c c' : pruned_by n c c' → pruned_by n c (set_skipLogged m c').
Proof. intros [m' ->]. by exists m. Qed.

Lemma pruned_by_inc n c c' : pruned_by n c c' → pruned_by (n + 1) c (inc_pruned c').
Proof.
  intros [m' ->]. exists m'. unfold inc_pruned. simpl. f_equal.
  destruct (prunedTotal c); simpl; [|done]. f_equal. lia.
Qed.

Definition pruning (w : Worker) (c : Call) : Prop :=
  ∃ ok, c = CallDeleteWorker (w_Name w) ok.

Record prune_inv (c0 : Cleanup) (e0 : E) (vms : list VM) (live : gset string)
    (now : Time) (past : list Worker) (n : Z) (s : St) (news : list Call) : Prop := {
  pi_calls : Forall2 pruning (filter (prunable (pruneAfter c0) vms live now) past) news;
  pi_evolves : evolves news e0 s.2;
  pi_count : n = Z.of_nat (count_accepted news);
  pi_cleanup : pruned_by n c0 s.1
}.

Lemma count_accepted_snoc news c :
  count_accepted (news ++ [c]) = count_accepted news + if accepted c then 1 else 0.
Proof.
  unfold count_accepted. rewrite filter_app, length_app, filter_cons.
  by destruct (accepted c).
Qed.

(** A record that is not to be pruned is passed over. *)
Lemma prune_inv_skip c0 e0 vms live now past w n c e c' news :
  prune_inv c0 e0 vms live now past n (c, e) news →
  ¬ prunable (pruneAfter c0) vms live now w → pruned_by n c0 c' →
  prune_inv c0 e0 vms live now (past ++ [w]) n (c', e) news.
Proof.
  intros [P1 P2 P3 P4] Hno Hc'. constructor; try done.
  by rewrite filter_app, filter_cons, decide_False, app_nil_r.
Qed.

(** One that is, is deleted, and the answer counted. *)
Lemma prune_inv_delete c0 e0 vms live now past w n c e c' w' ok news :
  prune_inv c0 e0 vms live now past n (c, e) news →
  prunable (pruneAfter c0) vms live now w →
  pruned_by (n + if ok : bool then 1 else 0)%Z c0 c' →
  calls w' = calls (world e) ++ [CallDeleteWorker (w_Name w) ok] →
  prune_inv c0 e0 vms live now (past ++ [w]) (n + if ok then 1 else 0)%Z (c', with_world e w')
    (news ++ [CallDeleteWorker (w_Name w) ok]).
Proof.
  intros [P1 P2 P3 P4] Hp Hc' Hcalls. constructor; simpl; try done.
  - rewrite filter_app. apply Forall2_app; [done|].
    rewrite filter_cons, decide_True by done. constructor; [by exists ok|done].
  - eapply evolves_trans; [exact P2|]. by apply evolves_world.
  - rewrite count_accepted_snoc. simpl in *. destruct ok; lia.
Qed.

Lemma wp_prune_worker c0 e0 vms live now past w n skipped s news
    (Q : outcome (Z * gset string) → St → Prop) :
  prune_inv c0 e0 vms live now past n s news →
  (∀ n' skipped' s' news', prune_inv c0 e0 vms live now (past ++ [w]) n' s' news' →
     Q (Ret (n', skipped')) s') →
  wp (prune_worker vms live now (n, skipped) w) Q s.
Proof.
  destruct s as [c e]. intros Hinv HQ. pose proof Hinv as [_ _ _ P4]. simpl in P4.
  assert (pruneAfter c = pruneAfter c0) as Haf by by destruct P4 as [m ->].
  assert (¬ prunable (pruneAfter c0) vms live now w → ∀ sk c', pruned_by n c0 c' →
    Q (Ret (n, sk)) (c', e)) as Hskip.
  { intros Hno sk c' Hc'. eapply HQ. by eapply prune_inv_skip. }
  unfold prune_worker, the_cleanup. wp_go. rewrite Haf.
  destruct (decide (w_Name w ∈ live)) as [Hl|Hl].
  { apply wp_ret, Hskip; [|done]. by intros (? & _). }
  destruct (IsZero (w_LastSeen w)) eqn:Hz; simpl.
  { apply wp_ret, Hskip; [|done]. intros (_ & ? & _). congruence. }
  destruct (Z.leb_spec (Sub now (w_LastSeen w)) (pruneAfter c0)) as [Hy|Hold].
  { apply wp_ret, Hskip; [|done]. intros (_ & _ & ? & _). lia. }
  destruct (decide (prune_skip vms w ≠ EmptyString)) as [Hs|Hs].
  { assert (¬ prunable (pruneAfter c0) vms live now w) as Hno by by intros (_ & _ & _ & ?).
    apply wp_bind. destruct (decide (str_at (pruneSkipLogged c) (w_Name w) ≠ prune_skip vms w)).
    - unfold on_cleanup. wp_go. by apply Hskip, pruned_by_log.
    - apply wp_ret. simpl. by apply wp_ret, Hskip. }
  assert (prunable (pruneAfter c0) vms live now w) as Hp.
  { split; [done|]. split; [done|]. split; [done|].
    by destruct (decide (prune_skip vms w = EmptyString)). }
  apply wp_bind, wp_on_rest, wp_on_world, wp_logged_DeleteWorker.
  intros [err|] w' Hw'; simpl in Hw' |- *.
  - apply wp_ret. rewrite <-(Z.add_0_r n) in P4 |- *. eapply HQ.
    by eapply (prune_inv_delete _ _ _ _ _ _ _ _ _ _ _ _ false).
  - unfold on_cleanup. wp_go. eapply HQ, (prune_inv_delete _ _ _ _ _ _ _ _ _ _ _ _ true);
      [done..|by apply pruned_by_inc|done].
Qed.

Lemma wp_pruneOfflineWorkers c0 e0 vms all live now (Q : outcome Z → St → Prop) :
  (∀ n s news, evolves news e0 s.2 → pruned_by n c0 s.1 →
     Forall2 pruning
       (if (0 <? pruneAfter c0)%Z
        then filter (prunable (pruneAfter c0) vms live now) all else []) news →
     Q (Ret n) s) →
  wp (pruneOfflineWorkers vms all live now) Q (c0, e0).
Proof.
  intros HQ. unfold pruneOfflineWorkers, the_cleanup. wp_go.
  destruct (Z.leb_spec (pruneAfter c0) 0) as [Hle|Hlt].
  { apply wp_ret, (HQ 0%Z (c0, e0) []); simpl; [apply evolves_refl|apply pruned_by_refl|].
    by rewrite (proj2 (Z.ltb_ge _ _)). }
  rewrite (proj2 (Z.ltb_lt _ _)) in HQ by done. apply wp_bind.
  apply wp_fold_m with (I := λ past acc s, ∃ news,
    prune_inv c0 e0 vms live now past acc.1 s news).
  - exists []. constructor; simpl; try done; [apply evolves_refl|apply pruned_by_refl].
  - intros past w rest [n skipped] s _ [news Hinv].
    eapply wp_prune_worker; [exact Hinv|]. intros n' skipped' s' news' Hinv'. simpl.
    by exists news'.
  - intros [n skipped] [c e] (news & [P1 P2 P3 P4]). simpl in *.
    unfold on_cleanup. wp_go. eapply (HQ n (_, e) news); try done.
    by apply pruned_by_log.
Qed.

(** ** The sweep *)

(** What a sweep may read: a snapshot of the shared cache, or, without one, the
    lists of the controller, every worker counting as live. *)
Definition fetched (st : sweepState) : Prop :=
  (∃ sn err, snapshot_of Pv Pw sn ∧
     st = mkSweepState (VMs sn) (snap_Workers sn) (AllWorkers sn) (FetchedAt sn) err)
  ∨ (∃ vms ws now, Pv vms ∧ Pw ws ∧ st = mkSweepState vms ws ws now true).

Lemma wp_list_direct {A B} (m : M W (result A)) (P : A → Prop) (K : result A → M St B) Q c e :
  total m → (∀ w, wp m (on_ret (λ r _, ∀ a, r = OK a → P a)) w) →
  (∀ err e', evolves [] e e' → wp (K (Err err)) Q (c, e')) →
  (∀ a e', evolves [] e e' → P a → wp (K (OK a)) Q (c, e')) →
  wp (r ← on_rest (on_world (on_base m)); K r) Q (c, e).
Proof.
  intros Ht Hrep Herr Hok.
  apply wp_bind, wp_on_rest, wp_on_world, wp_on_base.
  eapply wp_mono; [apply wp_and; [apply Ht|apply Hrep]|].
  intros [[a|err]| |] w; simpl; [|..|by intros []|by intros []]; intros [_ HP].
  - apply Hok; [|by apply HP]. apply evolves_world. by rewrite app_nil_r.
  - apply Herr. apply evolves_world. by rewrite app_nil_r.
Qed.

Lemma wp_listVMsAndWorkers (Q : outcome (result sweepState) → St → Prop) c e :
  sweepable e →
  (∀ err e', evolves [] e e' → Q (Ret (Err err)) (c, e')) →
  (∀ st e', evolves [] e e' → fetched st → Q (Ret (OK st)) (c, e')) →
  wp listVMsAndWorkers Q (c, e).
Proof.
  intros Hok Herr HQ. unfold listVMsAndWorkers, state_set. wp_go.
  destruct (view e) as [sv|] eqn:Hv; simpl.
  - apply wp_bind, wp_on_rest, (wp_state_Get Pv Pw); [by destruct Hok|by eexists|].
    intros osn err e' Hok' Hv' Hcap _ Hcalls Hsn Hno. simpl.
    assert (evolves [] e e') as He.
    { constructor; [by split| |done|by rewrite app_nil_r].
      split; intros _; [done|by rewrite Hv; eexists]. }
    destruct osn as [sn|].
    + apply wp_ret, HQ; [done|]. left. exists sn, (bool_decide (err = None)).
      split; [by apply Hsn|done].
    + destruct err as [err|]; [by apply wp_ret, Herr|]. by destruct (Hno eq_refl).
  - apply (wp_list_direct ListVMs Pv); [apply ListVMs_total|apply reported_vms| |].
    { intros err e' He. by apply wp_ret, Herr. }
    intros vms e1 He1 Hvms.
    apply (wp_list_direct ListWorkers Pw); [apply ListWorkers_total|apply reported_workers| |].
    { intros err e2 He2. apply wp_ret, Herr. by apply (evolves_trans [] [] _ _ _ He1). }
    intros ws e2 He2 Hws.
    apply wp_bind, wp_on_rest, wp_on_world, wp_on_base_total; [apply Now_total|].
    intros now w. simpl. apply wp_ret, HQ.
    + apply (evolves_trans [] [] _ _ _ He1), (evolves_trans [] [] _ _ _ He2).
      apply evolves_world. by rewrite app_nil_r.
    + right. by exists vms, ws, now.
Qed.

Lemma wp_invalidate_if (P : bool) (Q : outcome unit → St → Prop) c e :
  (∀ e', evolves [] e e' → Q (Ret tt) (c, e')) →
  wp (if P then invalidate_state else mret tt) Q (c, e).
Proof.
  intros HQ. destruct P; [|by apply wp_ret, HQ, evolves_refl].
  unfold invalidate_state, state_Invalidate. apply wp_on_rest. wp_go. apply HQ.
  constructor; simpl.
  - intros [Hok Hc]. split.
    + unfold env_ok in *. simpl. destruct (view e) as [sv|]; [|done].
      destruct Hok as [Hidle _]. by split.
    + intros Hca. destruct (Hc Hca) as [sv Hv]. simpl. rewrite Hv. by eexists.
  - split; intros [sv Hv]; [rewrite Hv; by eexists|].
    destruct (view e); [by eexists|done].
  - done.
  - by rewrite app_nil_r.
Qed.

Lemma wp_run_callbacks cbs ws (Q : outcome unit → St → Prop) c e :
  sweepable e → (∀ e', evolves [] e e' → Q (Ret tt) (c, e')) →
  wp (for_each (λ cb, on_rest (run_callback hooks cb ws)) cbs) Q (c, e).
Proof.
  intros Hok HQ.
  apply wp_for_each with (I := λ _ s, s.1 = c ∧ evolves [] e s.2).
  - split; [done|apply evolves_refl].
  - intros _ cb _ [c1 e1] _ [Hc He1]. simpl in Hc, He1. subst c1. apply wp_on_rest.
    eapply wp_mono; [apply (callback_ok Hhooks); by apply (ev_ok _ _ _ He1)|].
    intros [a| |] e2; simpl; [|done..]. intros He2. split; [done|].
    by apply (evolves_trans [] [] _ _ _ He1).
  - intros [c1 e1] [Hc He1]. simpl in Hc, He1. subst c1. by apply HQ.
Qed.

(** The live workers. *)
Definition live_names (st : sweepState) : gset string :=
  list_to_set (w_Name <$> st_live st).

(** The worker records a sweep prunes. *)
Definition pruned_records (st : sweepState) (c : Cleanup) : list Worker :=
  if st_fresh st && (0 <? pruneAfter c)%Z
  then filter (prunable (pruneAfter c) (st_vms st) (live_names st) (st_fetchedAt st)) (st_all st)
  else [].

(** What a sweep over the state [st] at time [now] leaves: [gone] are the VMs
    whose deletion the controller accepted, [reaped] those it then finished
    with, [prunes] the calls about workers. *)
Record swept (st : sweepState) (now : Time) (gone reaped : gset string)
    (prunes : list Call) (s s' : St) : Prop := {
  sw_env : sweepable s'.2;
  sw_reaped : reaped ⊆ gone;
  sw_gone : ∀ n, n ∈ gone → ∃ vm, vm ∈ st_vms st ∧ due s.1 now vm ∧ vm_Name vm = n;
  sw_calls : env_calls s'.2 =
    env_calls s.2 ++ deletions gone (filter (due s.1 now) (st_vms st)) ++ prunes;
  sw_prunes : Forall2 pruning (pruned_records st s.1) prunes;
  sw_pending : pendingDeletes s'.1 =
    filter (λ n, n ∈ managed_names (st_vms st)) (pendingDeletes s.1 ∖ gone);
  sw_current : current (capacity s'.2) =
    Z.of_nat (length (filter (in_use (live_names st) reaped) (st_vms st)));
  sw_max : max (capacity s'.2) = total_slots (st_live st);
  sw_faults : ∀ panics, faulty panics → ∀ n, n ∈ gone → n ∈ reaped ↔ panics n = false
}.

(** A failed read: nothing is done. *)
Definition untouched (s s' : St) : Prop :=
  s'.1 = s.1 ∧ sweepable s'.2 ∧ env_calls s'.2 = env_calls s.2 ∧
  capacity s'.2 = capacity s.2.

(** The end of a sweep: the cache once more, and the report. *)
Lemma wp_sweep_end (b : bool) ws (Q : outcome unit → St → Prop) c e :
  sweepable e → (∀ e', evolves [] e e' → Q (Ret tt) (c, e')) →
  wp ((if b then invalidate_state else mret tt);;
      match onSweep hooks with
      | Some f => on_rest (f ws)
      | None => mret tt
      end) Q (c, e).
Proof.
  intros Hok HQ. apply wp_bind, wp_invalidate_if. intros e1 H1. simpl.
  destruct (onSweep hooks) as [f|] eqn:Hf; [|by apply wp_ret, HQ].
  apply wp_on_rest. eapply wp_mono; [apply (onSweep_ok Hhooks f ws Hf), (ev_ok _ _ _ H1), Hok|].
  intros [[]| |] e2; simpl; [|done..]. intros H2. by apply HQ, (evolves_trans [] [] _ _ _ H1).
Qed.

(** From the update of the maximum on. *)
Lemma wp_sweep_tail st c e (Q : outcome unit → St → Prop) :
  sweepable e →
  (∀ n c' e' prunes,
     pruned_by n c c' → sweepable e' → env_calls e' = env_calls e ++ prunes →
     Forall2 pruning (pruned_records st c) prunes →
     current (capacity e') = current (capacity e) →
     max (capacity e') = total_slots (st_live st) → Q (Ret tt) (c', e')) →
  wp (pushMaxCapacity hooks (st_live st);;
      pruned ← (if st_fresh st
                then pruneOfflineWorkers (st_vms st) (st_all st) (live_names st) (st_fetchedAt st)
                else mret 0%Z);
      (if (0 <? pruned)%Z then invalidate_state else mret tt);;
      match onSweep hooks with
      | Some f => on_rest (f (st_live st))
      | None => mret tt
      end) Q (c, e).
Proof.
  intros Hok HQ. unfold pushMaxCapacity.
  apply wp_bind, wp_bind, wp_on_rest. unfold on_capacity. wp_go.
  set (e1 := mkEnv _ _ _ _). apply wp_run_callbacks; [done|]. intros e2 He2. simpl.
  assert (∀ n c' e3 prunes (b : bool), pruned_by n c c' → evolves prunes e2 e3 →
    Forall2 pruning (pruned_records st c) prunes →
    wp ((if b then invalidate_state else mret tt);;
      match onSweep hooks with
      | Some f => on_rest (f (st_live st))
      | None => mret tt
      end) Q (c', e3)) as Hlast.
  { intros n c' e3 prunes b Hn He3 HF.
    pose proof (evolves_trans _ _ _ _ _ He2 He3) as He13. simpl in He13.
    apply wp_sweep_end; [by apply (ev_ok _ _ _ He13)|]. intros e4 He4.
    pose proof (evolves_trans _ _ _ _ _ He13 He4) as He14. rewrite app_nil_r in He14.
    apply (HQ n c' e4 prunes); try done.
    - by apply (ev_ok _ _ _ He14).
    - by rewrite (ev_calls _ _ _ He14).
    - by rewrite (ev_capacity _ _ _ He14).
    - by rewrite (ev_capacity _ _ _ He14). }
  unfold pruned_records in Hlast. apply wp_bind. destruct (st_fresh st); simpl in *.
  - apply wp_pruneOfflineWorkers. intros n [c' e3] prunes He3 Hn HF. simpl in *.
    by apply (Hlast n _ _ prunes).
  - apply wp_ret. by apply (Hlast 0%Z c e2 []); [apply pruned_by_refl|apply evolves_refl|].
Qed.

Context (Hnames : ∀ vms, Pv vms → NoDup (vm_Name <$> vms)).

Lemma wp_sweep (Q : outcome unit → St → Prop) s :
  sweepable s.2 →
  (∀ err s', (listVMsAndWorkers s).1 = Ret (Err err) → untouched s s' → Q (Ret tt) s') →
  (∀ st now gone reaped prunes s', (listVMsAndWorkers s).1 = Ret (OK st) → fetched st →
     swept st now gone reaped prunes s s' → Q (Ret tt) s') →
  wp (sweep hooks) Q s.
Proof.
  destruct s as [c e]. intros Hok Hun HQ. unfold sweep. simpl in Hok.
  apply wp_bind. eapply wp_mono; [apply wp_and; [apply wp_run|
    apply (wp_listVMsAndWorkers (λ o s', match o with
      | Ret (Err _) => ∃ e', s' = (c, e') ∧ evolves [] e e'
      | Ret (OK st) => ∃ e', s' = (c, e') ∧ evolves [] e e' ∧ fetched st
      | _ => False end)); [done|by eauto|by eauto]]|].
  intros [[st|err]| |] s1 [Hread Hres]; simpl; [..|done|done];
    assert ((listVMsAndWorkers (c, e)).1 = Ret _) as Hr by (rewrite Hread; reflexivity);
    clear Hread.
  2:{ destruct Hres as (e' & -> & He).
    apply wp_ret, (Hun err); [done|]. split; [done|]. simpl.
    split; [by apply (ev_ok _ _ _ He)|].
    split; [by rewrite (ev_calls _ _ _ He), app_nil_r|by apply (ev_capacity _ _ _ He)]. }
  destruct Hres as (e0 & -> & He0 & Hst).
  assert (NoDup (vm_Name <$> st_vms st)) as Hnd.
  { destruct Hst as [(sn & err & Hsn & ->)|(vms & ws & now & Hvms & _ & ->)];
      apply Hnames; [by apply (snapshot_vms Pv Pw)|done]. }
  apply wp_bind, wp_on_rest, wp_on_world, wp_on_base_total; [apply Now_total|].
  intros now w. simpl.
  assert (evolves [] e (with_world e0 (mkLogged w (calls (world e0))))) as He1.
  { apply (evolves_trans [] [] _ _ _ He0), evolves_world. by rewrite app_nil_r. }
  set (e1 := with_world e0 _) in *. clearbody e1.
  assert (sweepable e1) as Hok1 by by apply (ev_ok _ _ _ He1).
  apply wp_bind, wp_sweep_vms; [done|done|].
  intros gone reaped t c2 e2 [T1 T2 -> T4 T5 T6 T7 T8]. simpl.
  apply wp_bind. unfold on_cleanup. wp_go. rewrite T7.
  set (c3 := retainPendingDeletes _ _).
  apply wp_invalidate_if. intros e3 He3. simpl.
  pose proof (evolves_trans _ _ _ _ _ T4 He3) as He13. rewrite app_nil_r in He13.
  pose proof (evolves_trans _ _ _ _ _ He1 He13) as He03. simpl in He03.
  apply wp_bind, wp_on_rest. unfold cap_Reconcile, on_capacity.
  apply wp_zoom, wp_state_fn. simpl.
  apply wp_sweep_tail; [by apply (ev_ok _ _ _ He03)|]. simpl.
  intros n c' e' prunes Hn Hok' Hcalls HF Hcur Hmax.
  eapply (HQ st now gone reaped prunes); [done|done|]. constructor; simpl; try done.
  - rewrite Hcalls, app_assoc. f_equal. exact (ev_calls _ _ _ He03).
  - by destruct Hn as [m ->].
  - by rewrite Hcur, T5.
Qed.

End Reaping.

#[global] Arguments sw_env {W CB X Pv Pw hooks cached st now gone reaped prunes s s'} _.
#[global] Arguments sw_reaped {W CB X Pv Pw hooks cached st now gone reaped prunes s s'} _.
#[global] Arguments sw_gone {W CB X Pv Pw hooks cached st now gone reaped prunes s s'} _.
#[global] Arguments sw_calls {W CB X Pv Pw hooks cached st now gone reaped prunes s s'} _.
#[global] Arguments sw_prunes {W CB X Pv Pw hooks cached st now gone reaped prunes s s'} _.
#[global] Arguments sw_pending {W CB X Pv Pw hooks cached st now gone reaped prunes s s'} _.
#[global] Arguments sw_current {W CB X Pv Pw hooks cached st now gone reaped prunes s s'} _.
#[global] Arguments sw_max {W CB X Pv Pw hooks cached st now gone reaped prunes s s'} _.
#[global] Arguments sw_faults {W CB X Pv Pw hooks cached st now gone reaped prunes s s'} _.
