(* ===== verification/Sweeps.v ===== *)
(** * Properties of the cleanup sweep

    From the rule [wp_sweep] of Reaping, with their witnesses. *)

From S2P Require Import Prelude GoBase Orchard VMNames Workers AutoSize Capacity.
From S2P Require Import StateView Config Env Bridge Sample BridgeScaleUp Cleanup.
From S2P Require Import Reaping.

Section Sweeps.
Context {W CB X : Type} `{!OrchardClient W} `{!Clock W} `{!ClientTotal W}.
Context (Pv : list VM → Prop) (Pw : list Worker → Prop) `{!Reports W Pv Pw}.
Context (cached : bool) (hooks : CleanupHooks (Logged W) CB X).
Notation St := (Cleanup * Env (Logged W) CB X)%type.

(** The cleanup loop between two sweeps: collaborators that behave, a controller
    that reports distinct VM names and slot counts in range. *)
Record sweep_ready (s : St) : Prop := {
  sr_hooks : cleanup_hooks_ok Pv Pw hooks cached;
  sr_env : sweepable Pv Pw cached s.2;
  sr_names : ∀ vms, Pv vms → NoDup (vm_Name <$> vms);
  sr_slots : ∀ ws, Pw ws → slots_ok ws
}.

(** What the README promises about a VM: it is reaped when its deletion is
    already due from a finished job, when it has stopped or failed, when it is
    stuck pending, or when it is too old; never when its age is unknown and it
    is still alive. *)
Definition reapable (c : Cleanup) (now : Time) (vm : VM) : Prop :=
  IsManagedVM (vm_Name vm) = true ∧
  (vm_Name vm ∈ pendingDeletes c
   ∨ vm_Status vm = VMStatusStopped ∨ vm_Status vm = VMStatusFailed
   ∨ vm_Status vm = VMStatusCreating ∧ vm_CreatedAt vm ≠ 0%Z
     ∧ (maxPendingAge c < Sub now (vm_CreatedAt vm))%Z
   ∨ vm_Status vm ≠ VMStatusCreating ∧ vm_CreatedAt vm ≠ 0%Z
     ∧ (maxAge c < Sub now (vm_CreatedAt vm))%Z).

Lemma older_than_spec t now limit :
  older_than t now limit = true ↔ t ≠ 0%Z ∧ (limit < Sub now t)%Z.
Proof.
  unfold older_than, IsZero.
  rewrite andb_true_iff, negb_true_iff, Z.eqb_neq, Z.ltb_lt. done.
Qed.

Lemma due_reapable c now vm : due c now vm ↔ reapable c now vm.
Proof.
  unfold due, reapable, shouldDelete, isPendingDelete, shouldDeleteByStatus.
  apply and_iff_compat_l.
  destruct (decide (vm_Name vm ∈ pendingDeletes c)) as [Hp|Hp].
  { rewrite bool_decide_true by done. simpl. tauto. }
  rewrite bool_decide_false by done. simpl.
  destruct (decide (vm_Status vm = VMStatusStopped)) as [Hs|Hs]; [simpl; tauto|].
  destruct (decide (vm_Status vm = VMStatusFailed)) as [Hf|Hf]; [simpl; tauto|].
  destruct (decide (vm_Status vm = VMStatusCreating)) as [Hc|Hc].
  - pose proof (older_than_spec (vm_CreatedAt vm) now (maxPendingAge c)).
    destruct (older_than _ _ _); simpl; intuition congruence.
  - pose proof (older_than_spec (vm_CreatedAt vm) now (maxAge c)).
    destruct (older_than _ _ _); simpl; intuition congruence.
Qed.

(** What a sweep reads, or that it could not. *)
Definition reads (s : St) (st : sweepState) : Prop :=
  (listVMsAndWorkers s).1 = Ret (OK st).
Definition cannot_read (s : St) : Prop :=
  ∃ err, (listVMsAndWorkers s).1 = Ret (Err err).

Lemma wp_sweep_read st (Q : outcome unit → St → Prop) s :
  sweep_ready s → reads s st →
  (∀ now gone reaped prunes s', fetched Pv Pw st →
     swept Pv Pw hooks cached st now gone reaped prunes s s' → Q (Ret tt) s') →
  wp (sweep hooks) Q s.
Proof.
  intros [Hh Hok Hnd _] Hr HQ. unfold reads in Hr. eapply wp_sweep; try done.
  - intros err s' Herr. congruence.
  - intros st' now gone reaped prunes s' Hr' Hst. assert (st' = st) as -> by congruence.
    by apply HQ.
Qed.

Definition about_worker (c : Call) : Prop := ∃ n ok, c = CallDeleteWorker n ok.

Lemma pruning_about_worker ws prunes :
  Forall2 pruning ws prunes → Forall about_worker prunes.
Proof. induction 1 as [|w c ws prunes [ok ->] _ IH]; constructor; [by eexists _, _|done]. Qed.

(** A deletion, of a VM or of a worker's record. *)
Definition is_deletion (c : Call) : Prop :=
  match c with CallCreateVM _ _ => False | _ => True end.

(** The VMs whose deletion was accepted, from the calls. *)
Lemma accepted_gone st now gone reaped prunes s s' n :
  swept Pv Pw hooks cached st now gone reaped prunes s s' →
  CallDeleteVM n true ∈ deletions gone (filter (due s.1 now) (st_vms st)) ++ prunes ↔ n ∈ gone.
Proof.
  intros Hsw. rewrite elem_of_app. split.
  - intros [(vm & [= -> Heq] & _)%list_elem_of_fmap|Hin].
    + by apply (bool_decide_eq_true_1 _), eq_sym.
    + pose proof (pruning_about_worker _ _ (sw_prunes Hsw)) as HF.
      rewrite Forall_forall in HF. by destruct (HF _ Hin) as (? & ? & ?).
  - intros Hg. left. destruct (sw_gone Hsw n Hg) as (vm & Hvm & Hdue & <-).
    apply list_elem_of_fmap. exists vm. rewrite bool_decide_true by done.
    split; [done|]. by apply list_elem_of_filter.
Qed.

(** The live workers of a state read have slot counts in range. *)
Lemma fetched_slots st s :
  sweep_ready s → fetched Pv Pw st → slots_ok (st_live st).
Proof.
  intros Hr [(sn & err & Hsn & ->)|(vms & ws & now' & _ & Hws & ->)];
    [|by apply (sr_slots _ Hr)].
  destruct (snapshot_live Pv Pw sn Hsn) as (ws & Hws & Hsub).
  by eapply slots_ok_sublist; [exact Hsub|apply (sr_slots _ Hr)].
Qed.

Lemma deletions_are gone doomed prunes ws :
  Forall2 pruning ws prunes → Forall is_deletion (deletions gone doomed ++ prunes).
Proof.
  intros HF. apply Forall_app. split.
  - unfold deletions. apply Forall_fmap, Forall_true. by intros vm.
  - eapply Forall_impl; [by eapply pruning_about_worker|]. by intros c (n & ok & ->).
Qed.

(** What a sweep leaves behind, whether it could read the fleet or not. *)
Record swept_on (s s' : St) : Prop := {
  so_ready : sweep_ready s';
  so_calls : ∃ news, env_calls s'.2 = env_calls s.2 ++ news ∧ Forall is_deletion news;
  so_queue : pendingDeletes s'.1 ⊆ pendingDeletes s.1;
  so_untouched : cannot_read s →
    env_calls s'.2 = env_calls s.2 ∧ capacity s'.2 = capacity s.2 ∧ s'.1 = s.1
}.

Lemma wp_sweep_on (Q : outcome unit → St → Prop) s :
  sweep_ready s → (∀ s', swept_on s s' → Q (Ret tt) s') → wp (sweep hooks) Q s.
Proof.
  intros [Hh Hok Hnd Hsl] HQ. eapply wp_sweep; try done.
  - intros err s' _ (Hc & Hs & Hcalls & Hcap). apply HQ. constructor; [by constructor| |by rewrite Hc|done].
    exists []. by rewrite app_nil_r, Hcalls.
  - intros st now gone reaped prunes s' Hr _ [T1 T2 T3 T4 T5 T6 T7 T8 _]. apply HQ.
    constructor; [by constructor| | |intros [err Herr]; congruence].
    + eexists. split; [exact T4|]. by eapply deletions_are.
    + rewrite T6. intros n. rewrite elem_of_filter. set_solver.
Qed.

(** The state after a number of sweeps. *)
Fixpoint after_sweeps (n : nat) (s : St) : St :=
  match n with 0 => s | S n => after_sweeps n (sweep hooks s).2 end.

Lemma after_sweeps_snoc n s : after_sweeps (S n) s = (sweep hooks (after_sweeps n s)).2.
Proof. revert s. induction n as [|n IH]; intros s; [done|]. apply (IH (sweep hooks s).2). Qed.

(** What stays true from one sweep to the next. *)
Definition only_reaped (s s' : St) : Prop :=
  sweep_ready s' ∧
  (∃ news, env_calls s'.2 = env_calls s.2 ++ news ∧ Forall is_deletion news) ∧
  pendingDeletes s'.1 ⊆ pendingDeletes s.1.

Lemma only_reaped_refl s : sweep_ready s → only_reaped s s.
Proof. intros Hr. split; [done|]. split; [|done]. exists []. by rewrite app_nil_r. Qed.

Lemma only_reaped_trans s1 s2 s3 : only_reaped s1 s2 → only_reaped s2 s3 → only_reaped s1 s3.
Proof.
  intros (_ & (n1 & C1 & D1) & Q1) (R2 & (n2 & C2 & D2) & Q2).
  split; [done|]. split; [|set_solver]. exists (n1 ++ n2).
  split; [by rewrite C2, C1, app_assoc|by apply Forall_app].
Qed.

Lemma sweep_only_reaped s :
  sweep_ready s → (sweep hooks s).1 = Ret tt ∧ only_reaped s (sweep hooks s).2.
Proof.
  intros Hr.
  assert (wp (sweep hooks) (λ o s', o = Ret tt ∧ only_reaped s s') s) as Hw; [|exact Hw].
  apply wp_sweep_on; [done|]. intros s' [H1 H2 H3 _]. done.
Qed.

Lemma after_sweeps_only_reaped n s : sweep_ready s → only_reaped s (after_sweeps n s).
Proof.
  revert s. induction n as [|n IH]; intros s Hr; [by apply only_reaped_refl|].
  destruct (sweep_only_reaped s Hr) as [_ H1]. eapply only_reaped_trans; [exact H1|].
  apply IH, H1.
Qed.

Lemma Run_sweeps n s ws :
  sweep_ready s →
  Run hooks (replicate n Tick ++ CtxDone :: ws) s = (Ret tt, after_sweeps n s).
Proof.
  revert s. induction n as [|n IH]; intros s Hr; [done|]. simpl.
  destruct (sweep_only_reaped s Hr) as [H1 [Hr1 _]].
  unfold mbind, M_bind. destruct (sweep hooks s) as [o s1]. simpl in *. subst o. by apply IH.
Qed.

(** C22: nothing stops the cleanup loop but the end of the process.  Woken up
    [n] times and then told that the context is done, [Run] has run the whole
    sweep [n] times, one after the other, whatever the controller answers and
    whichever callback of a VM panics, and returns.  All that time it only deletes,
    the queue of failed deletions only shrinks, and a sweep that cannot read the
    fleet touches nothing. *)
Theorem cleanup_loop_survives s n ws :
  sweep_ready s →
  Run hooks (replicate n Tick ++ CtxDone :: ws) s = (Ret tt, after_sweeps n s) ∧
  (∀ k, k ≤ n →
     let sk := after_sweeps k s in
     sweep_ready sk ∧ (sweep hooks sk).1 = Ret tt ∧
     (∃ news, env_calls sk.2 = env_calls s.2 ++ news ∧ Forall is_deletion news) ∧
     pendingDeletes sk.1 ⊆ pendingDeletes s.1 ∧
     (cannot_read sk →
        let s' := (sweep hooks sk).2 in
        env_calls s'.2 = env_calls sk.2 ∧ capacity s'.2 = capacity sk.2 ∧ s'.1 = sk.1)).
Proof.
  intros Hr. split; [by apply Run_sweeps|]. intros k _ sk.
  destruct (after_sweeps_only_reaped k s Hr) as (Hrk & Hc & Hq). fold sk in Hrk, Hc, Hq.
  split; [done|]. split; [by apply sweep_only_reaped|]. split; [done|]. split; [done|].
  pose proof (wp_sweep_on (λ _ s', swept_on sk s') sk Hrk) as Hw. unfold wp in Hw.
  exact (so_untouched _ _ (Hw (λ s' H, H))).
Qed.

(** C2: a sweep that reads the state [st] asks the controller to delete each
    reported VM that is reapable, in the order reported, and no other; besides
    that it only deletes worker records.  A panic in a callback does not stop
    it. *)
Theorem sweep_reaps_exactly s st :
  sweep_ready s → reads s st →
  wp (sweep hooks)
     (returns (λ _ s', ∃ now doomed attempts prunes,
        env_calls s'.2 = env_calls s.2 ++ attempts ++ prunes ∧
        Forall about_worker prunes ∧
        doomed `sublist_of` st_vms st ∧
        (∀ vm, vm ∈ doomed ↔ vm ∈ st_vms st ∧ reapable s.1 now vm) ∧
        Forall2 (λ vm c, ∃ ok, c = CallDeleteVM (vm_Name vm) ok) doomed attempts)) s.
Proof.
  intros Hr Hst. eapply wp_sweep_read; [done..|].
  intros now gone reaped prunes s' _ Hsw. simpl.
  exists now, (filter (due s.1 now) (st_vms st)),
    (deletions gone (filter (due s.1 now) (st_vms st))), prunes.
  split; [apply (sw_calls Hsw)|].
  split; [eapply pruning_about_worker, (sw_prunes Hsw)|].
  split; [apply sublist_filter|].
  split; [intros vm; rewrite list_elem_of_filter, due_reapable; tauto|].
  unfold deletions. apply Forall2_fmap_r, Forall_Forall2_diag, Forall_true.
  intros vm. by eexists.
Qed.

(** C6: after a sweep the semaphore shows the fleet.  In use are the managed
    VMs that were not reaped and are not stranded on a machine that is gone; the
    maximum is the slots of the live, unpaused workers (so the machines that are
    gone drop out on both sides), whatever maximum the semaphore had before.
    Reaped are exactly the VMs whose deletion the controller accepted and whose
    callbacks did not panic; every deletion it accepted is of a reported VM that
    was due. *)
Theorem sweep_reconciles s st :
  sweep_ready s → reads s st →
  wp (sweep hooks)
     (returns (λ _ s', ∃ now news reaped, env_calls s'.2 = env_calls s.2 ++ news ∧
        (∀ n, CallDeleteVM n true ∈ news →
           ∃ vm, vm ∈ st_vms st ∧ reapable s.1 now vm ∧ vm_Name vm = n) ∧
        (∀ n, n ∈ reaped → CallDeleteVM n true ∈ news) ∧
        (∀ panics, faulty Pv Pw hooks cached panics →
           ∀ n, n ∈ reaped ↔ CallDeleteVM n true ∈ news ∧ panics n = false) ∧
        InUse (capacity s'.2) =
          Z.of_nat (length (filter (in_use (list_to_set (w_Name <$> st_live st)) reaped)
                              (st_vms st))) ∧
        Max (capacity s'.2) = sum_slots unpaused (st_live st))) s.
Proof.
  intros Hr Hread. eapply wp_sweep_read; [done..|].
  intros now gone reaped prunes s' Hst Hsw. simpl.
  exists now, (deletions gone (filter (due s.1 now) (st_vms st)) ++ prunes), reaped.
  split; [apply (sw_calls Hsw)|].
  split; [|split; [|split; [|split; [apply (sw_current Hsw)|]]]].
  - intros n Hg%(accepted_gone _ _ _ _ _ _ _ _ Hsw).
    destruct (sw_gone Hsw n Hg) as (vm & Hvm & Hdue & Hn).
    exists vm. by rewrite <-due_reapable.
  - intros n Hn. apply (accepted_gone _ _ _ _ _ _ _ _ Hsw). by apply (sw_reaped Hsw).
  - intros panics Hp n. rewrite (accepted_gone _ _ _ _ _ _ _ _ Hsw).
    pose proof (sw_faults Hsw panics Hp n) as Hf. pose proof (sw_reaped Hsw n). tauto.
  - unfold Max. rewrite (sw_max Hsw). by eapply total_slots_sum, fetched_slots.
Qed.

Lemma prune_skip_empty vms w :
  prune_skip vms w = EmptyString ↔
  w_SchedulingPaused w = false ∧
  ∀ vm, vm ∈ vms → vm_Worker vm ≠ EmptyString → vm_Worker vm ≠ w_Name w.
Proof.
  unfold prune_skip, hasVMs. destruct (w_SchedulingPaused w); [by split; [|intros []]|].
  destruct (Z.ltb_spec 0 (Z.of_nat (length (filter (λ vm, vm_Worker vm ≠ EmptyString
    ∧ vm_Worker vm = w_Name w) vms)))) as [Hl|Hl].
  - split; [done|]. intros [_ Hno]. exfalso.
    destruct (filter _ vms) as [|vm l] eqn:Hf; [simpl in Hl; lia|].
    assert (vm ∈ vm :: l) as Hin by by left. rewrite <-Hf in Hin.
    apply list_elem_of_filter in Hin as [[Hne Heq] Hin]. by apply (Hno vm).
  - split; [|done]. intros _. split; [done|]. intros vm Hvm Hne Heq.
    assert (vm ∈ filter (λ vm, vm_Worker vm ≠ EmptyString ∧ vm_Worker vm = w_Name w) vms)
      as Hin by by apply list_elem_of_filter.
    destruct (filter _ vms); [by apply elem_of_nil in Hin|simpl in Hl; lia].
Qed.

(** The lists of [st] are the controller's, read for this sweep or, with the
    cache, not longer ago than its time to live: not what is left of an earlier
    read after a refresh that failed. *)
Definition read_in_time (e : Env (Logged W) CB X) (st : sweepState) : Prop :=
  match view e with
  | Some sv => ∃ sn,
      st_vms st = VMs sn ∧ st_live st = snap_Workers sn ∧ st_all st = AllWorkers sn ∧
      st_fetchedAt st = FetchedAt sn ∧
      ((∃ now, (Now (world e)).1 = Ret now ∧ snap sv = Some sn ∧
          (Sub now (FetchedAt sn) < ttl sv)%Z)
       ∨ (refresh (staleAfter sv) (clock_read sv (world e))).1 = Ret (OK sn))
  | None =>
      (ListVMs (world e)).1 = Ret (OK (st_vms st)) ∧
      (ListWorkers (ListVMs (world e)).2).1 = Ret (OK (st_all st)) ∧
      st_live st = st_all st
  end.

Lemma fresh_read_in_time s st :
  env_ok Pv Pw s.2 → reads s st → st_fresh st = true → read_in_time s.2 st.
Proof.
  destruct s as [c e]. intros Hok Hr Hf. unfold reads in Hr. revert Hr.
  assert (wp listVMsAndWorkers (λ o _, o = Ret (OK st) → read_in_time e st) (c, e)) as Hw;
    [|by apply Hw].
  unfold listVMsAndWorkers, state_set, read_in_time, env_ok in *. wp_go. simpl in Hok.
  destruct (view e) as [sv|] eqn:Hv; simpl.
  - apply wp_bind, wp_on_rest. unfold wp at 1, state_Get. rewrite Hv. simpl.
    destruct ((Get (sv, world e)).1) as [[[sn|] [err|]]| |] eqn:HG; simpl; try done; wp_go;
      try done; intros [= <-]; [done|].
    exists sn. do 4 (split; [done|]). exact (Get_without_error sv (world e) sn (proj1 Hok) HG).
  - apply wp_bind, wp_on_rest, wp_on_world. eapply wp_mono; [apply wp_run|].
    intros [[vms|err]| |] w1 H1; simpl; [|by wp_go|done..].
    apply wp_bind, wp_on_rest, wp_on_world. eapply wp_mono; [apply wp_run|]. simpl.
    intros [[ws|err]| |] w2 H2; simpl; [|by wp_go|done..].
    apply wp_bind, wp_on_rest, wp_on_world. eapply wp_mono; [apply wp_run|]. simpl.
    intros [now| |] w3 H3; simpl; [|done..]. wp_go. intros [= <-]. simpl.
    injection H1 as H1 <-. injection H2 as H2 <-.
    exact (conj H1 (conj H2 eq_refl)).
Qed.

(** C13: a sweep deletes the record of a worker only if pruning is on and
    the lists are not older than this sweep, or, with the cache, than its time to
    live (a snapshot kept after a failed refresh does not count), and then only of
    a worker that is not live, whose last heartbeat is known and longer ago than
    the limit, that no operator has paused, and that has no VM assigned to it. *)
Theorem sweep_prunes_safely s st :
  sweep_ready s → reads s st →
  wp (sweep hooks)
     (returns (λ _ s', ∃ news, env_calls s'.2 = env_calls s.2 ++ news ∧
        ∀ n ok, CallDeleteWorker n ok ∈ news →
          (0 < pruneAfter s.1)%Z ∧ read_in_time s.2 st ∧
          ∃ w, w ∈ st_all st ∧ w_Name w = n ∧
            n ∉ w_Name <$> st_live st ∧ w_LastSeen w ≠ 0%Z ∧
            (pruneAfter s.1 < Sub (st_fetchedAt st) (w_LastSeen w))%Z ∧
            w_SchedulingPaused w = false ∧
            ∀ vm, vm ∈ st_vms st → vm_Worker vm ≠ EmptyString → vm_Worker vm ≠ n)) s.
Proof.
  intros Hr Hread. eapply wp_sweep_read; [done..|].
  intros now gone reaped prunes s' Hst Hsw. simpl.
  eexists. split; [apply (sw_calls Hsw)|].
  intros n ok [Hin|Hin]%elem_of_app.
  { by apply list_elem_of_fmap in Hin as (? & ? & _). }
  pose proof (sw_prunes Hsw) as HF.
  apply list_elem_of_lookup in Hin as [i Hi].
  destruct (Forall2_lookup_r _ _ _ _ _ HF Hi) as (w & Hw & ok' & [= -> ->]).
  apply list_elem_of_lookup_2 in Hw.
  unfold pruned_records in Hw.
  destruct (st_fresh st) eqn:Hfr; simpl in Hw; [|by apply elem_of_nil in Hw].
  destruct (Z.ltb_spec 0 (pruneAfter s.1)); [|by apply elem_of_nil in Hw].
  split; [done|]. split; [by apply fresh_read_in_time; [apply (sr_env _ Hr)|..]|].
  apply list_elem_of_filter in Hw as [(Hl & Hz & Hage & Hskip) Hw].
  apply prune_skip_empty in Hskip as [Hp Hvms].
  exists w. do 2 (split; [done|]).
  split; [intros Hx; apply Hl; unfold live_names; by apply elem_of_list_to_set|].
  split; [by unfold IsZero in Hz; apply Z.eqb_neq in Hz|]. done.
Qed.

(** C15: a VM handed to the cleanup loop stays there until it is gone: every
    queued name that is still reported as a managed VM is attempted in the
    sweep, and is dropped from the queue exactly if the controller accepts the
    deletion; nothing else enters or leaves the queue but names no longer
    reported. *)
Theorem sweep_retries_queued s st :
  sweep_ready s → reads s st →
  wp (sweep hooks)
     (returns (λ _ s', ∃ news, env_calls s'.2 = env_calls s.2 ++ news ∧
        pendingDeletes s'.1 ⊆ pendingDeletes s.1 ∧
        ∀ n, n ∈ pendingDeletes s.1 →
          (n ∉ managed_names (st_vms st) ∧ n ∉ pendingDeletes s'.1) ∨
          ∃ ok, CallDeleteVM n ok ∈ news ∧ (n ∈ pendingDeletes s'.1 ↔ ok = false))) s.
Proof.
  intros Hr Hread. eapply wp_sweep_read; [done..|].
  intros now gone reaped prunes s' Hst Hsw. simpl.
  eexists. split; [apply (sw_calls Hsw)|].
  pose proof (sw_pending Hsw) as Hp. rewrite Hp.
  split; [intros n [_ [? _]%elem_of_difference]%elem_of_filter; done|]. intros n Hn.
  destruct (decide (n ∈ managed_names (st_vms st))) as [Hm|Hm]; [right|left].
  2:{ split; [done|]. by intros [? _]%elem_of_filter. }
  exists (bool_decide (n ∈ gone)). split.
  - rewrite elem_of_app. left. pose proof Hm as Hm'.
    unfold managed_names in Hm'. apply elem_of_list_to_set in Hm'.
    apply list_elem_of_fmap in Hm' as (vm & -> & Hvm).
    apply list_elem_of_filter in Hvm as [Hman Hvm].
    unfold deletions. apply list_elem_of_fmap. exists vm. split; [done|].
    apply list_elem_of_filter. split; [|done]. apply due_reapable. split; [done|by left].
  - rewrite bool_decide_eq_false, elem_of_filter, elem_of_difference. tauto.
Qed.
End Sweeps.

(** ** Witnesses *)

Definition offline (name : string) : Worker :=
  {| w_Name := name; w_Labels := ∅; w_Resources := {[resourceTartVMs := 1%Z]};
     w_SchedulingPaused := false; w_LastSeen := 1%Z |}.

(** One failed VM, one whose job is over, one at work, one stranded on a machine
    that is gone; a live worker, and the record of one long offline. *)
Definition messy : Fleet :=
  mkFleet [runner_vm "gha-orchard-large-0a0a0a0a" "failed" "mini-1" "mini-1";
           runner_vm "gha-orchard-large-1b1b1b1b" "running" "mini-1" "mini-1";
           runner_vm "gha-orchard-large-2c2c2c2c" "running" "mini-1" "mini-1";
           runner_vm "gha-orchard-large-3d3d3d3d" "running" "gone" "gone"]
    [mac "mini-1" "mini-1" 10 16384; offline "old"] (λ _, false).

Definition messy_state : Cleanup * Env (Logged (Sim messy)) unit unit :=
  (MarkForDeletion "gha-orchard-large-1b1b1b1b" (SetWorkerPruneAfter Hour NewCleanup),
   mkEnv (mkLogged (mkSim (100 * Hour)%Z 0) []) (mkCapacity 4 7 [])
     (Some (NewStateView 0%Z 0%Z)) tt).

Definition no_callbacks : CleanupHooks (Logged (Sim messy)) unit unit :=
  mkCleanupHooks None None None (λ _ _, mret tt).

#[local] Notation messy_vms := (λ vms, vms = fleet_reported_vms messy).
#[local] Notation messy_ws := (λ ws, ws = fleet_workers messy).

Lemma messy_ready : sweep_ready messy_vms messy_ws false no_callbacks messy_state.
Proof.
  constructor; try done.
  - constructor; try done. intros cb ws e He. split; try done. by rewrite app_nil_r.
  - intros vms ->. simpl. repeat constructor; set_solver.
  - intros ws ->. split; [|by vm_compute]. repeat constructor; by vm_compute.
Qed.

Definition messy_read : sweepState :=
  mkSweepState (fleet_reported_vms messy) [mac "mini-1" "mini-1" 10 16384]
    (fleet_workers messy) (100 * Hour)%Z true.

Lemma messy_reads : reads messy_state messy_read.
Proof. unfold reads. reflexivity. Qed.

Lemma cleanup_loop_survives_witness :
  env_calls (Run no_callbacks [Tick; Tick; CtxDone] messy_state).2.2 =
    [CallDeleteVM "gha-orchard-large-0a0a0a0a" true;
     CallDeleteVM "gha-orchard-large-1b1b1b1b" true; CallDeleteWorker "old" true;
     CallDeleteVM "gha-orchard-large-0a0a0a0a" true; CallDeleteWorker "old" true] ∧
  (Run no_callbacks [Tick; Tick; CtxDone] messy_state).1 = Ret tt.
Proof.
  split; [by vm_compute|].
  by rewrite (proj1 (cleanup_loop_survives _ _ _ _ _ 2 [] messy_ready)).
Defined.

Lemma sweep_reaps_exactly_witness :
  env_calls (sweep no_callbacks messy_state).2.2 =
    [CallDeleteVM "gha-orchard-large-0a0a0a0a" true;
     CallDeleteVM "gha-orchard-large-1b1b1b1b" true; CallDeleteWorker "old" true] ∧
  wp (sweep no_callbacks)
    (returns (λ _ s', ∃ now doomed, (∀ vm, vm ∈ doomed ↔
       vm ∈ fleet_reported_vms messy ∧ reapable messy_state.1 now vm) ∧
       length doomed ≤ length (env_calls s'.2))) messy_state.
Proof.
  split; [by vm_compute|].
  eapply wp_mono; [apply (sweep_reaps_exactly _ _ _ _ _ _ messy_ready messy_reads)|].
  intros [[]| |] s'; simpl; [|done..].
  intros (now & doomed & attempts & prunes & -> & _ & _ & Hd & HF).
  exists now, doomed. split; [done|]. rewrite !length_app.
  apply Forall2_length in HF. simpl. lia.
Defined.

Lemma sweep_reconciles_witness :
  (InUse (capacity (sweep no_callbacks messy_state).2.2) = 1%Z) ∧
  wp (sweep no_callbacks) (returns (λ _ s', Max (capacity s'.2) = 1%Z)) messy_state ∧
  faulty messy_vms messy_ws no_callbacks false (λ _, false).
Proof.
  split; [by vm_compute|]. split; [|done].
  eapply wp_mono; [apply (sweep_reconciles _ _ _ _ _ _ messy_ready messy_reads)|].
  intros [[]| |] s'; simpl; [|done..]. by intros (now & news & reaped & _ & _ & _ & _ & _ & ->).
Defined.

Lemma sweep_prunes_safely_witness :
  CallDeleteWorker "old" true ∈ env_calls (sweep no_callbacks messy_state).2.2 ∧
  wp (sweep no_callbacks)
    (returns (λ _ s', CallDeleteWorker "mini-1" true ∉ env_calls s'.2)) messy_state.
Proof.
  split; [apply (bool_decide_unpack _) || (vm_compute; set_solver)|].
  eapply wp_mono; [apply (sweep_prunes_safely _ _ _ _ _ _ messy_ready messy_reads)|].
  intros [[]| |] s'; simpl; [|done..]. intros (news & -> & Hn) Hin.
  destruct (Hn "mini-1" true) as (_ & _ & w & _ & _ & Hl & _); [exact Hin|].
  apply Hl. by left.
Defined.

Lemma sweep_retries_queued_witness :
  pendingDeletes (sweep no_callbacks messy_state).2.1 = ∅ ∧
  wp (sweep no_callbacks)
    (returns (λ _ s', ∃ ok, CallDeleteVM "gha-orchard-large-1b1b1b1b" ok ∈ env_calls s'.2))
    messy_state.
Proof.
  split; [by vm_compute|].
  eapply wp_mono; [apply (sweep_retries_queued _ _ _ _ _ _ messy_ready messy_reads)|].
  intros [[]| |] s'; simpl; [|done..]. intros (news & -> & _ & Hq).
  destruct (Hq "gha-orchard-large-1b1b1b1b") as [[Hn _]|(ok & Hok & _)].
  - simpl. set_solver.
  - exfalso. apply Hn. apply (bool_decide_unpack _). by vm_compute.
  - by exists ok.
Defined.

(** A queued deletion is dropped by a sweep that reads a snapshot from before the
    VM was created, although the controller reports the VM. *)
Definition outdated_state : Cleanup * Env (Logged (Sim messy)) unit unit :=
  (MarkForDeletion "gha-orchard-large-1b1b1b1b" NewCleanup,
   mkEnv (mkLogged (mkSim 100%Z 0) []) (mkCapacity 4 7 [])
     (Some (mkStateView Minute Minute (Some (newSnapshot [] (fleet_workers messy) 99%Z Minute))
              None None)) tt).

Example outdated_snapshot_forgets_queued :
  let s' := (sweep no_callbacks outdated_state).2 in
  pendingDeletes s'.1 = ∅ ∧ env_calls s'.2 = [] ∧
  "gha-orchard-large-1b1b1b1b" ∈ vm_Name <$> fleet_reported_vms messy.
Proof. split; [by vm_compute|]. split; [by vm_compute|]. simpl. set_solver. Qed.
