(* ===== verification/SweepRefine.v ===== *)
(** * A sweep that runs alone is a run of one thread

    The sweep of Cleanup against the interleaved model of SlotsConc: what it does
    to the semaphore and to the VMs of the controller is what a thread does that
    lists the managed VMs, decides on one after the other, reconciles, and pushes
    the new maximum; a callback that panics included. *)

From S2P Require Import Prelude GoBase Orchard VMNames Workers AutoSize Capacity.
From S2P Require Import StateView Config Env Bridge Sample BridgeScaleUp Cleanup.
From S2P Require Import Reaping.
From S2P Require Import Sweeps SlotsConc SlotsRefine.

(** ** The events of the loop over the VMs *)

Section Events.
Context (t : nat) (live_workers gone reaped : gset string).

Definition managed (vms : list VM) : list string :=
  vm_Name <$> filter (λ vm, IsManagedVM (vm_Name vm) = true) vms.

Definition left_over (vm : VM) : verdict :=
  if decide (stranded live_workers vm) then Strand else Count.

(** What a sweep does with a VM: [gone] are those whose deletion the controller
    accepts, [reaped] those of them whose callbacks do not panic. *)
Definition vm_events (vm : VM) : list event :=
  if IsManagedVM (vm_Name vm) then
    if decide (vm_Name vm ∈ gone) then
      [Process t Reap;
       if decide (vm_Name vm ∈ reaped) then Purge t else Fault t false (left_over vm)]
    else [Process t (left_over vm)]
  else [].

Definition loop_events (vms : list VM) : list event := vms ≫= vm_events.

Lemma managed_cons vm vms :
  managed (vm :: vms) =
    if IsManagedVM (vm_Name vm) then vm_Name vm :: managed vms else managed vms.
Proof.
  unfold managed. rewrite filter_cons. destruct (IsManagedVM (vm_Name vm)); by case_decide.
Qed.

Context (Hreaped : reaped ⊆ gone).

(** The part of a set that the loop over [vms] takes away. *)
Definition taken (X : gset string) (vms : list VM) : gset string :=
  list_to_set (managed vms) ∩ X.

Lemma taken_cons X vm vms : taken X (vm :: vms) = taken X [vm] ∪ taken X vms.
Proof.
  unfold taken. rewrite !managed_cons. destruct (IsManagedVM (vm_Name vm)); simpl; set_solver.
Qed.

Definition counts (vms : list VM) : Z :=
  Z.of_nat (length (filter (in_use live_workers reaped) vms)).

Lemma counts_cons vm vms : counts (vm :: vms) = (counts [vm] + counts vms)%Z.
Proof. unfold counts. rewrite !filter_cons. case_decide; simpl; lia. Qed.

(** One VM: it is counted exactly if the sweep counts it as in use. *)
Lemma run_vm_events vm vms n s :
  threads s !! t = Some (Sweeping n (managed (vm :: vms))) →
  run (vm_events vm) s =
    Some (mkShared (sem s) (live s ∖ taken gone [vm]) (tracked s ∖ taken reaped [vm])
            (<[t := Sweeping (n + counts [vm]) (managed vms)]> (threads s))).
Proof.
  intros Ht. pose proof (lookup_lt_Some _ _ _ Ht) as Hlt. rewrite managed_cons in Ht.
  unfold vm_events, taken, counts, left_over. rewrite managed_cons, filter_cons.
  destruct (IsManagedVM (vm_Name vm)) eqn:Hm; simpl.
  2:{ rewrite decide_False by (intros [? _]; congruence). simpl.
    rewrite Z.add_0_r, !intersection_empty_l_L, !difference_empty_L, list_insert_id by done.
    by destruct s. }
  rewrite !union_empty_r_L.
  assert (∀ X : gset string, vm_Name vm ∈ X → {[vm_Name vm]} ∩ X = {[vm_Name vm]}) as Hin
    by set_solver.
  assert (∀ X : gset string, vm_Name vm ∉ X → {[vm_Name vm]} ∩ X = ∅) as Hout by set_solver.
  destruct (decide (vm_Name vm ∈ gone)) as [Hg|Hg];
    [destruct (decide (vm_Name vm ∈ reaped)) as [Hr|Hr]|
     assert (vm_Name vm ∉ reaped) as Hr by auto];
    destruct (decide (stranded live_workers vm)) as [Hst|Hst];
    destruct (decide (in_use live_workers reaped vm)) as [Hu|Hu];
    try (destruct Hu as (_ & ? & ?); done); try (exfalso; apply Hu; by split);
    rewrite ?(Hin gone), ?(Hin reaped), ?(Hout gone), ?(Hout reaped), ?difference_empty_L by done;
    cbn [run exec exec_sweep]; rewrite Ht; cbn [set_pc set_live set_tracked threads];
    rewrite ?list_lookup_insert_eq by done; cbn [length]; unfold set_pc, set_live, set_tracked; simpl;
    rewrite ?list_insert_insert_eq, ?Z.add_0_r; done.
Qed.

Lemma run_loop_events vms n s :
  threads s !! t = Some (Sweeping n (managed vms)) →
  run (loop_events vms) s =
    Some (mkShared (sem s) (live s ∖ taken gone vms) (tracked s ∖ taken reaped vms)
            (<[t := Sweeping (n + counts vms) []]> (threads s))).
Proof.
  revert n s. induction vms as [|vm vms IH]; intros n s Ht.
  - unfold taken, counts. simpl in *.
    rewrite Z.add_0_r, !intersection_empty_l_L, !difference_empty_L, list_insert_id by done.
    by destruct s.
  - unfold loop_events. rewrite bind_cons. pose proof (lookup_lt_Some _ _ _ Ht) as Hlt.
    eapply run_app_Some; [by apply run_vm_events|]. fold (loop_events vms).
    rewrite (IH (n + counts [vm])%Z) by (simpl; by rewrite list_lookup_insert_eq).
    simpl. rewrite list_insert_insert_eq, (counts_cons vm vms), Z.add_assoc.
    rewrite (taken_cons gone vm vms), (taken_cons reaped vm vms), !difference_difference_l_L. done.
Qed.
End Events.

(** The deletions of a sweep, as they change the VMs there are. *)
Lemma live_after_deletions X gone vms :
  foldl live_after X (deletions gone vms) = X ∖ (list_to_set (vm_Name <$> vms) ∩ gone).
Proof.
  revert X. induction vms as [|vm vms IH]; intros X; [simpl; set_solver|].
  unfold deletions. cbn [fmap list_fmap foldl live_after]. fold (deletions gone vms).
  case_bool_decide; rewrite IH; set_solver.
Qed.

Lemma live_after_workers X news : Forall about_worker news → foldl live_after X news = X.
Proof. induction 1 as [|c news (n & ok & ->) _ IH]; done. Qed.

(** ** Refinement *)

Section Refine.
Context {W CB X : Type} `{!OrchardClient W} `{!Clock W} `{!ClientTotal W}.
Context (Pv : list VM → Prop) (Pw : list Worker → Prop) `{!Reports W Pv Pw}.
Context (cached : bool) (hooks : CleanupHooks (Logged W) CB X).
Notation St := (Cleanup * Env (Logged W) CB X)%type.

(** The semaphore of a sweep, as the shared state shows it. *)
Definition same_slots (e : Env (Logged W) CB X) (sh : Shared) : Prop :=
  current (sem sh) = current (capacity e) ∧ max (sem sh) = max (capacity e).

(** The names whose deletion the controller accepted. *)
Definition accepted_deletions (news : list Call) : gset string :=
  list_to_set (omap (λ c, match c with CallDeleteVM n true => Some n | _ => None end) news).

Lemma elem_of_accepted_deletions n news :
  n ∈ accepted_deletions news ↔ CallDeleteVM n true ∈ news.
Proof.
  unfold accepted_deletions. rewrite elem_of_list_to_set, list_elem_of_omap. split.
  - intros (c & Hin & Hc). destruct c as [vm ok|m ok|m ok]; try done.
    destruct ok; [|done]. by injection Hc as ->.
  - intros Hin. by exists (CallDeleteVM n true).
Qed.

(** What a thread does for a sweep that has read [st], when the controller
    accepts the deletions [gone] and the sweep finishes with [reaped] of them: it
    lists the managed VMs, decides on each in turn, reconciles with what it has
    counted, and the maximum becomes the slots of the live, unpaused workers. *)
Definition sweep_events (t : nat) (st : sweepState) (gone reaped : gset string)
    : list event :=
  Listing t (managed (st_vms st))
  :: loop_events t (live_names st) gone reaped (st_vms st)
  ++ [Reconciling t; Push (sum_slots unpaused (st_live st))].

(** That run, from a thread that is idle. *)
Lemma run_sweep_events t st gone reaped sh :
  NoDup (vm_Name <$> st_vms st) → reaped ⊆ gone → threads sh !! t = Some Idle →
  run (sweep_events t st gone reaped) sh =
    Some (mkShared
            (mkCapacity (counts (live_names st) reaped (st_vms st))
               (sum_slots unpaused (st_live st)) (callbacks (sem sh)))
            (live sh ∖ taken gone (st_vms st)) (tracked sh ∖ taken reaped (st_vms st))
            (threads sh)).
Proof.
  intros Hnd Hsub Ht. pose proof (lookup_lt_Some _ _ _ Ht) as Hlt.
  unfold sweep_events. eapply run_cons.
  { simpl. rewrite Ht, decide_True; [done|]. eapply sublist_NoDup; [exact Hnd|].
    apply fmap_sublist, sublist_filter. }
  eapply run_app_Some.
  { apply (run_loop_events t (live_names st) gone reaped Hsub _ 0%Z). simpl.
    by rewrite list_lookup_insert_eq. }
  eapply run_cons.
  { simpl. by rewrite list_lookup_insert_eq by (by rewrite length_insert). }
  eapply run_cons; [reflexivity|]. simpl.
  unfold set_pc, set_sem. simpl. by rewrite !list_insert_insert_eq, list_insert_id.
Qed.

(** A sweep that has read [st] is that run, up to the callbacks of the semaphore. *)
Definition swept_as_thread (t : nat) (st : sweepState) (e' : Env (Logged W) CB X)
    (news : list Call) (sh : Shared) : Prop :=
  ∃ reaped sh',
    reaped ⊆ accepted_deletions news ∧
    (∀ panics, faulty Pv Pw hooks cached panics →
       ∀ n, n ∈ reaped ↔ n ∈ accepted_deletions news ∧ panics n = false) ∧
    run (sweep_events t st (accepted_deletions news) reaped) sh = Some sh' ∧
    same_slots e' sh' ∧ threads sh' = threads sh ∧
    live sh' = foldl live_after (live sh) news ∧
    tracked sh' = tracked sh ∖ reaped.

Lemma swept_run t st now gone reaped prunes s s' sh :
  sweep_ready Pv Pw cached hooks s → fetched Pv Pw st → NoDup (vm_Name <$> st_vms st) →
  swept Pv Pw hooks cached st now gone reaped prunes s s' →
  threads sh !! t = Some Idle →
  swept_as_thread t st s'.2 (deletions gone (filter (due s.1 now) (st_vms st)) ++ prunes) sh.
Proof.
  intros Hr Hst Hnd Hsw Ht. set (news := _ ++ prunes).
  assert (accepted_deletions news = gone) as Hacc.
  { apply set_eq. intros n. rewrite elem_of_accepted_deletions.
    by apply (accepted_gone Pv Pw cached hooks _ _ _ _ _ _ _ _ Hsw). }
  assert (∀ n, n ∈ gone → n ∈ vm_Name <$> filter (due s.1 now) (st_vms st)
                      ∧ n ∈ managed (st_vms st)) as Hgone.
  { intros n Hn. destruct (sw_gone Hsw n Hn) as (vm & Hvm & Hdue & <-).
    split; apply list_elem_of_fmap_2, list_elem_of_filter; [by split|].
    split; [apply Hdue|done]. }
  pose proof (sw_reaped Hsw) as Hsub.
  exists reaped. eexists. rewrite Hacc. split; [done|]. split; [|split; [by apply run_sweep_events|]].
  { intros panics Hp n. pose proof (sw_faults Hsw panics Hp n). pose proof (Hsub n). tauto. }
  unfold same_slots. simpl. split; [split; symmetry; [apply (sw_current Hsw)|]|].
  { rewrite (sw_max Hsw). eapply total_slots_sum, fetched_slots; done. }
  split; [done|]. unfold taken. split; [|f_equal; set_solver].
  unfold news. rewrite foldl_app, (live_after_workers _ prunes)
    by (eapply pruning_about_worker, (sw_prunes Hsw)).
  rewrite live_after_deletions. f_equal. set_solver.
Qed.

End Refine.

(** ** Witness *)

#[local] Notation messy_vms := (λ vms, vms = fleet_reported_vms messy).
#[local] Notation messy_ws := (λ ws, ws = fleet_workers messy).

(** The fleet of [messy], as the interleaved model sees it. *)
Definition messy_shared : Shared :=
  mkShared (mkCapacity 4 7 []) (list_to_set (vm_Name <$> fleet_reported_vms messy)) ∅ [Idle].

