(* ===== verification/Manager.v ===== *)
(** * The manager ([manager/manager.go])

    The manager owns the bridges, the cleanup loop and the shared parts; it
    wires their callbacks.  [Mgr] is its state, kept in the [ext] part of the
    environment, so that the callbacks the components run can reach it. *)

From S2P Require Import Prelude GoBase Orchard VMNames Workers.
From S2P Require Import AutoSize Capacity StateView Config Env Bridge Cleanup.

(** The state of one registered scale set.  [maxRunners] is the value last
    given to the listener of the GitHub library. *)
Record scaleSetHandle (W : Type) : Type := mkHandle {
  bridge : Bridge W;
  maxRunners : Z;
  staticMaxRunners : Z
}.
Arguments mkHandle {W} _ _ _.
Arguments bridge {W} _.
Arguments maxRunners {W} _.
Arguments staticMaxRunners {W} _.

Record Mgr (W : Type) : Type := mkMgr {
  handles : list (scaleSetHandle W);
  cleanup : Cleanup
}.
Arguments mkMgr {W} _ _.
Arguments handles {W} _.
Arguments cleanup {W} _.

(** ** Shares of the worker pool *)

Definition workerCapacityFn (autoSize : bool) (reserveCPU reserveMemMiB : Z)
    : list Worker → gmap string string → Z :=
  if autoSize then
    let '(cpu, mem) := AutoSizeReserves reserveCPU reserveMemMiB in
    λ workers labels, WorkerCountForLabels workers labels cpu mem
  else CapacityForLabels.

(** [for _, w := range workers { if w.Name == name { return w } }]. *)
Fixpoint first_named (name : string) (workers : list Worker) : option Worker :=
  match workers with
  | [] => None
  | w :: workers => if decide (w_Name w = name) then Some w else first_named name workers
  end.

Definition vmConsumesLabeledWorker (vm : VM) (workers : list Worker)
    (vmLabels : gmap string string) : bool :=
  let by_labels :=
    existsb (λ w, workerMatchesAllLabels w (vm_Labels vm) && workerMatchesAllLabels w vmLabels)
      workers in
  if decide (vm_Worker vm = EmptyString) then by_labels
  else match first_named (vm_Worker vm) workers with
       | Some w => workerMatchesAllLabels w vmLabels
       | None => by_labels
       end.

(** The inner loop of [recomputeScaleSetShares] over one other scale set. *)
Fixpoint count_consuming (n : Z) (vms : list VM) (workers : list Worker)
    (labels : gmap string string) : Z :=
  match vms with
  | [] => n
  | vm :: vms =>
      let n := if vm_terminal vm then n
               else if vmConsumesLabeledWorker vm workers labels then (n + 1)%Z else n in
      count_consuming n vms workers labels
  end.

(** The loop over the handles, from the one at position [j]; the one at
    position [i] is the scale set itself. *)
Fixpoint othersActive {W} (n : Z) (i j : nat) (hs : list (scaleSetHandle W))
    (sn : Snapshot) (labels : gmap string string) : Z :=
  match hs with
  | [] => n
  | other :: hs =>
      let n := if decide (j = i) then n
               else count_consuming n
                      (ManagedVMsForScaleSet sn (scaleSetName (bridge other)))
                      (snap_Workers sn) labels in
      othersActive n i (S j) hs sn labels
  end.

Definition share {W} (hs : list (scaleSetHandle W)) (sn : Snapshot) (i : nat)
    (h : scaleSetHandle W) : Z :=
  let labels := VMLabels (bridge h) in
  let '(reserveCPU, reserveMem) := AutoSizeReserveConfig (bridge h) in
  let workerCap :=
    workerCapacityFn (AutoSizeEnabled (bridge h)) reserveCPU reserveMem
      (snap_Workers sn) labels in
  let share := int64 (workerCap - othersActive 0 i 0 hs sn labels) in
  if (share <? 0)%Z then 0%Z else share.

Definition set_maxRunners {W} (n : Z) (h : scaleSetHandle W) : scaleSetHandle W :=
  mkHandle (bridge h) n (staticMaxRunners h).

Definition recompute {W} (sn : Snapshot) (hs : list (scaleSetHandle W))
    : list (scaleSetHandle W) :=
  imap (λ i h, if (0 <? staticMaxRunners h)%Z then h
               else set_maxRunners (share hs sn i h) h) hs.

(** [PurgeActiveVM] on every bridge. *)
Definition purge_all {W} (vmName : string) (hs : list (scaleSetHandle W))
    : list (scaleSetHandle W) :=
  (λ h, mkHandle (PurgeActiveVM vmName (bridge h)) (maxRunners h) (staticMaxRunners h)) <$> hs.

Definition set_handles {W} (hs : list (scaleSetHandle W)) (m : Mgr W) : Mgr W :=
  mkMgr hs (cleanup m).
Definition set_cleanup {W} (c : Cleanup) (m : Mgr W) : Mgr W := mkMgr (handles m) c.

Section Manager.
Context {W : Type} `{!OrchardClient W} `{!Clock W} `{!UUIDSource W}.
Notation E := (Env W unit (Mgr W)).

Definition recomputeScaleSetShares : M E unit :=
  '(snap, _) ← state_Get;
  match snap with
  | None => mret tt
  | Some sn => on_ext (modify (λ m, set_handles (recompute sn (handles m)) m))
  end.

(** ** Callbacks *)

(** What [runScaleSet] gives a bridge. *)
Definition bridge_hooks : Hooks W unit (Mgr W) :=
  mkHooks (Some recomputeScaleSetShares)
    (Some (λ n, on_ext (modify (λ m, set_cleanup (MarkForDeletion n (cleanup m)) m))))
    None.

(** What [Run] gives the cleanup loop; [observe] is the AutoSize report. *)
Definition sweep_hooks (remover : option (string → M W (option error)))
    (observe : list Worker → M E unit) : CleanupHooks W unit (Mgr W) :=
  mkCleanupHooks remover
    (Some (λ n, on_ext (modify (λ m, set_handles (purge_all n (handles m)) m));;
                recomputeScaleSetShares))
    (Some observe)
    (λ _ _, recomputeScaleSetShares).

(** Run a handler of the bridge at position [i], or a sweep. *)
Definition put_bridge (i : nat) (b : Bridge W) (m : Mgr W) : Mgr W :=
  set_handles (alter (λ h, mkHandle b (maxRunners h) (staticMaxRunners h)) i (handles m)) m.

Definition on_handle {A} (i : nat) (f : M (Bridge W * E) A) : M E A := λ e,
  match handles (ext e) !! i with
  | None => (Panic, e)
  | Some h =>
      let r := f (bridge h, e) in
      (r.1, mkEnv (world (r.2).2) (capacity (r.2).2) (view (r.2).2)
              (put_bridge i (r.2).1 (ext (r.2).2)))
  end.

Definition on_cleanup_loop {A} (f : M (Cleanup * E) A) : M E A := λ e,
  let r := f (cleanup (ext e), e) in
  (r.1, mkEnv (world (r.2).2) (capacity (r.2).2) (view (r.2).2)
          (set_cleanup (r.2).1 (ext (r.2).2))).

(** ** Start-up *)

Definition discoverCapacity (stale : Duration) : M W (Z * option error) :=
  r ← ListWorkers;
  match r with
  | Err e => mret (0%Z, Some e)
  | OK workers =>
      let stale := if (stale <=? 0)%Z then DefaultWorkerStaleAfter else stale in
      now ← Now;
      mret (discovered_slots (LiveWorkers workers stale now), None)
  end.

(** [New], given the configured [maxVMs] and [workerStaleAfter]. *)
Definition New (maxVMs stale : Z) (c : Cleanup) : M W E := λ w,
  let r := (if (maxVMs =? 0)%Z then '(total, _) ← discoverCapacity stale; mret total
            else mret maxVMs) w in
  let staleAfter := if (stale <=? 0)%Z then DefaultWorkerStaleAfter else stale in
  (match r.1 with
   | Ret max => Ret (mkEnv r.2 (NewCapacity max)
                       (Some (NewStateView DefaultStateViewTTL staleAfter)) (mkMgr [] c))
   | Panic => Panic
   | Blocked => Blocked
   end, r.2).

Definition listLiveWorkers (stale : Duration) : M W (result (list Worker)) :=
  r ← ListWorkers;
  match r with
  | Err e => mret (Err e)
  | OK workers => now ← Now; mret (OK (LiveWorkers workers stale now))
  end.
End Manager.
