(* ===== verification/InStep.v ===== *)
(** * The reported share and the placement, in step

    [vmConsumesLabeledWorker] ([manager/manager.go]) decides which VMs of other
    scale sets reduce the runners reported to GitHub; [managedPinIdentities]
    ([bridge/autosize.go]) decides which workers a scale-up may still pick.  They
    are written independently, one searching the workers and comparing labels,
    the other going through pin identities. *)

From S2P Require Import Prelude GoBase Orchard VMNames Workers AutoSize Bridge.
From S2P Require Import Manager.
From S2P Require Import Sample.

(** Some matching worker cannot be picked because of [vm]. *)
Definition blocks_placement (vm : VM) (workers : list Worker) (labels : gmap string string)
    : Prop :=
  ∃ w, w ∈ workers ∧ workerMatchesLabels w labels = true ∧
    PinIdentity w ∈ managedPinIdentities [vm] workers.

(** The labels a bridge gives a VM select the worker they are pinned to. *)
Lemma pinned_labels_match w labels pin :
  workerMatchesLabels w labels = true →
  labels_match (w_Labels w) (mergePinLabel labels pin) = true ↔ PinIdentity w = pin.
Proof.
  unfold workerMatchesLabels, mergePinLabel, PinIdentity. rewrite !labels_match_spec.
  intros Hw. split.
  - intros H. apply H, lookup_insert_eq.
  - intros Hp k v [[<- <-]|[_ Hk]]%lookup_insert_Some; [done|by apply Hw].
Qed.

Lemma first_named_Some name workers w :
  first_named name workers = Some w → w ∈ workers ∧ w_Name w = name.
Proof.
  induction workers as [|v workers IH]; simpl; [done|].
  case_decide as Hd; [intros [= ->]; split; [by left|done]|].
  intros H. destruct (IH H). split; [by right|done].
Qed.

Lemma first_named_None name workers :
  first_named name workers = None → name ∉ w_Name <$> workers.
Proof.
  induction workers as [|v workers IH]; simpl; [intros _; apply not_elem_of_nil|].
  case_decide as Hd; [done|]. intros H. apply not_elem_of_cons. auto.
Qed.

Lemma managedPins_one byName vm pin :
  pin ∈ (list_to_set (omap (managedPin byName) [vm]) : gset string) ↔
  managedPin byName vm = Some pin.
Proof. simpl. destruct (managedPin byName vm); set_solver. Qed.

(** A VM without a live worker: what its labels select. *)
Lemma pinned_in_step vm workers labels pin :
  vm_Labels vm = mergePinLabel labels pin →
  managedPin (pinByName workers) vm = Some pin →
  existsb (λ w, workerMatchesAllLabels w (vm_Labels vm) && workerMatchesAllLabels w labels)
    workers = true ↔ blocks_placement vm workers labels.
Proof.
  intros Hl Hp. unfold blocks_placement, managedPinIdentities. rewrite existsb_exists, Hl.
  setoid_rewrite managedPins_one. rewrite Hp.
  split; intros (w & Hin & H); exists w.
  - apply andb_true_iff in H as [H1 H2]. split; [by apply list_elem_of_In|].
    split; [done|]. f_equal. symmetry. by apply (pinned_labels_match w labels).
  - destruct H as [H1 [= Hpin]]. split; [by apply list_elem_of_In|].
    apply andb_true_iff. split; [|done]. by apply (pinned_labels_match w labels).
Qed.

(** C24: a VM that a bridge pinned counts against the share of a scale set with
    the same labels exactly when it keeps a scale-up of that scale set from one of
    the workers: whether it is running, still unplaced, or attributed to a worker
    that is gone.  (On a fleet whose records have distinct names and distinct, non-empty pins.) *)
Theorem share_in_step_with_placement (vm : VM) (workers : list Worker)
    (labels : gmap string string) (pin : string) :
  NoDup (w_Name <$> workers) → NoDup (PinIdentity <$> workers) →
  (∀ w, w ∈ workers → PinIdentity w ≠ EmptyString) →
  IsManagedVM (vm_Name vm) = true → vm_terminal vm = false →
  pin ≠ EmptyString → vm_Labels vm = mergePinLabel labels pin →
  vmConsumesLabeledWorker vm workers labels = true ↔ blocks_placement vm workers labels.
Proof.
  intros Hnames Hpins Hne Hm Ht Hpin Hl.
  assert (str_at (vm_Labels vm) PinLabelKey = pin) as Htarget.
  { rewrite Hl. unfold mergePinLabel, str_at. by rewrite lookup_insert_eq. }
  unfold vmConsumesLabeledWorker. destruct (decide (vm_Worker vm = EmptyString)) as [Hw|Hw].
  { apply (pinned_in_step _ _ _ pin); [done|]. rewrite <-Htarget.
    apply managedPin_by_label; [done|done|by left|by rewrite Htarget]. }
  destruct (first_named (vm_Worker vm) workers) as [w|] eqn:Hf.
  2:{ apply (pinned_in_step _ _ _ pin); [done|]. rewrite <-Htarget.
    apply managedPin_by_label; [done|done|right; by apply first_named_None|by rewrite Htarget]. }
  apply first_named_Some in Hf as [Hin Hn].
  unfold blocks_placement, managedPinIdentities. setoid_rewrite managedPins_one.
  rewrite (managedPin_on_worker workers vm w) by auto. split.
  - intros H. by exists w.
  - intros (w' & Hin' & H & [= Heq]).
    assert (w' = w) as ->; [|done].
    apply list_elem_of_lookup in Hin as [i Hi], Hin' as [j Hj].
    assert (i = j) as ->; [|congruence].
    apply (NoDup_lookup (PinIdentity <$> workers) i j (PinIdentity w)); [done| |];
      rewrite list_lookup_fmap; [by rewrite Hi|rewrite Hj; simpl; by f_equal].
Qed.

(** ** Witness *)

(** A VM still attributed to the old name of a machine that was renamed. *)
Definition renamed_vm : VM :=
  {| vm_Name := "gha-orchard-auto-0a0a0a0a"; vm_Image := "macos"; vm_CPU := 6%Z;
     vm_Memory := 8192%Z; vm_Nested := false; vm_DiskSize := 0%Z; vm_Status := "running";
     vm_StatusMessage := EmptyString; vm_Worker := "old-name"; vm_StartupScript := None;
     vm_Labels := mergePinLabel {["vm-class" := "large"]} "mini-1"; vm_CreatedAt := 1%Z |}.

Lemma share_in_step_with_placement_witness :
  let workers := [mac "new-name" "mini-1" 10 16384; mac "mini-2" "mini-2" 12 36864] in
  vmConsumesLabeledWorker renamed_vm workers {["vm-class" := "large"]} = true ∧
  (w_Name <$> freeAutoSizeWorkers workers [renamed_vm] {["vm-class" := "large"]} 4 4096)
    = ["mini-2"] ∧
  blocks_placement renamed_vm workers {["vm-class" := "large"]}.
Proof.
  intros workers. split; [by vm_compute|]. split; [by vm_compute|].
  apply (share_in_step_with_placement renamed_vm workers {["vm-class" := "large"]} "mini-1").
  - by vm_compute; repeat constructor; set_solver.
  - by vm_compute; repeat constructor; set_solver.
  - by intros w [->|[->|[]%elem_of_nil]%elem_of_cons]%elem_of_cons.
  - by vm_compute.
  - by vm_compute.
  - done.
  - done.
  - by vm_compute.
Defined.
