(* ===== verification/Wiring.v ===== *)
(** * The components wired together

    The callbacks the manager installs satisfy what the bridges and the cleanup
    loop ask of theirs, so the properties of Scaling, BridgeJobs and Sweeps hold
    of the assembled system; and what the manager itself computes, the shares of
    the worker pool. *)

From S2P Require Import Prelude GoBase Orchard VMNames Workers.
From S2P Require Import AutoSize Capacity StateView Config Env Bridge Sample.
From S2P Require Import BridgeScaleUp Scaling BridgeJobs Cleanup Reaping Sweeps.
From S2P Require Import Manager.

(** ** Counting the VMs of the other scale sets *)

Section Shares.
Context {W : Type}.
Implicit Types hs : list (scaleSetHandle W).

(** A VM alive that occupies a worker with these labels. *)
Definition consumes (sn : Snapshot) (labels : gmap string string) (vm : VM) : Prop :=
  vm_terminal vm = false ∧ vmConsumesLabeledWorker vm (snap_Workers sn) labels = true.

Lemma count_consuming_spec n vms sn labels :
  count_consuming n vms (snap_Workers sn) labels
  = (n + Z.of_nat (length (filter (consumes sn labels) vms)))%Z.
Proof.
  revert n. induction vms as [|vm vms IH]; intros n; simpl; [lia|].
  rewrite IH, filter_cons. case_decide as H; unfold consumes in H.
  - destruct H as [-> ->]. simpl. lia.
  - destruct (vm_terminal vm); [done|].
    destruct (vmConsumesLabeledWorker vm (snap_Workers sn) labels); [|done].
    by destruct H.
Qed.

(** The names of the handles from position [j] on, but for position [i]. *)
Fixpoint other_names (i j : nat) hs : list string :=
  match hs with
  | [] => []
  | h :: hs =>
      if decide (j = i) then other_names i (S j) hs
      else scaleSetName (bridge h) :: other_names i (S j) hs
  end.

Lemma elem_of_other_names i j hs n :
  n ∈ other_names i j hs ↔
  ∃ k h, hs !! k = Some h ∧ j + k ≠ i ∧ scaleSetName (bridge h) = n.
Proof.
  revert j. induction hs as [|h hs IH]; intros j; simpl.
  { split; [by intros ?%elem_of_nil|by intros (k & h & ? & _)]. }
  assert ((∃ k h', hs !! k = Some h' ∧ S j + k ≠ i ∧ scaleSetName (bridge h') = n) ↔
          (∃ k h', (h :: hs) !! S k = Some h' ∧ j + S k ≠ i ∧ scaleSetName (bridge h') = n))
    as Hshift.
  { simpl. split; intros (k & h' & ? & ? & ?); exists k, h'; (split; [done|split; [lia|done]]). }
  destruct (decide (j = i)) as [->|Hj].
  - rewrite IH, Hshift. split.
    + intros (k & h' & ? & ? & ?). by exists (S k), h'.
    + intros ([|k] & h' & ? & ? & ?); [lia|by exists k, h'].
  - rewrite elem_of_cons, IH, Hshift. split.
    + intros [->|(k & h' & ? & ? & ?)]; [exists 0, h; split; [done|split; [lia|done]]|].
      by exists (S k), h'.
    + intros ([|k] & h' & Hh & ? & <-); simpl in Hh; [simplify_eq; by left|].
      right. by exists k, h'.
Qed.

Definition sanitized_names hs : list string := (λ h, sanitize (scaleSetName (bridge h))) <$> hs.

Lemma other_names_NoDup i j hs :
  NoDup (sanitized_names hs) → NoDup (sanitize <$> other_names i j hs).
Proof.
  revert j. induction hs as [|h hs IH]; intros j; [by constructor|].
  unfold sanitized_names. cbn [other_names fmap list_fmap]. rewrite NoDup_cons.
  intros [Hnot Hnd].
  destruct (decide (j = i)); [by apply IH|]. rewrite fmap_cons, NoDup_cons.
  split; [|by apply IH]. intros (m & Heq & Hn)%list_elem_of_fmap.
  apply elem_of_other_names in Hn as (k & h' & Hh & _ & <-). apply Hnot.
  rewrite Heq. apply list_elem_of_fmap. exists h'. split; [done|].
  by eapply list_elem_of_lookup_2.
Qed.

(** A VM belongs to scale sets of one sanitized name only. *)
Lemma belongs_unique a b name :
  belongs_to_scale_set a name = true → belongs_to_scale_set b name = true →
  sanitize a = sanitize b.
Proof.
  intros (s & -> & Hs)%belongs_to_scale_set_spec Hb.
  symmetry. by apply (belongs_to_other b a s).
Qed.

(** The VMs of a list of scale sets. *)
Definition of_some (ns : list string) (vm : VM) : Prop :=
  Exists (λ n, belongs_to_scale_set n (vm_Name vm) = true) ns.

Lemma count_of_some (P : VM → Prop) `{∀ vm, Decision (P vm)} ns vms :
  NoDup (sanitize <$> ns) →
  length (filter (λ vm, P vm ∧ of_some ns vm) vms)
  = foldr (λ n k, length (filter P (filter (λ vm, belongs_to_scale_set n (vm_Name vm) = true)
                                      vms)) + k) 0 ns.
Proof.
  induction ns as [|n ns IH]; intros Hnd; simpl.
  { rewrite (Prelude.filter_ext_in _ (λ _, False)); [by induction vms|].
    intros vm _. unfold of_some. rewrite Exists_nil. tauto. }
  rewrite fmap_cons, NoDup_cons in Hnd. destruct Hnd as [Hnot Hnd].
  rewrite <-(IH Hnd). clear IH Hnd. rewrite list_filter_filter.
  induction vms as [|vm vms IH]; [done|]. rewrite !filter_cons.
  assert (belongs_to_scale_set n (vm_Name vm) = true → ¬ of_some ns vm) as Hex.
  { intros Hb (m & Hm & Hb')%Exists_exists. apply Hnot.
    rewrite (belongs_unique _ _ _ Hb Hb'). by apply list_elem_of_fmap_2. }
  assert (of_some (n :: ns) vm ↔ belongs_to_scale_set n (vm_Name vm) = true ∨ of_some ns vm)
    as Hcons by (unfold of_some; by rewrite Exists_cons).
  repeat case_decide; simpl; try lia; tauto.
Qed.

Lemma othersActive_spec n i j hs sn labels :
  othersActive n i j hs sn labels
  = (n + Z.of_nat (foldr (λ m k,
        length (filter (consumes sn labels) (ManagedVMsForScaleSet sn m)) + k)%nat 0%nat
        (other_names i j hs)))%Z.
Proof.
  revert n j. induction hs as [|h hs IH]; intros n j; simpl; [lia|].
  rewrite IH. destruct (decide (j = i)); [done|]. rewrite count_consuming_spec. simpl. lia.
Qed.

(** The capacity of a scale set on a snapshot: AutoSize workers, or slots. *)
Definition pool_capacity (b : Bridge W) (sn : Snapshot) : Z :=
  if AutoSizeEnabled b then
    let '(cpu, mem) := AutoSizeReserves (AutoSizeReserveConfig b).1 (AutoSizeReserveConfig b).2 in
    Z.of_nat (length (autoSizeCandidates (snap_Workers sn) (VMLabels b) cpu mem))
  else
    sum_slots (λ w, unpaused w && workerMatchesLabels w (VMLabels b)) (snap_Workers sn).

Lemma workerCapacityFn_spec (b : Bridge W) sn :
  slots_ok (snap_Workers sn) →
  workerCapacityFn (AutoSizeEnabled b) (AutoSizeReserveConfig b).1
    (AutoSizeReserveConfig b).2 (snap_Workers sn) (VMLabels b) = pool_capacity b sn.
Proof.
  intros Hok. unfold workerCapacityFn, pool_capacity.
  destruct (AutoSizeEnabled b); [|by apply CapacityForLabels_sum].
  by destruct (AutoSizeReserves _ _).
Qed.

Lemma pool_capacity_bounds b sn :
  slots_ok (snap_Workers sn) → (Z.of_nat (length (snap_Workers sn)) < two63)%Z →
  (0 ≤ pool_capacity b sn < two63)%Z.
Proof.
  intros [Hall Hlt] Hlen. unfold pool_capacity. destruct (AutoSizeEnabled b).
  - destruct (AutoSizeReserves _ _) as [cpu mem].
    assert (length (autoSizeCandidates (snap_Workers sn) (VMLabels b) cpu mem)
            ≤ length (snap_Workers sn)) by apply length_filter. lia.
  - pose proof (sum_slots_bounds (λ w, unpaused w && workerMatchesLabels w (VMLabels b))
      _ Hall). lia.
Qed.

(** C23: the number of runners reported to GitHub for a scale set is its
    capacity on the live workers less the VMs of the other scale sets that
    occupy one of those workers, and never negative; each such VM is counted
    once, whatever the number of scale sets, as long as their names stay
    distinct when sanitized. *)
Theorem share_spec hs sn i h :
  NoDup (sanitized_names hs) → slots_ok (snap_Workers sn) →
  (Z.of_nat (length (snap_Workers sn)) < two63)%Z → (Z.of_nat (length (VMs sn)) < two63)%Z →
  share hs sn i h = Z.max 0 (pool_capacity (bridge h) sn - Z.of_nat (length
    (filter (λ vm, consumes sn (VMLabels (bridge h)) vm ∧ of_some (other_names i 0 hs) vm)
       (VMs sn)))).
Proof.
  intros Hnd Hok Hws Hvms. unfold share.
  destruct (AutoSizeReserveConfig (bridge h)) as [c m] eqn:Hr.
  pose proof (workerCapacityFn_spec (bridge h) sn Hok) as Hcap. rewrite Hr in Hcap.
  simpl in Hcap. rewrite Hcap, othersActive_spec, Z.add_0_l.
  rewrite (count_of_some (consumes sn (VMLabels (bridge h)))) by by apply other_names_NoDup.
  set (k := foldr _ _ _). pose proof (pool_capacity_bounds (bridge h) sn Hok Hws) as Hb.
  assert (k ≤ length (VMs sn)) as Hk.
  { subst k. unfold ManagedVMsForScaleSet.
    rewrite <-(count_of_some (consumes sn (VMLabels (bridge h))) _ (VMs sn))
      by by apply other_names_NoDup.
    apply length_filter. }
  change (foldr _ _ _) with k. clearbody k.
  rewrite int64_id by (unfold in_int64, two63 in *; lia).
  destruct (Z.ltb_spec (pool_capacity (bridge h) sn - Z.of_nat k) 0); lia.
Qed.
End Shares.

(** ** The installed callbacks *)

Section Wiring.
Context {W : Type} `{!OrchardClient W} `{!Clock W} `{!UUIDSource W}.
Context `{!ClientTotal W} `{!UUIDLaw W}.
Context (Pv : list VM → Prop) (Pw : list Worker → Prop) `{!Reports W Pv Pw}.
Notation LW := (Logged W).
Notation E := (Env LW unit (Mgr LW)).

(** Only the reported maxima change. *)
Definition reshared (m m' : Mgr LW) : Prop :=
  m' = m ∨ ∃ sn, snapshot_of Pv Pw sn ∧ m' = set_handles (recompute sn (handles m)) m.

Lemma wp_recompute (Q : outcome unit → E → Prop) e :
  env_ok Pv Pw e → is_Some (view e) →
  (∀ e', env_ok Pv Pw e' → is_Some (view e') → capacity e' = capacity e →
     env_calls e' = env_calls e → reshared (ext e) (ext e') → Q (Ret tt) e') →
  wp recomputeScaleSetShares Q e.
Proof.
  intros Hok Hv HQ. unfold recomputeScaleSetShares.
  apply wp_bind, (wp_state_Get Pv Pw); [done|done|].
  intros osn err e' Hok' Hv' Hcap Hext Hcalls Hsn _. simpl.
  destruct osn as [sn|].
  - unfold on_ext. wp_go. apply HQ; try done. simpl. rewrite Hext. right.
    exists sn. split; [by apply Hsn|done].
  - apply wp_ret, HQ; try done. by left.
Qed.

(** What [runScaleSet] gives a bridge is what a bridge asks for. *)
Lemma bridge_hooks_ok : hooks_ok Pv Pw (bridge_hooks (W := LW)).
Proof.
  constructor.
  - intros m [= <-] e Hok Hv. by apply wp_recompute.
  - intros f n [= <-] e Hok Hv. unfold on_ext. by wp_go.
  - done.
Qed.

(** What [Run] gives the cleanup loop is what the loop asks for. *)
Lemma sweep_hooks_ok remover observe :
  (∀ rm n, remover = Some rm →
     quiet (W := W) (CB := unit) (X := Mgr LW) Pv Pw true (on_world (rm n))) →
  (∀ ws, quiet_total Pv Pw true (observe ws)) →
  cleanup_hooks_ok Pv Pw (sweep_hooks (W := LW) remover observe) true.
Proof.
  intros Hrm Hobs.
  assert (∀ e e', sweepable Pv Pw true e → env_ok Pv Pw e' → is_Some (view e') →
    capacity e' = capacity e → env_calls e' = env_calls e →
    evolves (W := W) (CB := unit) (X := Mgr LW) Pv Pw true [] e e') as Hev.
  { intros e e' [_ Hv] Hok' Hv' Hcap Hcalls. constructor; [done| |done|].
    - split; [done|]. intros _. by apply Hv.
    - by rewrite app_nil_r. }
  constructor; simpl.
  - done.
  - intros f n [= <-] e [Hok Hv]. unfold on_ext. wp_go.
    apply wp_recompute; [done|by apply Hv|]. intros e' Hok' Hv' Hcap Hcalls _.
    split; [done|]. by apply Hev.
  - intros f ws [= <-]. apply Hobs.
  - intros _ ws e [Hok Hv]. apply wp_recompute; [done|by apply Hv|].
    intros e' Hok' Hv' Hcap Hcalls _. by apply Hev.
Qed.

(** The queue of failed deletions, as the rest of the system sees it. *)
Definition queued (e : E) (n : string) : Prop := n ∈ pendingDeletes (cleanup (ext e)).

Lemma bridge_hooks_queue : queues (bridge_hooks (W := LW)) queued.
Proof.
  intros f n e [= <-] Hn. unfold on_ext. wp_go. unfold queued. simpl.
  unfold MarkForDeletion. rewrite decide_False by done. simpl. set_solver.
Qed.

(** A handler run on the bridge at position [i]. *)
Lemma wp_on_handle {A} i h (f : M (Bridge LW * E) A) (Q : outcome A → E → Prop) e :
  handles (ext e) !! i = Some h →
  wp f (λ o s, Q o (mkEnv (world s.2) (capacity s.2) (view s.2)
                      (put_bridge i s.1 (ext s.2)))) (bridge h, e) →
  wp (on_handle i f) Q e.
Proof. intros Hh Hf. unfold wp, on_handle in *. by rewrite Hh. Qed.

(** The number of scale sets. *)
Definition scale_sets (e : E) : nat := length (handles (ext e)).

Lemma reshared_length m m' : reshared m m' → length (handles m') = length (handles m).
Proof. intros [->|(sn & _ & ->)]; [done|]. apply length_imap. Qed.

Lemma wp_keeps_handles {A} n (m : M LW A) (Q : outcome A → E → Prop) e :
  scale_sets e = n →
  (∀ o w, scale_sets (with_world e w) = n → Q o (with_world e w)) →
  wp (on_world m) Q e.
Proof. intros Hn HQ. unfold on_world. apply wp_zoom, HQ. exact Hn. Qed.

(** A job's completion keeps the scale sets. *)
Lemma job_keeps_handles runnerName runnerID b e :
  env_ok Pv Pw e → is_Some (view e) →
  wp (HandleJobCompleted bridge_hooks runnerName runnerID)
     (λ _ s', scale_sets s'.2 = scale_sets e) (b, e).
Proof.
  intros Hok Hv. unfold HandleJobCompleted, this, on_env, on_bridge. wp_go.
  destruct (activeVMs b !! runnerName) as [vm|]; [|by apply wp_ret].
  wp_go. apply wp_keeps_handles with (scale_sets e); [done|].
  intros [[err|]| |] w Hw; simpl; [|..|done|done].
  - unfold on_ext. wp_go. exact Hw.
  - wp_go. apply wp_keeps_handles with (scale_sets e); [done|].
    intros [r| |] w1 Hw1; simpl; [|done|done].
    unfold cap_Release, on_capacity, invalidate, notifyChange, on_env, state_Invalidate.
    wp_go. apply wp_recompute.
    + unfold env_ok in *. simpl. destruct (view e) as [sv|]; [|done].
      destruct Hok as [Hidle _]. by split.
    + simpl. destruct Hv as [sv ->]. by eexists.
    + intros e2 _ _ _ _ Hr. simpl. apply wp_ret. simpl.
      by apply reshared_length in Hr.
Qed.

(** C16: no finished VM is forgotten.  In the assembled system, when the
    bridge of a scale set handles the completion of a job it tracks, it asks the
    controller once to delete the VM, stops tracking it, and either the
    controller accepts and one slot is released, or the VM is in the queue that
    every sweep of the cleanup loop works through ([Sweeps.sweep_retries_queued]). *)
Theorem finished_vm_not_forgotten gh e i h runnerName runnerID vmName :
  handles (ext e) !! i = Some h → activeVMs (bridge h) !! runnerName = Some vmName →
  vmName ≠ EmptyString → ghClient (bridge h) = logged_gh gh → gh_total gh →
  env_ok Pv Pw e → is_Some (view e) → cap_small (capacity e) →
  wp (on_handle i (HandleJobCompleted bridge_hooks runnerName runnerID))
     (returns (λ r e', r = None ∧
        (∃ h', handles (ext e') !! i = Some h' ∧
               activeVMs (bridge h') = delete runnerName (activeVMs (bridge h))) ∧
        ∃ ok, env_calls e' = env_calls e ++ [CallDeleteVM vmName ok] ∧
          if ok : bool then InUse (capacity e') = Z.max 0 (InUse (capacity e) - 1)
          else InUse (capacity e') = InUse (capacity e) ∧ queued e' vmName)) e.
Proof.
  intros Hh Hact Hne Hgh Hgt Hok Hv Hs. apply (wp_on_handle i h); [done|].
  assert (env_live Pv Pw bridge_hooks e) as Hlive by (split; [done|by left]).
  assert (wp (HandleJobCompleted bridge_hooks runnerName runnerID)
    (returns (λ r s', r = None ∧ s'.1 = PurgeActiveVM runnerName (bridge h) ∧
       ∃ ok, env_calls s'.2 = env_calls e ++ [CallDeleteVM vmName ok] ∧
         completed queued vmName ok e s'.2)) (bridge h, e)) as Hjob.
  { eapply (wp_HandleJobCompleted Pv Pw bridge_hooks gh queued);
      [apply bridge_hooks_ok|done..|apply bridge_hooks_queue|by eexists|congruence|].
    intros vm ok e' Hvm _ ? ?. assert (vm = vmName) as -> by congruence.
    split; [done|]. split; [done|]. by exists ok. }
  eapply wp_mono; [apply wp_and; [by apply job_keeps_handles|exact Hjob]|].
  intros [r| |] [b' e']; simpl; [|by intros [_ []]..].
  intros [Hlen (-> & -> & ok & Hcalls & Hok')]. split; [done|]. split.
  - destruct (lookup_lt_is_Some_2 (handles (ext e')) i) as [h' Hh'].
    { unfold scale_sets in Hlen. rewrite Hlen. by eapply lookup_lt_Some. }
    eexists. split.
    + simpl. rewrite list_lookup_alter, decide_True, Hh' by done. reflexivity.
    + done.
  - exists ok. split; [exact Hcalls|]. destruct ok.
    + simpl in Hok' |- *. rewrite Hok', Release_spec; [done|done|]. unfold small. lia.
    + destruct Hok' as [Hcap Hq]. simpl. rewrite Hcap. split; [done|]. by apply Hq.
Qed.
End Wiring.

(** ** Witnesses *)

(** Two scale sets on two machines with the same labels. *)
Definition shared_fleet : Fleet :=
  mkFleet [runner_vm "gha-orchard-large-0a0a0a0a" "running" "mini-1" "mini-1";
           runner_vm "gha-orchard-small-2c2c2c2c" "running" "mini-2" "mini-2";
           runner_vm "gha-orchard-small-3d3d3d3d" "failed" "mini-2" "mini-2"]
    [mac "mini-1" "mini-1" 10 16384; mac "mini-2" "mini-2" 10 16384] (λ _, true).

Definition shared_bridge (name : string) : Bridge (Logged (Sim shared_fleet)) :=
  Bridge.New name 7
    (mkVMConfig "macos" 4 8192 0 0 {["vm-class" := "large"]} (mkAutoSizeConfig false 0 0))
    (logged_gh sim_gh).

Definition shared_handles : list (scaleSetHandle (Logged (Sim shared_fleet))) :=
  [mkHandle (set_activeVMs {["runner-1" := "gha-orchard-large-0a0a0a0a"]}
      (shared_bridge "large")) 0 0;
   mkHandle (shared_bridge "small") 0 0].

Definition shared_snapshot : Snapshot :=
  newSnapshot (fleet_reported_vms shared_fleet) (fleet_workers shared_fleet) 10%Z 0%Z.

Lemma share_spec_witness :
  share shared_handles shared_snapshot 0 (mkHandle (shared_bridge "large") 0 0) = 1%Z ∧
  share shared_handles shared_snapshot 0 (mkHandle (shared_bridge "large") 0 0)
  = Z.max 0 (2 - Z.of_nat (length
      (filter (λ vm, consumes shared_snapshot {["vm-class" := "large"]} vm ∧
                     of_some ["small"] vm) (VMs shared_snapshot)))).
Proof.
  split; [reflexivity|].
  rewrite (share_spec shared_handles shared_snapshot 0 (mkHandle (shared_bridge "large") 0 0)).
  - reflexivity.
  - apply (bool_decide_unpack _). by vm_compute.
  - split; [|by vm_compute]. repeat constructor; by vm_compute.
  - by vm_compute.
  - by vm_compute.
Defined.

Definition shared_env : Env (Logged (Sim shared_fleet)) unit (Mgr (Logged (Sim shared_fleet))) :=
  mkEnv (mkLogged (mkSim 100%Z 0) []) (mkCapacity 1 2 []) (Some (NewStateView 0%Z 0%Z))
    (mkMgr shared_handles NewCleanup).

Lemma finished_vm_not_forgotten_witness :
  env_calls (on_handle 0 (HandleJobCompleted bridge_hooks "runner-1" 5) shared_env).2
  = [CallDeleteVM "gha-orchard-large-0a0a0a0a" false] ∧
  wp (on_handle 0 (HandleJobCompleted bridge_hooks "runner-1" 5))
    (returns (λ _ e', ∃ ok, env_calls e' = [CallDeleteVM "gha-orchard-large-0a0a0a0a" ok] ∧
       (ok = false → queued e' "gha-orchard-large-0a0a0a0a"))) shared_env.
Proof.
  split; [by vm_compute|].
  eapply wp_mono; [apply (finished_vm_not_forgotten
    (λ vms, vms = fleet_reported_vms shared_fleet) (λ ws, ws = fleet_workers shared_fleet)
    sim_gh shared_env 0 _ "runner-1" 5 "gha-orchard-large-0a0a0a0a" eq_refl);
    [reflexivity|done|reflexivity|by repeat split| |by eexists|by vm_compute]|].
  - done.
  - intros [r| |] e'; simpl; [|done..]. intros (_ & _ & ok & Hc & Hk).
    exists ok. split; [done|]. intros ->. by destruct Hk.
Defined.
