(* ===== verification/Startup.v ===== *)
(** * Starting a scale set ([runScaleSet], [registerScaleSet] in [manager/manager.go])

    What happens from the configuration of a scale set to the moment its listener
    runs.  The administrative client of GitHub's library, the listener and the
    pauses that a cancelled context interrupts are parameters. *)

From S2P Require Import Prelude GoBase Orchard VMNames Workers.
From S2P Require Import AutoSize Metrics Eligibility Capacity StateView Config Env.
From S2P Require Import Bridge Sample BridgeScaleUp BridgeJobs Cleanup Manager.
From S2P Require Import Wiring.

(** ** The GitHub library *)

(** [scaleset.RunnerScaleSet]. *)
Record RunnerScaleSet : Type := mkRunnerScaleSet {
  rss_ID : Z;
  rss_Name : string;
  rss_RunnerGroupID : Z;
  rss_Labels : list string;
  rss_DisableUpdate : bool
}.

Record AdminClient (W Session : Type) : Type := mkAdminClient {
  runners : GHClient W;
  GetRunnerGroupByName : string → M W (result Z);
  GetRunnerScaleSet : Z → string → M W (result (option RunnerScaleSet));
  UpdateRunnerScaleSet : Z → RunnerScaleSet → M W (result RunnerScaleSet);
  CreateRunnerScaleSet : RunnerScaleSet → M W (result RunnerScaleSet);
  MessageSessionClient : Z → string → M W (result Session);
  listener_New : Session → Z → Z → M W (option error)
}.
Arguments runners {W Session} _.
Arguments GetRunnerGroupByName {W Session} _ _.
Arguments GetRunnerScaleSet {W Session} _ _ _.
Arguments UpdateRunnerScaleSet {W Session} _ _ _.
Arguments CreateRunnerScaleSet {W Session} _ _.
Arguments MessageSessionClient {W Session} _ _ _.
Arguments listener_New {W Session} _ _ _ _.

(** ** The client's authentication *)

(** The arguments [defaultNewGHClient] calls the library with. *)
Inductive Auth : Type :=
  | PersonalAccessToken (url token : string)
  | GitHubApp (url clientID : string) (installationID : Z) (pem : string).

Definition defaultNewGHClient (ReadFile : string → result string) (c : Config)
    (configURL : string) : result Auth :=
  let gh := c_GitHub c in
  if decide (gh_Token gh ≠ EmptyString) then OK (PersonalAccessToken configURL (gh_Token gh))
  else match GitHubPrivateKeyPEM ReadFile c with
       | Err e => Err (Errorf_w "reading private key: %w" [] e)
       | OK pem => OK (GitHubApp configURL (pretty (gh_AppID gh)) (gh_InstallationID gh) pem)
       end.

(** ** Start-up *)

(** How [runScaleSet] gets on: cancelled, failed, or listening, with the position
    of its handle and the number of runners its listener was made with. *)
Inductive started : Type :=
  | Cancelled
  | Failed (e : error)
  | Listening (i : nat) (initial : Z).

Section Startup.
Context {W Session : Type} `{!OrchardClient W} `{!Clock W}.
Notation E := (Env W unit (Mgr W)).

(** [select { case <-ctx.Done(): ...; case <-time.After(d): ... }]: whether the
    context was done. *)
Variable pause : Duration → M W bool.
Variable stale : Duration.                    (* m.staleAfter *)

Definition registerScaleSet (gh : AdminClient W Session) (ss : ScaleSetConfig)
    : M W (result RunnerScaleSet) :=
  group ← (if decide (ss_RunnerGroup ss ≠ EmptyString ∧ ss_RunnerGroup ss ≠ "default")
           then GetRunnerGroupByName gh (ss_RunnerGroup ss)
           else mret (OK 1%Z));
  match group with
  | Err e => mret (Err (Errorf_w "getting runner group %q: %w" [ss_RunnerGroup ss] e))
  | OK runnerGroupID =>
      let desired := mkRunnerScaleSet 0 (ss_Name ss) runnerGroupID (ss_Labels ss) true in
      existing ← GetRunnerScaleSet gh runnerGroupID (ss_Name ss);
      match existing with
      | OK (Some ex) =>
          updated ← UpdateRunnerScaleSet gh (rss_ID ex) desired;
          match updated with
          | Err e => mret (Err (Errorf_w "updating scale set %s: %w" [ss_Name ss] e))
          | OK u => mret (OK u)
          end
      | _ =>
          created ← CreateRunnerScaleSet gh desired;
          match created with
          | Err e => mret (Err (Errorf_w "creating scale set: %w" [] e))
          | OK c => mret (OK c)
          end
      end
  end.

(** The loop that waits for matching workers, for [fuel] polls; more polls would
    be blocked in it.  [None]: the context was done. *)
Fixpoint wait_for_workers (fuel : nat) (capacityOf : list Worker → Z) : M W (option Z) :=
  match fuel with
  | O => blocked
  | S fuel =>
      done ← pause (10 * Second)%Z;
      if (done : bool) then mret None else
      r ← listLiveWorkers stale;
      match r with
      | Err _ => wait_for_workers fuel capacityOf
      | OK workers =>
          let maxRunners := capacityOf workers in
          if (0 <? maxRunners)%Z then mret (Some maxRunners)
          else wait_for_workers fuel capacityOf
      end
  end.

Definition initialMaxRunners (fuel : nat) (ss : ScaleSetConfig) : M W (option Z) :=
  let auto := cfg_AutoSize (ss_VM ss) in
  let capacityOf workers :=
    workerCapacityFn (Enabled auto) (ReserveCPU auto) (ReserveMemoryMiB auto) workers
      (cfg_Labels (ss_VM ss)) in
  if (0 <? ss_MaxRunners ss)%Z then mret (Some (ss_MaxRunners ss))
  else
    r ← listLiveWorkers stale;
    let maxRunners := match r with Err _ => 0%Z | OK workers => capacityOf workers end in
    if (maxRunners =? 0)%Z then wait_for_workers fuel capacityOf
    else mret (Some maxRunners).

(** [for attempt := 1; ; attempt++ { ... }], with [tries] attempts to make before
    the loop must have returned. *)
Fixpoint session_loop (tries : nat) (attempt : Z) (gh : AdminClient W Session) (id : Z)
    (name : string) : M W (option (result Session)) :=
  match tries with
  | O => blocked
  | S tries =>
      r ← MessageSessionClient gh id "orchard-gh-bridge";
      match r with
      | OK sess => mret (Some (OK sess))
      | Err e =>
          if (10 <=? attempt)%Z
          then mret (Some (Err (Errorf_w "creating message session for %s: %w" [name] e)))
          else
            done ← pause (attempt * 3 * Second)%Z;
            if (done : bool) then mret None
            else session_loop tries (attempt + 1)%Z gh id name
      end
  end.

Definition session_attempts : nat := 10.

(** The part of [runScaleSet] that changes the manager: the bridge, its handle,
    hydration and the first shares. *)
Definition install (gh : AdminClient W Session) (ss : ScaleSetConfig) (id maxRunners : Z)
    : M E started :=
  hs ← on_ext (read handles);
  let i := length hs in
  let h := mkHandle (Bridge.New (ss_Name ss) id (ss_VM ss) (runners gh)) maxRunners
             (ss_MaxRunners ss) in
  on_ext (modify (λ m, set_handles (handles m ++ [h]) m));;
  '(adopted, _) ← on_handle i HydrateFromOrchard;
  (if (0 <? adopted)%Z then on_capacity (λ c, (tt, AdoptExisting adopted c)) else mret tt);;
  recomputeScaleSetShares;;
  mret (Listening i maxRunners).

(** [runScaleSet] up to [l.Run], which hands the handlers of the bridge the
    messages of GitHub. *)
Definition runScaleSet (fuel : nat) (client : result (AdminClient W Session))
    (ss : ScaleSetConfig) : M E started :=
  match client with
  | Err e => mret (Failed (Errorf_w "creating GitHub client for %s: %w" [ss_Name ss] e))
  | OK gh =>
      reg ← on_world (registerScaleSet gh ss);
      match reg with
      | Err e => mret (Failed (Errorf_w "registering scale set %s: %w" [ss_Name ss] e))
      | OK rss =>
          max ← on_world (initialMaxRunners fuel ss);
          match max with
          | None => mret Cancelled
          | Some maxRunners =>
              sess ← on_world (session_loop session_attempts 1 gh (rss_ID rss) (ss_Name ss));
              match sess with
              | None => mret Cancelled
              | Some (Err e) => mret (Failed e)
              | Some (OK sess) =>
                  err ← on_world (listener_New gh sess (rss_ID rss) maxRunners);
                  match err with
                  | Some e =>
                      mret (Failed (Errorf_w "creating listener for %s: %w" [ss_Name ss] e))
                  | None => install gh ss (rss_ID rss) maxRunners
                  end
              end
          end
      end
  end.

(** What [runScaleSet] returns when the listener does. *)
Definition listener_result (name : string) (cancelled : bool) (err : option error)
    : option error :=
  match err with
  | None => None
  | Some e => if cancelled then None else Some (Errorf_w "listener for %s: %w" [name] e)
  end.
End Startup.

(** ** AutoSize reporting *)

(** [observeAutoSizeEligibility]: [None] is a panic. *)
Fixpoint observeAutoSizeEligibility (scaleSets : list ScaleSetConfig) (workers : list Worker)
    (m : option EligibilityMonitor) : option (list logged * option EligibilityMonitor) :=
  match scaleSets with
  | [] => Some ([], m)
  | ss :: scaleSets =>
      let auto := cfg_AutoSize (ss_VM ss) in
      if negb (Enabled auto) then observeAutoSizeEligibility scaleSets workers m
      else
        let '(cpu, mem) := AutoSizeReserves (ReserveCPU auto) (ReserveMemoryMiB auto) in
        match Observe (ss_Name ss) workers (cfg_Labels (ss_VM ss)) cpu mem m with
        | None => None
        | Some (log, m) =>
            match observeAutoSizeEligibility scaleSets workers m with
            | None => None
            | Some (log', m) => Some (log ++ log', m)
            end
        end
  end.

(** ** The cleanup loop's settings *)

(** What [Run] sets on the cleanup loop from the configuration; [reg] tells
    whether there is a metrics registry. *)
Definition configure_cleanup (reg : bool) (c : Config) : Cleanup :=
  let cl := NewCleanup in
  let cl := if (0 <? MaxVMAgeDuration c)%Z then SetMaxAge (MaxVMAgeDuration c) cl else cl in
  let cl := if (0 <? MaxPendingAgeDuration c)%Z
            then SetMaxPendingAge (MaxPendingAgeDuration c) cl else cl in
  SetMetrics reg (SetWorkerPruneAfter (WorkerPruneAfterDuration c) cl).

(** The client [Run] makes for the removal of reaped runners, from the first scale
    set; a failure is only logged. *)
Definition cleanup_client {Client} (newGHClient : string → result Client) (c : Config)
    : outcome (option Client) :=
  match c_ScaleSets c with
  | [] => Panic
  | ss :: _ => match newGHClient (ss_GitHubConfigURL ss) with
               | Err _ => Ret None
               | OK client => Ret (Some client)
               end
  end.

Lemma cleanup_client_returns {Client} (newGHClient : string → result Client) c :
  valid_config c → ∃ r, cleanup_client newGHClient c = Ret r.
Proof.
  intros Hv. pose proof (valid_sets c Hv) as Hne. unfold cleanup_client.
  destruct (c_ScaleSets c) as [|ss ?]; [done|].
  destruct (newGHClient _); by eexists.
Qed.

(** What [New] and the first lines of [Run] leave: the manager before any scale
    set is started. *)
Definition set_up {W} `{!OrchardClient W} `{!Clock W} (reg : bool) (c : Config)
    : M W (Env W unit (Mgr W)) :=
  e ← Manager.New (c_MaxVMs c) (WorkerStaleAfterDuration c) (configure_cleanup reg c);
  mret (mkEnv (world e) (OnWorkersChanged tt (capacity e)) (view e) (ext e)).

(** ** The session is tried ten times *)

Section Sessions.
Context {W Session : Type} (pause : Duration → M W bool) (gh : AdminClient W Session).
Context (id : Z) (name : string).

(** Creating the message session is given up after ten attempts.
    Whatever counts the attempts in [I], the loop returns after at least one and
    at most ten, and reports a failure only after the tenth. *)
Lemma session_attempts_bounded (I : nat → W → Prop) w :
  (∀ n w, I n w → wp (MessageSessionClient gh id "orchard-gh-bridge")
                     (returns (λ _ w', I (S n) w')) w) →
  (∀ n d w, I n w → wp (pause d) (returns (λ _ w', I n w')) w) →
  I 0 w →
  wp (session_loop pause session_attempts 1 gh id name)
     (returns (λ r w', ∃ n, 1 ≤ n ≤ 10 ∧ I n w' ∧ ∀ e, r = Some (Err e) → n = 10)) w.
Proof.
  intros Hmsg Hpause H0.
  assert (∀ tries n w, n + tries = 10 → 0 < tries → I n w →
    wp (session_loop pause tries (Z.of_nat n + 1) gh id name)
     (returns (λ r w', ∃ n, 1 ≤ n ≤ 10 ∧ I n w' ∧ ∀ e, r = Some (Err e) → n = 10)) w) as Hgen;
    [|apply (Hgen 10 0); [lia|lia|done]].
  intros tries. induction tries as [|tries IH]; intros n w1 Hn Hpos Hw; [lia|]. simpl.
  apply wp_bind. eapply wp_mono; [by apply Hmsg|].
  intros [[sess|e]| |] w2; simpl; [|..|done|done]; intros H2.
  { apply wp_ret. exists (S n). split; [lia|]. done. }
  destruct (Z.leb_spec 10 (Z.of_nat n + 1)) as [Hge|Hlt].
  { apply wp_ret. exists (S n). split; [lia|]. split; [done|]. intros. lia. }
  apply wp_bind. eapply wp_mono; [by apply Hpause|].
  intros [[|]| |] w3; simpl; [| |done|done]; intros H3.
  - apply wp_ret. exists (S n). split; [lia|]. done.
  - replace (Z.of_nat n + 1 + 1)%Z with (Z.of_nat (S n) + 1)%Z by lia. apply IH; [lia..|done].
Qed.
End Sessions.

(** ** Waiting for workers *)

Section Waiting.
Context {W : Type} `{!OrchardClient W} `{!Clock W}.
Context (pause : Duration → M W bool) (stale : Duration) (capacityOf : list Worker → Z).

(** The wait for matching workers ends with the first poll that finds
    capacity.  Given that the polls answer [poll 0], [poll 1], ... and that the
    context is not done, polls that fail or find nothing are passed over, and the
    capacity found is returned; no number of polls before it is too many. *)
Lemma wait_ends_at_capacity (I : nat → W → Prop) (poll : nat → result (list Worker))
    (k fuel : nat) (ws : list Worker) w :
  (∀ n w, I n w → wp (listLiveWorkers stale)
                     (returns (λ r w', r = poll n ∧ I (S n) w')) w) →
  (∀ n d w, I n w → wp (pause d) (returns (λ b w', b = false ∧ I n w')) w) →
  (∀ n ws, n < k → poll n = OK ws → (capacityOf ws ≤ 0)%Z) →
  poll k = OK ws → (0 < capacityOf ws)%Z → k < fuel → I 0 w →
  wp (wait_for_workers pause stale fuel capacityOf)
     (returns (λ r w', r = Some (capacityOf ws) ∧ I (S k) w')) w.
Proof.
  intros Hlist Hpause Hnone Hk Hpos Hfuel H0.
  assert (∀ d n w, n + d = k → I n w →
    wp (wait_for_workers pause stale (fuel - n) capacityOf)
     (returns (λ r w', r = Some (capacityOf ws) ∧ I (S k) w')) w) as Hgen.
  2:{ replace fuel with (fuel - 0) by lia. by apply (Hgen k 0). }
  intros d. induction d as [|d IH]; intros n w1 Hn Hw;
    (destruct (fuel - n) as [|left] eqn:Hleft; [lia|]); simpl;
    (apply wp_bind; eapply wp_mono; [by apply Hpause|]);
    (intros [b| |] w2; simpl; [|done..]); intros [-> H2];
    (apply wp_bind; eapply wp_mono; [by apply Hlist|]);
    (intros [r| |] w3; simpl; [|done..]); intros [-> H3].
  - assert (n = k) as -> by lia. rewrite Hk. destruct (Z.ltb_spec 0 (capacityOf ws)); [|lia].
    by apply wp_ret.
  - assert (wp (wait_for_workers pause stale left capacityOf)
      (returns (λ r w', r = Some (capacityOf ws) ∧ I (S k) w')) w3) as Hrest.
    { replace left with (fuel - S n) by lia. apply IH; [lia|done]. }
    destruct (poll n) as [ws'|e] eqn:Hp; [|done].
    pose proof (Hnone n ws' ltac:(lia) Hp). by destruct (Z.ltb_spec 0 (capacityOf ws')); [lia|].
Qed.
End Waiting.

(** ** The whole start-up *)

Section StartupSpec.
Context {W Session : Type} `{!OrchardClient W} `{!Clock W} `{!ClientTotal W}.
Context (Pv : list VM → Prop) (Pw : list Worker → Prop) `{!Reports W Pv Pw}.
Notation LW := (Logged W).
Notation E := (Env LW unit (Mgr LW)).

(** A computation that asks nothing of the controller that changes it, does not
    panic, and returns what satisfies [P] if it returns. *)
Definition quietly {A} (P : A → Prop) (m : M LW A) : Prop :=
  ∀ l, wp m (λ o l', calls l' = calls l ∧
               match o with Ret a => P a | Panic => False | Blocked => True end) l.

Lemma quietly_ret {A} (P : A → Prop) a : P a → quietly P (mret a).
Proof. intros Ha l. by apply wp_ret. Qed.

Lemma quietly_bind {A B} (P : A → Prop) (R : B → Prop) (m : M LW A) (f : A → M LW B) :
  quietly P m → (∀ a, P a → quietly R (f a)) → quietly R (m ≫= f).
Proof.
  intros Hm Hf l. apply wp_bind. eapply wp_mono; [apply Hm|].
  intros [a| |] l1; simpl; [|by intros [? ?]..]. intros [<- Ha]. by apply Hf.
Qed.

Lemma quietly_mono {A} (P R : A → Prop) (m : M LW A) :
  quietly P m → (∀ a, P a → R a) → quietly R m.
Proof.
  intros Hm HPR l. eapply wp_mono; [apply Hm|]. intros [a| |] l1; simpl; [|done..].
  intros [? ?]. auto.
Qed.

Lemma quietly_blocked {A} (P : A → Prop) : quietly P (blocked (A := A)).
Proof. intros l. done. Qed.

(** What is expected of the library's administrative calls and of the pauses. *)
Record admin_ok (gh : AdminClient LW Session) : Prop := {
  admin_group : ∀ n, quietly (λ _, True) (GetRunnerGroupByName gh n);
  admin_get : ∀ g n, quietly (λ _, True) (GetRunnerScaleSet gh g n);
  admin_update : ∀ id d, quietly (λ _, True) (UpdateRunnerScaleSet gh id d);
  admin_create : ∀ d, quietly (λ _, True) (CreateRunnerScaleSet gh d);
  admin_session : ∀ id n, quietly (λ _, True) (MessageSessionClient gh id n);
  admin_listener : ∀ s id n, quietly (λ _, True) (listener_New gh s id n)
}.

Context (pause : Duration → M LW bool) (stale : Duration).
Hypothesis Hpause : ∀ d, quietly (λ _, True) (pause d).
Hypothesis Hslots : ∀ ws, Pw ws → slots_ok ws.

Lemma registerScaleSet_quiet gh ss :
  admin_ok gh → quietly (λ _, True) (registerScaleSet gh ss).
Proof.
  intros [Hgroup Hget Hupdate Hcreate _ _]. unfold registerScaleSet.
  apply (quietly_bind (λ _, True)).
  { destruct (decide _); [apply Hgroup|by apply quietly_ret]. }
  intros [g|e] _; [|by apply quietly_ret]. apply (quietly_bind (λ _, True)); [apply Hget|].
  assert (∀ d f, quietly (λ _, True)
    (created ← CreateRunnerScaleSet gh d;
     match created with Err e => mret (Err (f e)) | OK c => mret (OK c) end)) as Hnew.
  { intros d f. apply (quietly_bind (λ _, True)); [apply Hcreate|].
    intros [c|e] _; by apply quietly_ret. }
  intros [[ex|]|e] _; [|apply Hnew..]. apply (quietly_bind (λ _, True)); [apply Hupdate|].
  intros [u|e] _; by apply quietly_ret.
Qed.

Lemma listLiveWorkers_quiet :
  quietly (λ r, ∀ ws, r = OK ws → slots_ok ws) (listLiveWorkers stale).
Proof.
  unfold listLiveWorkers. apply (quietly_bind (λ r, ∀ ws, r = OK ws → slots_ok ws)).
  - intros l. eapply wp_mono; [apply wp_and; [apply reported_workers|]|].
    + apply (wp_on_base_total _ (λ o l', calls l' = calls l ∧ ∃ r, o = Ret r));
        [apply ListWorkers_total|]. intros r w. split; [done|by eexists].
    + intros o l' [Hr [Hc [r ->]]]. split; [done|]. intros ws ->. by apply Hslots, Hr.
  - intros [ws|e] Hws; [|by apply quietly_ret]. apply (quietly_bind (λ _, True)).
    + intros l. apply (wp_on_base_total _ (λ o l', calls l' = calls l ∧ match o with
        Ret _ => True | Panic => False | Blocked => True end)); [apply Now_total|done].
    + intros now _. apply quietly_ret. intros ws' [= <-].
      eapply slots_ok_sublist; [apply LiveWorkers_sublist|by apply Hws].
Qed.

Lemma capacity_nonneg auto cpu mem ws labels :
  slots_ok ws → (0 ≤ workerCapacityFn auto cpu mem ws labels)%Z.
Proof.
  intros Hok. unfold workerCapacityFn. destruct auto.
  - destruct (AutoSizeReserves cpu mem). unfold WorkerCountForLabels. lia.
  - rewrite CapacityForLabels_sum by done.
    apply sum_slots_bounds. by destruct Hok.
Qed.

(** The number of runners a listener starts with is positive. *)
Definition first_share (ss : ScaleSetConfig) (r : option Z) : Prop :=
  ∀ n, r = Some n → (0 < n)%Z ∧ ((0 < ss_MaxRunners ss)%Z → n = ss_MaxRunners ss).

Lemma wait_quiet fuel capacityOf :
  quietly (λ r, ∀ n, r = Some n → (0 < n)%Z) (wait_for_workers pause stale fuel capacityOf).
Proof.
  induction fuel as [|fuel IH]; simpl; [apply quietly_blocked|].
  apply (quietly_bind (λ _, True)); [apply Hpause|].
  intros [|] _; [by apply quietly_ret|].
  apply (quietly_bind (λ _, True)); [by eapply quietly_mono; [apply listLiveWorkers_quiet|]|].
  intros [ws|e] _; [|done]. destruct (Z.ltb_spec 0 (capacityOf ws)); [|done].
  apply quietly_ret. by intros n [= <-].
Qed.

Lemma initialMaxRunners_quiet fuel ss :
  quietly (first_share ss) (initialMaxRunners pause stale fuel ss).
Proof.
  unfold initialMaxRunners, first_share. destruct (Z.ltb_spec 0 (ss_MaxRunners ss)) as [Hs|Hs].
  { apply quietly_ret. by intros n [= <-]. }
  set (capacityOf := λ workers, workerCapacityFn _ _ _ workers _).
  eapply quietly_bind; [apply listLiveWorkers_quiet|]. intros r Hr. simpl.
  match goal with |- context [(?x =? 0)%Z] => set (n := x) end.
  assert (0 ≤ n)%Z as Hn.
  { subst n. destruct r as [ws|e]; [|done]. by apply capacity_nonneg, Hr. }
  destruct (Z.eqb_spec n 0).
  - eapply quietly_mono; [apply wait_quiet|]. intros o Ho k Hk. split; [by apply Ho|lia].
  - apply quietly_ret. intros k [= <-]. lia.
Qed.

Lemma session_quiet gh tries attempt id name :
  admin_ok gh → quietly (λ _, True) (session_loop pause tries attempt gh id name).
Proof.
  intros Hgh. revert attempt. induction tries as [|tries IH]; intros attempt; simpl;
    [apply quietly_blocked|].
  apply (quietly_bind (λ _, True)); [apply Hgh|]. intros [s|e] _; [by apply quietly_ret|].
  destruct (10 <=? attempt)%Z; [by apply quietly_ret|].
  apply (quietly_bind (λ _, True)); [apply Hpause|]. intros [|] _; [by apply quietly_ret|].
  apply IH.
Qed.

Lemma wp_quietly {A} (P : A → Prop) (m : M LW A) (Q : outcome A → E → Prop) e :
  quietly P m →
  (∀ a w, P a → calls w = env_calls e → m (world e) = (Ret a, w) →
     Q (Ret a) (with_world e w)) →
  (∀ w, calls w = env_calls e → Q Blocked (with_world e w)) → wp (on_world m) Q e.
Proof.
  intros Hm Hret Hblocked. unfold on_world. apply wp_zoom.
  eapply wp_mono; [apply wp_and; [apply Hm|apply wp_run]|].
  intros [a| |] w [[Hc Ha] Hrun]; [by apply Hret|done|by apply Hblocked].
Qed.

Lemma reshared_lookup m m' j h :
  reshared Pv Pw m m' → handles m !! j = Some h →
  ∃ h', handles m' !! j = Some h' ∧ bridge h' = bridge (W := LW) h ∧
        staticMaxRunners h' = staticMaxRunners h.
Proof.
  intros [->|(sn & _ & ->)] Hj; [by exists h|]. simpl. unfold recompute.
  rewrite list_lookup_imap, Hj. simpl. eexists. split; [done|].
  by destruct (0 <? staticMaxRunners h)%Z.
Qed.

Lemma reshared_cleanup m m' : reshared Pv Pw m m' → cleanup m' = cleanup (W := LW) m.
Proof. by intros [->|(sn & _ & ->)]. Qed.

(** The world [w] that a start has come to, from [w0], when the bridge is made:
    registered, with [n] runners, a session and a listener. *)
Definition came_to (fuel : nat) (gh : AdminClient LW Session) (ss : ScaleSetConfig) (n : Z)
    (w0 w : LW) : Prop :=
  ∃ rss sess w1 w2 w3,
    registerScaleSet gh ss w0 = (Ret (OK rss), w1) ∧
    initialMaxRunners pause stale fuel ss w1 = (Ret (Some n), w2) ∧
    session_loop pause session_attempts 1 gh (rss_ID rss) (ss_Name ss) w2
      = (Ret (Some (OK sess)), w3) ∧
    listener_New gh sess (rss_ID rss) n w3 = (Ret None, w).

(** What is in place when the listener starts: a new handle, last in the list,
    whose bridge has adopted what the snapshot shows that the cache gave in the
    world [w], and whose slots are taken; nothing if the cache could give none. *)
Definition in_place (ss : ScaleSetConfig) (i : nat) (w : LW) (e e' : E) : Prop :=
  i = length (handles (ext e)) ∧ length (handles (ext e')) = S i ∧
  cleanup (ext e') = cleanup (ext e) ∧
  (∀ j h, handles (ext e) !! j = Some h →
     ∃ h', handles (ext e') !! j = Some h' ∧ bridge h' = bridge h) ∧
  ∃ h adopted, handles (ext e') !! i = Some h ∧
    staticMaxRunners h = ss_MaxRunners ss ∧ scaleSetName (bridge h) = ss_Name ss ∧
    vmConfig (bridge h) = ss_VM ss ∧
    (∃ osn err, gets (with_world e w) (osn, err) ∧
       hydrated Pv Pw (bridge h) osn adopted (bridge h)) ∧
    capacity e' = if (0 <? adopted)%Z then AdoptExisting adopted (capacity e) else capacity e.

(** The environment after something that only read the world. *)
Definition only_read (e e' : E) : Prop :=
  ∃ w, e' = with_world e w ∧ calls w = env_calls e.

Lemma wp_install gh ss id n (Q : outcome started → E → Prop) e :
  env_ok Pv Pw e → is_Some (view e) →
  (∀ e' h m, env_ok Pv Pw e' → is_Some (view e') → env_calls e' = env_calls e →
     in_place ss (length (handles (ext e))) (world e) e e' →
     handles (ext e') !! length (handles (ext e)) = Some h →
     bridge h = set_activeVMs m (Bridge.New (ss_Name ss) id (ss_VM ss) (runners gh)) →
     Q (Ret (Listening (length (handles (ext e))) n)) e') →
  wp (install (Session := Session) gh ss id n) Q e.
Proof.
  intros Hok Hv HQ. unfold install, on_ext, on_capacity. wp_go.
  set (i := length (handles (ext e))) in *. set (b := Bridge.New _ _ _ _).
  set (h := mkHandle b n (ss_MaxRunners ss)).
  apply (wp_on_handle i h).
  { simpl. rewrite lookup_app_r, Nat.sub_diag by done. done. }
  apply (wp_HydrateFromOrchard Pv Pw); [done..|].
  intros adopted err m e1 Hok1 Hv1 Hcap1 Hext1 Hcalls1 Hm. simpl in Hcap1, Hext1, Hcalls1 |- *.
  set (e2 := mkEnv (world e1)
    (if (0 <? adopted)%Z then AdoptExisting adopted (capacity e) else capacity e) (view e1)
    (put_bridge i (set_activeVMs m b) (ext e1))).
  assert (wp recomputeScaleSetShares (after (λ _, wp (mret (Listening i n)) Q) Q) e2) as Hrest.
  { apply (wp_recompute Pv Pw); [done|done|].
    intros e3 Hok3 Hv3 Hcap3 Hcalls3 Hre. simpl.
    set (h2 := mkHandle (set_activeVMs m b) n (ss_MaxRunners ss)).
    assert (handles (ext e2) = handles (ext e) ++ [h2]) as Hh2.
    { simpl. rewrite Hext1. simpl. by rewrite alter_app_r_alt, Nat.sub_diag by done. }
    destruct (reshared_lookup _ _ i h2 Hre) as (h' & Hh' & Hb & Hs).
    { rewrite Hh2, lookup_app_r, Nat.sub_diag by done. done. }
    apply wp_ret, (HQ e3 h' m); [done|done|by rewrite Hcalls3| |done|by rewrite Hb].
    split; [done|]. split.
    { rewrite (reshared_length Pv Pw _ _ Hre), Hh2, length_app. simpl. subst i. lia. }
    split; [rewrite (reshared_cleanup _ _ Hre); simpl; by rewrite Hext1|]. split.
    - intros j hj Hj. destruct (reshared_lookup _ _ j hj Hre) as (hj' & Hj' & Hbj & _).
      { rewrite Hh2. by apply lookup_app_l_Some. }
      by exists hj'.
    - exists h', adopted. rewrite Hb, Hs. do 4 (split; [done|]).
      split; [|by rewrite Hcap3]. destruct Hm as (osn & Hgets & _ & Hyd).
      exists osn, err. split; [|exact Hyd].
      by eapply gets_elsewhere. }
  subst e2. rewrite <-Hcap1 in Hrest.
  destruct (0 <? adopted)%Z; wp_go; exact Hrest.
Qed.

#[local] Arguments session_loop : simpl never.

(** The rule for the start of a scale set. *)
Lemma wp_startup gh ss fuel (Q : outcome started → E → Prop) e :
  admin_ok gh → env_ok Pv Pw e → is_Some (view e) →
  (∀ e', only_read e e' → Q (Ret Cancelled) e' ∧ (∀ err, Q (Ret (Failed err)) e') ∧ Q Blocked e') →
  (∀ n e' h id m w, (0 < n)%Z → ((0 < ss_MaxRunners ss)%Z → n = ss_MaxRunners ss) →
     env_ok Pv Pw e' → is_Some (view e') → env_calls e' = env_calls e →
     came_to fuel gh ss n (world e) w → in_place ss (length (handles (ext e))) w e e' →
     handles (ext e') !! length (handles (ext e)) = Some h →
     bridge h = set_activeVMs m (Bridge.New (ss_Name ss) id (ss_VM ss) (runners gh)) →
     Q (Ret (Listening (length (handles (ext e))) n)) e') →
  wp (runScaleSet pause stale fuel (OK gh) ss) Q e.
Proof.
  intros Hgh Hok Hv Hno HQ. unfold runScaleSet.
  assert (∀ e1 w, only_read e e1 → calls w = env_calls e1 → only_read e (with_world e1 w)) as Hmore.
  { intros e1 w (w1 & -> & H1) Hw. exists w. split; [done|]. by rewrite Hw. }
  apply wp_bind, (wp_quietly (λ _, True)); [by apply registerScaleSet_quiet|..].
  2:{ intros w Hw. apply Hno, Hmore; [|done]. exists (world e). by destruct e. }
  intros [rss|err] w1 _ H1 M1; (assert (only_read e (with_world e w1)) as R1 by by exists w1);
    simpl; [|by apply wp_ret, Hno].
  apply wp_bind, (wp_quietly (first_share ss)); [apply initialMaxRunners_quiet|..].
  2:{ intros w Hw. by apply Hno, Hmore. }
  intros [n|] w2 Hn H2 M2; pose proof (Hmore _ w2 R1 H2) as R2; simpl; [|by apply wp_ret, Hno].
  destruct (Hn n eq_refl) as [Hpos Hstat].
  apply wp_bind, (wp_quietly (λ _, True)); [by apply session_quiet|..].
  2:{ intros w Hw. by apply Hno, Hmore. }
  intros [[sess|err]|] w3 _ H3 M3; pose proof (Hmore _ w3 R2 H3) as R3; simpl;
    [|by apply wp_ret, Hno..].
  apply wp_bind, (wp_quietly (λ _, True)); [apply Hgh|..].
  2:{ intros w Hw. by apply Hno, Hmore. }
  intros [err|] w4 _ H4 M4; pose proof (Hmore _ w4 R3 H4) as (w & Heq & Hw); simpl;
    [by apply wp_ret, Hno; exists w|].
  rewrite Heq. apply wp_install; [done..|]. intros e' h m Hok' Hv' Hcalls Hin Hh Hb.
  assert (w4 = w) as -> by (injection Heq; by intros).
  apply (HQ n e' h (rss_ID rss) m w); try done; [by rewrite Hcalls|].
  by exists rss, sess, w1, w2, w3.
Qed.

(** C17: starting a scale set.  Nothing is asked of the controller that
    changes it, and nothing panics.  If the listener is started, it was made with
    a positive number of runners, the configured one if there is one; the bridge
    is registered after the others, which keep their state; and before any message
    can reach it the bridge tracks exactly the live VMs of its scale set in the
    snapshot that the cache gave when the listener had been made, with their slots
    taken from the semaphore; it tracks none only if the cache could give no
    snapshot then, or there are none.  In
    every other case, waiting, cancelled or failed, the manager is as it was. *)
Theorem startup_spec gh ss fuel e :
  admin_ok gh → env_ok Pv Pw e → is_Some (view e) →
  wp (runScaleSet pause stale fuel (OK gh) ss)
     (λ o e', env_calls e' = env_calls e ∧
        match o with
        | Ret (Listening i n) =>
            (0 < n)%Z ∧ ((0 < ss_MaxRunners ss)%Z → n = ss_MaxRunners ss) ∧
            ∃ w, came_to fuel gh ss n (world e) w ∧ in_place ss i w e e'
        | Panic => False
        | _ => ext e' = ext e ∧ capacity e' = capacity e
        end) e.
Proof.
  intros Hgh Hok Hv. apply wp_startup; [done..| |].
  - intros e' (w & -> & Hw). by split_and!.
  - intros n e' h id m w Hn Hstat _ _ Hcalls Hw Hin _ _. split; [done|]. split; [done|].
    split; [done|]. by exists w.
Qed.
End StartupSpec.

(** ** Reporting and settings *)

(** The exclusions of a configured scale set, by worker. *)
Definition exclusions_now (workers : list Worker) (ss : ScaleSetConfig)
    : gmap string AutoSizeExclusion :=
  let auto := cfg_AutoSize (ss_VM ss) in
  let '(cpu, mem) := AutoSizeReserves (ReserveCPU auto) (ReserveMemoryMiB auto) in
  by_worker (AutoSizeExclusions workers (cfg_Labels (ss_VM ss)) cpu mem).

(** After every sweep all AutoSize scale sets are reported.  Reporting
    never panics and keeps the monitor's invariant; for every scale set in
    AutoSize mode the monitor then holds the current exclusions, even while the
    scale set still waits for its first worker, and for any other name what it
    held before. *)
Lemma all_eligibility_observed (sets : list ScaleSetConfig) (workers : list Worker)
    (m : EligibilityMonitor) :
  monitor_ok m → clean_workers workers → Forall (λ ss, clean (ss_Name ss)) sets →
  NoDup (ss_Name <$> sets) →
  ∃ log m', observeAutoSizeEligibility sets workers (Some m) = Some (log, Some m') ∧
    monitor_ok m' ∧
    (∀ ss, ss ∈ sets → Enabled (cfg_AutoSize (ss_VM ss)) = true →
       m_last m' !! ss_Name ss = Some (exclusions_now workers ss)) ∧
    (∀ n, (∀ ss, ss ∈ sets → Enabled (cfg_AutoSize (ss_VM ss)) = true → ss_Name ss ≠ n) →
       m_last m' !! n = m_last m !! n).
Proof.
  intros Hok Hw. revert m Hok. induction sets as [|ss sets IH]; intros m Hok Hc Hnd.
  { exists [], m. split; [done|]. split; [done|]. split; [|done].
    by intros ss ?%elem_of_nil. }
  apply Forall_cons in Hc as [Hss Hc]. rewrite fmap_cons, NoDup_cons in Hnd.
  destruct Hnd as [Hnot Hnd]. cbn [observeAutoSizeEligibility].
  destruct (Enabled (cfg_AutoSize (ss_VM ss))) eqn:Hen; cbn [negb].
  2:{ destruct (IH m Hok Hc Hnd) as (log & m' & -> & Hok' & Hin & Hout).
      exists log, m'. split; [done|]. split; [done|]. split.
      - intros s [->|Hs]%elem_of_cons Hs'; [by rewrite Hen in Hs'|by apply Hin].
      - intros n Hn. apply Hout. intros s Hs. apply Hn. by right. }
  destruct (AutoSizeReserves _ _) as [cpu mem] eqn:Hr.
  destruct (Observe_runs m (ss_Name ss) workers (cfg_Labels (ss_VM ss)) cpu mem Hok Hss Hw)
    as (log1 & m1 & -> & Hok1 & Hlast1 & _).
  destruct (IH m1 Hok1 Hc Hnd) as (log2 & m2 & -> & Hok2 & Hin & Hout).
  exists (log1 ++ log2), m2. split; [done|]. split; [done|]. split.
  - intros s [->|Hs]%elem_of_cons Hs'; [|by apply Hin]. unfold exclusions_now.
    rewrite Hr, Hout, Hlast1.
    + by rewrite lookup_insert_eq.
    + intros s Hs _ Heq. apply Hnot. rewrite <-Heq. by apply list_elem_of_fmap_2.
  - intros n Hn. rewrite Hout, Hlast1.
    + apply lookup_insert_ne. by apply (Hn ss); [left|].
    + intros s Hs. apply Hn. by right.
Qed.

(** The cleanup loop runs with the limits of the configuration.  With a
    configuration that validates, the ages that reap VMs are positive, those
    configured or the defaults; and pruning is off or starts only beyond the
    staleness the snapshots are taken with. *)
Lemma configured_limits (reg : bool) (c : Config) :
  Validate c = [] →
  let cl := configure_cleanup reg c in
  maxAge cl = (if decide (c_MaxVMAge c = EmptyString) then DefaultMaxVMAge
               else MaxVMAgeDuration c) ∧ (0 < maxAge cl)%Z ∧
  maxPendingAge cl = (if decide (c_MaxPendingAge c = EmptyString)
                      then Cleanup.DefaultMaxPendingAge else MaxPendingAgeDuration c) ∧
  (0 < maxPendingAge cl)%Z ∧
  pruneAfter cl = WorkerPruneAfterDuration c ∧
  (pruneAfter cl = 0 ∨ staleness c < pruneAfter cl)%Z ∧ pendingDeletes cl = ∅.
Proof.
  intros Hv%Validate_valid. unfold configure_cleanup.
  assert (∀ v, duration_ok (λ d, 0 < d)%Z v → v = EmptyString ∨ (0 < parsed_or_zero v)%Z) as Hpos.
  { intros v [->|(d & Hd & Hpos)]; [by left|]. right. unfold parsed_or_zero. by rewrite Hd. }
  pose proof (prune_beyond_stale c Hv) as Hprune.
  assert (0 ≤ WorkerPruneAfterDuration c)%Z as Hnonneg.
  { pose proof (effective_stale_pos c (valid_stale c Hv)).
    rewrite (staleness_effective c (valid_stale c Hv)) in Hprune. lia. }
  set (cl1 := if (0 <? MaxVMAgeDuration c)%Z then _ else _).
  set (cl2 := if (0 <? MaxPendingAgeDuration c)%Z then _ else _).
  assert (maxAge cl1 = (if decide (c_MaxVMAge c = EmptyString) then DefaultMaxVMAge
            else MaxVMAgeDuration c) ∧ (0 < maxAge cl1)%Z ∧
          maxPendingAge cl1 = Cleanup.DefaultMaxPendingAge ∧ pendingDeletes cl1 = ∅)
    as (Ha & Hapos & Hp1 & Hd1).
  { subst cl1. unfold MaxVMAgeDuration, SetMaxAge.
    destruct (decide (c_MaxVMAge c = EmptyString)) as [|Hne]; [done|].
    destruct (Hpos _ (valid_max_age c Hv)) as [|Hlt]; [done|].
    destruct (Z.ltb_spec 0 (parsed_or_zero (c_MaxVMAge c))); [done|lia]. }
  assert (maxPendingAge cl2 = (if decide (c_MaxPendingAge c = EmptyString)
            then Cleanup.DefaultMaxPendingAge else MaxPendingAgeDuration c) ∧
          (0 < maxPendingAge cl2)%Z ∧ maxAge cl2 = maxAge cl1 ∧ pendingDeletes cl2 = ∅)
    as (Hp & Hppos & Ha2 & Hd2).
  { subst cl2. unfold MaxPendingAgeDuration, SetMaxPendingAge.
    destruct (decide (c_MaxPendingAge c = EmptyString)) as [|Hne]; [change (0 <? 0)%Z with false; cbv iota; by rewrite Hp1|].
    destruct (Hpos _ (valid_pending c Hv)) as [|Hlt]; [done|].
    destruct (Z.ltb_spec 0 (parsed_or_zero (c_MaxPendingAge c))); [done|lia]. }
  simpl. destruct (Z.ltb_spec (WorkerPruneAfterDuration c) 0); [lia|].
  rewrite Ha2. by split_and!.
Qed.

(** ** Witnesses *)

(** A world that only counts calls; sessions are always refused, and the workers
    connect after two polls. *)
#[local] Instance counting_client : OrchardClient nat :=
  {| CreateVM := λ vm, mret (OK vm);
     GetVM := λ _, mret (Err (APIError 404));
     ListVMs := mret (OK []);
     DeleteVM := λ _, mret None;
     ListWorkers := state_fn (λ n, (if (n <? 2)%nat then Err (APIError 503)
                                    else OK [mac "mini-1" "mini-1" 10 16384], S n));
     DeleteWorker := λ _, mret None;
     Ping := mret None |}.
#[local] Instance counting_clock : Clock nat := mret 1%Z.

Definition quiet_runners (W : Type) : GHClient W :=
  {| GenerateJitRunnerConfig := λ _ _, mret (OK "cfg");
     Bridge.RemoveRunner := λ _, mret None;
     GetRunnerByName := λ _, mret (OK None) |}.

Definition an_admin (W : Type) (session : M W (result unit)) : AdminClient W unit :=
  {| runners := quiet_runners W;
     GetRunnerGroupByName := λ _, mret (OK 1%Z);
     GetRunnerScaleSet := λ _ _, mret (OK None);
     UpdateRunnerScaleSet := λ _ d, mret (OK d);
     CreateRunnerScaleSet := λ d, mret (OK d);
     MessageSessionClient := λ _ _, session;
     listener_New := λ _ _ _, mret None |}.

Definition go_on {W : Type} (d : Duration) : M W bool := mret false.

Definition refusing_admin : AdminClient nat unit :=
  an_admin nat (state_fn (λ n, (Err (APIError 409), S n))).

Lemma session_attempts_bounded_witness :
  (session_loop go_on session_attempts 1 refusing_admin 7 "large" 0).2 = 10 ∧
  wp (session_loop go_on session_attempts 1 refusing_admin 7 "large")
    (returns (λ r w', ∃ n, 1 ≤ n ≤ 10 ∧ w' = n ∧ ∀ e, r = Some (Err e) → n = 10)) 0.
Proof.
  split; [by vm_compute|].
  apply (session_attempts_bounded go_on refusing_admin 7 "large" (λ n w, w = n)); [|done..].
  by intros n w ->.
Defined.

Lemma wait_ends_at_capacity_witness :
  wp (wait_for_workers go_on Hour 5
        (λ ws, workerCapacityFn false 0 0 ws {["vm-class" := "large"]}))
    (returns (λ r w', r = Some 1%Z ∧ w' = 3)) 0.
Proof.
  eapply wp_mono; [apply (wait_ends_at_capacity go_on Hour
    (λ ws, workerCapacityFn false 0 0 ws {["vm-class" := "large"]}) (λ n w, w = n)
    (λ n, if (n <? 2)%nat then Err (APIError 503) else OK [mac "mini-1" "mini-1" 10 16384])
    2 5 [mac "mini-1" "mini-1" 10 16384])|].
  - intros n w ->. unfold listLiveWorkers, ListWorkers, Now, counting_client, counting_clock.
    wp_go. by destruct (n <? 2)%nat; wp_go.
  - by intros n d w ->.
  - intros [|[|n]] ws Hn; [done|done|lia].
  - done.
  - by vm_compute.
  - lia.
  - done.
  - intros [r| |] w'; simpl; [|done..]. intros [-> ->]. by vm_compute.
Defined.

(** A new scale set, on the machines of [shared_fleet], where one VM of its is
    alive. *)
Definition small_set : ScaleSetConfig :=
  mkScaleSetConfig "small" "https://github.com/acme" ["macos"] "default" 0
    (mkVMConfig "macos" 4 8192 0 0 {["vm-class" := "large"]} (mkAutoSizeConfig false 0 0)).

Definition lone_env : Env (Logged (Sim shared_fleet)) unit (Mgr (Logged (Sim shared_fleet))) :=
  mkEnv (mkLogged (mkSim 100%Z 0) []) (mkCapacity 1 2 []) (Some (NewStateView 0%Z 0%Z))
    (mkMgr [mkHandle (shared_bridge "large") 0 0] NewCleanup).

Definition willing_admin : AdminClient (Logged (Sim shared_fleet)) unit :=
  an_admin _ (mret (OK tt)).

Lemma startup_spec_witness :
  (runScaleSet go_on Hour 1 (OK willing_admin) small_set lone_env).1 = Ret (Listening 1 2) ∧
  InUse (capacity (runScaleSet go_on Hour 1 (OK willing_admin) small_set lone_env).2) = 2%Z ∧
  wp (runScaleSet go_on Hour 1 (OK willing_admin) small_set)
    (λ o e', env_calls e' = []) lone_env.
Proof.
  split; [by vm_compute|]. split; [by vm_compute|].
  eapply wp_mono; [apply (startup_spec (λ vms, vms = fleet_reported_vms shared_fleet)
    (λ ws, ws = fleet_workers shared_fleet) go_on Hour)|].
  - by intros d l.
  - intros ws ->. split; [|by vm_compute]. repeat constructor; by vm_compute.
  - constructor; by intros.
  - done.
  - by eexists.
  - intros o e' [H _]. exact H.
Defined.

Definition auto_set : ScaleSetConfig :=
  mkScaleSetConfig "auto" "https://github.com/acme" ["macos"] "default" 0
    (mkVMConfig "macos" 4 8192 0 0 {["vm-class" := "large"]} (mkAutoSizeConfig true 0 0)).

Lemma all_eligibility_observed_witness :
  dom (exclusions_now [small_mac; big_mac] auto_set) = {["mini-1"]} ∧
  ∃ log m', observeAutoSizeEligibility [small_set; auto_set] [small_mac; big_mac]
              (Some (NewEligibilityMonitor true)) = Some (log, Some m') ∧
    m_last m' !! "auto" = Some (exclusions_now [small_mac; big_mac] auto_set) ∧
    m_last m' !! "small" = None.
Proof.
  split; [by vm_compute|].
  destruct (all_eligibility_observed [small_set; auto_set] [small_mac; big_mac]
    (NewEligibilityMonitor true)) as (log & m' & H & _ & Hin & Hout).
  - apply monitor_ok_new.
  - repeat constructor; by vm_compute.
  - repeat constructor; by vm_compute.
  - repeat constructor; set_solver.
  - exists log, m'. split; [exact H|]. split.
    + apply (Hin auto_set); [|done]. by right; left.
    + rewrite Hout; [done|]. intros ss [->|[->|[]%elem_of_nil]%elem_of_cons]%elem_of_cons; done.
Defined.

Lemma configured_limits_witness :
  pruneAfter (configure_cleanup true loaded) = (90 * Minute)%Z ∧
  maxAge (configure_cleanup true loaded) = DefaultMaxVMAge ∧
  (0 < maxPendingAge (configure_cleanup true loaded))%Z.
Proof.
  split; [by vm_compute|].
  destruct (configured_limits true loaded) as (Ha & _ & _ & Hp & _); [by vm_compute|].
  split; [|exact Hp]. rewrite Ha. by vm_compute.
Defined.

(** The listener is made with one runner, but the first shares, computed before
    it runs, count the VM of the other scale set: GitHub
    sees the capacity left to this scale set, which may be none at all. *)
Definition full_fleet : Fleet :=
  mkFleet [runner_vm "gha-orchard-large-0a0a0a0a" "running" "mini-1" "mini-1"]
    [mac "mini-1" "mini-1" 10 16384] (λ _, true).

Example first_share_may_be_zero :
  let e : Env (Logged (Sim full_fleet)) unit (Mgr (Logged (Sim full_fleet))) :=
    mkEnv (mkLogged (mkSim 100%Z 0) []) (mkCapacity 1 1 []) (Some (NewStateView 0%Z 0%Z))
      (mkMgr [mkHandle (Bridge.New "large" 7 (ss_VM small_set) (logged_gh sim_gh)) 0 0]
         NewCleanup) in
  let r := runScaleSet go_on Hour 1 (OK (an_admin _ (mret (OK tt)))) small_set e in
  r.1 = Ret (Listening 1 1) ∧ maxRunners <$> handles (ext r.2) !! 1 = Some 0%Z.
Proof. by vm_compute. Qed.
