(* ===== verification/Goroutine.v ===== *)
(** * The goroutine of a scale set ([runScaleSet] in [manager/manager.go])

    [Startup.runScaleSet] runs from the configuration to the listener in one go,
    its pauses answered by the world.  Here the same code is cut where the
    goroutine pauses and where it returns, so that the manager's goroutines can
    take turns and be cancelled (Lifecycle); the cut goroutine, run alone, is
    [runScaleSet]. *)

From S2P Require Import Prelude GoBase Orchard VMNames Workers.
From S2P Require Import AutoSize Capacity StateView Config Env Bridge Sample Cleanup.
From S2P Require Import Manager Wiring.
From S2P Require Import Startup.

(** [context.Canceled], what [ctx.Err()] is when the context is done. *)
Definition Canceled : error := ErrorNew "context canceled".

(** Where the goroutine is: before its first line; in the pause before it looks
    for workers again; about to ask for its session; in the pause after a refused
    attempt; in [l.Run], with the position of its handle; or returned. *)
Inductive phase : Type :=
  | Starting
  | Waiting (rss : RunnerScaleSet)
  | Connecting (rss : RunnerScaleSet) (maxRunners attempt : Z)
  | Retrying (rss : RunnerScaleSet) (maxRunners attempt : Z)
  | Running (i : nat) (maxRunners : Z)
  | Returned (err : option error).

Section Goroutine.
Context {W Session : Type} `{!OrchardClient W} `{!Clock W}.
Notation E := (Env W unit (Mgr W)).
Variable stale : Duration.
Variable client : result (AdminClient W Session).   (* m.newGHClient(ssCfg.GitHubConfigURL) *)
Variable ss : ScaleSetConfig.

Definition capacity_of (workers : list Worker) : Z :=
  let auto := cfg_AutoSize (ss_VM ss) in
  workerCapacityFn (Enabled auto) (ReserveCPU auto) (ReserveMemoryMiB auto) workers
    (cfg_Labels (ss_VM ss)).

Definition fails {S : Type} (e : error) : M S phase := mret (Returned (Some e)).

(** From the first line to the first pause or the session. *)
Definition begin : M E phase :=
  match client with
  | Err e => fails (Errorf_w "creating GitHub client for %s: %w" [ss_Name ss] e)
  | OK gh =>
      reg ← on_world (registerScaleSet gh ss);
      match reg with
      | Err e => fails (Errorf_w "registering scale set %s: %w" [ss_Name ss] e)
      | OK rss =>
          if (0 <? ss_MaxRunners ss)%Z then mret (Connecting rss (ss_MaxRunners ss) 1)
          else
            r ← on_world (listLiveWorkers stale);
            let maxRunners := match r with Err _ => 0%Z | OK ws => capacity_of ws end in
            if (maxRunners =? 0)%Z then mret (Waiting rss)
            else mret (Connecting rss maxRunners 1)
      end
  end.

(** One more look for workers. *)
Definition poll (rss : RunnerScaleSet) : M E phase :=
  r ← on_world (listLiveWorkers stale);
  match r with
  | Err _ => mret (Waiting rss)
  | OK ws => let maxRunners := capacity_of ws in
             if (0 <? maxRunners)%Z then mret (Connecting rss maxRunners 1)
             else mret (Waiting rss)
  end.

(** One attempt at the session; with it, the listener, the bridge and its handle. *)
Definition connect (rss : RunnerScaleSet) (maxRunners attempt : Z) : M E phase :=
  match client with
  | Err e => fails (Errorf_w "creating GitHub client for %s: %w" [ss_Name ss] e)
  | OK gh =>
      r ← on_world (MessageSessionClient gh (rss_ID rss) "orchard-gh-bridge");
      match r with
      | Err e =>
          if (10 <=? attempt)%Z
          then fails (Errorf_w "creating message session for %s: %w" [ss_Name ss] e)
          else mret (Retrying rss maxRunners attempt)
      | OK sess =>
          err ← on_world (listener_New gh sess (rss_ID rss) maxRunners);
          match err with
          | Some e => fails (Errorf_w "creating listener for %s: %w" [ss_Name ss] e)
          | None =>
              o ← install gh ss (rss_ID rss) maxRunners;
              match o with
              | Listening i n => mret (Running i n)
              | Cancelled => fails Canceled
              | Failed e => fails e
              end
          end
      end
  end.

(** The next stretch of the goroutine.  A pause ends with the context ([done]) or
    with its timer. *)
Definition advance (done : bool) (p : phase) : M E phase :=
  match p with
  | Starting => begin
  | Waiting rss => if done then fails Canceled else poll rss
  | Connecting rss maxRunners attempt => connect rss maxRunners attempt
  | Retrying rss maxRunners attempt =>
      if done then fails Canceled else mret (Connecting rss maxRunners (attempt + 1)%Z)
  | Running _ _ | Returned _ => mret p
  end.

(** [l.Run] has returned [err]. *)
Definition listener_returns (done : bool) (err : option error) : phase :=
  Returned (listener_result (ss_Name ss) done err).

(** ** Run alone *)

(** How long a pause is. *)
Definition pause_of (p : phase) : option Duration :=
  match p with
  | Waiting _ => Some (10 * Second)%Z
  | Retrying _ _ attempt => Some (attempt * 3 * Second)%Z
  | _ => None
  end.

Definition settled (p : phase) : bool :=
  match p with Running _ _ | Returned _ => true | _ => false end.

Variable pause : Duration → M W bool.

Definition pausing (p : phase) : M E bool :=
  match pause_of p with Some d => on_world (pause d) | None => mret false end.

(** The goroutine by itself, for [k] stretches, until it listens or returns. *)
Fixpoint drive (k : nat) (p : phase) : M E phase :=
  if settled p then mret p else
  match k with
  | O => blocked
  | S k =>
      done ← pausing p;
      p' ← advance done p;
      drive k p'
  end.
End Goroutine.

(** ** It is [runScaleSet] *)

Section Alone.
Context {W Session : Type} `{!OrchardClient W} `{!Clock W}.
Notation E := (Env W unit (Mgr W)).
Context (stale : Duration) (client : result (AdminClient W Session)) (ss : ScaleSetConfig).
Context (pause : Duration → M W bool).
Notation advance_ss := (advance stale client ss).
Notation drive_ss := (drive stale client ss pause).

Definition phase_of (s : started) : phase :=
  match s with
  | Cancelled => Returned (Some Canceled)
  | Failed e => Returned (Some e)
  | Listening i n => Running i n
  end.

Definition outcome_of (o : outcome started) : outcome phase :=
  match o with Ret s => Ret (phase_of s) | Panic => Panic | Blocked => Blocked end.

Lemma bind_ret {S A B} (m : M S A) (f : A → M S B) s a s' :
  m s = (Ret a, s') → (m ≫= f) s = f a s'.
Proof. intros H. unfold mbind, M_bind. by rewrite H. Qed.
Lemma bind_panic {S A B} (m : M S A) (f : A → M S B) s s' :
  m s = (Panic, s') → (m ≫= f) s = (Panic, s').
Proof. intros H. unfold mbind, M_bind. by rewrite H. Qed.

(** What [drive] does at a phase, given the end of the pause and of the stretch. *)
Lemma drive_step k p e done e1 p' e' :
  settled p = false → pausing pause p e = (Ret done, e1) →
  advance_ss done p e1 = (Ret p', e') → drive_ss (S k) p e = drive_ss k p' e'.
Proof.
  intros Hs Hp Ha. simpl. rewrite Hs. by rewrite (bind_ret _ _ _ _ _ Hp), (bind_ret _ _ _ _ _ Ha).
Qed.

Lemma drive_panic k p e done e1 e' :
  settled p = false → pausing pause p e = (Ret done, e1) →
  advance_ss done p e1 = (Panic, e') → drive_ss (S k) p e = (Panic, e').
Proof.
  intros Hs Hp Ha. simpl. rewrite Hs. by rewrite (bind_ret _ _ _ _ _ Hp), (bind_panic _ _ _ _ Ha).
Qed.

Lemma drive_pause_panics k p e e' :
  settled p = false → pausing pause p e = (Panic, e') → drive_ss (S k) p e = (Panic, e').
Proof. intros Hs Hp. simpl. rewrite Hs. by rewrite (bind_panic _ _ _ _ Hp). Qed.

Lemma drive_settled k p e : settled p = true → drive_ss k p e = (Ret p, e).
Proof. intros Hs. destruct k; simpl; by rewrite Hs. Qed.

(** More stretches do not change a result. *)
Lemma drive_mono k k' p e o e' :
  k ≤ k' → drive_ss k p e = (o, e') → o ≠ Blocked → drive_ss k' p e = (o, e').
Proof.
  revert k' p e. induction k as [|k IH]; intros k' p e Hle; simpl.
  { destruct (settled p) eqn:Hs; [rewrite drive_settled by done; done|].
    by intros [= <- <-] ?. }
  destruct (settled p) eqn:Hs; [by rewrite drive_settled|].
  destruct k' as [|k']; [lia|]. simpl. rewrite Hs. unfold mbind, M_bind.
  destruct (pausing pause p e) as [[done| |] e1]; [|auto..].
  destruct (advance_ss done p e1) as [[p'| |] e2]; [|auto..]. apply IH. lia.
Qed.

(** What the goroutine does from [p] on is what the computation [m] does: [ended o e']
    holds of its results. *)
Definition ends (p : phase) (e : E) (o : outcome started) (e' : E) : Prop :=
  o ≠ Blocked → ∃ k, drive_ss k p e = (outcome_of o, e').

Definition in_world (e : E) (w : W) : E := mkEnv w (capacity e) (view e) (ext e).

Lemma on_world_eq {A} (m : M W A) e o w :
  m (world e) = (o, w) → on_world m e = (o, in_world e w).
Proof. intros H. unfold on_world, zoom. by rewrite H. Qed.

Lemma wp_on_world_eq {A} (m : M W A) (Q : outcome A → E → Prop) e o w :
  m (world e) = (o, w) → Q o (in_world e w) → wp (on_world m) Q e.
Proof. intros H HQ. unfold wp, on_world, zoom. simpl. rewrite H. exact HQ. Qed.

Lemma wp_eq {S A} (m : M S A) (Q : outcome A → S → Prop) e o e' :
  m e = (o, e') → Q o e' → wp m Q e.
Proof. intros H HQ. unfold wp. by rewrite H. Qed.

(** One stretch first, after the pause if there is one. *)
Definition then_ends (o : outcome started) (e' : E) (o1 : outcome phase) (e1 : E) : Prop :=
  match o1 with
  | Ret p => ends p e1 o e'
  | Panic => o = Panic ∧ e' = e1
  | Blocked => o = Blocked
  end.

Lemma ends_advance p e done e1 o e' :
  settled p = false → pausing pause p e = (Ret done, e1) →
  wp (advance_ss done p) (then_ends o e') e1 → ends p e o e'.
Proof.
  intros Hs Hp Ha Ho. unfold wp in Ha. destruct (advance_ss done p e1) as [[p'| |] e2] eqn:He; simpl in Ha.
  - destruct (Ha Ho) as [k Hk]. exists (S k). by rewrite (drive_step _ _ _ _ _ _ _ Hs Hp He).
  - destruct Ha as [-> ->]. exists 1. by apply (drive_panic _ _ _ done e1).
  - done.
Qed.

Lemma ends_settled p e o : outcome_of o = Ret p → settled p = true → ends p e o e.
Proof. intros Ho Hs _. exists 0. rewrite drive_settled by done. by rewrite Ho. Qed.

Lemma ends_pause_panics p e e' :
  settled p = false → pausing pause p e = (Panic, e') → ends p e Panic e'.
Proof. intros Hs Hp _. exists 1. by apply drive_pause_panics. Qed.

#[local] Ltac follow H := apply wp_bind; eapply wp_on_world_eq; [exact H|]; simpl.
#[local] Ltac run H := eapply wp_mono; [apply wp_run|]; intros [?| |] ? H; simpl.

(** From the session on. *)
Definition connecting (tries : nat) (rss : RunnerScaleSet) (maxRunners attempt : Z)
    (gh : AdminClient W Session) : M E started :=
  sess ← on_world (session_loop pause tries attempt gh (rss_ID rss) (ss_Name ss));
  match sess with
  | None => mret Cancelled
  | Some (Err e) => mret (Failed e)
  | Some (OK sess) =>
      err ← on_world (listener_New gh sess (rss_ID rss) maxRunners);
      match err with
      | Some e => mret (Failed (Errorf_w "creating listener for %s: %w" [ss_Name ss] e))
      | None => install gh ss (rss_ID rss) maxRunners
      end
  end.

Lemma wp_connecting gh rss n :
  client = OK gh → ∀ tries attempt e,
  (attempt + Z.of_nat tries = 11)%Z → 0 < tries →
  wp (connecting tries rss n attempt gh) (ends (Connecting rss n attempt) e) e.
Proof.
  intros Hc tries. induction tries as [|tries IH]; intros attempt e Hn Hpos; [lia|].
  unfold connecting. cbn [session_loop]. apply wp_bind. unfold on_world at 1. apply wp_zoom, wp_bind.
  run Hr; [|..|by intros []].
  2:{ apply (ends_advance _ _ false e); [done..|]. simpl. unfold connect. rewrite Hc.
      by follow Hr. }
  destruct a as [sess|err]; simpl.
  - apply wp_ret. simpl. apply wp_bind. unfold on_world at 1. apply wp_zoom.
    run Hl; [|..|by intros []].
    2:{ apply (ends_advance _ _ false e); [done..|]. simpl. unfold connect. rewrite Hc.
        follow Hr. by follow Hl. }
    destruct a as [err|]; simpl.
    + apply wp_ret, (ends_advance _ _ false e); [done..|]. simpl. unfold connect. rewrite Hc.
      follow Hr. follow Hl. apply wp_ret, ends_settled; done.
    + eapply wp_mono; [apply wp_run|]. intros o e' Hi.
      apply (ends_advance _ _ false e); [done..|]. simpl. unfold connect. rewrite Hc.
      follow Hr. follow Hl. apply wp_bind, (wp_eq _ _ _ _ _ Hi).
      destruct o as [[|err|i m]| |]; simpl; try done; by apply wp_ret, ends_settled.
  - destruct (10 <=? attempt)%Z eqn:Hlast.
    + apply wp_ret. simpl. apply wp_ret, (ends_advance _ _ false e); [done..|].
      simpl. unfold connect. rewrite Hc. follow Hr. rewrite Hlast. by apply wp_ret, ends_settled.
    + assert (∀ o e', ends (Retrying rss n attempt) (in_world e s') o e' →
        ends (Connecting rss n attempt) e o e') as Hretry.
      { intros o e' He. apply (ends_advance _ _ false e); [done..|].
        simpl. unfold connect. rewrite Hc. follow Hr. rewrite Hlast. by apply wp_ret. }
      apply wp_bind. run Hp; [|..|by intros []].
      2:{ apply Hretry, ends_pause_panics; [done|]. by apply (on_world_eq _ (in_world e s')). }
      destruct a; simpl.
      * apply wp_ret. simpl. apply wp_ret, Hretry.
        apply (ends_advance _ _ true (in_world e s'0)); [done|by apply (on_world_eq _ (in_world e s'))|].
        by apply wp_ret, ends_settled.
      * assert (∀ o e', ends (Connecting rss n (attempt + 1)) (in_world e s'0) o e' →
          ends (Connecting rss n attempt) e o e') as Hnext.
        { intros o e' He. apply Hretry.
          apply (ends_advance _ _ false (in_world e s'0));
            [done|by apply (on_world_eq _ (in_world e s'))|]. by apply wp_ret. }
        destruct tries as [|tries']; [lia|].
        assert (wp (connecting (S tries') rss n (attempt + 1) gh)
          (ends (Connecting rss n attempt) e) (in_world e s'0)) as Hrest.
        { eapply wp_mono; [apply IH; lia|]. exact Hnext. }
        by apply wp_unbind in Hrest.
Qed.

(** From the wait for workers on. *)
Definition waiting (fuel : nat) (rss : RunnerScaleSet) (gh : AdminClient W Session)
    : M E started :=
  max ← on_world (wait_for_workers pause stale fuel (capacity_of ss));
  match max with
  | None => mret Cancelled
  | Some n => connecting session_attempts rss n 1 gh
  end.

Lemma wp_waiting gh rss fuel e :
  client = OK gh → wp (waiting fuel rss gh) (ends (Waiting rss) e) e.
Proof.
  intros Hc. revert e. induction fuel as [|fuel IH]; intros e; unfold waiting; simpl;
    [by intros []|].
  apply wp_bind. unfold on_world at 1. apply wp_zoom, wp_bind.
  run Hp; [|..|by intros []].
  2:{ apply ends_pause_panics; [done|]. by apply (on_world_eq _ e). }
  destruct a; simpl.
  { apply wp_ret. simpl. apply wp_ret, (ends_advance _ _ true (in_world e s'));
      [done|by apply (on_world_eq _ e)|]. by apply wp_ret, ends_settled. }
  apply wp_bind. run Hl; [|..|by intros []].
  2:{ apply (ends_advance _ _ false (in_world e s')); [done|by apply (on_world_eq _ e)|].
      simpl. unfold poll. by follow Hl. }
  set (e2 := in_world e s'0).
  assert (∀ p o e', poll stale ss rss (in_world e s') = (Ret p, e2) → ends p e2 o e' →
    ends (Waiting rss) e o e') as Hpoll.
  { intros p o e' Hp2 He. apply (ends_advance _ _ false (in_world e s'));
      [done|by apply (on_world_eq _ e)|]. simpl. by apply (wp_eq _ _ _ _ _ Hp2). }
  unfold poll in Hpoll. setoid_rewrite (bind_ret _ _ _ _ _ (on_world_eq _ (in_world e s') _ _ Hl))
    in Hpoll.
  assert (wp (waiting fuel rss gh) (λ o e', ends (Waiting rss) e2 o e') e2) as Hwait by apply IH.
  destruct a as [ws|err]; simpl; [destruct (0 <? capacity_of ss ws)%Z eqn:Hpos|].
  - apply wp_ret. simpl. eapply wp_mono; [apply (wp_connecting gh rss _ Hc); [done|unfold session_attempts; lia]|].
    intros o e' He. by eapply Hpoll.
  - assert (wp (waiting fuel rss gh) (ends (Waiting rss) e) e2) as Hrest.
    { eapply wp_mono; [apply Hwait|]. intros o e'. by apply Hpoll. }
    by apply wp_unbind in Hrest.
  - assert (wp (waiting fuel rss gh) (ends (Waiting rss) e) e2) as Hrest.
    { eapply wp_mono; [apply Hwait|]. intros o e'. by apply Hpoll. }
    by apply wp_unbind in Hrest.
Qed.

Lemma wp_alone fuel e :
  wp (runScaleSet pause stale fuel client ss) (ends Starting e) e.
Proof.
  unfold runScaleSet. destruct client as [gh|err] eqn:Hc.
  2:{ apply wp_ret, (ends_advance _ _ false e); [done..|]. simpl. unfold begin. rewrite Hc.
      by apply wp_ret, ends_settled. }
  apply wp_bind. unfold on_world at 1. apply wp_zoom.
  run Hreg; [|..|by intros []].
  2:{ apply (ends_advance _ _ false e); [done..|]. simpl. unfold begin. rewrite Hc.
      by follow Hreg. }
  destruct a as [rss|err].
  2:{ apply wp_ret, (ends_advance _ _ false e); [done..|]. simpl. unfold begin. rewrite Hc.
      follow Hreg. by apply wp_ret, ends_settled. }
  set (e1 := in_world e s').
  assert (∀ o e', wp (if (0 <? ss_MaxRunners ss)%Z then mret (Connecting rss (ss_MaxRunners ss) 1)
      else
        r ← on_world (listLiveWorkers stale);
        let n := match r with Err _ => 0%Z | OK ws => capacity_of ss ws end in
        if (n =? 0)%Z then mret (Waiting rss) else mret (Connecting rss n 1))
      (then_ends o e') e1 → ends Starting e o e') as Hbegin.
  { intros o e' He. apply (ends_advance _ _ false e); [done..|]. simpl. unfold begin. rewrite Hc.
    follow Hreg. exact He. }
  assert (∀ n e2, wp (connecting session_attempts rss n 1 gh)
    (ends (Connecting rss n 1) e2) e2) as Hconn.
  { intros n e2. apply wp_connecting; [done|done|unfold session_attempts; lia]. }
  apply wp_bind. unfold on_world at 1. apply wp_zoom. unfold initialMaxRunners.
  fold (capacity_of ss).
  destruct (0 <? ss_MaxRunners ss)%Z.
  { apply wp_ret. simpl. eapply wp_mono; [apply Hconn|]. intros o e' He.
    apply Hbegin. by apply wp_ret. }
  apply wp_bind. run Hl; [|..|by intros []].
  2:{ apply Hbegin. by follow Hl. }
  match goal with |- context [(?x =? 0)%Z] => set (n := x) end.
  assert (∀ o e', then_ends o e' (Ret (if (n =? 0)%Z then Waiting rss else Connecting rss n 1))
    (in_world e1 s'0) → ends Starting e o e') as Hnext.
  { intros o e' He. apply Hbegin. follow Hl.
    change (match a with OK ws => capacity_of ss ws | Err _ => 0%Z end) with n.
    by destruct (n =? 0)%Z; apply wp_ret. }
  destruct (n =? 0)%Z.
  - assert (wp (waiting fuel rss gh) (ends Starting e) (in_world e1 s'0)) as Hrest.
    { eapply wp_mono; [by apply wp_waiting|]. exact Hnext. }
    by apply wp_unbind in Hrest.
  - apply wp_ret. simpl. eapply wp_mono; [apply Hconn|]. exact Hnext.
Qed.

(** The other way round: what does not get stuck in [drive] does not get stuck. *)
Definition unblocked {A} (o : outcome A) (e : E) : Prop := o ≠ Blocked.

Lemma wp_on_world_inv {A} (m : M W A) (Q : outcome A → E → Prop) e o w :
  m (world e) = (o, w) → wp (on_world m) Q e → Q o (in_world e w).
Proof. unfold wp, on_world, zoom. intros H. simpl. by rewrite H. Qed.

Lemma drive_unblocked p k e :
  settled p = false → wp (drive_ss k p) unblocked e →
  ∃ k', wp (pausing pause p)
    (after (B := phase) (λ done, wp (advance_ss done p)
       (after (B := phase) (λ p', wp (drive_ss k' p') unblocked) unblocked)) unblocked) e.
Proof.
  intros Hs H. destruct k as [|k]; simpl in H; rewrite Hs in H; [done|]. exists k.
  apply wp_unbind in H. eapply wp_mono; [exact H|].
  intros [fin| |] e1; simpl; [|done..]. apply wp_unbind.
Qed.

#[local] Ltac back H Hr :=
  try apply wp_unbind in H; eapply wp_on_world_inv in H; [|exact Hr]; simpl in H.

Lemma connecting_unblocked gh rss n :
  client = OK gh → ∀ tries attempt k e,
  (attempt + Z.of_nat tries = 11)%Z → 0 < tries →
  wp (drive_ss k (Connecting rss n attempt)) unblocked e →
  wp (connecting tries rss n attempt gh) unblocked e.
Proof.
  intros Hc tries. induction tries as [|tries IH]; intros attempt k e Hn Hpos H; [lia|].
  apply drive_unblocked in H as [k1 H]; [|done]. unfold wp at 1 in H. simpl in H.
  unfold connect in H. rewrite Hc in H.
  unfold connecting. cbn [session_loop]. apply wp_bind. unfold on_world at 1. apply wp_zoom, wp_bind.
  run Hr; back H Hr; [|done|done]. destruct a as [sess|err].
  - apply wp_ret. simpl. apply wp_bind. unfold on_world at 1. apply wp_zoom.
    run Hl; back H Hl; [|done|done]. destruct a as [err|]; [by apply wp_ret|].
    apply wp_unbind in H. eapply wp_mono; [exact H|]. by intros [x| |] e2.
  - destruct (Z.leb_spec 10 attempt); [by apply wp_ret; apply wp_ret|].
    unfold wp at 1 in H. simpl in H. rewrite <-Hc in H. apply drive_unblocked in H as [k2 H]; [|done].
    unfold pausing in H. simpl in H. apply wp_bind. run Hp; back H Hp; [|done|done].
    destruct a; [by apply wp_ret; apply wp_ret|]. unfold wp at 1 in H. simpl in H.
    destruct tries as [|tries']; [lia|].
    apply (IH (attempt + 1)%Z) in H; [|lia|lia]. by apply wp_unbind in H.
Qed.

(** A poll of the wait. *)
Definition found (r : result (list Worker)) : option Z :=
  match r with
  | Err _ => None
  | OK ws => if (0 <? capacity_of ss ws)%Z then Some (capacity_of ss ws) else None
  end.

Lemma wp_waiting_S fuel rss gh e w r w1 (Q : outcome started → E → Prop) :
  pause (10 * Second)%Z (world e) = (Ret false, w) → listLiveWorkers stale w = (Ret r, w1) →
  wp match found r with
     | Some n => connecting session_attempts rss n 1 gh
     | None => waiting fuel rss gh
     end Q (in_world e w1) →
  wp (waiting (S fuel) rss gh) Q e.
Proof.
  intros Hp Hl H. unfold waiting. simpl. apply wp_bind. unfold on_world at 1. apply wp_zoom, wp_bind.
  apply (wp_eq _ _ _ _ _ Hp). simpl. apply wp_bind, (wp_eq _ _ _ _ _ Hl). simpl.
  unfold found in H. destruct r as [ws|err]; [destruct (0 <? capacity_of ss ws)%Z|].
  - by apply wp_ret.
  - by apply wp_unbind in H.
  - by apply wp_unbind in H.
Qed.

Lemma waiting_unblocked gh rss k e :
  client = OK gh → wp (drive_ss k (Waiting rss)) unblocked e →
  ∃ fuel, wp (waiting fuel rss gh) unblocked e.
Proof.
  intros Hc. revert e. induction k as [|k IH]; intros e H; [done|].
  simpl in H. apply wp_unbind in H. unfold pausing in H. simpl in H.
  destruct (pause (10 * Second)%Z (world e)) as [o w] eqn:Hp. back H Hp.
  destruct o as [[|]| |]; [..|done].
  { exists 1. unfold waiting. simpl. apply wp_bind. unfold on_world at 1. apply wp_zoom, wp_bind.
    apply (wp_eq _ _ _ _ _ Hp). simpl. by apply wp_ret, wp_ret. }
  2:{ exists 1. unfold waiting. simpl. apply wp_bind. unfold on_world at 1. apply wp_zoom, wp_bind.
      by apply (wp_eq _ _ _ _ _ Hp). }
  apply wp_unbind in H. unfold poll in H. destruct (listLiveWorkers stale w) as [o w1] eqn:Hl.
  back H Hl. destruct o as [r| |]; [|..|done].
  2:{ exists 1. unfold waiting. simpl. apply wp_bind. unfold on_world at 1. apply wp_zoom, wp_bind.
      apply (wp_eq _ _ _ _ _ Hp). simpl. apply wp_bind. by apply (wp_eq _ _ _ _ _ Hl). }
  assert (match found r with
          | Some n => wp (drive_ss k (Connecting rss n 1)) unblocked (in_world e w1)
          | None => wp (drive_ss k (Waiting rss)) unblocked (in_world e w1)
          end) as Hnext.
  { revert H. unfold found. simpl. destruct r as [ws|err]; [|done].
    by destruct (0 <? capacity_of ss ws)%Z. }
  destruct (found r) as [n|] eqn:Hf.
  - exists 1. eapply wp_waiting_S; [done..|]. rewrite Hf.
    eapply connecting_unblocked; [done| |unfold session_attempts; lia|exact Hnext]. done.
  - destruct (IH _ Hnext) as [fuel Hfuel]. exists (S fuel).
    eapply wp_waiting_S; [done..|]. by rewrite Hf.
Qed.

(** The rest of [runScaleSet], once the scale set is registered. *)
Lemma wp_registered fuel gh rss e w (Q : outcome started → E → Prop) :
  client = OK gh → registerScaleSet gh ss (world e) = (Ret (OK rss), w) →
  wp (initialMaxRunners pause stale fuel ss)
    (λ o w, after (λ max, wp match max with
                             | None => mret Cancelled
                             | Some n => connecting session_attempts rss n 1 gh
                             end Q) Q o (in_world e w)) w →
  wp (runScaleSet pause stale fuel client ss) Q e.
Proof.
  intros Hc Hreg H. unfold runScaleSet. rewrite Hc. apply wp_bind. unfold on_world at 1.
  apply wp_zoom, (wp_eq _ _ _ _ _ Hreg). simpl. by apply wp_bind.
Qed.

Lemma alone_unblocked k e :
  wp (drive_ss k Starting) unblocked e →
  ∃ fuel, wp (runScaleSet pause stale fuel client ss) unblocked e.
Proof.
  intros H. apply drive_unblocked in H as [k1 H]; [|done]. unfold wp at 1 in H. simpl in H.
  unfold begin in H.
  destruct client as [gh|err] eqn:Hc; [|by exists 0; apply wp_ret]. rewrite <-Hc in H |- *.
  destruct (registerScaleSet gh ss (world e)) as [o w] eqn:Hreg. back H Hreg.
  destruct o as [[rss|err]| |]; [..|done].
  2-3: exists 0; unfold runScaleSet; rewrite Hc; apply wp_bind; unfold on_world at 1;
    apply wp_zoom, (wp_eq _ _ _ _ _ Hreg); done.
  assert (∀ n e1, wp (drive_ss k1 (Connecting rss n 1)) unblocked e1 →
    wp (connecting session_attempts rss n 1 gh) unblocked e1) as Hconn.
  { intros n e1. apply connecting_unblocked; [done|done|unfold session_attempts; lia]. }
  assert (∀ fuel, _ → wp (runScaleSet pause stale fuel client ss) unblocked e) as Hrest
    by (intros fuel; by apply (wp_registered fuel gh rss)).
  unfold initialMaxRunners in Hrest. fold (capacity_of ss) in Hrest. simpl in H.
  destruct (0 <? ss_MaxRunners ss)%Z.
  { exists 0. apply Hrest, wp_ret. by apply Hconn. }
  apply wp_unbind in H. destruct (listLiveWorkers stale w) as [o w1] eqn:Hl. back H Hl.
  destruct o as [r| |]; [..|done].
  2:{ exists 0. by apply Hrest, wp_bind, (wp_eq _ _ _ _ _ Hl). }
  simpl in H. set (n := match r with OK _ => _ | Err _ => 0%Z end) in H.
  destruct (n =? 0)%Z eqn:Hn.
  - destruct (waiting_unblocked gh rss k1 _ Hc H) as [fuel Hfuel]. exists fuel.
    apply Hrest, wp_bind, (wp_eq _ _ _ _ _ Hl). simpl.
    lazymatch goal with |- context [(?x =? 0)%Z] => change x with n end. rewrite Hn.
    by apply wp_unbind in Hfuel.
  - exists 0. apply Hrest, wp_bind, (wp_eq _ _ _ _ _ Hl). simpl.
    lazymatch goal with |- context [(?x =? 0)%Z] => change x with n end. rewrite Hn.
    apply wp_ret. by apply Hconn.
Qed.

(** C21: the goroutine of a scale set, cut at its pauses so that it can take turns
    with the others, does alone what [runScaleSet] does: if either comes to an end,
    listening or returned or in a panic, so does the other, with the same result in
    the same state, however long it waited. *)
Theorem goroutine_is_runScaleSet e o' e' :
  o' ≠ Blocked →
  (∃ k, drive_ss k Starting e = (o', e')) ↔
  (∃ fuel o, runScaleSet pause stale fuel client ss e = (o, e') ∧ outcome_of o = o').
Proof.
  intros Ho. split.
  - intros [k Hk].
    destruct (alone_unblocked k e) as [fuel Hfuel].
    { unfold wp. by rewrite Hk. }
    unfold wp in Hfuel. pose proof (wp_alone fuel e) as Hends. unfold wp in Hends.
    destruct (runScaleSet pause stale fuel client ss e) as [o e2] eqn:Hrun. simpl in *.
    destruct (Hends Hfuel) as [k2 Hk2].
    assert (outcome_of o ≠ Blocked) as Ho2 by by destruct o.
    pose proof (drive_mono k (Nat.max k k2) _ _ _ _ ltac:(lia) Hk Ho) as H1.
    pose proof (drive_mono k2 (Nat.max k k2) _ _ _ _ ltac:(lia) Hk2 Ho2) as H2.
    exists fuel, o. split; congruence.
  - intros (fuel & o & Hrun & Heq). pose proof (wp_alone fuel e) as Hends. unfold wp in Hends.
    rewrite Hrun in Hends. simpl in Hends. rewrite <-Heq. apply Hends. intros ->. by apply Ho.
Qed.
End Alone.

(** ** What a stretch returns *)

Section Returns.
Context {W Session : Type} `{!OrchardClient W} `{!Clock W}.
Notation E := (Env W unit (Mgr W)).
Context (stale : Duration) (client : result (AdminClient W Session)) (ss : ScaleSetConfig).
Notation anywhere := (λ _, True).

Lemma install_listens gh id n :
  keeps (S := E) anywhere (λ o, ∃ i, o = Listening i n) (install (Session := Session) gh ss id n).
Proof.
  unfold install. apply (keeps_bind _ anywhere); [by intros e _; unfold wp|]. intros hs _.
  apply keeps_then; [by intros e _; unfold wp|].
  apply (keeps_bind _ anywhere); [by intros e _; unfold wp; destruct (on_handle _ _ _).1|].
  intros [adopted err] _. apply keeps_then.
  { destruct (0 <? adopted)%Z; [by intros e _; unfold wp|by apply keeps_ret]. }
  apply keeps_then; [by intros e _; unfold wp; destruct (recomputeScaleSetShares e).1|].
  apply keeps_ret. by eexists.
Qed.

(** A stretch never returns without an error, and with [ctx.Err()] only when the
    context was done. *)
Definition proper_return (fin : bool) (p : phase) : Prop :=
  match p with
  | Returned None => False
  | Returned (Some e) => e = Canceled → fin = true
  | _ => True
  end.

Lemma advance_returns fin p :
  settled p = false → keeps (S := E) anywhere (proper_return fin) (advance stale client ss fin p).
Proof.
  assert (∀ A (m : M W A), keeps (S := E) anywhere anywhere (on_world m)) as Hworld.
  { intros A m e _. unfold wp. split; [done|]. by destruct (on_world m e).1. }
  intros Hs. destruct p as [|rss|rss n a|rss n a| |]; simpl; [..|done|done].
  - unfold begin. destruct client as [gh|err]; [|by apply keeps_ret].
    apply (keeps_bind _ anywhere); [apply Hworld|]. intros [rss|err] _; [|by apply keeps_ret].
    destruct (0 <? _)%Z; [by apply keeps_ret|].
    apply (keeps_bind _ anywhere); [apply Hworld|]. intros r _.
    by destruct (_ =? 0)%Z; apply keeps_ret.
  - destruct fin; [by apply keeps_ret|]. unfold poll.
    apply (keeps_bind _ anywhere); [apply Hworld|]. intros [ws|err] _; [|by apply keeps_ret].
    by destruct (0 <? _)%Z; apply keeps_ret.
  - unfold connect. destruct client as [gh|err]; [|by apply keeps_ret].
    apply (keeps_bind _ anywhere); [apply Hworld|]. intros [sess|err] _.
    + apply (keeps_bind _ anywhere); [apply Hworld|]. intros [err|] _; [by apply keeps_ret|].
      eapply keeps_bind; [apply install_listens|]. intros o [i ->]. by apply keeps_ret.
    + by destruct (10 <=? a)%Z; apply keeps_ret.
  - by destruct fin; apply keeps_ret.
Qed.
End Returns.

(** ** Witness *)

Lemma goroutine_is_runScaleSet_witness :
  let r := runScaleSet go_on Hour 1 (OK willing_admin) small_set lone_env in
  ∃ k, drive Hour (OK willing_admin) small_set go_on k Starting lone_env
       = (Ret (Running 1 2), r.2).
Proof.
  intros r. apply (goroutine_is_runScaleSet Hour (OK willing_admin) small_set go_on lone_env
    (Ret (Running 1 2)) r.2 ltac:(done)).
  exists 1, (Ret (Listening 1 2)). split; [|done].
  rewrite (surjective_pairing (runScaleSet _ _ _ _ _ _)). f_equal.
Defined.
