(* ===== verification/System.v ===== *)
(** * The system as a whole

    The handlers of the bridges, the sweeps of the cleanup loop and the start-up
    of scale sets as steps of one relation on the manager's environment, and the
    safety of every run: the bridge shares its Orchard controller with other
    users, and touches no VM but its own. *)

From S2P Require Import Prelude GoBase Orchard VMNames Workers.
From S2P Require Import AutoSize Capacity StateView Config Env Bridge Sample.
From S2P Require Import BridgeScaleUp Cleanup Manager Wiring Startup.

(** ** What is safe *)

(** A call that creates or deletes a VM names one with the bridge's prefix. *)
Definition own_call (c : Call) : Prop :=
  match c with
  | CallCreateVM vm _ => IsManagedVM (vm_Name vm) = true
  | CallDeleteVM n _ => IsManagedVM n = true
  | CallDeleteWorker _ _ => True
  end.

Section Safety.
Context {W : Type} `{!OrchardClient W} `{!Clock W} `{!UUIDSource W}.
Notation LW := (Logged W).
Notation E := (Env LW unit (Mgr LW)).
Notation any := (λ _, True).

(** The process is watched through a property [Has] of the controller that says,
    say, that it has the VM [n0] and will not delete it. *)
Context (n0 : string) (Has : W → Prop).

(** A call that is not for the controller. *)
Definition leaves_alone {A} (m : M LW A) : Prop :=
  ∀ l, calls (m l).2 = calls l ∧ (Has (base l) → Has (base (m l).2)).

(** A GitHub client that leaves the controller alone. *)
Record gh_quiet (gh : GHClient LW) : Prop := {
  quiet_jit : ∀ n id, leaves_alone (GenerateJitRunnerConfig gh n id);
  quiet_remove : ∀ id, leaves_alone (RemoveRunner gh id);
  quiet_get : ∀ n, leaves_alone (GetRunnerByName gh n)
}.

(** A VM name a scale set may hold: it carries the bridge's prefix and, when the
    names of the scale set fit and UUIDs are what they should be, the prefix of
    that scale set. *)
Definition owned (ss n : string) : Prop :=
  IsManagedVM n = true ∧
  (UUIDLaw W → len (sanitize ss) ≤ 42 → belongs_to_scale_set ss n = true).

(** The bridge of the scale set [ss] tracks only such names, each under itself,
    and its cursor is a [uint64]. *)
Definition tracks_own (ss k v : string) : Prop := v = k ∧ owned ss v.
Definition bridge_inv (ss : string) (b : Bridge LW) : Prop :=
  scaleSetName b = ss ∧ map_Forall (tracks_own ss) (activeVMs b) ∧
  in_uint64 (placementCursor b) ∧ gh_quiet (ghClient b).

(** [Good] is what else is known of the bridges. *)
Definition handle_inv (Good : Bridge LW → Prop) (h : scaleSetHandle LW) : Prop :=
  bridge_inv (scaleSetName (bridge h)) (bridge h) ∧ Good (bridge h).

(** Lists of VMs with [n0] on them. *)
Definition listed (vms : list VM) : Prop := n0 ∈ vm_Name <$> vms.
Definition cache_lists (s : StateView) : Prop := ∀ sn, snap s = Some sn → listed (VMs sn).

(** The invariants; those about [n0] hold of a process that is [armed]: it knows
    of [n0], and [n0] is in the queue of failed deletions. *)
Definition log_ok (armed : Prop) (l : LW) : Prop :=
  Forall own_call (calls l) ∧ (armed → Has (base l)).
Definition cleanup_inv (armed : Prop) (c : Cleanup) : Prop :=
  (∀ n, n ∈ pendingDeletes c → IsManagedVM n = true) ∧ (armed → n0 ∈ pendingDeletes c).
Definition mgr_inv (armed : Prop) (Good : Bridge LW → Prop) (m : Mgr LW) : Prop :=
  Forall (handle_inv Good) (handles m) ∧ cleanup_inv armed (cleanup m).
Definition cache_ok (armed : Prop) (v : option StateView) : Prop :=
  armed → ∀ s, v = Some s → cache_lists s.
Definition sys_inv (armed : Prop) (Good : Bridge LW → Prop) (e : E) : Prop :=
  log_ok armed (world e) ∧ cache_ok armed (view e) ∧ mgr_inv armed Good (ext e).
Definition any_bridge (b : Bridge LW) : Prop := True.

(** The controller has [n0]: it reports it and refuses to delete it, and no call
    changes that. *)
Record steady : Prop := {
  steady_create : ∀ vm w, Has w → Has (CreateVM vm w).2;
  steady_delete : ∀ n w, Has w → Has (DeleteVM n w).2;
  steady_refused : ∀ w, Has w → wp (DeleteVM n0) (on_ret (λ r _, is_Some r)) w;
  steady_worker : ∀ n w, Has w → Has (DeleteWorker n w).2;
  steady_vms : ∀ w, Has w → Has (ListVMs w).2;
  steady_reported : ∀ w, Has w →
    wp ListVMs (on_ret (λ r _, ∀ vms, r = OK vms → listed vms)) w;
  steady_workers : ∀ w, Has w → Has (ListWorkers w).2;
  steady_now : ∀ w, Has w → Has (Now w).2;
  steady_uuid : ∀ w, Has w → Has (NewUUID w).2
}.

(** The rest of the process: the two callbacks of the cleanup loop that the
    manager does not make itself, and the administrative calls to GitHub. *)
Context (remover : option (string → M LW (option error))) (observe : list Worker → M E unit).
Context {Session : Type} (pause : Duration → M LW bool) (stale : Duration).
Notation hooks := (sweep_hooks remover observe).

Hypothesis Hremover : ∀ rm n, remover = Some rm → leaves_alone (rm n).
Hypothesis Hobserve : ∀ ws e, (observe ws e).2 = e.
Hypothesis Hpause : ∀ d, leaves_alone (pause d).

(** The administrative calls leave the controller alone. *)
Record admin_quiet (gh : AdminClient LW Session) : Prop := {
  aq_runners : gh_quiet (runners gh);
  aq_group : ∀ n, leaves_alone (GetRunnerGroupByName gh n);
  aq_get : ∀ g n, leaves_alone (GetRunnerScaleSet gh g n);
  aq_update : ∀ id d, leaves_alone (UpdateRunnerScaleSet gh id d);
  aq_create : ∀ d, leaves_alone (CreateRunnerScaleSet gh d);
  aq_session : ∀ id n, leaves_alone (MessageSessionClient gh id n);
  aq_listener : ∀ s id n, leaves_alone (listener_New gh s id n)
}.

(** ** Steps *)

(** What may happen next: a message for the bridge at some position, a sweep, a
    change of the workers, the start of a scale set, or anything at all in the
    outside world.  A handler is one step: the steps are those of a process whose
    goroutines take turns. *)
Inductive sys_step (e : E) : E → Prop :=
  | step_desired i count :
      sys_step e (on_handle i (HandleDesiredRunnerCount bridge_hooks count) e).2
  | step_job_started i : sys_step e (on_handle i HandleJobStarted e).2
  | step_job_completed i runnerName runnerID :
      sys_step e (on_handle i (HandleJobCompleted bridge_hooks runnerName runnerID) e).2
  | step_sweep : sys_step e (on_cleanup_loop (sweep hooks) e).2
  | step_shares : sys_step e (recomputeScaleSetShares e).2
  | step_start fuel gh ss :
      admin_quiet gh → sys_step e (runScaleSet pause stale fuel (OK gh) ss e).2
  | step_world w : calls w = env_calls e → sys_step e (with_world e w).

(** ** Every operation keeps the invariants *)

Section Invariant.
Context (armed : Prop) (Hsteady : armed → steady).
Context (Good : Bridge LW → Prop) (Hpurge : ∀ n b, Good b → Good (PurgeActiveVM n b)).

Lemma keeps_quiet {A} (m : M LW A) : leaves_alone m → keeps (log_ok armed) any m.
Proof.
  intros Hm l [Hl Hh]. destruct (Hm l) as [Hc Hb]. unfold wp.
  split; [|by destruct (m l).1]. split; [by rewrite Hc|auto].
Qed.

(** ** Calls *)

(** A call that [steady] is about. *)
Definition steadily {A} (m : M W A) : Prop := armed → ∀ w, Has w → Has (m w).2.

Lemma keeps_on_base {A} (m : M W A) : steadily m → keeps (log_ok armed) any (on_base m).
Proof.
  intros Hm l [Hl Hh]. unfold on_base. apply wp_zoom. unfold wp.
  split; [|by destruct (m (base l)).1]. split; [exact Hl|]. intros Ha. by apply Hm, Hh.
Qed.

Lemma keeps_recorded {A} (m : M W A) (c : A → Call) :
  steadily m → (∀ a, own_call (c a)) → keeps (log_ok armed) any (recorded m c).
Proof.
  intros Hm Hc. unfold recorded. apply (keeps_bind _ any); [by apply keeps_on_base|].
  intros a _. apply keeps_then; [|by apply keeps_ret].
  apply keeps_modify. intros l [Hl Hh]. split; [|done]. simpl.
  apply Forall_app. by split; [|apply Forall_singleton].
Qed.

Lemma keeps_CreateVM vm :
  IsManagedVM (vm_Name vm) = true → keeps (log_ok armed) any (CreateVM vm).
Proof. intros H. apply keeps_recorded; [|done]. intros Ha w. apply (Hsteady Ha). Qed.
Lemma keeps_DeleteWorker n : keeps (log_ok armed) any (DeleteWorker n).
Proof. apply keeps_recorded; [|done]. intros Ha w. apply (Hsteady Ha). Qed.
Lemma keeps_ListWorkers : keeps (log_ok armed) any ListWorkers.
Proof. apply keeps_on_base. intros Ha w. apply (Hsteady Ha). Qed.
Lemma keeps_Now : keeps (log_ok armed) any Now.
Proof. apply keeps_on_base. intros Ha w. apply (Hsteady Ha). Qed.

Lemma keeps_ListVMs :
  keeps (log_ok armed) (λ r, armed → ∀ vms, r = OK vms → listed vms) ListVMs.
Proof.
  intros l [Hl Hh]. unfold ListVMs, logged_client, on_base. apply wp_zoom. unfold wp. simpl.
  split; [split; [exact Hl|intros Ha; by apply (steady_vms (Hsteady Ha)), Hh]|].
  destruct (ListVMs (base l)).1 as [r| |] eqn:Hr; [|done..]. intros Ha.
  pose proof (steady_reported (Hsteady Ha) _ (Hh Ha)) as Hrep. unfold wp in Hrep.
  by rewrite Hr in Hrep.
Qed.

(** The controller never accepts the deletion of [n0]. *)
Lemma keeps_DeleteVM n :
  IsManagedVM n = true →
  keeps (log_ok armed) (λ r, armed → r = None → n ≠ n0) (DeleteVM n).
Proof.
  intros H. unfold DeleteVM, logged_client, recorded.
  apply (keeps_bind _ (λ r, armed → r = None → n ≠ n0)).
  - intros l [Hl Hh]. unfold on_base. apply wp_zoom. unfold wp. simpl.
    split; [split; [exact Hl|intros Ha; by apply (steady_delete (Hsteady Ha)), Hh]|].
    destruct (DeleteVM n (base l)).1 as [r| |] eqn:Hr; [|done..]. intros Ha -> ->.
    pose proof (steady_refused (Hsteady Ha) _ (Hh Ha)) as Href. unfold wp in Href.
    rewrite Hr in Href. by destruct Href.
  - intros r Hr. apply keeps_then; [|by apply keeps_ret].
    apply keeps_modify. intros l [Hl Hh]. split; [|done]. simpl.
    apply Forall_app. by split; [|apply Forall_singleton].
Qed.

(** A name just made belongs to the scale set it is made for. *)
Lemma vm_name_owned ss short :
  len short = 8 → (UUIDLaw W → all_bytes hex_digit short) → owned ss (vm_name_of ss short).
Proof.
  intros Hlen Hhex. split; [by apply vm_name_managed|]. intros Huuid Hfit.
  rewrite vm_name_uncut by done. apply belongs_to_other; [|done].
  eapply all_bytes_mono; [apply hex_digit_not_hyphen|]. by apply Hhex.
Qed.

Lemma keeps_NewUUID :
  keeps (log_ok armed) (λ u, UUIDLaw W → uuid_text u) (NewUUID (W := LW)).
Proof.
  intros l [Hl Hh]. unfold NewUUID, logged_uuid, on_base. apply wp_zoom. unfold wp. simpl.
  split; [split; [exact Hl|intros Ha; by apply (steady_uuid (Hsteady Ha)), Hh]|].
  destruct (NewUUID (base l)).1 as [u| |] eqn:Hu; [|done..].
  intros Huuid. specialize (Huuid (base l)). unfold wp, returns in Huuid. by rewrite Hu in Huuid.
Qed.

Lemma keeps_VMName ss : keeps (log_ok armed) (owned ss) (VMName ss).
Proof.
  unfold VMName. eapply keeps_bind; [apply keeps_NewUUID|]. intros u Hu.
  destruct (len u <? 8) eqn:Hlt; [apply keeps_panic|]. apply Nat.ltb_ge in Hlt.
  apply keeps_ret, vm_name_owned; [rewrite slice_to_len; lia|]. intros Huuid. by apply Hu.
Qed.

Lemma keeps_refresh st :
  keeps (log_ok armed) (λ r, armed → ∀ sn, r = OK sn → listed (VMs sn)) (refresh st).
Proof.
  unfold refresh. eapply keeps_bind; [apply keeps_ListVMs|].
  intros [vms|e] Hv; [|by apply keeps_ret].
  apply (keeps_bind _ any); [apply keeps_ListWorkers|].
  intros [ws|e] _; [|by apply keeps_ret].
  apply (keeps_bind _ any); [apply keeps_Now|]. intros now _. apply keeps_ret.
  intros Ha sn [= <-]. by apply Hv.
Qed.

(** The cache and the world together. *)
Definition cache_inv (p : StateView * LW) : Prop :=
  (armed → cache_lists p.1) ∧ log_ok armed p.2.
Definition lists_snapshot (r : option Snapshot * option error) : Prop :=
  armed → ∀ sn, r.1 = Some sn → listed (VMs sn).

Lemma keeps_cached_world {A} (P : A → Prop) (m : M LW A) :
  keeps (log_ok armed) P m → keeps cache_inv P (zoom snd (λ w p, (p.1, w)) m).
Proof.
  intros Hm. apply (keeps_zoom _ (log_ok armed)); [by intros p []| |done].
  intros p w [? _] Hw. by split.
Qed.

Lemma keeps_Get_enter now :
  keeps cache_inv (λ en, armed → match en with
                                 | Hit sn | Lead (Some sn) => listed (VMs sn)
                                 | _ => True
                                 end)
    (state_fn (λ p : StateView * LW, let r := Get_enter now 0 p.1 in (r.1, (r.2, p.2)))).
Proof.
  apply keeps_state_fn. intros [s w] [Hc Hl]. unfold Get_enter. simpl in *.
  destruct (fresh_snap now s) as [sn|] eqn:Hf; simpl.
  - split; [|done]. intros Ha. apply (Hc Ha). unfold fresh_snap in Hf. by repeat case_match; simplify_eq.
  - destruct (refreshing s); simpl; (split; [|done]); [done|]. intros Ha.
    destruct (snap s) eqn:Hs; [|done]. by apply (Hc Ha).
Qed.

Lemma keeps_Get : keeps cache_inv lists_snapshot Get.
Proof.
  unfold Get. apply (keeps_bind _ any); [by apply keeps_read|]. intros s _.
  apply (keeps_bind _ any).
  { destruct (snap s); [apply keeps_cached_world, keeps_Now|by apply keeps_ret]. }
  intros now _. eapply keeps_bind; [apply keeps_Get_enter|].
  intros [sn|ch|last] Hen; [|apply keeps_blocked|].
  { apply keeps_ret. intros Ha ? [= <-]. by apply Hen. }
  eapply keeps_bind; [apply keeps_cached_world, keeps_refresh|].
  intros r Hr. apply keeps_state_fn. intros [s' w] [Hc Hl]. simpl in *.
  destruct r as [sn|err]; simpl; (split; [|split; [|done]]).
  - intros Ha sn' [= <-]. by apply Hr.
  - intros Ha sn' [= <-]. by apply Hr.
  - intros Ha sn Hsn. simpl in Hsn. subst last. by apply Hen.
  - done.
Qed.

(** ** The shared environment *)

Lemma keeps_on_world {A} (P : A → Prop) (m : M LW A) :
  keeps (log_ok armed) P m → keeps (sys_inv armed Good) P (on_world m).
Proof.
  intros Hm. unfold on_world. apply (keeps_zoom _ (log_ok armed)); [by intros e []| |done].
  intros e w (_ & ? & ?) Hw. split; [done|by split].
Qed.

Lemma keeps_on_capacity {A} (f : Capacity unit → A * Capacity unit) :
  keeps (sys_inv armed Good) any (on_capacity f).
Proof.
  unfold on_capacity. apply (keeps_zoom _ any); [done|by intros e c He _|].
  by apply keeps_state_fn.
Qed.

Lemma keeps_on_ext (f : Mgr LW → Mgr LW) :
  (∀ m, mgr_inv armed Good m → mgr_inv armed Good (f m)) → keeps (sys_inv armed Good) any (on_ext (modify f)).
Proof.
  intros Hf. unfold on_ext. apply (keeps_zoom _ (mgr_inv armed Good)); [by intros e (? & ? & ?)| |].
  - intros e m (? & ? & _) Hm. split; [done|by split].
  - by apply keeps_modify.
Qed.

Lemma keeps_state_Get : keeps (sys_inv armed Good) lists_snapshot state_Get.
Proof.
  intros e He. pose proof He as (Hl & Hv & Hm). unfold wp, state_Get.
  destruct (view e) as [s|] eqn:Hs; [|done].
  assert (cache_inv (s, world e)) as Hc by (split; [intros Ha; by apply (Hv Ha)|exact Hl]).
  destruct (keeps_Get (s, world e) Hc) as [[Hs' Hl'] Hr]. split.
  - split; [done|]. split; [|done]. intros Ha s' [= <-]. by apply Hs'.
  - simpl. destruct (Get (s, world e)).1; [by apply Hr|done..].
Qed.

Lemma keeps_state_Invalidate : keeps (sys_inv armed Good) any state_Invalidate.
Proof.
  unfold state_Invalidate. apply keeps_modify. intros e (Hl & Hv & Hm).
  split; [done|]. split; [|done]. intros Ha s Hs. simpl in Hs.
  apply fmap_Some in Hs as (s0 & _ & ->). by intros sn Hsn.
Qed.

(** Recomputing the shares changes numbers only. *)
Lemma recompute_inv sn (hs : list (scaleSetHandle LW)) :
  Forall (handle_inv Good) hs → Forall (handle_inv Good) (recompute sn hs).
Proof.
  rewrite !Forall_lookup. intros Hhs i h. unfold recompute. rewrite list_lookup_imap.
  destruct (hs !! i) as [h0|] eqn:Hi; [|done]. simpl. intros [= <-].
  specialize (Hhs i h0 Hi). by destruct (0 <? staticMaxRunners h0)%Z.
Qed.

Lemma keeps_recomputeScaleSetShares : keeps (sys_inv armed Good) any recomputeScaleSetShares.
Proof.
  unfold recomputeScaleSetShares. eapply keeps_bind; [apply keeps_state_Get|].
  intros [[sn|] err] _; [|by apply keeps_ret]. apply keeps_on_ext.
  intros m [Hh Hc]. split; [|done]. by apply recompute_inv.
Qed.

(** ** The bridges *)

Notation St := (Bridge LW * E)%type.

(** What the handlers of the scale set [ss] keep. *)
Section Handlers.
Context (ss : string).
Definition handler_inv (s : St) : Prop := bridge_inv ss s.1 ∧ sys_inv armed Good s.2.

Lemma keeps_on_env {A} (P : A → Prop) (m : M E A) :
  keeps (sys_inv armed Good) P m → keeps handler_inv P (on_env m).
Proof.
  intros Hm. unfold on_env. apply (keeps_zoom _ (sys_inv armed Good)); [by intros s []| |done].
  intros s e [? _] He. by split.
Qed.

Lemma keeps_on_bridge {A} (P : A → Prop) (m : M (Bridge LW) A) :
  keeps (bridge_inv ss) P m → keeps handler_inv P (on_bridge m).
Proof.
  intros Hm. unfold on_bridge. apply (keeps_zoom _ (bridge_inv ss)); [by intros s []| |done].
  intros s b [_ ?] Hb. by split.
Qed.

Lemma keeps_this : keeps handler_inv (bridge_inv ss) this.
Proof. apply keeps_read. by intros s []. Qed.

Lemma keeps_track n :
  owned ss n →
  keeps handler_inv any (on_bridge (modify (λ b, set_activeVMs (<[n := n]> (activeVMs b)) b))).
Proof.
  intros Hn. apply keeps_on_bridge, keeps_modify. intros b (Hss & Hb & Hcu & Hg).
  split; [done|]. split; [|done]. simpl. by apply map_Forall_insert_2.
Qed.

Lemma keeps_createOneVM cpu mem labels : keeps handler_inv any (createOneVM cpu mem labels).
Proof.
  unfold createOneVM. apply (keeps_bind _ (bridge_inv ss)); [apply keeps_this|].
  intros b (Hss & _ & _ & Hg). apply (keeps_bind _ (owned ss)).
  { rewrite <-Hss. apply keeps_on_env, keeps_on_world, keeps_VMName. }
  intros vmName Hn. apply (keeps_bind _ any); [apply keeps_on_env, keeps_on_world, keeps_quiet, Hg|].
  intros [jit|e] _; [|by apply keeps_ret].
  apply (keeps_bind _ any); [apply keeps_on_env, keeps_on_world, keeps_CreateVM, (proj1 Hn)|].
  intros [vm|e] _; [|by apply keeps_ret].
  apply keeps_then; [by apply keeps_track|by apply keeps_ret].
Qed.

Lemma keeps_notifyChange : keeps handler_inv any (notifyChange bridge_hooks).
Proof.
  apply keeps_on_env, keeps_call_opt. intros m [= <-]. apply keeps_recomputeScaleSetShares.
Qed.

(** The end of a batch that failed: slots back, and the news. *)
Lemma keeps_give_up {A} n (r : A) :
  keeps handler_inv any (on_env (cap_Release n);; notifyChange bridge_hooks;; mret r).
Proof.
  apply keeps_then; [apply keeps_on_env, keeps_on_capacity|].
  apply keeps_then; [apply keeps_notifyChange|by apply keeps_ret].
Qed.

(** The end of one that did not. *)
Lemma keeps_finish {A} (r : A) :
  keeps handler_inv any (invalidate;; notifyChange bridge_hooks;; mret r).
Proof.
  apply keeps_then; [apply keeps_on_env, keeps_state_Invalidate|].
  apply keeps_then; [apply keeps_notifyChange|by apply keeps_ret].
Qed.

Lemma keeps_create_loop acquired created k :
  keeps handler_inv any (create_loop bridge_hooks acquired created k).
Proof.
  revert created. induction k as [|k IH]; intros created; simpl; [by apply keeps_ret|].
  apply (keeps_bind _ any); [apply (keeps_mono _ (bridge_inv ss)); [apply keeps_this|done]|].
  intros b _. apply (keeps_bind _ any); [apply keeps_createOneVM|].
  intros [e|] _; [apply keeps_give_up|apply IH].
Qed.

Lemma keeps_index {A} (l : list A) z : keeps handler_inv any (index l z).
Proof.
  unfold index. destruct (z <? 0)%Z; [apply keeps_panic|].
  destruct (l !! Z.to_nat z); [by apply keeps_ret|apply keeps_panic].
Qed.

Lemma keeps_autosize_loop candidates c m start acquired created skipped i k :
  keeps handler_inv any
    (autosize_loop bridge_hooks candidates c m start acquired created skipped i k).
Proof.
  revert created skipped i. induction k as [|k IH]; intros created skipped i; simpl;
    [by apply keeps_ret|].
  apply (keeps_bind _ any); [apply keeps_index|]. intros w _.
  destruct (AutoSizedVM w c m) as [[cpu mem]|e].
  - apply (keeps_bind _ any); [apply (keeps_mono _ (bridge_inv ss)); [apply keeps_this|done]|].
    intros b _. apply (keeps_bind _ any); [apply keeps_createOneVM|].
    intros [e|] _; [apply keeps_give_up|apply IH].
  - apply keeps_then; [apply keeps_on_env, keeps_on_capacity|apply IH].
Qed.

Lemma keeps_read_any {A} (f : St → A) : keeps handler_inv any (read f).
Proof. by apply keeps_read. Qed.

Lemma keeps_handleAutoSizeScaleUp needed active :
  keeps handler_inv any (handleAutoSizeScaleUp bridge_hooks needed active).
Proof.
  unfold handleAutoSizeScaleUp. apply (keeps_bind _ any); [apply keeps_read_any|].
  intros [|] _; [|by apply keeps_ret].
  eapply keeps_bind; [apply keeps_on_env, keeps_state_Get|].
  intros [[sn|] err] _; [|by apply keeps_ret].
  apply (keeps_bind _ any); [apply keeps_read_any|]. intros b _.
  destruct (AutoSizeReserveConfig b) as [rc rm]. destruct (AutoSizeReserves rc rm) as [c m].
  destruct (decide _); [by apply keeps_ret|].
  apply (keeps_bind _ any); [apply keeps_on_env, keeps_on_capacity|]. intros acquired _.
  destruct (acquired =? 0)%Z; [by apply keeps_ret|].
  apply (keeps_bind _ any).
  { apply keeps_on_bridge, keeps_state_fn. intros b' (? & ? & _ & ?). split; [done|].
    split; [done|]. split; [done|]. split; [|done]. apply uint64_range. }
  intros start _. apply (keeps_bind _ any); [apply keeps_autosize_loop|].
  intros [created [e|]] _; [by apply keeps_ret|apply keeps_finish].
Qed.

Lemma keeps_clamp_needed needed : keeps handler_inv any (clamp_needed needed).
Proof.
  unfold clamp_needed. apply (keeps_bind _ any); [apply keeps_read_any|].
  intros [|] _; [|by apply keeps_ret].
  eapply keeps_bind; [apply keeps_on_env, keeps_state_Get|].
  intros [[sn|] err] _; [|by apply keeps_ret].
  apply (keeps_bind _ any); [apply keeps_read_any|]. intros b _.
  destruct (_ <=? 0)%Z; by apply keeps_ret.
Qed.

Lemma keeps_HandleDesiredRunnerCount count :
  keeps handler_inv any (HandleDesiredRunnerCount bridge_hooks count).
Proof.
  unfold HandleDesiredRunnerCount. apply (keeps_bind _ any); [apply keeps_read_any|].
  intros b _. destruct (_ <=? 0)%Z; [by apply keeps_ret|].
  destruct (AutoSizeEnabled b); [apply keeps_handleAutoSizeScaleUp|].
  apply (keeps_bind _ any); [apply keeps_clamp_needed|]. intros [n|] _; [|by apply keeps_ret].
  apply (keeps_bind _ any); [apply keeps_on_env, keeps_on_capacity|]. intros acquired _.
  destruct (acquired =? 0)%Z; [by apply keeps_ret|].
  apply (keeps_bind _ any); [apply keeps_create_loop|].
  intros [created [e|]] _; [by apply keeps_ret|apply keeps_finish].
Qed.

Lemma keeps_HandleJobCompleted name id :
  keeps handler_inv any (HandleJobCompleted bridge_hooks name id).
Proof.
  unfold HandleJobCompleted. apply (keeps_bind _ (bridge_inv ss)); [apply keeps_this|].
  intros b (_ & Hb & _ & Hg). destruct (activeVMs b !! name) as [vm|] eqn:Hvm; [|by apply keeps_ret].
  assert (IsManagedVM vm = true) as Hm by exact (proj1 (proj2 (Hb name vm Hvm))).
  apply keeps_then.
  { apply keeps_on_bridge, keeps_modify. intros b' (? & Hb' & ? & ?).
    split; [done|]. split; [|done]. simpl. by apply map_Forall_delete. }
  eapply keeps_bind; [by apply keeps_on_env, keeps_on_world, keeps_DeleteVM|].
  intros [e|] _.
  - apply keeps_then; [|by apply keeps_ret]. apply keeps_on_env. simpl. apply keeps_on_ext.
    intros m [Hh [Hc Hq]]. split; [done|]. unfold MarkForDeletion. simpl.
    destruct (decide (vm = EmptyString)); [by split|]. split; simpl; set_solver.
  - apply (keeps_bind _ any); [apply keeps_on_env, keeps_on_world, keeps_quiet, Hg|]. intros _ _.
    apply keeps_then; [apply keeps_on_env, keeps_on_capacity|]. apply keeps_finish.
Qed.

Lemma belongs_owned n : belongs_to_scale_set ss n = true → owned ss n.
Proof.
  intros H. split; [|done]. apply belongs_to_scale_set_spec in H as (s & -> & _).
  apply prefix_managed.
Qed.

Lemma hydrate_owned m n vms :
  map_Forall (tracks_own ss) m →
  Forall (λ vm, owned ss (vm_Name vm)) vms →
  map_Forall (tracks_own ss) (hydrate m n vms).1.
Proof.
  intros Hm Hvms. revert m n Hm. induction Hvms as [|vm vms Hvm _ IH]; intros m n Hm; [done|].
  simpl. destruct (vm_terminal vm); [by apply IH|]. apply IH.
  by apply map_Forall_insert_2.
Qed.

Lemma keeps_HydrateFromOrchard : keeps handler_inv any HydrateFromOrchard.
Proof.
  unfold HydrateFromOrchard. apply (keeps_bind _ any); [apply keeps_read_any|].
  intros [|] _; [|by apply keeps_ret].
  eapply keeps_bind; [apply keeps_on_env, keeps_state_Get|].
  intros [[sn|] err] _; [|by apply keeps_ret].
  apply (keeps_bind _ (bridge_inv ss)); [apply keeps_this|]. intros b (Hss & Hb & _ & _).
  pose proof (hydrate_owned (activeVMs b) 0 (ManagedVMsForScaleSet sn (scaleSetName b)) Hb)
    as Hh.
  destruct (hydrate _ _ _) as [m n]. apply keeps_then; [|by apply keeps_ret].
  apply keeps_on_bridge, keeps_modify. intros b' (Hn & _ & ? & Hg). split; [done|]. split; [|done].
  apply Hh, Forall_forall. intros vm [Hbelongs _]%list_elem_of_filter.
  apply belongs_owned. by rewrite <-Hss.
Qed.

End Handlers.

(** A handler of the bridge at one position, which leaves that bridge good. *)
Lemma wp_handle_keeps {A} i h (f : M St A) e :
  (∀ ss, keeps (handler_inv ss) any f) → handles (ext e) !! i = Some h → sys_inv armed Good e →
  wp f (λ _ s', Good s'.1) (bridge h, e) →
  wp (on_handle i f) (λ _ e', sys_inv armed Good e') e.
Proof.
  intros Hf Hi He Hg. unfold wp, on_handle. rewrite Hi.
  destruct (Hf (scaleSetName (bridge h)) (bridge h, e)) as [[Hb (Hl' & Hv' & Hh' & Hc')] _].
  { split; [|done]. destruct He as (_ & _ & Hh & _).
    by destruct (proj1 (Forall_lookup _ _) Hh i h Hi). }
  simpl. split; [done|]. split; [done|]. split; [|done].
  simpl. apply Forall_alter; [done|]. intros h' _ _. unfold handle_inv. simpl.
  split; [by rewrite (proj1 Hb)|exact Hg].
Qed.

(** ** The cleanup loop *)

Notation Sw := (Cleanup * E)%type.
Definition sweep_inv (s : Sw) : Prop := cleanup_inv armed s.1 ∧ sys_inv armed Good s.2.


Lemma keeps_on_rest {A} (P : A → Prop) (m : M E A) :
  keeps (sys_inv armed Good) P m → keeps sweep_inv P (on_rest m).
Proof.
  intros Hm. unfold on_rest. apply (keeps_zoom _ (sys_inv armed Good)); [by intros s []| |done].
  intros s e [? _] He. by split.
Qed.

Lemma keeps_on_cleanup f :
  (∀ c, cleanup_inv armed c → cleanup_inv armed (f c)) → keeps sweep_inv any (on_cleanup f).
Proof.
  intros Hf. unfold on_cleanup. apply (keeps_zoom _ (cleanup_inv armed)); [by intros s []| |].
  - intros s c [_ ?] Hc. by split.
  - by apply keeps_modify.
Qed.

Lemma keeps_read_sweep {A} (f : Sw → A) : keeps sweep_inv any (read f).
Proof. by apply keeps_read. Qed.

Lemma keeps_listVMsAndWorkers :
  keeps sweep_inv (λ r, armed → ∀ st, r = OK st → listed (st_vms st)) listVMsAndWorkers.
Proof.
  unfold listVMsAndWorkers. apply (keeps_bind _ any); [apply keeps_read_sweep|].
  intros [|] _.
  - eapply keeps_bind; [apply keeps_on_rest, keeps_state_Get|].
    intros [[sn|] [e|]] Hsn; try (by apply keeps_ret); try apply keeps_panic;
      apply keeps_ret; intros Ha st [= <-]; by apply Hsn.
  - eapply keeps_bind; [apply keeps_on_rest, keeps_on_world, keeps_ListVMs|].
    intros [vms|e] Hv; [|by apply keeps_ret].
    apply (keeps_bind _ any); [apply keeps_on_rest, keeps_on_world, keeps_ListWorkers|].
    intros [ws|e] _; [|by apply keeps_ret].
    apply (keeps_bind _ any); [apply keeps_on_rest, keeps_on_world, keeps_Now|].
    intros now _. apply keeps_ret. intros Ha st [= <-]. by apply Hv.
Qed.

Lemma purge_inv n (hs : list (scaleSetHandle LW)) :
  Forall (handle_inv Good) hs → Forall (handle_inv Good) (purge_all n hs).
Proof.
  intros Hhs. unfold purge_all. apply Forall_fmap. eapply Forall_impl; [exact Hhs|].
  intros h [(_ & Hb & ? & ?) Hg]. split; [|by apply Hpurge]. split; [done|]. split; [|done].
  by apply map_Forall_delete.
Qed.

Lemma keeps_processVM vm now :
  IsManagedVM (vm_Name vm) = true → keeps sweep_inv any (processVM hooks vm now).
Proof.
  intros Hm. unfold processVM. apply keeps_recover; [done|].
  apply (keeps_bind _ any); [apply keeps_read_sweep|]. intros c _.
  destruct (negb (shouldDelete c vm now)); [by apply keeps_ret|].
  eapply keeps_bind; [by apply keeps_on_rest, keeps_on_world, keeps_DeleteVM|].
  intros [e|] Hno; [by apply keeps_ret|].
  apply keeps_then.
  { apply keeps_on_cleanup. intros c' [Hc Hq]. split; simpl; [set_solver|].
    intros Ha. specialize (Hno Ha eq_refl). set_solver. }
  apply keeps_then.
  { unfold removeRunner. simpl. destruct remover as [rm|] eqn:Hr; [|by apply keeps_ret].
    apply (keeps_bind _ any); [|intros ? _; by apply keeps_ret].
    by apply keeps_on_rest, keeps_on_world, keeps_quiet, Hremover. }
  simpl. apply keeps_then; [|by apply keeps_ret]. apply keeps_on_rest.
  apply keeps_then; [|apply keeps_recomputeScaleSetShares].
  apply keeps_on_ext. intros m [Hh Hc]. split; [|done]. by apply purge_inv.
Qed.

(** A sweep has seen the managed VMs it has passed. *)
Definition has_seen (past : list VM) (t : Tally) : Prop :=
  ∀ vm, vm ∈ past → IsManagedVM (vm_Name vm) = true → vm_Name vm ∈ seen t.

Lemma keeps_sweep_vm live now past t vm :
  has_seen past t → keeps sweep_inv (has_seen (past ++ [vm])) (sweep_vm hooks live now t vm).
Proof.
  intros Ht. unfold sweep_vm. destruct (IsManagedVM (vm_Name vm)) eqn:Hm; simpl.
  - apply (keeps_bind _ any); [by apply keeps_processVM|]. intros del _.
    assert (∀ a b c, has_seen (past ++ [vm]) (mkTally a b c ({[vm_Name vm]} ∪ seen t))) as Hs.
    { intros a b c u. rewrite elem_of_app, list_elem_of_singleton. simpl.
      intros [Hu| ->] Hman; [specialize (Ht u Hu Hman)|]; set_solver. }
    destruct del; [by apply keeps_ret|]. destruct (decide _); by apply keeps_ret.
  - apply keeps_ret. intros u. rewrite elem_of_app, list_elem_of_singleton.
    intros [Hu| ->] Hman; [by apply Ht|congruence].
Qed.

Lemma keeps_sweep_vms live now vms :
  keeps sweep_inv (has_seen vms) (fold_m (sweep_vm hooks live now) (mkTally 0 0 0 ∅) vms).
Proof.
  apply (keeps_fold_past _ has_seen); [by intros u ?%elem_of_nil|].
  intros past vm t. apply keeps_sweep_vm.
Qed.

Lemma keeps_prune_worker vms live now acc w :
  keeps sweep_inv any (prune_worker vms live now acc w).
Proof.
  unfold prune_worker. destruct acc as [pruned skipped].
  apply (keeps_bind _ any); [apply keeps_read_sweep|]. intros c _.
  destruct (decide _); [by apply keeps_ret|]. destruct (_ || _); [by apply keeps_ret|].
  destruct (decide (prune_skip vms w ≠ EmptyString)).
  - apply keeps_then; [|by apply keeps_ret].
    destruct (decide _); [|by apply keeps_ret]. by apply keeps_on_cleanup.
  - apply (keeps_bind _ any); [apply keeps_on_rest, keeps_on_world, keeps_DeleteWorker|].
    intros [e|] _; [by apply keeps_ret|]. apply keeps_then; [|by apply keeps_ret].
    by apply keeps_on_cleanup.
Qed.

Lemma keeps_pruneOfflineWorkers vms all live now :
  keeps sweep_inv any (pruneOfflineWorkers vms all live now).
Proof.
  unfold pruneOfflineWorkers. apply (keeps_bind _ any); [apply keeps_read_sweep|]. intros c _.
  destruct (_ <=? 0)%Z; [by apply keeps_ret|].
  apply (keeps_bind _ any).
  { apply (keeps_fold_m _ any); [done|]. intros. apply keeps_prune_worker. }
  intros [pruned skipped] _. apply keeps_then; [|by apply keeps_ret]. by apply keeps_on_cleanup.
Qed.

Lemma keeps_pushMaxCapacity ws : keeps sweep_inv any (pushMaxCapacity hooks ws).
Proof.
  unfold pushMaxCapacity. apply (keeps_bind _ any); [apply keeps_on_rest, keeps_on_capacity|].
  intros cbs _. apply keeps_for_each. intros cb. apply keeps_on_rest. simpl.
  apply keeps_recomputeScaleSetShares.
Qed.

Lemma keeps_invalidate_if (b : bool) :
  keeps sweep_inv any (if b then invalidate_state else mret tt).
Proof. destruct b; [apply keeps_on_rest, keeps_state_Invalidate|by apply keeps_ret]. Qed.

(** The queue keeps the names that the sweep has seen. *)
Lemma keeps_retain vms t :
  (armed → listed vms) → has_seen vms t →
  keeps sweep_inv any (on_cleanup (retainPendingDeletes (seen t))).
Proof.
  intros Hl Hs. apply keeps_on_cleanup. intros c [Hc Hq]. split; simpl.
  - intros n [_ ?]%elem_of_filter. auto.
  - intros Ha. apply elem_of_filter. split; [|auto].
    apply list_elem_of_fmap in Hl as (vm & Heq & Hvm); [|done].
    rewrite Heq. apply Hs; [done|]. rewrite <-Heq. auto.
Qed.

Lemma keeps_sweep : keeps sweep_inv any (sweep hooks).
Proof.
  unfold sweep. eapply keeps_bind; [apply keeps_listVMsAndWorkers|].
  intros [st|e] Hst; [|by apply keeps_ret].
  apply (keeps_bind _ any); [apply keeps_on_rest, keeps_on_world, keeps_Now|]. intros now _.
  eapply keeps_bind; [apply keeps_sweep_vms|]. intros t Ht. apply keeps_then.
  { apply (keeps_retain (st_vms st)); [|done]. intros Ha. by apply Hst. }
  apply keeps_then; [apply keeps_invalidate_if|].
  apply keeps_then; [apply keeps_on_rest, keeps_on_capacity|].
  apply keeps_then; [apply keeps_pushMaxCapacity|].
  apply (keeps_bind _ any).
  { destruct (st_fresh st); [apply keeps_pruneOfflineWorkers|by apply keeps_ret]. }
  intros pruned _. apply keeps_then; [apply keeps_invalidate_if|].
  simpl. apply keeps_on_rest. intros e' He'. unfold wp. rewrite Hobserve.
  split; [done|]. by destruct (observe _ e').1.
Qed.

Lemma keeps_on_cleanup_loop {A} (f : M Sw A) :
  keeps sweep_inv any f → keeps (sys_inv armed Good) any (on_cleanup_loop f).
Proof.
  intros Hf e He. unfold wp, on_cleanup_loop.
  destruct (Hf (cleanup (ext e), e)) as [[Hc' (Hl' & Hv' & Hh' & _)] _].
  { split; [|done]. apply He. }
  simpl. split; [|by destruct (f (cleanup (ext e), e)).1].
  split; [done|]. split; [done|]. by split.
Qed.

(** ** Start-up *)

Lemma keeps_registerScaleSet gh ss : admin_quiet gh → keeps (log_ok armed) any (registerScaleSet gh ss).
Proof.
  intros [_ Hgroup Hget Hupdate Hcreate _ _]. unfold registerScaleSet.
  apply (keeps_bind _ any).
  { destruct (decide _); [apply keeps_quiet, Hgroup|by apply keeps_ret]. }
  intros [g|e] _; [|by apply keeps_ret].
  apply (keeps_bind _ any); [apply keeps_quiet, Hget|]. intros [[ex|]|e] _;
    (apply (keeps_bind _ any); [apply keeps_quiet; apply Hupdate || apply Hcreate|]);
    intros [u|err] _; by apply keeps_ret.
Qed.

Lemma keeps_listLiveWorkers : keeps (log_ok armed) any (listLiveWorkers stale).
Proof.
  unfold listLiveWorkers. apply (keeps_bind _ any); [apply keeps_ListWorkers|].
  intros [ws|e] _; [|by apply keeps_ret].
  apply (keeps_bind _ any); [apply keeps_Now|]. intros now _. by apply keeps_ret.
Qed.

Lemma keeps_wait_for_workers fuel f : keeps (log_ok armed) any (wait_for_workers pause stale fuel f).
Proof.
  induction fuel as [|fuel IH]; simpl; [apply keeps_blocked|].
  apply (keeps_bind _ any); [apply keeps_quiet, Hpause|]. intros [|] _; [by apply keeps_ret|].
  apply (keeps_bind _ any); [apply keeps_listLiveWorkers|]. intros [ws|e] _; [|done].
  destruct (0 <? f ws)%Z; [by apply keeps_ret|done].
Qed.

Lemma keeps_initialMaxRunners fuel ss :
  keeps (log_ok armed) any (initialMaxRunners pause stale fuel ss).
Proof.
  unfold initialMaxRunners. destruct (_ <? _)%Z; [by apply keeps_ret|].
  apply (keeps_bind _ any); [apply keeps_listLiveWorkers|]. intros r _.
  destruct (_ =? 0)%Z; [apply keeps_wait_for_workers|by apply keeps_ret].
Qed.

Lemma keeps_session_loop gh tries attempt id name :
  admin_quiet gh → keeps (log_ok armed) any (session_loop pause tries attempt gh id name).
Proof.
  intros Hgh. revert attempt. induction tries as [|tries IH]; intros attempt; cbn [session_loop];
    [apply keeps_blocked|].
  apply (keeps_bind _ any); [apply keeps_quiet, Hgh|]. intros [s|e] _; [by apply keeps_ret|].
  destruct (10 <=? attempt)%Z; [by apply keeps_ret|].
  apply (keeps_bind _ any); [apply keeps_quiet, Hpause|]. intros [|] _; [by apply keeps_ret|apply IH].
Qed.

(** What follows puts new bridges in place, or changes one. *)
Section Anything.
Hypothesis Hany : ∀ b, Good b.

Lemma keeps_on_handle {A} i (f : M St A) :
  (∀ ss, keeps (handler_inv ss) any f) → keeps (sys_inv armed Good) any (on_handle i f).
Proof.
  intros Hf e He. destruct (handles (ext e) !! i) as [h|] eqn:Hi.
  - eapply wp_mono; [apply (wp_handle_keeps i h); [done..|apply Hany]|].
    by intros [a| |] e' ?.
  - unfold wp, on_handle. by rewrite Hi.
Qed.

Lemma keeps_install gh ss id n :
  admin_quiet gh → keeps (sys_inv armed Good) any (install (Session := Session) gh ss id n).
Proof.
  intros Hgh. unfold install. apply (keeps_bind _ any).
  { unfold on_ext. apply (keeps_zoom _ (mgr_inv armed Good)); [by intros e (? & ? & ?)|by intros e m (? & ? & _) ?|].
    by apply keeps_read. }
  intros hs _. apply keeps_then.
  { apply keeps_on_ext. intros m [Hh Hc]. split; [|done]. simpl. apply Forall_app.
    split; [done|]. apply Forall_singleton. split; [|apply Hany]. split; [done|].
    split; [apply map_Forall_empty|]. split; [done|]. apply Hgh. }
  apply (keeps_bind _ any); [apply keeps_on_handle, @keeps_HydrateFromOrchard|].
  intros [adopted err] _. apply keeps_then.
  { destruct (0 <? adopted)%Z; [apply keeps_on_capacity|by apply keeps_ret]. }
  apply keeps_then; [apply keeps_recomputeScaleSetShares|by apply keeps_ret].
Qed.

Lemma keeps_runScaleSet fuel client ss :
  (∀ gh, client = OK gh → admin_quiet gh) →
  keeps (sys_inv armed Good) any (runScaleSet pause stale fuel client ss).
Proof.
  intros Hc. unfold runScaleSet. destruct client as [gh|e]; [|by apply keeps_ret].
  specialize (Hc gh eq_refl).
  apply (keeps_bind _ any); [by apply keeps_on_world, keeps_registerScaleSet|].
  intros [rss|e] _; [|by apply keeps_ret].
  apply (keeps_bind _ any); [apply keeps_on_world, keeps_initialMaxRunners|].
  intros [n|] _; [|by apply keeps_ret].
  apply (keeps_bind _ any); [by apply keeps_on_world, keeps_session_loop|].
  intros [[sess|e]|] _; [|by apply keeps_ret..].
  apply (keeps_bind _ any); [apply keeps_on_world, keeps_quiet, Hc|].
  intros [e|] _; [by apply keeps_ret|by apply keeps_install].
Qed.

Lemma sys_inv_step e e' :
  sys_inv armed Good e → sys_step e e' → (armed → Has (base (world e'))) → sys_inv armed Good e'.
Proof.
  intros He Hstep Hhas. destruct Hstep as [i count|i|i name id| | |fuel gh ss Hgh|w Hw].
  - by apply (keeps_on_handle i _ (λ ss, keeps_HandleDesiredRunnerCount ss count)).
  - apply (keeps_on_handle i HandleJobStarted); [intros ss; by apply keeps_ret|done].
  - by apply (keeps_on_handle i _ (λ ss, keeps_HandleJobCompleted ss name id)).
  - by apply (keeps_on_cleanup_loop _ keeps_sweep).
  - by apply keeps_recomputeScaleSetShares.
  - apply (keeps_runScaleSet fuel (OK gh) ss); [by intros ? [= <-]|done].
  - destruct He as [[Hl _] Hm]. split; [|done]. split; [|done]. simpl. by rewrite Hw.
Qed.
End Anything.
End Invariant.

(** The manager as [New] leaves it. *)
Definition fresh_start (e : E) : Prop :=
  env_calls e = [] ∧ handles (ext e) = [] ∧ pendingDeletes (cleanup (ext e)) = ∅.

(** Reading calls are not recorded. *)
Lemma keeps_calls_on_base cs {A} (m : M W A) : keeps (λ l : LW, calls l = cs) any (on_base m).
Proof. intros l Hl. unfold wp, on_base. split; [exact Hl|]. simpl. by destruct (m (base l)).1. Qed.

Lemma keeps_calls_discoverCapacity cs thr :
  keeps (λ l : LW, calls l = cs) any (discoverCapacity thr).
Proof.
  unfold discoverCapacity. apply (keeps_bind _ any); [apply keeps_calls_on_base|].
  intros [ws|err] _; [|by apply keeps_ret].
  apply (keeps_bind _ any); [apply keeps_calls_on_base|]. intros now _. by apply keeps_ret.
Qed.

(** The process starts there: what [set_up] returns, when nothing has been asked of
    the controller before, is a fresh start. *)
Lemma set_up_fresh reg c (w : LW) :
  calls w = [] → wp (set_up reg c) (on_ret (λ e _, fresh_start e)) w.
Proof.
  intros Hw. unfold set_up. apply wp_bind. unfold wp at 1, Manager.New.
  set (probe := if (c_MaxVMs c =? 0)%Z then _ else _).
  assert (keeps (λ l : LW, calls l = []) any probe) as Hk.
  { unfold probe. destruct (_ =? 0)%Z; [|by apply keeps_ret].
    apply (keeps_bind _ any); [apply keeps_calls_discoverCapacity|].
    intros [total err] _. by apply keeps_ret. }
  specialize (Hk w Hw) as [Hcalls _]. cbv zeta. simpl.
  destruct (probe w).1 as [m| |]; [|done..]. apply wp_ret. simpl.
  split; [exact Hcalls|]. split; [done|]. unfold configure_cleanup, SetMetrics,
    SetWorkerPruneAfter, SetMaxPendingAge, SetMaxAge. simpl. by repeat case_match.
Qed.

Lemma sys_inv_run (e0 e : E) : fresh_start e0 → rtc sys_step e0 e → sys_inv False any_bridge e.
Proof.
  intros (Hlog & Hhs & Hq) Hrun.
  eapply (rtc_invariant sys_step (sys_inv False any_bridge)); [exact Hrun| |].
  - split; [unfold env_calls in Hlog; split; [by rewrite Hlog|done]|]. split; [by intros []|].
    split; [by rewrite Hhs|]. split; [intros n; by rewrite Hq|by intros []].
  - intros s s' Hs Hstep. by eapply sys_inv_step.
Qed.

Lemma tracked_own (e : E) i h k v :
  sys_inv False any_bridge e → handles (ext e) !! i = Some h → activeVMs (bridge h) !! k = Some v →
  tracks_own (scaleSetName (bridge h)) k v.
Proof.
  intros (_ & _ & Hh & _) Hi Hk. rewrite Forall_lookup in Hh.
  exact (proj1 (proj2 (proj1 (Hh i h Hi))) k v Hk).
Qed.

(** C4: the bridge touches only its own VMs.  Whatever the fleet, the jobs and
    the order of events, and whatever fails or panics on the way, every VM that
    the process ever asks the controller to create or delete carries the bridge's
    prefix, as does every VM that a bridge tracks and every name in the queue of
    failed deletions. *)
Theorem only_own_vms_touched (e0 e : E) :
  fresh_start e0 → rtc sys_step e0 e →
  Forall own_call (env_calls e) ∧
  (∀ i h k v, handles (ext e) !! i = Some h → activeVMs (bridge h) !! k = Some v →
     IsManagedVM v = true) ∧
  (∀ n, n ∈ pendingDeletes (cleanup (ext e)) → IsManagedVM n = true).
Proof.
  intros Hfresh Hrun. pose proof (sys_inv_run _ _ Hfresh Hrun) as He.
  split; [apply He|]. split; [|apply He].
  intros i h k v Hi Hk. by eapply tracked_own.
Qed.

(** C5: scale sets that share the fleet do not take each other's VMs, as long as
    their names are not too long.  In every run, a scale set whose sanitized name has
    at most 42 bytes, so that the VM names fit in 63, tracks, and so deletes at the
    end of a job, only VMs that carry its own name; and no VM is tracked by two such
    scale sets that sanitize to different names.  (Longer names are cut, and lose
    the part that tells them apart.)  UUIDs have their textual form. *)
Theorem scale_sets_isolated (e0 e : E) :
  UUIDLaw W → fresh_start e0 → rtc sys_step e0 e →
  (∀ i h k v, handles (ext e) !! i = Some h → activeVMs (bridge h) !! k = Some v →
     len (sanitize (scaleSetName (bridge h))) ≤ 42 →
     belongs_to_scale_set (scaleSetName (bridge h)) v = true) ∧
  (∀ i h k j h' k' v,
     handles (ext e) !! i = Some h → activeVMs (bridge h) !! k = Some v →
     handles (ext e) !! j = Some h' → activeVMs (bridge h') !! k' = Some v →
     len (sanitize (scaleSetName (bridge h))) ≤ 42 →
     len (sanitize (scaleSetName (bridge h'))) ≤ 42 →
     sanitize (scaleSetName (bridge h)) = sanitize (scaleSetName (bridge h'))).
Proof.
  intros Huuid Hfresh Hrun. pose proof (sys_inv_run _ _ Hfresh Hrun) as He. split.
  - intros i h k v Hi Hk Hfit. by eapply tracked_own.
  - intros i h k j h' k' v Hi Hk Hj Hk' Hfit Hfit'. apply (belongs_unique _ _ v).
    + by eapply tracked_own.
    + by eapply tracked_own.
Qed.

(** C26: in every run the bridges are well formed: each tracks every VM under the
    VM's own name, so that what is looked up by the runner of a job and what is
    purged by the name of a reaped VM are the same entry, and a VM that is purged is
    forgotten under every key; and each placement cursor is a [uint64]. *)
Theorem bridges_well_formed (e0 e : E) i h :
  fresh_start e0 → rtc sys_step e0 e → handles (ext e) !! i = Some h →
  map_Forall (λ k v, v = k) (activeVMs (bridge h)) ∧
  in_uint64 (placementCursor (bridge h)) ∧
  ∀ n k, activeVMs (PurgeActiveVM n (bridge h)) !! k ≠ Some n.
Proof.
  intros Hfresh Hrun Hi. pose proof (sys_inv_run _ _ Hfresh Hrun) as He.
  assert (map_Forall (λ k v, v = k) (activeVMs (bridge h))) as Hkv.
  { intros k v Hk. by destruct (tracked_own e i h k v He Hi Hk). }
  split; [exact Hkv|]. split.
  - destruct He as (_ & _ & Hh & _). by apply (proj1 (Forall_lookup _ _) Hh i h Hi).
  - intros n k Hk. simpl in Hk. apply lookup_delete_Some in Hk as [Hne Hk].
    by apply Hne, (Hkv k n).
Qed.
(** A step that leaves [n0] with the controller. *)
Definition pending_step (e e' : E) : Prop := sys_step e e' ∧ Has (base (world e')).

(** C14: a deletion the controller refused is not forgotten.  Once a VM is in the
    queue of failed deletions it stays there, through every message, sweep, start of
    a scale set and whatever fails or panics, for as long as the controller goes on
    reporting the VM and refusing to delete it ([steady]: while it has the VM, its
    listings have it and its deletion is refused), provided that the cached
    snapshot, if there is one, had the VM when this began.  (Without that a sweep
    can forget it: [Sweeps.outdated_snapshot_forgets_queued].) *)
Theorem queued_until_accepted (e0 e e' : E) :
  steady → fresh_start e0 → rtc sys_step e0 e →
  Has (base (world e)) → (∀ s, view e = Some s → cache_lists s) →
  n0 ∈ pendingDeletes (cleanup (ext e)) →
  rtc pending_step e e' → n0 ∈ pendingDeletes (cleanup (ext e')).
Proof.
  intros Hst Hfresh Hrun Hhas Hcache Hq Hrun'.
  destruct (sys_inv_run _ _ Hfresh Hrun) as ([Hlog _] & _ & Hh & Hc & _).
  assert (sys_inv True any_bridge e') as (_ & _ & _ & _ & Hend); [|by apply Hend].
  eapply (rtc_invariant pending_step (sys_inv True any_bridge)); [exact Hrun'| |].
  - split; [by split|]. split; [by intros _|]. split; [done|]. by split.
  - intros s s' Hs [Hstep ?]. by eapply sys_inv_step.
Qed.
End Safety.

(** ** Witness *)

(** A controller shared with somebody else, whose VM has failed. *)
Definition neighbours : Fleet :=
  mkFleet [runner_vm "someone-elses-vm" "failed" "mini-1" "mini-1";
           runner_vm "gha-orchard-large-0a0a0a0a" "failed" "mini-1" "mini-1"]
    [mac "mini-1" "mini-1" 10 16384] (λ _, false).

Definition neighbours_env : Env (Logged (Sim neighbours)) unit (Mgr (Logged (Sim neighbours))) :=
  mkEnv (mkLogged (mkSim 100%Z 0) []) (NewCapacity 1%Z) (Some (NewStateView 0%Z 0%Z))
    (mkMgr [] NewCleanup).

Definition no_report {W : Type} (ws : list Worker) : M (Env W unit (Mgr W)) unit := mret tt.

Lemma only_own_vms_touched_witness :
  let e := (on_cleanup_loop (sweep (sweep_hooks None no_report)) neighbours_env).2 in
  env_calls e = [CallDeleteVM "gha-orchard-large-0a0a0a0a" true] ∧
  Forall own_call (env_calls e).
Proof.
  intros e. split; [by vm_compute|].
  refine (proj1 (only_own_vms_touched EmptyString (λ _, True) None no_report (Session := unit) go_on Hour
    _ _ _
    neighbours_env e _ _)).
  - done.
  - done.
  - done.
  - done.
  - apply rtc_once. apply step_sweep.
Defined.

(** Two scale sets started on one fleet. *)
Definition empty_manager : Env (Logged (Sim shared_fleet)) unit (Mgr (Logged (Sim shared_fleet))) :=
  mkEnv (mkLogged (mkSim 100%Z 0) []) (NewCapacity 2%Z) (Some (NewStateView 0%Z 0%Z))
    (mkMgr [] NewCleanup).

Definition large_set : ScaleSetConfig :=
  mkScaleSetConfig "large" "https://github.com/acme" ["macos"] "default" 0
    (mkVMConfig "macos" 4 8192 0 0 {["vm-class" := "large"]} (mkAutoSizeConfig false 0 0)).

Definition both_started : Env (Logged (Sim shared_fleet)) unit (Mgr (Logged (Sim shared_fleet))) :=
  (runScaleSet go_on Hour 1 (OK willing_admin) large_set
    (runScaleSet go_on Hour 1 (OK willing_admin) small_set empty_manager).2).2.

Lemma willing_admin_quiet : admin_quiet (λ _, True) willing_admin.
Proof. split; [split|..]; done. Qed.

Lemma both_started_run :
  rtc (sys_step (λ _, True) None no_report (Session := unit) go_on Hour) empty_manager both_started.
Proof.
  pose proof willing_admin_quiet as Hquiet.
  eapply rtc_l; [by apply (step_start _ _ _ _ _ _ 1 willing_admin small_set)|].
  apply rtc_once. by apply (step_start _ _ _ _ _ _ 1 willing_admin large_set).
Qed.

Lemma scale_sets_isolated_witness :
  let e := both_started in
  (λ h, map_to_list (activeVMs (bridge h))) <$> handles (ext e) =
    [[("gha-orchard-small-2c2c2c2c", "gha-orchard-small-2c2c2c2c")];
     [("gha-orchard-large-0a0a0a0a", "gha-orchard-large-0a0a0a0a")]] ∧
  (∀ i h k v, handles (ext e) !! i = Some h → activeVMs (bridge h) !! k = Some v →
     len (sanitize (scaleSetName (bridge h))) ≤ 42 →
     belongs_to_scale_set (scaleSetName (bridge h)) v = true).
Proof.
  intros e. split; [by vm_compute|].
  refine (proj1 (scale_sets_isolated EmptyString (λ _, True) None no_report (Session := unit) go_on Hour
    _ _ _
    empty_manager e _ _ _)).
  - done.
  - done.
  - done.
  - done.
  - exact both_started_run.
Defined.

Lemma bridges_well_formed_witness :
  (λ h, size (activeVMs (bridge h))) <$> handles (ext both_started) !! 1 = Some 1 ∧
  ∀ h, handles (ext both_started) !! 1 = Some h → map_Forall (λ k v, v = k) (activeVMs (bridge h)).
Proof.
  split; [vm_compute; reflexivity|]. intros h Hh.
  refine (proj1 (bridges_well_formed EmptyString (λ _, True) None no_report (Session := unit) go_on Hour
    _ _ _
    empty_manager both_started 1 h _ both_started_run Hh)); clear Hh.
  - done.
  - done.
  - done.
  - done.
Defined.

(** The controller refuses every deletion.  A job of the scale set "small" ends,
    and sweeps follow. *)
Definition finished : string := "gha-orchard-small-2c2c2c2c".

Definition small_started : Env (Logged (Sim shared_fleet)) unit (Mgr (Logged (Sim shared_fleet))) :=
  (runScaleSet go_on Hour 1 (OK willing_admin) small_set empty_manager).2.
Definition job_refused : Env (Logged (Sim shared_fleet)) unit (Mgr (Logged (Sim shared_fleet))) :=
  (on_handle 0 (HandleJobCompleted bridge_hooks finished 5) small_started).2.
Definition swept_twice : Env (Logged (Sim shared_fleet)) unit (Mgr (Logged (Sim shared_fleet))) :=
  let once := (on_cleanup_loop (sweep (sweep_hooks None no_report)) job_refused).2 in
  (on_cleanup_loop (sweep (sweep_hooks None no_report)) once).2.

Lemma shared_fleet_steady : steady (W := Sim shared_fleet) finished (λ _, True).
Proof.
  constructor; try done.
  - intros w _. unfold wp. simpl. by eexists.
  - intros w _. unfold wp. simpl. intros vms [= <-]. unfold listed, finished. simpl. set_solver.
Qed.

Lemma job_refused_run :
  rtc (sys_step (λ _, True) None no_report (Session := unit) go_on Hour) empty_manager job_refused.
Proof.
  eapply rtc_l; [by apply (step_start _ _ _ _ _ _ 1 willing_admin small_set), willing_admin_quiet|].
  apply rtc_once. apply (step_job_completed _ _ _ _ _ _ 0 finished 5).
Qed.

(** The cached snapshot has the VM. *)
Lemma job_refused_cached s : view job_refused = Some s → cache_lists finished s.
Proof.
  assert (match view job_refused with
          | Some s => match snap s with
                      | Some sn => bool_decide (finished ∈ vm_Name <$> VMs sn)
                      | None => true
                      end
          | None => true
          end = true) as H by (vm_compute; reflexivity).
  destruct (view job_refused) as [s'|]; [|done]. intros [= ->] sn Hsn. rewrite Hsn in H.
  by apply bool_decide_eq_true in H.
Qed.

Lemma queued_until_accepted_witness :
  env_calls swept_twice = [CallDeleteVM finished false; CallDeleteVM finished false;
    CallDeleteVM "gha-orchard-small-3d3d3d3d" false; CallDeleteVM finished false;
    CallDeleteVM "gha-orchard-small-3d3d3d3d" false] ∧
  finished ∈ pendingDeletes (cleanup (ext swept_twice)).
Proof.
  split; [vm_compute; reflexivity|].
  refine (queued_until_accepted finished (λ _, True) None no_report (Session := unit) go_on Hour
    _ _ _ empty_manager job_refused swept_twice shared_fleet_steady _ job_refused_run I
    job_refused_cached _ _).
  - done.
  - done.
  - done.
  - done.
  - apply (bool_decide_unpack _). vm_compute. exact I.
  - eapply rtc_l; [split; [apply step_sweep|done]|].
    apply rtc_once. split; [apply step_sweep|done].
Defined.

(** A sweep before a scale set is started already counts the VMs that the scale
    set then adopts: their slots are taken twice, until the next sweep. *)
Example adopted_after_sweep_counts_twice :
  let swept := (on_cleanup_loop (sweep (sweep_hooks None no_report)) empty_manager).2 in
  let started := (runScaleSet go_on Hour 1 (OK willing_admin) small_set swept).2 in
  (InUse (capacity swept), Max (capacity swept)) = (3%Z, 2%Z) ∧
  InUse (capacity started) = 4%Z ∧
  length (fleet_reported_vms shared_fleet) = 3.
Proof. by vm_compute. Qed.
