(* ===== verification/Live.v ===== *)
(** * The system never fails

    Every state that the assembled process reaches from its start meets what the
    theorems about the components ask for: the handlers, the sweeps and the
    recomputation of the shares always return, none panics or blocks, and what
    Scaling, BridgeJobs and Sweeps say holds of each. *)

From S2P Require Import Prelude GoBase Orchard VMNames Workers.
From S2P Require Import AutoSize Capacity StateView Config Env Bridge Sample.
From S2P Require Import BridgeScaleUp Scaling BridgeJobs Cleanup Reaping Sweeps.
From S2P Require Import Manager Wiring Startup System.

(** ** Sizes *)

Lemma size_keys {A} (m : gmap string A) (l : list string) :
  (∀ k, is_Some (m !! k) → k ∈ l) → size m ≤ length l.
Proof.
  intros H. rewrite <-length_map_to_list, <-(length_fmap fst).
  apply submseteq_length, NoDup_submseteq; [apply NoDup_fst_map_to_list|].
  intros k ([k' v] & -> & Hin)%list_elem_of_fmap. apply elem_of_map_to_list in Hin.
  apply H. by eexists.
Qed.

Lemma size_tracked m news : size (foldl track m news) ≤ size m + count_accepted news.
Proof.
  unfold count_accepted. revert m. induction news as [|c news IH]; intros m; simpl; [lia|].
  etrans; [apply IH|]. rewrite filter_cons.
  destruct c as [vm []|n ok|n ok]; simpl; try (case_decide; simpl); try lia.
  rewrite map_size_insert. case_match; simpl; lia.
Qed.

(** ** One scale-up *)

Section Grows.
Context {W CB X : Type} `{!OrchardClient W} `{!Clock W} `{!UUIDSource W}.
Context `{!ClientTotal W} `{!UUIDLaw W}.
Context (Pv : list VM → Prop) (Pw : list Worker → Prop) `{!Reports W Pv Pw}.
Context (hooks : Hooks (Logged W) CB X) (gh : GHClient W).

(** How far a scale-up moves what must stay in range: it tracks no more than the
    runners wanted or those there were, takes no slot beyond the maximum, and
    moves the cursor by at most the free slots. *)
Record grown (count : Z) (b : Bridge (Logged W)) (e : Env (Logged W) CB X)
    (n : Z) (b' : Bridge (Logged W)) (e' : Env (Logged W) CB X) : Prop := {
  grown_bridge : same_bridge b b';
  grown_env : env_live Pv Pw hooks e';
  grown_active : (ActiveVMCount b' ≤ n)%Z;
  grown_reported : (ActiveVMCount b ≤ n ≤ Z.max (ActiveVMCount b) count)%Z;
  grown_cursor : (placementCursor b ≤ placementCursor b' ≤
    placementCursor b + Z.max 0 (max (capacity e) - current (capacity e)))%Z;
  grown_max : max (capacity e') = max (capacity e);
  grown_current :
    current (capacity e') = (current (capacity e) + (n - ActiveVMCount b))%Z;
  grown_within : (current (capacity e') ≤
    Z.max (current (capacity e)) (max (capacity e)))%Z
}.

Lemma scaled_grown P limit count b e b' e' made err news :
  (limit ≤ Z.max 0 (count - ActiveVMCount b))%Z →
  scaled Pv Pw hooks P limit (b, e) (b', e') made err news →
  (placementCursor b ≤ placementCursor b' ≤
    placementCursor b + Z.max 0 (max (capacity e) - current (capacity e)))%Z →
  grown count b e (ActiveVMCount b + Z.of_nat made) b' e'.
Proof.
  intros Hl [S1 S2 S3 S4 S5 S5' S6 S7 S8 S9 S10] Hcu. simpl in *.
  assert (made ≤ made + if err then 1 else 0) by lia.
  constructor; try done; try lia.
  unfold ActiveVMCount. rewrite S5, S5'. pose proof (size_tracked (activeVMs b) news). lia.
Qed.

Lemma wp_scale_up_grows b e count :
  ready Pv Pw hooks gh b e count →
  wp (HandleDesiredRunnerCount hooks count)
     (returns (λ '(n, _) '(b', e'), grown count b e n b' e')) (b, e).
Proof.
  intros [Hh Hgh Hgt Hok Hfl Hs Hcur Hcnt Hau].
  destruct (AutoSizeEnabled b) eqn:Ha.
  - eapply wp_auto_scale_up; try done. intros limit cands [b' e'] made err news Hle _ Hsc Hcu.
    eapply scaled_grown; [exact Hle|exact Hsc|]. simpl in Hcu. lia.
  - eapply wp_fixed_scale_up; try done. intros limit [b' e'] made err news Hle _ Hsc Hcu.
    eapply scaled_grown; [exact Hle|exact Hsc|]. simpl in Hcu. lia.
Qed.
End Grows.

(** ** What stays in range *)

Section Live.
Context {W : Type} `{!OrchardClient W} `{!Clock W} `{!UUIDSource W}.
Context `{!ClientTotal W} `{!UUIDLaw W}.
Context (Pv : list VM → Prop) (Pw : list Worker → Prop) `{!Reports W Pv Pw}.
Notation LW := (Logged W).
Notation E := (Env LW unit (Mgr LW)).
Context {Session : Type} (pause : Duration → M LW bool) (stale : Duration).
Context (remover : option (string → M LW (option error))) (observe : list Worker → M E unit).
Notation hooks := (sweep_hooks remover observe).

(** No fleet has more than [B] VMs or slots. *)
Context (B : Z).
Record bounded : Prop := {
  bounded_positive : (0 ≤ B)%Z;
  bounded_fleet : fleet_ok Pv Pw;
  bounded_names : ∀ vms, Pv vms → NoDup (vm_Name <$> vms);
  bounded_vms : ∀ vms, Pv vms → (Z.of_nat (length vms) ≤ B)%Z;
  bounded_slots : ∀ ws, Pw ws → (sum_slots (λ _, true) ws ≤ B)%Z
}.
Hypothesis Hbounded : bounded.

(** The collaborators do not change the controller, and do not get stuck. *)
Hypothesis Hpause : ∀ d, quietly (λ _, True) (pause d).
Hypothesis Hremover : ∀ rm n l, remover = Some rm →
  (rm n l).1 ≠ Blocked ∧ calls (rm n l).2 = calls l.
Hypothesis Hobserve : ∀ ws e, observe ws e = (Ret tt, e).

(** The administrative client and the configuration of a scale set. *)
Record startable (gh : AdminClient LW Session) (ss : ScaleSetConfig) : Prop := {
  st_admin : admin_ok gh;
  st_runners : ∃ g, runners gh = logged_gh g ∧ gh_total g;
  st_cpu : in_uint64 (ReserveCPU (cfg_AutoSize (ss_VM ss)));
  st_memory : in_uint64 (ReserveMemoryMiB (cfg_AutoSize (ss_VM ss)))
}.

(** The steps of the system ([System.sys_step]) in which GitHub asks for at most
    [B] runners and the scale sets started are startable. *)
Inductive live_step (e : E) : E → Prop :=
  | live_desired i count :
      (Z.abs count ≤ B)%Z →
      live_step e (on_handle i (HandleDesiredRunnerCount bridge_hooks count) e).2
  | live_job_started i : live_step e (on_handle i HandleJobStarted e).2
  | live_job_completed i runnerName runnerID :
      live_step e (on_handle i (HandleJobCompleted bridge_hooks runnerName runnerID) e).2
  | live_sweep : live_step e (on_cleanup_loop (sweep hooks) e).2
  | live_shares : live_step e (recomputeScaleSetShares e).2
  | live_start fuel gh ss :
      startable gh ss → live_step e (runScaleSet pause stale fuel (OK gh) ss e).2
  | live_world w : calls w = env_calls e → live_step e (with_world e w).

Notation always := (λ _ : W, True).
Notation sys_steps := (System.sys_step always remover observe (Session := Session) pause stale).
Notation sys_inv := (System.sys_inv EmptyString always False).

Lemma quietly_leaves {A} (P : A → Prop) (m : M LW A) : quietly P m → leaves_alone always m.
Proof. intros Hm l. by destruct (Hm l) as [Hc _]. Qed.

Lemma logged_quiet g : gh_quiet (W := W) always (logged_gh g).
Proof. by split. Qed.

Lemma startable_quiet gh ss : startable gh ss → admin_quiet always gh.
Proof.
  intros [[A1 A2 A3 A4 A5 A6] (g & Hg & _) _ _].
  split; [rewrite Hg; apply logged_quiet|..]; intros; by eapply quietly_leaves.
Qed.

Lemma live_step_sys e e' : live_step e e' → sys_steps e e'.
Proof.
  intros [i count _|i|i name id| | |fuel gh ss Hs|w Hw];
    [apply step_desired|apply step_job_started|apply step_job_completed|apply step_sweep|
     apply step_shares|eapply step_start, startable_quiet, Hs|by apply step_world].
Qed.

(** A bridge after at most [n] steps. *)
Definition good (n : nat) (b : Bridge LW) : Prop :=
  (∃ g, ghClient b = logged_gh g ∧ gh_total g) ∧
  in_uint64 (AutoSizeReserveConfig b).1 ∧ in_uint64 (AutoSizeReserveConfig b).2 ∧
  (ActiveVMCount b ≤ B)%Z ∧ (0 ≤ placementCursor b ≤ Z.of_nat n * (2 * B))%Z.

(** The semaphore after at most [n] steps. *)
Definition cap_within (n : nat) (c : Capacity unit) : Prop :=
  (0 ≤ current c ≤ (Z.of_nat n + 1) * B)%Z ∧ (Z.abs (max c) ≤ B)%Z.

Definition alive (n : nat) (e : E) : Prop :=
  sys_inv (good n) e ∧ env_ok Pv Pw e ∧ is_Some (view e) ∧ cap_within n (capacity e).

(** Up to here nothing comes near the end of an [int]. *)
Definition in_range (n : nat) : Prop := ((Z.of_nat n + 3) * (2 * B) < 4611686018427387904)%Z.

Lemma good_S n b : good n b → good (S n) b.
Proof. pose proof (bounded_positive Hbounded). intros (? & ? & ? & ? & ?). split_and!; try done; lia. Qed.

Lemma cap_within_S n c : cap_within n c → cap_within (S n) c.
Proof. pose proof (bounded_positive Hbounded). unfold cap_within. lia. Qed.

Lemma sys_inv_mono (P Q : Bridge LW → Prop) e :
  (∀ b, P b → Q b) → sys_inv P e → sys_inv Q e.
Proof.
  intros HPQ (? & ? & Hh & ?). split; [done|]. split; [done|]. split; [|done].
  eapply Forall_impl; [exact Hh|]. intros h [? ?]. split; [done|auto].
Qed.

Lemma alive_S n e : alive n e → alive (S n) e.
Proof.
  intros (? & ? & ? & ?). split; [by eapply sys_inv_mono; [apply good_S|]|].
  split; [done|]. split; [done|]. by apply cap_within_S.
Qed.

Lemma alive_good n e i h : alive n e → handles (ext e) !! i = Some h → good n (bridge h).
Proof.
  intros [(_ & _ & Hh & _) _] Hi. by apply (proj1 (Forall_lookup _ _) Hh i h Hi).
Qed.

Lemma alive_small n e : in_range n → alive n e → cap_small (capacity e).
Proof.
  pose proof (bounded_positive Hbounded).
  unfold in_range. intros Hr (_ & _ & _ & Hc & Hm). unfold cap_small, small. nia.
Qed.

Lemma alive_live n e : alive n e → env_live Pv Pw bridge_hooks e.
Proof. intros (_ & Hok & Hv & _). split; [done|by left]. Qed.

(** ** The handlers *)

Lemma alive_ready n e i h count :
  in_range n → alive n e → handles (ext e) !! i = Some h → (Z.abs count ≤ B)%Z →
  ∃ g, ready Pv Pw bridge_hooks g (bridge h) e count.
Proof.
  intros Hr He Hi Hcount. pose proof (alive_good _ _ _ _ He Hi) as (Hg & Hc & Hm & Ha & Hcu).
  destruct Hg as (g & Hg & Ht). exists g. pose proof (bounded_positive Hbounded).
  unfold in_range in Hr.
  constructor; try done.
  - by apply bridge_hooks_ok.
  - by eapply alive_live.
  - exact (bounded_fleet Hbounded).
  - by eapply alive_small.
  - apply He.
  - split; [unfold small; nia|]. nia.
  - split; [done|]. split; [done|]. nia.
Qed.
(** A handler run on one of the bridges. *)
Lemma wp_alive_handle {A} n i h (f : M (Bridge LW * E) A)
    (Q : outcome A → Capacity unit → Prop) e :
  (∀ ss, keeps (handler_inv EmptyString always False (good (S n)) ss) (λ _, True) f) →
  alive n e → handles (ext e) !! i = Some h →
  wp f (λ o s', (good (S n) s'.1 ∧ env_live Pv Pw bridge_hooks s'.2 ∧
                 cap_within (S n) (capacity s'.2)) ∧ Q o (capacity s'.2)) (bridge h, e) →
  wp (on_handle i f) (λ o e', alive (S n) e' ∧ Q o (capacity e')) e.
Proof.
  intros Hf He Hi Hwp.
  assert (wp (on_handle i f) (λ _ e', sys_inv (good (S n)) e') e) as Hinv.
  { eapply wp_handle_keeps; [done..|by apply alive_S|].
    eapply wp_mono; [exact Hwp|]. by intros o s' [[? _] _]. }
  assert (wp (on_handle i f) (λ o e', env_live Pv Pw bridge_hooks e' ∧
    cap_within (S n) (capacity e') ∧ Q o (capacity e')) e) as Hrest.
  { eapply wp_on_handle; [done|]. eapply wp_mono; [exact Hwp|].
    intros o s' [(_ & Hl & Hc) HQ]. done. }
  eapply wp_mono; [apply wp_and; [exact Hinv|exact Hrest]|].
  intros o e' (Hs & [Hok Hv] & Hc & HQ). split; [|done]. split; [done|]. split; [done|].
  split; [|done]. by destruct Hv as [?|[? _]].
Qed.

Lemma silent (P : Prop) : False → P.
Proof. by intros []. Qed.
Lemma observe_same ws e : (observe ws e).2 = e.
Proof. by rewrite Hobserve. Qed.
Lemma remover_leaves rm n : remover = Some rm → leaves_alone always (rm n).
Proof. intros Hrm l. by destruct (Hremover rm n l Hrm). Qed.
Lemma pause_leaves d : leaves_alone always (pause d).
Proof. by eapply quietly_leaves. Qed.

Lemma good_purge n k b : good n b → good n (PurgeActiveVM k b).
Proof.
  intros (? & ? & ? & Ha & ?). do 3 (split; [done|]). split; [|done].
  unfold ActiveVMCount, PurgeActiveVM in *. simpl.
  rewrite map_size_delete. case_match; simpl; lia.
Qed.

(** A scale-up returns what is tracked, no more than was asked for, and takes a
    slot for each VM it reports more. *)
Definition scaled_up (count : Z) (b : Bridge LW) (c : Capacity unit)
    (o : outcome (Z * option error)) (c' : Capacity unit) : Prop :=
  ∃ k err, o = Ret (k, err) ∧ (ActiveVMCount b ≤ k ≤ Z.max (ActiveVMCount b) count)%Z ∧
    InUse c' = (InUse c + (k - ActiveVMCount b))%Z ∧ Max c' = Max c ∧
    (InUse c' ≤ Z.max (InUse c) (Max c))%Z.

Lemma alive_desired n e i h count :
  in_range n → alive n e → handles (ext e) !! i = Some h → (Z.abs count ≤ B)%Z →
  wp (on_handle i (HandleDesiredRunnerCount bridge_hooks count))
     (λ o e', alive (S n) e' ∧ scaled_up count (bridge h) (capacity e) o (capacity e')) e.
Proof.
  intros Hr He Hi Hcount.
  destruct (alive_ready n e i h count Hr He Hi Hcount) as (g & Hready).
  apply (wp_alive_handle n i h _ (scaled_up count (bridge h) (capacity e))); [|done|done|].
  { intros ss. by apply keeps_HandleDesiredRunnerCount. }
  eapply wp_mono; [by apply (wp_scale_up_grows Pv Pw bridge_hooks g)|].
  intros [[k err]| |] [b' e']; simpl; [|done..]. intros [G1 G2 G3 G4 G5 G6 G7 G8].
  pose proof (alive_good _ _ _ _ He Hi) as ((g' & Hg & Ht) & Hc & Hm & Ha & Hcu).
  destruct He as (_ & _ & _ & Hcur & Hmax). pose proof (bounded_positive Hbounded).
  destruct G1 as (_ & _ & Hcfg & Hgh).
  assert (0 ≤ ActiveVMCount (bridge h))%Z by (unfold ActiveVMCount; lia).
  split.
  - split; [|split; [done|unfold cap_within; nia]].
    split; [exists g'; by rewrite Hgh|]. unfold AutoSizeReserveConfig in *. rewrite Hcfg.
    split; [done|]. split; [done|]. split; [lia|]. nia.
  - exists k, err. unfold InUse, Max. do 3 (split; [done|]). by split.
Qed.

(** A completed job never fails. *)
Definition completed_job (c : Capacity unit) (o : outcome (option error)) (c' : Capacity unit)
    : Prop :=
  o = Ret None ∧ Max c' = Max c ∧ (InUse c' = InUse c ∨ InUse c' = Z.max 0 (InUse c - 1)).

Lemma alive_completed n e i h name id :
  in_range n → alive n e → handles (ext e) !! i = Some h →
  wp (on_handle i (HandleJobCompleted bridge_hooks name id))
     (λ o e', alive (S n) e' ∧ completed_job (capacity e) o (capacity e')) e.
Proof.
  intros Hr He Hi. pose proof (alive_good _ _ _ _ He Hi) as Hgood.
  pose proof (alive_live _ _ He) as Hlive. pose proof (alive_small _ _ Hr He) as Hsmall.
  apply (wp_alive_handle n i h _ (completed_job (capacity e))); [|done|done|].
  { intros ss. apply (keeps_HandleJobCompleted _ _ remover observe pause); try done.
    - apply remover_leaves.
    - apply observe_same.
    - apply pause_leaves.
    - intros k b. apply good_purge. }
  pose proof Hgood as ((g & Hg & Ht) & _). destruct He as (_ & _ & _ & Hcap).
  eapply (wp_HandleJobCompleted Pv Pw bridge_hooks g queued);
    [by apply bridge_hooks_ok|done..|by apply (bridge_hooks_queue Pv Pw)|by eexists| |].
  - intros _. split; [|split; [done|]; split; [done|by left]].
    split; [by apply good_S|]. split; [done|]. by apply cap_within_S.
  - intros vm ok e' _ Hlive' _ Hdone.
    assert (cap_within (S n) (capacity e') ∧ Max (capacity e') = Max (capacity e) ∧
      (InUse (capacity e') = InUse (capacity e) ∨
       InUse (capacity e') = Z.max 0 (InUse (capacity e) - 1))) as (Hc & Hm & Hu).
    { apply cap_within_S in Hcap. destruct ok; simpl in Hdone.
      - rewrite Hdone, Release_spec by (done || unfold small; lia).
        unfold cap_within, Max, InUse in *. simpl. split; [lia|]. by split; [|right].
      - destruct Hdone as [-> _]. by split_and!; [..|left]. }
    split; [|by split]. split; [by apply good_purge, good_S|by split].
Qed.

(** ** Sweeps *)

Lemma alive_sweep_ready n e :
  alive n e → sweep_ready Pv Pw true hooks (cleanup (ext e), e).
Proof.
  intros (_ & Hok & Hv & _). constructor; [|by split|apply (bounded_names Hbounded)|].
  - apply (sweep_hooks_ok Pv Pw).
    + intros rm k Hrm e' He'. unfold on_world. apply wp_zoom. unfold wp.
      destruct (Hremover rm k (world e') Hrm) as [Hb Hc]. split; [done|].
      constructor; try done. by rewrite app_nil_r.
    + intros ws e' He'. unfold wp. rewrite Hobserve. apply evolves_refl.
  - apply (fleet_slots _ _ (bounded_fleet Hbounded)).
Qed.

Lemma wp_on_cleanup_loop {A} (f : M (Cleanup * E) A) (Q : outcome A → E → Prop) e :
  wp f (λ o s, Q o (mkEnv (world s.2) (capacity s.2) (view s.2) (set_cleanup s.1 (ext s.2))))
    (cleanup (ext e), e) →
  wp (on_cleanup_loop f) Q e.
Proof. done. Qed.

Lemma slots_within P l ws :
  Pw ws → l `sublist_of` ws → (0 ≤ sum_slots P l ≤ B)%Z.
Proof.
  intros Hws Hsub. destruct (fleet_slots _ _ (bounded_fleet Hbounded) ws Hws) as [Hall _].
  pose proof (sum_slots_sublist P _ _ Hall Hsub).
  pose proof (sum_slots_bounds P _ Hall). pose proof (bounded_slots Hbounded ws Hws).
  assert (Forall (λ w, 0 ≤ slots w)%Z l) as Hall'.
  { rewrite Forall_forall in Hall |- *. intros w Hw. apply Hall.
    revert w Hw. change (l ⊆ ws). by apply sublist_subseteq. }
  pose proof (sum_slots_bounds P _ Hall'). lia.
Qed.

Lemma fetched_within st :
  fetched Pv Pw st →
  (Z.of_nat (length (st_vms st)) ≤ B)%Z ∧ (0 ≤ total_slots (st_live st) ≤ B)%Z.
Proof.
  intros Hst.
  assert (∃ vms ws, Pv vms ∧ st_vms st = vms ∧ Pw ws ∧ st_live st `sublist_of` ws)
    as (vms & ws & Hvms & -> & Hws & Hsub).
  { destruct Hst as [(sn & err & Hsn & ->)|(vms & ws & now & ? & ? & ->)].
    - destruct (snapshot_live Pv Pw sn Hsn) as (ws & Hws & Hsub).
      exists (VMs sn), ws. split; [by eapply snapshot_vms|done].
    - by exists vms, ws. }
  split; [by apply (bounded_vms Hbounded)|].
  rewrite total_slots_sum; [by eapply slots_within|].
  eapply slots_ok_sublist; [exact Hsub|]. by apply (fleet_slots _ _ (bounded_fleet Hbounded)).
Qed.

Lemma alive_sweep n e :
  alive n e →
  wp (on_cleanup_loop (sweep hooks)) (λ o e', alive (S n) e' ∧ o = Ret tt) e.
Proof.
  intros He. pose proof (alive_sweep_ready n e He) as Hready.
  pose proof (alive_S _ _ He) as (Hinv & _ & _ & Hcap).
  assert (wp (on_cleanup_loop (sweep hooks)) (λ _ e', sys_inv (good (S n)) e') e) as Hs.
  { eapply wp_mono; [apply (keeps_on_cleanup_loop EmptyString always False (good (S n)));
      [|exact Hinv]|by intros o e' [? _]].
    apply (keeps_sweep _ _ remover observe pause); try done.
    - apply remover_leaves.
    - apply observe_same.
    - apply pause_leaves.
    - intros k b. apply good_purge. }
  assert (wp (on_cleanup_loop (sweep hooks)) (λ o e', (sweepable Pv Pw true e' ∧
    cap_within (S n) (capacity e')) ∧ o = Ret tt) e) as Hrest.
  { apply wp_on_cleanup_loop. destruct Hready as [Hh Hok Hnd _].
    apply (wp_sweep Pv Pw hooks true); [done..| |].
    - intros err s' _ (_ & Hs' & _ & Hc). split; [|done]. split; [done|]. simpl. by rewrite Hc.
    - intros st now gone reaped prunes s' _ Hst Hsw. split; [|done].
      split; [apply (sw_env Hsw)|].
      destruct (fetched_within st Hst) as [Hvms Hslots].
      unfold cap_within. simpl. rewrite (sw_current Hsw).
      rewrite (sw_max Hsw).
      match goal with |- context [length (filter ?P ?l)] =>
        pose proof (length_filter P l) end.
      pose proof (bounded_positive Hbounded). nia. }
  eapply wp_mono; [apply wp_and; [exact Hs|exact Hrest]|].
  intros o e' (Hs' & ([Hok Hv] & Hc) & Ho). split; [|done].
  split; [done|]. split; [done|]. split; [by apply Hv|done].
Qed.

Lemma alive_shares n e :
  alive n e → wp recomputeScaleSetShares (λ o e', alive (S n) e' ∧ o = Ret tt) e.
Proof.
  intros He. apply alive_S in He as (Hinv & Hok & Hv & Hcap).
  pose proof (keeps_recomputeScaleSetShares EmptyString always False (silent _) _ _ Hinv) as Hs.
  eapply wp_mono; [apply wp_and; [exact Hs|]|].
  { instantiate (1 := λ o e', (env_ok Pv Pw e' ∧ is_Some (view e') ∧
      capacity e' = capacity e) ∧ o = Ret tt).
    apply (wp_recompute Pv Pw); [done|done|]. intros e' Hok' Hv' Hcap' _ _. done. }
  intros o e' [[Hs' _] [(Hok' & Hv' & Hcap') Ho]]. split; [|done]. split; [done|].
  split; [done|]. split; [done|]. by rewrite Hcap'.
Qed.

(** ** Starting a scale set *)

Lemma sys_inv_strengthen (P : Bridge LW → Prop) e :
  sys_inv any_bridge e → (∀ i h, handles (ext e) !! i = Some h → P (bridge h)) → sys_inv P e.
Proof.
  intros (? & ? & Hh & ?) HP. split; [done|]. split; [done|]. split; [|done].
  apply Forall_lookup. intros i h Hi.
  destruct (proj1 (Forall_lookup _ _) Hh i h Hi) as [Hb _]. split; [done|by eapply HP].
Qed.

Lemma alive_with_world n e w : calls w = env_calls e → alive n e → alive n (with_world e w).
Proof.
  intros Hw (((Hl & _) & Hc & Hm) & Hrest). split; [|exact Hrest].
  split; [|done]. split; [|done]. simpl. by rewrite Hw.
Qed.

(** What a new bridge has adopted. *)
Lemma adopted_within (b : Bridge LW) osn n :
  hydrated Pv Pw b osn n b →
  (ActiveVMCount b ≤ B)%Z ∧ (0 ≤ n ≤ B)%Z.
Proof.
  pose proof (bounded_positive Hbounded). unfold ActiveVMCount.
  destruct osn as [sn|]; simpl; [|intros [-> ->]; by rewrite map_size_empty].
  intros (Hsn & Hn & Hk). pose proof (bounded_vms Hbounded _ (snapshot_vms Pv Pw sn Hsn)) as Hvms. split.
  - assert (size (activeVMs b) ≤ length (VMs sn)); [|lia].
    rewrite <-(length_fmap vm_Name). apply size_keys. intros k [v Hv].
    apply Hk in Hv as (_ & vm & Hin & _ & <- & _). by apply list_elem_of_fmap_2.
  - pose proof (length_filter BridgeJobs.alive (ManagedVMsForScaleSet sn (scaleSetName b))).
    pose proof (length_filter (λ vm, belongs_to_scale_set (scaleSetName b) (vm_Name vm) = true) (VMs sn)).
    unfold ManagedVMsForScaleSet in *. lia.
Qed.

(** A scale set in place. *)
Lemma alive_in_place n e e' gh ss id m h w :
  in_range n → alive n e → startable gh ss →
  sys_inv any_bridge e' → env_ok Pv Pw e' → is_Some (view e') →
  in_place Pv Pw ss (length (handles (ext e))) w e e' →
  handles (ext e') !! length (handles (ext e)) = Some h →
  bridge h = set_activeVMs m (Bridge.New (ss_Name ss) id (ss_VM ss) (runners gh)) →
  alive (S n) e'.
Proof.
  intros Hr He Hst Hany Hok' Hv' Hin Hh Hb. pose proof He as (_ & _ & _ & Hcap).
  destruct Hin as (_ & Hlen & _ & Hold & h' & adopted & Hh' & _ & _ & _ & (osn & err & _ & Had) & Hcap').
  assert (h' = h) as -> by congruence. apply adopted_within in Had as [Hact Had].
  pose proof (bounded_positive Hbounded).
  split; [|split; [done|split; [done|]]].
  - apply sys_inv_strengthen; [done|]. intros j hj Hj.
    destruct (decide (j = length (handles (ext e)))) as [->|Hne].
    + assert (hj = h) as -> by congruence. destruct Hst as [_ (g & Hg & Ht) Hc Hm].
      rewrite Hb in Hact |- *. split; [by exists g|]. do 3 (split; [done|]). simpl. lia.
    + apply lookup_lt_Some in Hj as Hlt.
      destruct (lookup_lt_is_Some_2 (handles (ext e)) j ltac:(lia)) as [hj0 Hj0].
      destruct (Hold j hj0 Hj0) as (hj' & Hj' & Heq).
      assert (hj' = hj) as -> by congruence. rewrite Heq.
      by eapply good_S, alive_good.
  - rewrite Hcap'. pose proof (cap_within_S _ _ Hcap) as Hcap2.
    destruct (0 <? adopted)%Z; [|done]. unfold AdoptExisting, cap_within, in_range in *. simpl.
    rewrite int64_id; [nia|]. unfold in_int64, two63. nia.
Qed.

Lemma any_of_alive n e : alive n e → sys_inv any_bridge e.
Proof. intros [Hinv _]. by eapply sys_inv_mono; [|exact Hinv]. Qed.

Lemma alive_start n e fuel gh ss :
  in_range n → alive n e → startable gh ss →
  wp (runScaleSet pause stale fuel (OK gh) ss) (λ o e', alive (S n) e' ∧ o ≠ Panic) e.
Proof.
  intros Hr He Hst. pose proof He as (_ & Hok & Hv & _).
  assert (wp (runScaleSet pause stale fuel (OK gh) ss) (λ _ e', sys_inv any_bridge e') e) as Hs.
  { eapply wp_mono; [eapply (keeps_runScaleSet EmptyString always)|by intros o e' [? _]].
    all: try done.
    - apply pause_leaves.
    - intros gh' [= <-]. by eapply startable_quiet.
    - by eapply any_of_alive. }
  eapply wp_mono; [apply wp_and; [exact Hs|]|].
  { instantiate (1 := λ o e', (sys_inv any_bridge e' → alive (S n) e') ∧ o ≠ Panic).
    eapply (wp_startup Pv Pw); [done|..].
    - apply (fleet_slots _ _ (bounded_fleet Hbounded)).
    - apply Hst.
    - done.
    - done.
    - intros e' (w & -> & Hw). pose proof (alive_with_world _ _ w Hw (alive_S _ _ He)).
      by split_and!.
    - intros k e' h id m w _ _ Hok' Hv' Hcalls _ Hin Hh Hb. split; [|done]. intros Hany.
      by eapply alive_in_place. }
  intros o e' (Hs' & H & Ho). auto.
Qed.

(** The last part of the start alone. *)
Lemma alive_install n e gh ss id k :
  in_range n → alive n e → startable gh ss →
  wp (install (Session := Session) gh ss id k)
    (λ o e', alive (S n) e' ∧ ∃ i, o = Ret (Listening i k)) e.
Proof.
  intros Hr He Hst. pose proof He as (_ & Hok & Hv & _).
  assert (wp (install (Session := Session) gh ss id k) (λ _ e', sys_inv any_bridge e') e) as Hs.
  { eapply wp_mono; [eapply (keeps_install EmptyString always)|by intros o e' [? _]].
    all: try done.
    - by eapply startable_quiet.
    - by eapply any_of_alive. }
  eapply wp_mono; [apply wp_and; [exact Hs|]|].
  { instantiate (1 := λ o e', (sys_inv any_bridge e' → alive (S n) e') ∧
      ∃ i, o = Ret (Listening i k)).
    apply (wp_install Pv Pw); [done..|]. intros e' h m Hok' Hv' _ Hin Hh Hb.
    split; [|by eexists]. intros Hany. by eapply alive_in_place. }
  intros o e' (Hs' & H & Ho). auto.
Qed.

(** ** Every step *)

(** A handler for which there is no bridge is not run. *)
Lemma no_handle {A} i (f : M (Bridge LW * E) A) e :
  handles (ext e) !! i = None → (on_handle i f e).2 = e.
Proof. intros Hi. unfold on_handle. by rewrite Hi. Qed.

Lemma in_range_le n k : n ≤ k → in_range k → in_range n.
Proof. pose proof (bounded_positive Hbounded). unfold in_range. nia. Qed.

Lemma alive_step n e e' : in_range n → alive n e → live_step e e' → alive (S n) e'.
Proof.
  intros Hr He Hstep. pose proof (alive_S _ _ He) as HS.
  destruct Hstep as [i count Hc|i|i name id| | |fuel gh ss Hst|w Hw].
  - destruct (handles (ext e) !! i) as [h|] eqn:Hi; [|by rewrite no_handle].
    by apply (alive_desired n e i h count Hr He Hi Hc).
  - destruct (handles (ext e) !! i) as [h|] eqn:Hi; [|by rewrite no_handle].
    apply (wp_alive_handle n i h HandleJobStarted (λ _ _, True)); [|done|done|].
    + intros ss. by apply keeps_ret.
    + apply wp_ret. split; [|done]. split; [by eapply alive_good|].
      split; [by eapply alive_live|]. apply HS.
  - destruct (handles (ext e) !! i) as [h|] eqn:Hi; [|by rewrite no_handle].
    by apply (alive_completed n e i h name id Hr He Hi).
  - apply (alive_sweep n e He).
  - apply (alive_shares n e He).
  - by apply (alive_start n e fuel gh ss Hr He Hst).
  - by apply alive_with_world.
Qed.

Lemma alive_steps k n e e' :
  in_range (k + n) → alive k e → nsteps live_step n e e' → alive (k + n) e'.
Proof.
  intros Hr He Hrun. revert k Hr He. induction Hrun as [e|n e e1 e' Hstep _ IH]; intros k Hr He.
  { by rewrite Nat.add_0_r. }
  rewrite Nat.add_succ_r, <-Nat.add_succ_l in Hr |- *. apply IH; [done|].
  eapply alive_step; [|exact He|exact Hstep]. eapply in_range_le; [|exact Hr]. lia.
Qed.

(** ** The start *)

Lemma wp_discover thr (Q : outcome (Z * option error) → LW → Prop) l :
  (∀ n err l', calls l' = calls l → (0 ≤ n ≤ B)%Z → Q (Ret (n, err)) l') →
  wp (discoverCapacity thr) Q l.
Proof.
  intros HQ. pose proof (bounded_positive Hbounded). unfold discoverCapacity. apply wp_bind.
  eapply wp_mono; [apply wp_and; [apply reported_workers|]|].
  { apply (wp_on_base_total _ (λ o l', calls l' = calls l ∧ ∃ r, o = Ret r));
      [apply ListWorkers_total|]. intros r w. split; [done|by eexists]. }
  intros o l1 [Hws [Hc [r ->]]]. destruct r as [ws|err]; simpl.
  2:{ apply wp_ret, HQ; [done|lia]. }
  apply wp_bind, wp_on_base_total; [apply Now_total|]. intros now w. simpl.
  apply wp_ret, HQ; [done|]. specialize (Hws ws eq_refl).
  set (stl := if (thr <=? 0)%Z then _ else _).
  pose proof (LiveWorkers_sublist ws stl now) as Hsub.
  rewrite discovered_slots_sum; [by eapply slots_within|].
  eapply slots_ok_sublist; [exact Hsub|]. by apply (fleet_slots _ _ (bounded_fleet Hbounded)).
Qed.

Lemma set_up_alive reg c w :
  calls w = [] → (Z.abs (c_MaxVMs c) ≤ B)%Z →
  wp (set_up reg c) (returns (λ e _, alive 0 e)) w.
Proof.
  intros Hw Hm. pose proof (set_up_fresh reg c w Hw) as Hfresh.
  assert (wp (set_up reg c) (returns (λ e _, env_ok Pv Pw e ∧ is_Some (view e) ∧
    cap_within 0 (capacity e))) w) as Hrest.
  { unfold set_up. apply wp_bind. unfold wp at 1, Manager.New.
    set (probe := if (c_MaxVMs c =? 0)%Z then _ else _).
    assert (wp probe (returns (λ m _, Z.abs m ≤ B)%Z) w) as Hp.
    { unfold probe. destruct (_ =? 0)%Z; [|by apply wp_ret].
      apply wp_bind, wp_discover. intros m err l' _ Hmb. simpl. apply wp_ret. simpl. lia. }
    unfold wp in Hp. cbv zeta. simpl. destruct (probe w).1 as [m| |]; [|done..].
    apply wp_ret. simpl. split; [done|]. split; [by eexists|].
    pose proof (bounded_positive Hbounded). unfold cap_within. simpl in *. lia. }
  eapply wp_mono; [apply wp_and; [exact Hfresh|exact Hrest]|].
  intros [e| |] l; simpl; [|by intros [_ []]..]. intros [(Hlog & Hhs & Hq) (Hok & Hv & Hc)].
  split; [|by split]. unfold env_calls in Hlog.
  split; [split; [by rewrite Hlog|done]|]. split; [by intros []|].
  split; [by rewrite Hhs|]. split; [intros n; by rewrite Hq|by intros []].
Qed.

(** ** The property *)

(** What can be asked of a state: every handler, sweep and recomputation of the
    shares returns, and the theorems about the components apply to it. *)
Record never_fails (e : E) : Prop := {
  nf_desired : ∀ i h count, handles (ext e) !! i = Some h → (Z.abs count ≤ B)%Z →
    (∃ g, ready Pv Pw bridge_hooks g (bridge h) e count) ∧
    wp (on_handle i (HandleDesiredRunnerCount bridge_hooks count))
      (λ o e', scaled_up count (bridge h) (capacity e) o (capacity e')) e;
  nf_completed : ∀ i h name id, handles (ext e) !! i = Some h →
    wp (on_handle i (HandleJobCompleted bridge_hooks name id))
      (λ o e', completed_job (capacity e) o (capacity e')) e;
  nf_sweep : sweep_ready Pv Pw true hooks (cleanup (ext e), e) ∧
    wp (on_cleanup_loop (sweep hooks)) (λ o _, o = Ret tt) e;
  nf_shares : wp recomputeScaleSetShares (λ o _, o = Ret tt) e;
  nf_start : ∀ fuel gh ss, startable gh ss →
    wp (runScaleSet pause stale fuel (OK gh) ss) (λ o _, o ≠ Panic) e;
  nf_in_use : (0 ≤ InUse (capacity e))%Z
}.

Lemma alive_never_fails n e : in_range n → alive n e → never_fails e.
Proof.
  intros Hr He. constructor.
  - intros i h count Hi Hc. split; [by eapply alive_ready|].
    eapply wp_mono; [by eapply alive_desired|]. by intros o e' [_ ?].
  - intros i h name id Hi.
    eapply wp_mono; [by eapply alive_completed|]. by intros o e' [_ ?].
  - split; [by eapply alive_sweep_ready|].
    eapply wp_mono; [by eapply alive_sweep|]. by intros o e' [_ ?].
  - eapply wp_mono; [by eapply alive_shares|]. by intros o e' [_ ?].
  - intros fuel gh ss Hst. eapply wp_mono; [by eapply alive_start|]. by intros o e' [_ ?].
  - apply He.
Qed.

End Live.

(** ** Witness *)

#[local] Notation two_vms := (λ vms, vms = fleet_reported_vms shared_fleet).
#[local] Notation two_ws := (λ ws, ws = fleet_workers shared_fleet).

Lemma shared_bounded : bounded two_vms two_ws 10.
Proof.
  constructor; [done| |..].
  - constructor.
    + intros ? ->. by vm_compute.
    + intros ? ->. split; [|by vm_compute]. repeat constructor; by vm_compute.
    + intros ? ->. apply (bool_decide_unpack _). vm_compute. exact I.
  - intros ? ->. apply (bool_decide_unpack _). vm_compute. exact I.
  - intros ? ->. by vm_compute.
  - intros ? ->. by vm_compute.
Qed.

(** Two scale sets are started on it, and one then wants two runners. *)
Definition live_admin : AdminClient (Logged (Sim shared_fleet)) unit :=
  mkAdminClient _ _ (logged_gh sim_gh) (GetRunnerGroupByName willing_admin)
    (GetRunnerScaleSet willing_admin) (UpdateRunnerScaleSet willing_admin)
    (CreateRunnerScaleSet willing_admin) (MessageSessionClient willing_admin)
    (listener_New willing_admin).

Definition untouched_world : Logged (Sim shared_fleet) := mkLogged (mkSim 100%Z 0) [].
Definition live_set_up : Env (Logged (Sim shared_fleet)) unit (Mgr (Logged (Sim shared_fleet))) :=
  mkEnv (set_up true loaded untouched_world).2 (mkCapacity 0 2 [tt])
    (Some (NewStateView DefaultStateViewTTL (WorkerStaleAfterDuration loaded)))
    (mkMgr [] (configure_cleanup true loaded)).
Definition live_both : Env (Logged (Sim shared_fleet)) unit (Mgr (Logged (Sim shared_fleet))) :=
  (runScaleSet go_on Hour 1 (OK live_admin) large_set
    (runScaleSet go_on Hour 1 (OK live_admin) small_set live_set_up).2).2.

Lemma live_startable ss :
  cfg_AutoSize (ss_VM ss) = mkAutoSizeConfig false 0 0 → startable live_admin ss.
Proof.
  intros H. constructor; [by constructor| |by rewrite H|by rewrite H].
  exists sim_gh. split; [done|]. by repeat split.
Qed.

Lemma live_both_run :
  nsteps (live_step (Session := unit) go_on Hour None no_report 10) 2 live_set_up live_both.
Proof.
  eapply nsteps_l; [by apply (live_start _ _ _ _ _ _ 1 live_admin small_set), live_startable|].
  apply nsteps_once. by apply (live_start _ _ _ _ _ _ 1 live_admin large_set), live_startable.
Qed.

