(* ===== verification/Lifecycle.v ===== *)
(** * The life of the manager ([Run] in [manager/manager.go], [main.go])

    [Run] starts a goroutine for the cleanup loop and one for each scale set in an
    [errgroup] and waits for them.  The process is a state machine whose steps are
    stretches of the goroutines (Goroutine), messages, sweeps and the outside
    world; the group, third-party code, is a class with its documented laws. *)

From S2P Require Import Prelude GoBase Orchard VMNames Workers.
From S2P Require Import AutoSize Capacity StateView Config Env Bridge Sample.
From S2P Require Import BridgeScaleUp Cleanup Manager Wiring Startup Goroutine.
From S2P Require Import System Live.

(** ** The group *)

(** What happens to a group: the parent context is done, [g.Go] is called, a
    function given to it returns. *)
Inductive GroupEvent : Type :=
  | ParentDone
  | Went
  | FuncReturned (err : option error).

#[export] Instance group_event_eq_dec : EqDecision GroupEvent.
Proof. solve_decision. Defined.

(** What a group shows after some events, first to last: whether its context is
    done, and what [g.Wait] returns, if it does. *)
Class ErrGroup : Type := {
  ctx_done : list GroupEvent → bool;
  Wait : list GroupEvent → option (option error)
}.

Definition result_of (ev : GroupEvent) : option (option error) :=
  match ev with FuncReturned r => Some r | _ => None end.
Definition results (h : list GroupEvent) : list (option error) := omap result_of h.
Definition went (h : list GroupEvent) : nat := length (filter (λ ev, ev = Went) h).
Definition first_error (h : list GroupEvent) : option error := head (omap id (results h)).

(** As documented: the context is done when the parent's is or as soon as a
    function returned an error; [Wait] blocks until all functions have returned, and
    then returns the first error, if any. *)
Class ErrGroupLaws `{ErrGroup} : Prop := {
  ctx_done_spec : ∀ h, ctx_done h = true ↔ ParentDone ∈ h ∨ is_Some (first_error h);
  Wait_blocks : ∀ h, length (results h) < went h → Wait h = None;
  Wait_returns : ∀ h, length (results h) = went h → Wait h = Some (first_error h)
}.

(** ** The process *)

(** The environment, what happened to the group, whether the cleanup loop's
    goroutine runs, the scale sets [Run] has not come to yet, and the goroutines of
    the others. *)
Record Proc (W : Type) : Type := mkProc {
  p_env : Env W unit (Mgr W);
  p_history : list GroupEvent;
  p_cleaner : bool;
  p_todo : list ScaleSetConfig;
  p_sets : list (ScaleSetConfig * phase)
}.
Arguments mkProc {W} _ _ _ _ _.
Arguments p_env {W} _.
Arguments p_history {W} _.
Arguments p_cleaner {W} _.
Arguments p_todo {W} _.
Arguments p_sets {W} _.

(** What a goroutine that comes to [p] tells the group. *)
Definition event_of (p : phase) : list GroupEvent :=
  match p with Returned r => [FuncReturned r] | _ => [] end.

(** The goroutine at position [k] comes to [p]. *)
Definition move {W} (k : nat) (p : phase) (e : Env W unit (Mgr W)) (s : Proc W) : Proc W :=
  mkProc e (p_history s ++ event_of p) (p_cleaner s) (p_todo s)
    (alter (λ x, (x.1, p)) k (p_sets s)).

Definition with_env {W} (e : Env W unit (Mgr W)) (s : Proc W) : Proc W :=
  mkProc e (p_history s) (p_cleaner s) (p_todo s) (p_sets s).

(** [Run] before it comes to its scale sets: [g.Go] is called for the cleanup loop. *)
Definition start_Run {W} (c : Config) (e : Env W unit (Mgr W)) : Proc W :=
  mkProc e [Went] true (c_ScaleSets c) [].

Section Steps.
Context {W Session : Type} `{!OrchardClient W} `{!Clock W} `{!UUIDSource W}.
Context `{!ErrGroup}.
Notation LW := (Logged W).
Notation E := (Env LW unit (Mgr LW)).
Context (stale : Duration) (newGHClient : string → result (AdminClient LW Session)).
Context (remover : option (string → M LW (option error))) (observe : list Worker → M E unit).
Context (B : Z).
Notation hooks := (sweep_hooks remover observe).

Definition stretch (ss : ScaleSetConfig) (fin : bool) (p : phase) : M E phase :=
  advance stale (newGHClient (ss_GitHubConfigURL ss)) ss fin p.

(** The goroutines: [Run]'s own calls of [g.Go], a stretch of a scale set's, the
    return of its listener with whatever error, the end of the cleanup loop. *)
Inductive goroutine_step (s : Proc LW) : Proc LW → Prop :=
  | step_go ss todo :
      p_todo s = ss :: todo →
      goroutine_step s (mkProc (p_env s) (p_history s ++ [Went]) (p_cleaner s) todo
                          (p_sets s ++ [(ss, Starting)]))
  | step_stretch k ss p p' e' :
      p_sets s !! k = Some (ss, p) → settled p = false →
      stretch ss (ctx_done (p_history s)) p (p_env s) = (Ret p', e') →
      goroutine_step s (move k p' e' s)
  | step_listener k ss i n err :
      p_sets s !! k = Some (ss, Running i n) →
      goroutine_step s
        (move k (listener_returns ss (ctx_done (p_history s)) err) (p_env s) s)
  | step_cleanup_ends :
      p_cleaner s = true → ctx_done (p_history s) = true →
      goroutine_step s (mkProc (p_env s) (p_history s ++ [FuncReturned None]) false
                          (p_todo s) (p_sets s)).

(** Everything else: a signal, messages for the scale sets that listen, sweeps while
    the cleanup loop runs, the outside world. *)
Inductive env_step (s : Proc LW) : Proc LW → Prop :=
  | step_signal :
      env_step s (mkProc (p_env s) (p_history s ++ [ParentDone]) (p_cleaner s) (p_todo s)
                    (p_sets s))
  | step_wanted k ss i n count :
      p_sets s !! k = Some (ss, Running i n) → (Z.abs count ≤ B)%Z →
      env_step s (with_env
        (on_handle i (HandleDesiredRunnerCount bridge_hooks count) (p_env s)).2 s)
  | step_job_begins k ss i n :
      p_sets s !! k = Some (ss, Running i n) →
      env_step s (with_env (on_handle i HandleJobStarted (p_env s)).2 s)
  | step_job_ends k ss i n runnerName runnerID :
      p_sets s !! k = Some (ss, Running i n) →
      env_step s (with_env
        (on_handle i (HandleJobCompleted bridge_hooks runnerName runnerID) (p_env s)).2 s)
  | step_tick :
      p_cleaner s = true →
      env_step s (with_env (on_cleanup_loop (sweep hooks) (p_env s)).2 s)
  | step_outside w :
      calls w = env_calls (p_env s) → env_step s (with_env (with_world (p_env s) w) s).

Definition proc_step (s s' : Proc LW) : Prop := goroutine_step s s' ∨ env_step s s'.

(** The steps of the goroutines are computable, given who takes one. *)
Inductive choice : Type :=
  | ChooseGo
  | ChooseStretch (k : nat)
  | ChooseListener (k : nat) (err : option error)
  | ChooseCleanup
  | ChooseSignal.

Definition play (ch : choice) (s : Proc LW) : option (Proc LW) :=
  match ch with
  | ChooseGo =>
      match p_todo s with
      | [] => None
      | ss :: todo => Some (mkProc (p_env s) (p_history s ++ [Went]) (p_cleaner s) todo
                              (p_sets s ++ [(ss, Starting)]))
      end
  | ChooseStretch k =>
      match p_sets s !! k with
      | None => None
      | Some (ss, p) =>
          if settled p then None else
          match stretch ss (ctx_done (p_history s)) p (p_env s) with
          | (Ret p', e') => Some (move k p' e' s)
          | _ => None
          end
      end
  | ChooseListener k err =>
      match p_sets s !! k with
      | Some (ss, Running _ _) =>
          Some (move k (listener_returns ss (ctx_done (p_history s)) err) (p_env s) s)
      | _ => None
      end
  | ChooseCleanup =>
      if p_cleaner s && ctx_done (p_history s)
      then Some (mkProc (p_env s) (p_history s ++ [FuncReturned None]) false (p_todo s) (p_sets s))
      else None
  | ChooseSignal =>
      Some (mkProc (p_env s) (p_history s ++ [ParentDone]) (p_cleaner s) (p_todo s) (p_sets s))
  end.

Fixpoint play_all (chs : list choice) (s : Proc LW) : option (Proc LW) :=
  match chs with
  | [] => Some s
  | ch :: chs => play ch s ≫= play_all chs
  end.

Lemma play_step ch s s' : play ch s = Some s' → proc_step s s'.
Proof.
  destruct ch as [|k|k err| |]; simpl.
  - destruct (p_todo s) as [|ss todo] eqn:Htodo; [done|]. intros [= <-]. left. by apply step_go.
  - destruct (p_sets s !! k) as [[ss p]|] eqn:Hk; [|done]. destruct (settled p) eqn:Hset; [done|].
    destruct (stretch ss _ p (p_env s)) as [[p'| |] e'] eqn:Hadv; [|done..].
    intros [= <-]. left. by eapply step_stretch.
  - destruct (p_sets s !! k) as [[ss []]|] eqn:Hk; try done. intros [= <-]. left.
    by eapply step_listener.
  - destruct (p_cleaner s) eqn:Hc; [|done]. destruct (ctx_done (p_history s)) eqn:Hd; [|done].
    simpl. intros [= <-]. left. by apply step_cleanup_ends.
  - intros [= <-]. right. by apply step_signal.
Qed.

Lemma play_run chs s s' : play_all chs s = Some s' → nsteps proc_step (length chs) s s'.
Proof.
  revert s. induction chs as [|ch chs IH]; intros s; simpl.
  { intros [= <-]. constructor. }
  destruct (play ch s) as [s1|] eqn:H1; [|done]. intros Hs.
  eapply nsteps_l; [by eapply play_step|by apply IH].
Qed.

(** ** Who has returned *)

Definition returned (x : ScaleSetConfig * phase) : option (option error) :=
  match x.2 with Returned r => Some r | _ => None end.

(** The history of the group and the goroutines agree. *)
Record agrees (s : Proc LW) : Prop := {
  ag_went : went (p_history s) = S (length (p_sets s));
  ag_results : results (p_history s) ≡ₚ
    (if p_cleaner s then [] else [None]) ++ omap returned (p_sets s);
  ag_cleaner : p_cleaner s = false → ctx_done (p_history s) = true;
  ag_canceled : first_error (p_history s) = Some Canceled → ParentDone ∈ p_history s
}.

Context `{!ErrGroupLaws}.

Lemma results_app h h' : results (h ++ h') = results h ++ results h'.
Proof. apply omap_app. Qed.
Lemma went_app h h' : went (h ++ h') = went h + went h'.
Proof. unfold went. by rewrite filter_app, length_app. Qed.
Lemma first_error_app h h' :
  first_error (h ++ h') = match first_error h with Some e => Some e | None => first_error h' end.
Proof.
  unfold first_error. rewrite results_app. setoid_rewrite omap_app.
  by destruct (omap id (results h)).
Qed.

Lemma ctx_done_app h h' : ctx_done h = true → ctx_done (h ++ h') = true.
Proof.
  rewrite !ctx_done_spec, first_error_app, elem_of_app. intros [?|[e ->]]; [by left; left|].
  right. by eexists.
Qed.

Lemma returned_move l k ss p p' :
  l !! k = Some (ss, p) → returned (ss, p) = None →
  omap returned (alter (λ x, (x.1, p')) k l) ≡ₚ omap returned l ++ results (event_of p').
Proof.
  revert k. induction l as [|x l IH]; intros k Hk Hp; [done|]. destruct k as [|k]; simpl in Hk.
  - injection Hk as ->. simpl. rewrite Hp. destruct p'; simpl; rewrite ?app_nil_r; try done.
    apply Permutation_cons_append.
  - specialize (IH k Hk Hp). csimpl. destruct (returned x); [by rewrite IH|exact IH].
Qed.

Lemma unsettled_not_returned ss p : settled p = false → returned (ss, p) = None.
Proof. by destruct p. Qed.

(** A goroutine of a scale set goes on. *)
Lemma agrees_move s k ss p p' e :
  agrees s → p_sets s !! k = Some (ss, p) → returned (ss, p) = None →
  (p' = Returned (Some Canceled) → ctx_done (p_history s) = true) →
  agrees (move k p' e s).
Proof.
  intros [A1 A2 A3 A4] Hk Hp Hc. constructor; simpl.
  - rewrite went_app, length_alter, A1. by destruct p' as [| | | | |[?|]]; simpl; rewrite ?Nat.add_0_r.
  - rewrite results_app, (returned_move _ _ _ _ _ Hk Hp), A2. by rewrite app_assoc.
  - intros Hf. by apply ctx_done_app, A3.
  - rewrite first_error_app, elem_of_app. intros Hfirst. left.
    destruct (first_error (p_history s)) as [err|] eqn:Hold; [by apply A4|].
    destruct p' as [| | | | |[err|]]; simpl in Hfirst; try done.
    injection Hfirst as ->. specialize (Hc eq_refl). apply ctx_done_spec in Hc as [?|[? ?]]; [done|].
    congruence.
Qed.

Lemma agrees_goroutine s s' : agrees s → goroutine_step s s' → agrees s'.
Proof.
  intros Hs Hstep. pose proof Hs as [A1 A2 A3 A4].
  destruct Hstep as [ss todo Htodo|k ss p p' e' Hk Hset Hadv|k ss i n err Hk|Hc Hdone].
  - constructor; simpl.
    + rewrite went_app, length_app, A1. change (went [Went]) with 1. simpl. lia.
    + rewrite results_app, omap_app, A2. simpl. by rewrite !app_nil_r.
    + intros Hf. by apply ctx_done_app, A3.
    + rewrite first_error_app, elem_of_app. intros Hfirst. left.
      destruct (first_error (p_history s)); [by apply A4|done].
  - apply (agrees_move _ _ ss p); [done|done|by apply unsettled_not_returned|]. intros ->.
    destruct (advance_returns stale (newGHClient (ss_GitHubConfigURL ss)) ss
      (ctx_done (p_history s)) p Hset (p_env s) I) as [_ Hp].
    unfold stretch in Hadv. rewrite Hadv in Hp. simpl in Hp. by apply Hp.
  - apply (agrees_move _ _ ss (Running i n)); [done|done|done|].
    unfold listener_returns, listener_result. destruct err; [by destruct (ctx_done _)|done].
  - constructor; simpl; [by rewrite went_app, A1, Nat.add_0_r| | |].
    + rewrite results_app, A2, Hc. simpl. symmetry. apply Permutation_cons_append.
    + intros _. by apply ctx_done_app.
    + rewrite first_error_app, elem_of_app. intros Hfirst. left.
      destruct (first_error (p_history s)); [by apply A4|done].
Qed.

Lemma agrees_env s s' : agrees s → env_step s s' → agrees s'.
Proof.
  intros [A1 A2 A3 A4] Hstep. destruct Hstep; try (by constructor).
  constructor; simpl; [by rewrite went_app, A1, Nat.add_0_r|by rewrite results_app, app_nil_r| |].
  - intros Hf. by apply ctx_done_app, A3.
  - intros _. set_solver.
Qed.

Lemma agrees_start c e : agrees (start_Run c e).
Proof. by constructor. Qed.

Lemma agrees_run c e s : rtc proc_step (start_Run c e) s → agrees s.
Proof.
  intros Hrun. eapply (rtc_invariant proc_step agrees); [exact Hrun|apply agrees_start|].
  intros s1 s2 Hs [Hg|He]; [by eapply agrees_goroutine|by eapply agrees_env].
Qed.

(** ** What [Run] returns *)

(** The scale sets started and those to come are the configured ones. *)
Lemma sets_run c e s :
  rtc proc_step (start_Run c e) s → (p_sets s).*1 ++ p_todo s = c_ScaleSets c.
Proof.
  intros Hrun. eapply (rtc_invariant proc_step (λ s, (p_sets s).*1 ++ p_todo s = c_ScaleSets c));
    [exact Hrun|done|].
  assert (∀ k p (l : list (ScaleSetConfig * phase)), (alter (λ x, (x.1, p)) k l).*1 = l.*1)
    as Hmove.
  { intros k p l. revert k. induction l as [|x l IH]; intros [|k]; csimpl; by f_equal. }
  intros s1 s2 <- [Hstep|Hstep]; [|by destruct Hstep].
  destruct Hstep as [ss todo Htodo| | |]; simpl; rewrite ?Hmove; try done.
  by rewrite Htodo, fmap_app, <-app_assoc.
Qed.

Lemma omap_full {A C} (f : A → option C) l :
  length (omap f l) ≤ length l ∧
  (length (omap f l) = length l → Forall (λ x, is_Some (f x)) l).
Proof.
  induction l as [|x l [IH1 IH2]]; csimpl; [by split|].
  destruct (f x) eqn:Hx; csimpl; (split; [lia|]); intros Hlen.
  - constructor; [by rewrite Hx|]. apply IH2. lia.
  - lia.
Qed.

(** Everyone has returned. *)
Lemma all_returned s r :
  agrees s → Wait (p_history s) = Some r →
  r = first_error (p_history s) ∧ p_cleaner s = false ∧
  Forall (λ x, is_Some (returned x)) (p_sets s).
Proof.
  intros [A1 A2 A3 A4] Hw.
  pose proof (omap_full returned (p_sets s)) as [Hle Hfull].
  assert (length (results (p_history s)) = (if p_cleaner s then 0 else 1)
    + length (omap returned (p_sets s))) as Hlen.
  { rewrite A2, length_app. by destruct (p_cleaner s). }
  destruct (decide (length (results (p_history s)) = went (p_history s))) as [Heq|Hne].
  2:{ rewrite Wait_blocks in Hw; [done|]. destruct (p_cleaner s); lia. }
  rewrite Wait_returns in Hw by done. injection Hw as <-. split; [done|].
  rewrite A1, Hlen in Heq. destruct (p_cleaner s); [lia|]. split; [done|]. apply Hfull. lia.
Qed.

Lemma first_error_in h e : first_error h = Some e → Some e ∈ results h.
Proof.
  unfold first_error. intros Hh. assert (e ∈ omap id (results h)) as Hin.
  { destruct (omap id (results h)); simpl in Hh; [done|]. injection Hh as ->. by left. }
  apply list_elem_of_omap in Hin as (x & Hx & Heq).
  unfold id in Heq. by rewrite <-Heq.
Qed.

Lemma first_error_none h : first_error h = None ↔ Forall (λ r, r = None) (results h).
Proof.
  unfold first_error. induction (results h) as [|[e|] l IH].
  - by split.
  - split; [done|]. intros Hf. by apply Forall_inv in Hf.
  - change (omap id (None :: l)) with (omap id l). rewrite IH, Forall_cons. naive_solver.
Qed.

Lemma results_in s r :
  agrees s → p_cleaner s = false →
  (r ∈ results (p_history s) ↔ r = None ∨ ∃ ss, (ss, Returned r) ∈ p_sets s).
Proof.
  intros [_ A2 _ _] Hc. rewrite A2, Hc, elem_of_app, list_elem_of_singleton, list_elem_of_omap.
  apply or_iff_compat_l. split.
  - intros ([ss p] & Hin & Hr). unfold returned in Hr. simpl in Hr.
    destruct p; try done. injection Hr as ->. by exists ss.
  - intros [ss Hin]. by exists (ss, Returned r).
Qed.

(** C19: what [Run] returns.  It returns only when the goroutines of the cleanup
    loop and of every configured scale set have; the result is nil exactly if no
    scale set returned an error, which only a signal can bring about, and otherwise
    it is an error that a scale set returned, [context.Canceled] only after a
    signal. *)
Theorem Run_returns c e s r :
  rtc proc_step (start_Run c e) s → p_todo s = [] → Wait (p_history s) = Some r →
  p_cleaner s = false ∧ (p_sets s).*1 = c_ScaleSets c ∧
  (∀ ss p, (ss, p) ∈ p_sets s → ∃ q, p = Returned q) ∧
  (r = None ↔ ∀ ss p, (ss, p) ∈ p_sets s → p = Returned None) ∧
  (r = None → ParentDone ∈ p_history s) ∧
  (∀ err, r = Some err → (∃ ss, (ss, Returned (Some err)) ∈ p_sets s) ∧
     (err = Canceled → ParentDone ∈ p_history s)).
Proof.
  intros Hrun Htodo Hw. pose proof (agrees_run _ _ _ Hrun) as Hag.
  pose proof (sets_run _ _ _ Hrun) as Hsets. rewrite Htodo, app_nil_r in Hsets.
  destruct (all_returned s r Hag Hw) as (-> & Hc & Hall).
  assert (∀ ss p, (ss, p) ∈ p_sets s → ∃ q, p = Returned q) as Hret.
  { intros ss p Hin. rewrite Forall_forall in Hall. destruct (Hall _ Hin) as [q Hq].
    exists q. unfold returned in Hq. simpl in Hq. destruct p; congruence. }
  split; [done|]. split; [done|]. split; [exact Hret|]. split; [|split].
  - rewrite first_error_none, Forall_forall. split.
    + intros Hn ss p Hin. destruct (Hret ss p Hin) as [q ->]. f_equal. apply Hn.
      apply results_in; [done|done|]. right. by exists ss.
    + intros Hn q Hq. apply results_in in Hq as [->|[ss Hin]]; try done.
      specialize (Hn _ _ Hin). congruence.
  - intros Hn. pose proof (ag_cleaner s Hag Hc) as Hd. apply ctx_done_spec in Hd as [?|[? ?]]; [done|].
    congruence.
  - intros err Herr. split.
    + apply first_error_in in Herr. by apply results_in in Herr as [?|?].
    + intros ->. by apply (ag_canceled s Hag).
Qed.

(** ** After a signal *)

(** All the scale sets listen, or have stopped listening without an error. *)
Definition listening (x : ScaleSetConfig * phase) : Prop :=
  (∃ i n, x.2 = Running i n) ∨ x.2 = Returned None.

Record calm (s : Proc LW) : Prop := {
  calm_todo : p_todo s = [];
  calm_done : ctx_done (p_history s) = true;
  calm_error : first_error (p_history s) = None;
  calm_sets : Forall listening (p_sets s)
}.

Lemma calm_step s s' : calm s → proc_step s s' → calm s'.
Proof.
  intros [C1 C2 C3 C4] [Hstep|Hstep].
  - destruct Hstep as [ss todo Htodo|k ss p p' e' Hk Hset _|k ss i n err Hk|Hc _].
    + congruence.
    + exfalso. apply list_elem_of_lookup_2 in Hk. rewrite Forall_forall in C4.
      by destruct (C4 _ Hk) as [(i & n & Hp)|Hp]; simpl in Hp; rewrite Hp in Hset.
    + assert (listener_returns ss (ctx_done (p_history s)) err = Returned None) as Heq.
      { rewrite C2. unfold listener_returns, listener_result. by destruct err. }
      rewrite Heq. constructor; simpl; [done|by apply ctx_done_app|by rewrite first_error_app, C3|].
      apply Forall_alter; [done|]. intros x _ _. by right.
    + constructor; simpl; [done|by apply ctx_done_app|by rewrite first_error_app, C3|done].
  - destruct Hstep; try (by constructor).
    constructor; simpl; [done|by apply ctx_done_app|by rewrite first_error_app, C3|done].
Qed.

(** The scale set at position [k] is in a pause of its start, or was cancelled or
    failed. *)
Definition doomed (k : nat) (s : Proc LW) : Prop :=
  ctx_done (p_history s) = true ∧ ∃ ss p, p_sets s !! k = Some (ss, p) ∧
    (is_Some (pause_of p) ∨ ∃ err, p = Returned (Some err)).

Lemma doomed_step k s s' : doomed k s → proc_step s s' → doomed k s'.
Proof.
  intros (Hd & ss & p & Hk & Hp) [Hstep|Hstep].
  - destruct Hstep as [ss0 todo Htodo|j ss0 p0 p' e' Hj Hset Hadv|j ss0 i n err Hj|Hc _];
      (split; [by apply ctx_done_app|]); simpl.
    + exists ss, p. split; [by apply lookup_app_l_Some|done].
    + destruct (decide (j = k)) as [->|Hne].
      * assert (ss0 = ss ∧ p0 = p) as [-> ->] by (split; congruence).
        exists ss, p'. rewrite list_lookup_alter, decide_True, Hk by done. split; [done|].
        destruct Hp as [[d Hd']|[err ->]]; [|done]. rewrite Hd in Hadv. right. exists Canceled.
        by destruct p; simpl in Hd'; try done; injection Hadv as <- _.
      * exists ss, p. by rewrite list_lookup_alter_ne.
    + destruct (decide (j = k)) as [->|Hne]; [|exists ss, p; by rewrite list_lookup_alter_ne].
      assert (p = Running i n) as -> by congruence. by destruct Hp as [[? ?]|[? ?]].
    + by exists ss, p.
  - destruct Hstep; (split; [by try apply ctx_done_app|]); by exists ss, p.
Qed.

(** C20: how a signal ends the process.  If every scale set listens when the context
    is cancelled, [Run] can only return nil, whatever the listeners return, so that the
    process exits with status 0 ([Process.main_exits]).  But if a scale set then waits
    for its first workers or for a new attempt at its session, [Run] can only return
    an error, and the process exits with status 1, although nothing failed. *)
Theorem shutdown_status c e s s' r :
  rtc proc_step (start_Run c e) s → p_todo s = [] →
  ParentDone ∈ p_history s → first_error (p_history s) = None →
  rtc proc_step s s' → Wait (p_history s') = Some r →
  (Forall listening (p_sets s) → r = None) ∧
  ((∃ ss p, (ss, p) ∈ p_sets s ∧ is_Some (pause_of p)) → r ≠ None).
Proof.
  intros Hrun Htodo Hsig Herr Hrun' Hw.
  assert (ctx_done (p_history s) = true) as Hd by (apply ctx_done_spec; by left).
  assert (rtc proc_step (start_Run c e) s') as Hall by by etrans.
  pose proof (agrees_run _ _ _ Hall) as Hag.
  destruct (all_returned s' r Hag Hw) as (-> & Hc & Hret). split.
  - intros Hl. assert (calm s') as [_ _ Hnone _]; [|done].
    eapply (rtc_invariant proc_step calm); [exact Hrun'|by constructor|]. apply calm_step.
  - intros (ss & p & Hin & Hp) Hnone. apply list_elem_of_lookup in Hin as [k Hk].
    assert (doomed k s') as (_ & ss' & p' & Hk' & Hp').
    { eapply (rtc_invariant proc_step (doomed k)); [exact Hrun'| |apply doomed_step].
      split; [done|]. exists ss, p. by split; [|left]. }
    apply list_elem_of_lookup_2 in Hk'. rewrite Forall_forall in Hret.
    destruct (Hret _ Hk') as [q Hq]. destruct Hp' as [[d Hd']|[err ->]].
    { by destruct p'. }
    rewrite first_error_none, Forall_forall in Hnone.
    assert (Some err = None); [|done]. apply Hnone, results_in; [done|done|]. right. by exists ss'.
Qed.
End Steps.

(** ** The end comes *)

Section Shutdown.
Context {W Session : Type} `{!OrchardClient W} `{!Clock W} `{!UUIDSource W}.
Context `{!ClientTotal W} `{!UUIDLaw W}.
Context (Pv : list VM → Prop) (Pw : list Worker → Prop) `{!Reports W Pv Pw}.
Context `{!ErrGroup} `{!ErrGroupLaws}.
Notation LW := (Logged W).
Notation E := (Env LW unit (Mgr LW)).
Context (stale : Duration) (newGHClient : string → result (AdminClient LW Session)).
Context (remover : option (string → M LW (option error))) (observe : list Worker → M E unit).
Context (B : Z) (c : Config).
Notation alive := (alive Pv Pw B).
Notation stretch_on := (stretch stale newGHClient).
Notation goroutine_steps := (goroutine_step stale newGHClient).
Notation env_steps := (env_step remover observe B).
Notation proc_step := (proc_step stale newGHClient remover observe B).

(** A call that returns, and asks nothing of the controller. *)
Definition politely {A} (m : M LW A) : Prop :=
  ∀ l, wp m (returns (λ _ l', calls l' = calls l)) l.

Record admin_polite (gh : AdminClient LW Session) : Prop := {
  polite_group : ∀ n, politely (GetRunnerGroupByName gh n);
  polite_get : ∀ g n, politely (GetRunnerScaleSet gh g n);
  polite_update : ∀ id d, politely (UpdateRunnerScaleSet gh id d);
  polite_create : ∀ d, politely (CreateRunnerScaleSet gh d);
  polite_session : ∀ id n, politely (MessageSessionClient gh id n);
  polite_listener : ∀ s id n, politely (listener_New gh s id n);
  polite_runners : ∃ g, runners gh = logged_gh g ∧ gh_total g
}.

Hypothesis Hbounded : bounded Pv Pw B.
Hypothesis Hremover : ∀ rm n l, remover = Some rm →
  (rm n l).1 ≠ Blocked ∧ calls (rm n l).2 = calls l.
Hypothesis Hobserve : ∀ ws e, observe ws e = (Ret tt, e).
Hypothesis Hclients : ∀ url gh, newGHClient url = OK gh → admin_polite gh.
Hypothesis Hreserves : Forall (λ ss, in_uint64 (ReserveCPU (cfg_AutoSize (ss_VM ss))) ∧
  in_uint64 (ReserveMemoryMiB (cfg_AutoSize (ss_VM ss)))) (c_ScaleSets c).

Lemma politely_quiet {A} (m : M LW A) : politely m → quietly (λ _, True) m.
Proof.
  intros Hm l. eapply wp_mono; [apply Hm|]. by intros [a| |] l'; simpl.
Qed.

Lemma polite_startable gh ss :
  admin_polite gh → ss ∈ c_ScaleSets c → startable gh ss.
Proof.
  intros [P1 P2 P3 P4 P5 P6 P7] Hin. rewrite Forall_forall in Hreserves.
  destruct (Hreserves ss Hin). constructor; [|done..].
  constructor; intros; by apply politely_quiet.
Qed.

Lemma politely_ret {A} (a : A) : politely (mret a).
Proof. intros l. by apply wp_ret. Qed.

Lemma politely_bind {A C} (m : M LW A) (f : A → M LW C) :
  politely m → (∀ a, politely (f a)) → politely (m ≫= f).
Proof.
  intros Hm Hf l. apply wp_bind. eapply wp_mono; [apply Hm|].
  intros [a| |] l1; simpl; [|done..]. intros <-. apply Hf.
Qed.

Lemma politely_base {A} (m : M W A) : total m → politely (on_base m).
Proof. intros Hm l. by apply wp_on_base_total. Qed.

Lemma registerScaleSet_polite gh ss : admin_polite gh → politely (registerScaleSet gh ss).
Proof.
  intros [P1 P2 P3 P4 _ _ _]. unfold registerScaleSet. apply politely_bind.
  { destruct (decide _); [apply P1|apply politely_ret]. }
  intros [g|err]; [|apply politely_ret]. apply politely_bind; [apply P2|].
  intros [[ex|]|err]; (apply politely_bind; [apply P3 || apply P4|]);
    intros [u|err']; apply politely_ret.
Qed.

Lemma listLiveWorkers_polite : politely (listLiveWorkers (W := LW) stale).
Proof.
  unfold listLiveWorkers. apply politely_bind; [apply politely_base, ListWorkers_total|].
  intros [ws|err]; [|apply politely_ret].
  apply politely_bind; [apply politely_base, Now_total|]. intros now. apply politely_ret.
Qed.

Lemma wp_politely {A} (m : M LW A) (Q : outcome A → E → Prop) e :
  politely m → (∀ a w, calls w = env_calls e → Q (Ret a) (with_world e w)) →
  wp (on_world m) Q e.
Proof.
  intros Hm HQ. unfold on_world. apply wp_zoom. eapply wp_mono; [apply Hm|].
  intros [a| |] w; simpl; [|done..]. intros Hw. by apply HQ.
Qed.

(** Every stretch returns, and leaves what it found alive. *)
Lemma alive_stretch n e ss fin p :
  in_range B n → alive n e → ss ∈ c_ScaleSets c → settled p = false →
  wp (stretch_on ss fin p) (returns (λ _ e', alive (S n) e')) e.
Proof.
  intros Hr He Hss Hset. pose proof (alive_S Pv Pw B Hbounded _ _ He) as HS.
  assert (∀ p', wp (mret p') (returns (λ _ e', alive (S n) e')) e) as Hstay
    by (intros p'; by apply wp_ret).
  assert (∀ e1 w, alive n e1 → calls w = env_calls e1 → alive n (with_world e1 w)) as Hworld
    by (intros; by apply alive_with_world).
  assert (∀ e1 (p' : phase), alive n e1 → wp (mret p') (returns (λ _ e', alive (S n) e')) e1)
    as Hend by (intros e1 p' H1; by apply wp_ret, (alive_S Pv Pw B Hbounded)).
  unfold Lifecycle.stretch. destruct p as [|rss|rss k a|rss k a| |]; simpl; [..|done|done].
  - unfold begin. destruct (newGHClient _) as [gh|err] eqn:Hgh; [|by apply Hend].
    apply Hclients in Hgh. apply wp_bind, wp_politely; [by apply registerScaleSet_polite|].
    intros [rss|err] w Hw; simpl; [|by apply Hend, Hworld].
    destruct (0 <? _)%Z; [by apply Hend, Hworld|].
    apply wp_bind, wp_politely; [apply listLiveWorkers_polite|]. intros r w1 Hw1. simpl.
    by destruct (_ =? 0)%Z; apply Hend, Hworld, Hw1; apply Hworld.
  - destruct fin; [by apply Hend|]. unfold poll.
    apply wp_bind, wp_politely; [apply listLiveWorkers_polite|].
    intros [ws|err] w Hw; simpl; [destruct (0 <? _)%Z|]; by apply Hend, Hworld.
  - unfold connect. destruct (newGHClient _) as [gh|err] eqn:Hgh; [|by apply Hend].
    apply Hclients in Hgh. apply wp_bind, wp_politely; [apply Hgh|].
    intros [sess|err] w Hw; simpl; [|by destruct (10 <=? a)%Z; apply Hend, Hworld].
    apply wp_bind, wp_politely; [apply Hgh|].
    intros [err|] w1 Hw1; simpl; [by apply Hend, Hworld, Hw1; apply Hworld|].
    apply wp_bind. eapply wp_mono; [apply (alive_install Pv Pw B Hbounded n)|].
    + done.
    + apply Hworld, Hw1. by apply Hworld.
    + by apply polite_startable.
    + intros o e' [He' [i ->]]. simpl. by apply wp_ret.
  - by destruct fin; apply Hend.
Qed.

(** What is left to do once the context is done. *)
Definition rank (p : phase) : nat :=
  match p with
  | Starting => 3
  | Connecting _ _ _ => 2
  | Waiting _ | Retrying _ _ _ | Running _ _ => 1
  | Returned _ => 0
  end.
Definition ranks (l : list (ScaleSetConfig * phase)) : nat :=
  foldr (λ x k, rank x.2 + k) 0 l.
Definition work (s : Proc LW) : nat :=
  (if p_cleaner s then 1 else 0) + 4 * length (p_todo s) + ranks (p_sets s).

Lemma ranks_app l l' : ranks (l ++ l') = ranks l + ranks l'.
Proof. unfold ranks. induction l as [|x l IH]; simpl; lia. Qed.

Lemma ranks_le l : ranks l ≤ 4 * length l.
Proof.
  unfold ranks. induction l as [|[ss p] l IH]; [done|].
  assert (rank p ≤ 3) by (destruct p; simpl; lia). simpl in *. lia.
Qed.

Lemma ranks_move l k ss p p' :
  l !! k = Some (ss, p) → ranks (alter (λ x, (x.1, p')) k l) + rank p = ranks l + rank p'.
Proof.
  unfold ranks. revert k. induction l as [|x l IH]; intros [|k] Hk; simplify_eq/=; [lia|].
  specialize (IH k Hk). change (list_alter ?f k l) with (alter f k l). lia.
Qed.

(** With the context done each stretch comes closer to the end. *)
Lemma stretch_rank ss p :
  settled p = false →
  keeps (S := E) (λ _, True) (λ p', rank p' < rank p) (stretch_on ss true p).
Proof.
  set (anywhere := λ _ : E, True).
  assert (∀ A (m : M LW A), keeps anywhere (λ _, True) (on_world m)) as Hworld.
  { intros A m e _. unfold wp. split; [done|]. by destruct (on_world m e).1. }
  intros Hs. unfold Lifecycle.stretch.
  destruct p as [|rss|rss n a|rss n a| |]; simpl; [..|done|done].
  - unfold begin. destruct (newGHClient _) as [gh|err]; [|apply keeps_ret; simpl; lia].
    apply (keeps_bind _ (λ _, True)); [apply Hworld|].
    intros [rss|err] _; [|apply keeps_ret; simpl; lia].
    destruct (0 <? _)%Z; [apply keeps_ret; simpl; lia|].
    apply (keeps_bind _ (λ _, True)); [apply Hworld|]. intros r _.
    destruct (_ =? 0)%Z; apply keeps_ret; simpl; lia.
  - apply keeps_ret. simpl. lia.
  - unfold connect. destruct (newGHClient _) as [gh|err]; [|apply keeps_ret; simpl; lia].
    apply (keeps_bind _ (λ _, True)); [apply Hworld|]. intros [sess|err] _.
    + apply (keeps_bind _ (λ _, True)); [apply Hworld|].
      intros [err|] _; [apply keeps_ret; simpl; lia|].
      eapply keeps_bind; [apply install_listens|]. intros o [i ->]. apply keeps_ret. simpl. lia.
    + destruct (10 <=? a)%Z; apply keeps_ret; simpl; lia.
  - apply keeps_ret. simpl. lia.
Qed.

Lemma goroutine_works s s' :
  ctx_done (p_history s) = true → goroutine_steps s s' →
  ctx_done (p_history s') = true ∧ work s' < work s.
Proof.
  intros Hd Hstep.
  destruct Hstep as [ss todo Htodo|k ss p p' e' Hk Hset Hadv|k ss i n err Hk|Hc _];
    (split; [by apply ctx_done_app|]); unfold work; simpl.
  - rewrite Htodo, ranks_app. simpl. lia.
  - pose proof (ranks_move _ _ _ _ p' Hk). rewrite Hd in Hadv.
    destruct (stretch_rank ss p Hset (p_env s) I) as [_ Hr]. rewrite Hadv in Hr. simpl in Hr. lia.
  - pose proof (ranks_move _ _ _ _ (listener_returns ss (ctx_done (p_history s)) err) Hk) as Hm.
    unfold listener_returns in *. simpl in Hm. lia.
  - rewrite Hc. lia.
Qed.

Lemma env_works s s' :
  ctx_done (p_history s) = true → env_steps s s' →
  ctx_done (p_history s') = true ∧ work s' = work s.
Proof. intros Hd Hstep. by destruct Hstep; (split; [by try apply ctx_done_app|]). Qed.

(** Runs, with the number of steps of the goroutines in them. *)
Inductive counted : nat → Proc LW → Proc LW → Prop :=
  | counted_nil s : counted 0 s s
  | counted_goroutine m s s1 s' : goroutine_steps s s1 → counted m s1 s' → counted (S m) s s'
  | counted_env m s s1 s' : env_steps s s1 → counted m s1 s' → counted m s s'.

Lemma counted_works m s s' :
  ctx_done (p_history s) = true → counted m s s' → m + work s' ≤ work s.
Proof.
  intros Hd Hrun. induction Hrun as [s|m s s1 s' Hg _ IH|m s s1 s' He _ IH]; [lia|..].
  - destruct (goroutine_works _ _ Hd Hg) as [Hd1 Hlt]. specialize (IH Hd1). lia.
  - destruct (env_works _ _ Hd He) as [Hd1 Heq]. specialize (IH Hd1). lia.
Qed.

(** ** The environment stays alive *)

Lemma alive_env n s s' : in_range B n → alive n (p_env s) → env_steps s s' → alive (S n) (p_env s').
Proof.
  intros Hr He Hstep.
  assert (∀ e', live_step (Session := Session) (λ _, mret false) stale remover observe B (p_env s) e' →
    alive (S n) e') as Hlive.
  { intros e' Hl. eapply (alive_step Pv Pw (λ _, mret false) stale remover observe B Hbounded);
      done. }
  destruct Hstep; simpl; try (by apply Hlive; constructor).
  by apply (alive_S Pv Pw B Hbounded).
Qed.

Lemma alive_goroutine n s s' :
  in_range B n → (p_sets s).*1 ++ p_todo s = c_ScaleSets c → alive n (p_env s) →
  goroutine_steps s s' → alive (S n) (p_env s').
Proof.
  intros Hr Hsets He Hstep.
  destruct Hstep as [ss todo Htodo|k ss p p' e' Hk Hset Hadv|k ss i m err Hk|Hc _]; simpl;
    try by apply (alive_S Pv Pw B Hbounded).
  assert (wp (stretch_on ss (ctx_done (p_history s)) p) (returns (λ _ e', alive (S n) e')) (p_env s))
    as Hwp.
  { apply alive_stretch; try done. rewrite <-Hsets, elem_of_app. left.
    apply list_elem_of_lookup_2 in Hk. by apply (list_elem_of_fmap_2 fst) in Hk. }
  unfold wp in Hwp. by rewrite Hadv in Hwp.
Qed.

Lemma alive_proc n e s :
  in_range B n → alive 0 e → nsteps proc_step n (start_Run c e) s → alive n (p_env s).
Proof.
  intros Hr He Hrun. revert s Hr Hrun. induction n as [|n IH]; intros s Hr Hrun.
  { inversion Hrun. by subst. }
  apply nsteps_inv_r in Hrun as (s1 & Hrun & Hstep).
  assert (in_range B n) as Hr1 by (eapply in_range_le; [exact Hbounded| |exact Hr]; lia).
  pose proof (IH s1 Hr1 Hrun) as H1. apply rtc_nsteps_2 in Hrun. destruct Hstep as [Hg|He1].
  - eapply alive_goroutine; [exact Hr1| |exact H1|exact Hg]. by eapply sets_run.
  - by eapply alive_env.
Qed.

(** A goroutine can go on as long as one has not returned. *)
Lemma goroutine_progress n s :
  in_range B n → alive n (p_env s) → (p_sets s).*1 ++ p_todo s = c_ScaleSets c →
  agrees s → ctx_done (p_history s) = true →
  (∃ s', goroutine_steps s s') ∨ (p_todo s = [] ∧ ∃ r, Wait (p_history s) = Some r).
Proof.
  intros Hr He Hsets Hag Hd.
  destruct (p_todo s) as [|ss todo] eqn:Htodo; [|left; eexists; by apply step_go].
  destruct (p_cleaner s) eqn:Hc; [left; eexists; by apply step_cleanup_ends|].
  destruct (decide (Forall (λ x, is_Some (returned x)) (p_sets s))) as [Hall|Hno].
  - right. split; [done|]. exists (first_error (p_history s)). apply Wait_returns.
    destruct Hag as [-> -> _ _]. rewrite Hc, length_app. simpl. f_equal.
    clear -Hall. induction Hall as [|x l [r Hx] _ IH]; [done|]. csimpl. rewrite Hx. simpl. by f_equal.
  - left. apply not_Forall_Exists, Exists_exists in Hno as ([ss p] & Hin & Hp); [|apply _].
    apply list_elem_of_lookup in Hin as [k Hk]. destruct (settled p) eqn:Hset.
    + destruct p as [| | | |i m|r]; try done; [|by destruct Hp; eexists].
      eexists. by apply (step_listener _ _ _ k ss i m None).
    + assert (wp (stretch_on ss (ctx_done (p_history s)) p) (returns (λ _ _, True)) (p_env s)) as Hwp.
      { eapply wp_mono; [apply (alive_stretch n); try done|].
        - rewrite <-Hsets, app_nil_r. apply list_elem_of_lookup_2 in Hk.
          by apply (list_elem_of_fmap_2 fst) in Hk.
        - by intros [a| |] e'. }
      unfold wp in Hwp. destruct (stretch_on ss _ p (p_env s)) as [[p'| |] e'] eqn:Hadv; [|done..].
      eexists. by eapply step_stretch.
Qed.

(** C18: once the context is done, by a signal or by the failure of one scale set,
    [Run] returns.  Whatever messages, sweeps and changes of the world come in
    between and in whatever order the goroutines run, they take at most four steps
    per scale set and one more; and as long as [Run] cannot return, one of them can
    take a step, for none panics or blocks: all that is asked of GitHub's library is
    that its calls return. *)
Theorem shutdown_terminates reg w n e0 s :
  calls w = [] → (Z.abs (c_MaxVMs c) ≤ B)%Z → in_range B n →
  (set_up reg c w).1 = Ret e0 → nsteps proc_step n (start_Run c e0) s →
  ctx_done (p_history s) = true →
  (∀ m s', counted m s s' → m ≤ 1 + 4 * length (c_ScaleSets c)) ∧
  ((∃ s', goroutine_steps s s') ∨ (p_todo s = [] ∧ ∃ r, Wait (p_history s) = Some r)).
Proof.
  intros Hw Hm Hr Hset Hrun Hd. pose proof (rtc_nsteps_2 _ _ _ Hrun) as Hrtc.
  pose proof (sets_run _ _ _ _ _ _ _ _ Hrtc) as Hsets. split.
  - intros m s' Hc. pose proof (counted_works _ _ _ Hd Hc) as Hle.
    assert (work s ≤ 1 + 4 * length (c_ScaleSets c)); [|lia].
    rewrite <-Hsets, length_app, length_fmap. unfold work.
    pose proof (ranks_le (p_sets s)). destruct (p_cleaner s); lia.
  - pose proof (set_up_alive Pv Pw B Hbounded reg c w Hw Hm) as Hstart. unfold wp in Hstart.
    rewrite Hset in Hstart. simpl in Hstart.
    eapply (goroutine_progress n); [done|by eapply alive_proc|done|by eapply agrees_run|done].
Qed.
End Shutdown.

(** ** Witnesses *)

(** A group that does what is documented. *)
#[local] Instance a_group : ErrGroup :=
  {| ctx_done := λ h, bool_decide (ParentDone ∈ h) || (if first_error h then true else false);
     Wait := λ h, if decide (length (results h) < went h) then None else Some (first_error h) |}.

#[local] Instance a_group_laws : ErrGroupLaws.
Proof.
  constructor; intros h; simpl.
  - rewrite orb_true_iff, bool_decide_eq_true.
    by destruct (first_error h); split; intros [?|?]; auto; try done; right; try by eexists;
      try by destruct H.
  - intros H. by rewrite decide_True.
  - intros H. rewrite decide_False by lia. done.
Qed.

(** Two scale sets, one of which waits for a kind of machine there is not. *)
Definition lost_set : ScaleSetConfig :=
  mkScaleSetConfig "lost" "https://github.com/acme" ["macos"] "default" 0
    (mkVMConfig "macos" 4 8192 0 0 {["vm-class" := "none"]} (mkAutoSizeConfig false 0 0)).

Definition with_sets (l : list ScaleSetConfig) : Config :=
  mkConfig (c_LogLevel loaded) (c_MaxVMs loaded) (c_MaxVMAge loaded) (c_WorkerStaleAfter loaded)
    (c_WorkerPruneAfter loaded) (c_MaxPendingAge loaded) (c_Orchard loaded) (c_GitHub loaded) l
    (c_Health loaded) (c_Metrics loaded).

Definition to_github (url : string)
    : result (AdminClient (Logged (Sim shared_fleet)) unit) := OK live_admin.

Notation play_live := (play_all (W := Sim shared_fleet) Hour to_github).

(** The process after some choices. *)
Definition played (l : list ScaleSetConfig) (chs : list choice) : Proc (Logged (Sim shared_fleet)) :=
  let s := start_Run (with_sets l) live_set_up in default s (play_live chs s).

Definition both_listen : list choice :=
  [ChooseGo; ChooseGo; ChooseStretch 0; ChooseStretch 0; ChooseStretch 1; ChooseStretch 1;
   ChooseSignal].
Definition one_waits : list choice :=
  [ChooseGo; ChooseGo; ChooseStretch 0; ChooseStretch 0; ChooseStretch 1; ChooseSignal].

Lemma played_run l chs :
  (if play_live chs (start_Run (with_sets l) live_set_up) then true else false) = true →
  nsteps (proc_step Hour to_github None no_report 10) (length chs)
    (start_Run (with_sets l) live_set_up) (played l chs).
Proof.
  intros H. apply play_run. unfold played. cbv zeta. by destruct (play_live chs _).
Qed.

Lemma Run_returns_witness :
  let s := played [small_set; lost_set]
             (one_waits ++ [ChooseListener 0 None; ChooseStretch 1; ChooseCleanup]) in
  Wait (p_history s) = Some (Some Canceled) ∧ p_cleaner s = false ∧
  (p_sets s).*1 = [small_set; lost_set] ∧ ParentDone ∈ p_history s.
Proof.
  intros s. assert (Wait (p_history s) = Some (Some Canceled)) as Hw by (vm_compute; reflexivity).
  split; [exact Hw|].
  assert (rtc (proc_step Hour to_github None no_report 10)
    (start_Run (with_sets [small_set; lost_set]) live_set_up) s) as Hrun.
  { eapply rtc_nsteps_2, played_run. vm_compute. reflexivity. }
  destruct (Run_returns Hour to_github None no_report 10 (with_sets [small_set; lost_set])
    live_set_up s (Some Canceled) Hrun) as (Hc & Hsets & _ & _ & _ & Herr).
  - vm_compute. reflexivity.
  - exact Hw.
  - split; [exact Hc|]. split; [exact Hsets|]. by apply (Herr Canceled).
Defined.

(** Some more choices. *)
Definition then_played (s : Proc (Logged (Sim shared_fleet))) (chs : list choice)
    : Proc (Logged (Sim shared_fleet)) := default s (play_live chs s).

Lemma then_played_run s chs :
  (if play_live chs s then true else false) = true →
  rtc (proc_step Hour to_github None no_report 10) s (then_played s chs).
Proof.
  intros H. apply (rtc_nsteps_2 (length chs)), play_run. unfold then_played.
  by destruct (play_live chs _).
Qed.

Lemma shutdown_status_witness :
  (let s := played [small_set; large_set] both_listen in
   let s' := then_played s [ChooseListener 0 (Some Canceled); ChooseListener 1 None; ChooseCleanup] in
   Wait (p_history s') = Some None ∧ Forall listening (p_sets s)) ∧
  (let s := played [small_set; lost_set] one_waits in
   let s' := then_played s [ChooseListener 0 None; ChooseStretch 1; ChooseCleanup] in
   ∀ r, Wait (p_history s') = Some r → r ≠ None).
Proof.
  split.
  { split; [vm_compute; reflexivity|]. vm_compute. repeat constructor; by eexists _, _. }
  intros s s' r Hr.
  refine (proj2 (shutdown_status Hour to_github None no_report 10
    (with_sets [small_set; lost_set]) live_set_up s s' r _ _ _ _ _ Hr) _); clear Hr.
  - eapply rtc_nsteps_2, played_run. vm_compute. reflexivity.
  - vm_compute. reflexivity.
  - apply (bool_decide_unpack _). vm_compute. exact I.
  - vm_compute. reflexivity.
  - apply then_played_run. vm_compute. reflexivity.
  - exists lost_set. eexists. split.
    + apply (list_elem_of_lookup_2 _ 1). vm_compute. reflexivity.
    + vm_compute. by eexists.
Defined.

Lemma live_admin_polite : admin_polite live_admin.
Proof. constructor; try done. exists sim_gh. split; [done|]. by repeat split. Qed.

Lemma shutdown_terminates_witness :
  let s := played [small_set; lost_set] one_waits in
  work s = 3 ∧ length (c_ScaleSets (with_sets [small_set; lost_set])) = 2 ∧
  ∀ m s', counted Hour to_github None no_report 10 m s s' → m ≤ 9.
Proof.
  intros s. split; [vm_compute; reflexivity|]. split; [done|].
  refine (proj1 (shutdown_terminates (λ vms, vms = fleet_reported_vms shared_fleet)
    (λ ws, ws = fleet_workers shared_fleet) Hour to_github None no_report 10
    (with_sets [small_set; lost_set]) shared_bounded _ _ _ _ true untouched_world 6 live_set_up s
    _ _ _ _ _ _)).
  - done.
  - done.
  - intros url gh [= <-]. apply live_admin_polite.
  - repeat constructor; by vm_compute.
  - done.
  - by vm_compute.
  - by vm_compute.
  - vm_compute. reflexivity.
  - apply (played_run [small_set; lost_set] one_waits). vm_compute. reflexivity.
  - vm_compute. reflexivity.
Defined.
